(* ===== verification/_CoqProject ===== *)
-Q . S2P
Prelude.v
Utils.v
PktCtrl.v
Ledger.v
PktData.v
IpPool.v
ObjPool.v
Pool.v
PoolConc.v
WinPool.v
ClientList.v
StateSync.v
Fifo.v
Queue.v
QueueConc.v
WinQueue.v
LfQueue.v
LfPool.v
Sync.v
NetLink.v
NetIface.v
NetQuery.v
DefaultWan.v
Tun.v
TunDriver.v
TunTotal.v
SockAddr.v
Domain.v
Frames.v
DataPath.v
ServerQuic.v
Sessions.v
ServerSessions.v
ServerSlots.v
ServerDelivery.v
ClientQuic.v
ClientEngine.v
ClientStart.v
Exchange.v
ServerSetup.v
ServerEngine.v
ServerStart.v
ServerProgram.v
Controls.v
VpnApp.v
GtkApp.v
LogView.v
Headless.v
