(* ===== verification/Prelude.v ===== *)
(** * A verification library for the QUIC VPN

    The repository holds a VPN server and two clients (a GTK and a headless
    one) written in C over MsQuic.  A client opens a QUIC connection and one
    stream, asks for its configuration in a 1024-byte control frame, brings up
    a TUN interface with the address the server leased to it, and from then on
    both sides carry IP packets between their TUN device and QUIC datagrams,
    through queues and pools shared by four threads a program.

    ** Parts, files and code

    Every file models the code named in its own header; the definitions carry
    the names of the C functions.  Paths are below src/vpn/.

    - Prelude (this file): machine integers, bytes, the outcome monad and its
      logic, interleavings, sums over threads.  Ledger: resources acquired and
      given back.  Fifo, ObjPool: the classes that state what the queue and the
      object pool promise; the data path and the registry of clients are proved
      against them, and Queue and Pool are their instances.
    - Utils: common/inc/utils.h.  PktCtrl, PktData: common/src/pkt_ctrl.c and
      pkt_data.c.  SockAddr: the address parsers of dep/inc/msquic_posix.h that
      the code calls.  Domain: client/src/engine/domain.c.
    - Pool, PoolConc, WinPool: common/inc/pool.h, one call at a time and under
      interleaving, for Linux and for Windows.  Queue, QueueConc, WinQueue:
      common/inc/queue.h likewise.  StateSync: state_sync.h.  LfQueue, LfPool,
      Sync: lf_queue.h, lf_pool.h, cnt_sync.h and cond_sync.h, which no program
      includes.
    - NetLink, NetIface, NetQuery: common/src/net_iface.c over the bytes the
      kernel sends, DefaultWan: detect_default_wan of both engines.
    - Tun: common/src/tun.c, the handle and its dispatch to a driver table.
      TunDriver: common/src/tun_driver.c, the driver over ioctl, resolvectl, ip
      and nft.  TunTotal: what the engines use of the two.
    - IpPool, ClientList, ServerQuic, ServerSetup, ServerEngine: ip_pool.c,
      client.c, quic.c with stream.c, vpn_server_engine.c with session.c, all in
      server/src/engine.  ServerStart: the theorems on its start and stop.
    - Sessions, ServerSessions, ServerSlots, ServerDelivery, ServerProgram: the
      callbacks of the server along the whole life of its connections, driven
      by what MsQuic may deliver; the invariant and the abstract server, the
      slots of the client list, the send thread on that state, and main with
      all of it.
    - ClientQuic, ClientEngine: quic.c, vpn_client_engine.c with session.c of
      client/src/engine.  ClientStart: the theorems on its start and stop.
    - Frames: the loop of the RECEIVE event of both quic.c.  DataPath: threads.c
      and the datagram events of both programs.  Exchange: the two programs
      talking to each other.
    - VpnApp: client/src/app/vpn_app.c and the button of ui/view_controls.c.
      Controls: the fields of that window.  GtkApp: gtk_app.c, window_main.c
      and vpn_client_gtk.c around it, LogView: view_logger.c and its pipe.
      Headless: vpn_client_headless.c.

    ** How state and effects are modelled

    A sequential function is a term of the monad [M S A]: from a state it
    returns ([Ret]), ends the program or uses memory it must not ([Fatal]), or
    sleeps ([Block]).  Functions that cannot fail or sleep are pure.  What the
    kernel, the C library, MsQuic, malloc and a spawned program answer is a
    parameter: a function of the request and, where answers may differ, of the
    number of requests made before; the requests are kept in a trace.  Integers
    are [Z], reduced where the C type wraps ([u8] to [u64], [i32]); pointers to
    objects of a pool are numbers, NULL is [None].

    Concurrent code is a step function [tstep] of one thread on the shared
    state; [cstep] picks the thread, and a property of all interleavings is
    one of all [reachable] configurations, proved by an invariant.  A step is
    a critical section where the code holds a mutex, and a single load, store
    or semaphore operation where it does not.  The lock-free headers are taken
    in sequentially consistent order.

    [runs m s Q] is total correctness, [ends m s Q] and [safe m s Q] are its
    partial forms: [ends] allows [Fatal] and [Block], [safe] only [Block].  The
    start of an engine may sleep as long as the network and the peer do, so
    its theorems say [safe].

    ** What the theorems show

    - The wire: control frames round trip through bytes, a frame is accepted
      exactly when its header and trailer are right, and the receive loop
      processes the frames of the stream whatever the buffers; a request ends
      in a client tunnel with the leased address and the server's settings, or
      in nothing (Exchange).
    - Leases and clients: the address pool refines a finite map of leases.  From
      main on, through every sequence of events MsQuic may deliver, no callback
      aborts and the server refines a map from open connections to distinct
      addresses; a packet goes to the connection that holds its destination; a
      connection that ends gives back its object, its address and its streams,
      but not its slot in the client list.
    - Packets: in every interleaving of the threads and callbacks each packet
      buffer has one owner, and what reaches the TUN device is, in order, the
      datagrams accepted.
    - Pools and queues: no block given out twice, no slot overwritten, FIFO
      order, caps respected, wake-ups lost or not, for the mutex, the Win32 and
      the lock-free versions; the Windows halves agree with the Linux ones.
    - TUN and netlink: a handle starts exactly when it is configured, file
      descriptors balance, queries close their sockets, choose the route the
      kernel would, and end unless a message length wraps to 0.
    - Programs: what a start acquires is given back by its failure and by its
      stop, up to the leaks the theorems name; at most one engine runs, and a
      stop ends it unless the log fills its pipe; the window and its button
      outlive the engine's thread.

    ** Bounds and fuel

    Loops that are not structural take fuel: [receive_fuel], one turn for each
    1024 bytes and one more ([receive_loop_run]); [rta_fuel] and the fuel of
    [nlmsg_loop], a turn for each 4 or 16 bytes of the buffer
    ([netlink_loops_terminate]); the free list of a pool, the blocks there are
    ([free_blocks_spec]).  Each lemma named shows that the fuel is enough, so
    that what an exhausted one gives, [Block] or [Fatal], is not reached; the
    one loop of the code that may not end is [unaligned_message_loops].
    lf_pool.h is safe for fewer than 2^32 changes of its head, the width of its
    generation; lf_queue.h for capacities up to 2^30, the range of a semaphore.

    ** Not modelled

    - The widgets (the rest of view_controls.c, window_main.c, view_logger.c):
      calls into GTK that build and show them.  Of GTK the order of the handlers
      of a signal, the life of a window and the main loop are modelled.
    - log.h and the functions that only print (print_netlink_iface_info):
      output.
    - The MsQuic headers below dep/inc but for three address parsers: vendored
      declarations of a library whose code is not here.
    - ip_pool_destroy and cond_sync_destroy release memory and touch nothing
      else.
    - Callbacks of different connections that overlap: a run of Sessions is a
      sequence of whole callbacks.  Their operations on the shared pools and
      list are each under a lock; one overlap that goes wrong is
      [late_write_drops_handle] (ServerSlots).
    - Weak memory orders, and the time that passes but for deadlines. *)
From stdpp Require Import prelude gmap strings.
From Stdlib Require Import ZArith Lia.

#[global] Open Scope Z_scope.

(** ** Machine integers

    An unsigned [w]-bit integer of the code is a [Z]; the functions [u8] ..
    [u64] are the conversions the C arithmetic performs (reduction modulo
    [2^w]).  [in_u w x] says that [x] is representable. *)
Definition wrap (w x : Z) : Z := x mod 2 ^ w.
Definition u8 : Z → Z := wrap 8.
Definition u16 : Z → Z := wrap 16.
Definition u32 : Z → Z := wrap 32.
Definition u64 : Z → Z := wrap 64.
Definition in_u (w x : Z) : Prop := 0 ≤ x < 2 ^ w.
#[global] Instance in_u_dec w x : Decision (in_u w x).
Proof. unfold in_u. apply _. Defined.

Definition INT_MAX : Z := 2 ^ 31 - 1.
Definition INT64_MAX : Z := 2 ^ 63 - 1.
Definition UINT32_MAX : Z := 2 ^ 32 - 1.
Definition UINT64_MAX : Z := 2 ^ 64 - 1.
Definition SIZE_MAX : Z := 2 ^ 64 - 1.
Definition SSIZE_MAX : Z := 2 ^ 63 - 1.
Definition SEM_VALUE_MAX : Z := INT_MAX.

(** The errno values of the Linux headers that the code uses. *)
Definition ENOENT : Z := 2.
Definition EINTR : Z := 4.
Definition ECHILD : Z := 10.
Definition EAGAIN : Z := 11.
Definition ENOMEM : Z := 12.
Definition ENODEV : Z := 19.
Definition EINVAL : Z := 22.
Definition ENOSPC : Z := 28.
Definition ERANGE : Z := 34.
Definition ENOSYS : Z := 38.
Definition EOVERFLOW : Z := 75.
Definition EAFNOSUPPORT : Z := 97.
Definition ECONNABORTED : Z := 103.
Definition ENOBUFS : Z := 105.
Definition ENOTCONN : Z := 107.
Definition ETIMEDOUT : Z := 110.
Definition ECANCELED : Z := 125.

Lemma wrap_small w x : in_u w x → wrap w x = x.
Proof. apply Z.mod_small. Qed.

Lemma wrap_in_u w x : 0 ≤ w → in_u w (wrap w x).
Proof. intros. apply Z.mod_pos_bound. apply Z.pow_pos_nonneg; lia. Qed.

Lemma u8_small x : 0 ≤ x < 256 → u8 x = x.
Proof. intros. by apply (wrap_small 8). Qed.
Lemma u16_small x : 0 ≤ x < 65536 → u16 x = x.
Proof. intros. by apply (wrap_small 16). Qed.
Lemma u32_small x : 0 ≤ x < 4294967296 → u32 x = x.
Proof. intros. by apply (wrap_small 32). Qed.
Lemma u64_small x : 0 ≤ x < 18446744073709551616 → u64 x = x.
Proof. intros. by apply (wrap_small 64). Qed.

Lemma u8_range x : 0 ≤ u8 x < 256.
Proof. by apply (wrap_in_u 8). Qed.
Lemma u16_range x : 0 ≤ u16 x < 65536.
Proof. by apply (wrap_in_u 16). Qed.
Lemma u32_range x : 0 ≤ u32 x < 4294967296.
Proof. by apply (wrap_in_u 32). Qed.
Lemma u64_range x : 0 ≤ u64 x < 18446744073709551616.
Proof. by apply (wrap_in_u 64). Qed.

Lemma u64_add_l x y : u64 (u64 x + y) = u64 (x + y).
Proof. apply Z.add_mod_idemp_l. by vm_compute. Qed.
Lemma u64_sub_l x y : u64 (u64 x - y) = u64 (x - y).
Proof. unfold u64, wrap. by rewrite Zminus_mod_idemp_l. Qed.

(** Clearing the [k] low bits of a 64-bit word. *)
Lemma land_high k x : 0 ≤ k ≤ 64 → 0 ≤ x < 2 ^ 64 →
  Z.land x (Z.shiftl (Z.ones (64 - k)) k) = 2 ^ k * (x / 2 ^ k).
Proof.
  intros Hk Hx. rewrite Z.mul_comm, <- Z.shiftr_div_pow2, <- Z.shiftl_mul_pow2 by lia.
  apply Z.bits_inj'. intros n Hn. rewrite Z.land_spec, !Z.shiftl_spec by done.
  destruct (Z.ltb_spec (n - k) 0).
  - rewrite !(Z.testbit_neg_r _ (n - k)) by lia. apply andb_false_r.
  - rewrite Z.shiftr_spec by lia. replace (n - k + k) with n by lia.
    destruct (Z.ltb_spec (n - k) (64 - k)).
    + rewrite Z.ones_spec_low by lia. apply andb_true_r.
    + rewrite Z.ones_spec_high by lia. rewrite andb_false_r. symmetry.
      apply Z.bits_above_log2; [lia|].
      destruct (Z.eq_dec x 0) as [->|]; [simpl; lia|].
      apply (Z.lt_le_trans _ 64); [apply Z.log2_lt_pow2; lia|lia].
Qed.

(** A signed 32-bit integer, as gcc converts to it. *)
Definition i32 (x : Z) : Z := if u32 x <? 2 ^ 31 then u32 x else u32 x - 2 ^ 32.

Lemma i32_small x : - 2147483648 ≤ x < 2147483648 → i32 x = x.
Proof.
  intros Hx. unfold i32, u32, wrap. destruct (Z.le_gt_cases 0 x).
  - rewrite Z.mod_small by lia. by destruct (Z.ltb_spec x (2 ^ 31)); [|lia].
  - assert (E : x mod 2 ^ 32 = x + 2 ^ 32)
      by (rewrite <- (Z_mod_plus_full x 1), Z.mod_small; lia).
    rewrite E. destruct (Z.ltb_spec (x + 2 ^ 32) (2 ^ 31)); lia.
Qed.

Create Rewrite HintDb word.
#[export] Hint Rewrite u8_small u16_small u32_small u64_small using lia : word.
Create HintDb vpn.
Create Rewrite HintDb vpn.
#[export] Hint Resolve u8_range u16_range u32_range u64_range : vpn.

(** ** Byte order

    Memory is a list of byte values.  [le_bytes n z] are the [n] bytes of [z]
    on a little-endian host, [le_word] reads them back; [bswap] reverses the
    bytes, which is what htons, htonl and htonll do on such a host. *)
Fixpoint le_bytes (n : nat) (z : Z) : list Z :=
  match n with
  | O => []
  | S n => z mod 256 :: le_bytes n (z / 256)
  end.

Fixpoint le_word (l : list Z) : Z :=
  match l with
  | [] => 0
  | b :: l => b + 256 * le_word l
  end.

Definition bytes_ok (l : list Z) : Prop := Forall (in_u 8) l.

Definition bswap (n : nat) (z : Z) : Z := le_word (reverse (le_bytes n z)).

Lemma length_le_bytes n z : length (le_bytes n z) = n.
Proof. revert z; induction n; intros; simpl; auto. Qed.

Lemma le_bytes_ok n z : bytes_ok (le_bytes n z).
Proof.
  revert z; induction n as [|n IH]; intros; simpl; constructor; [|apply IH].
  unfold in_u. change (2 ^ 8) with 256. apply Z.mod_pos_bound; lia.
Qed.

Lemma le_word_range l : bytes_ok l → 0 ≤ le_word l < 256 ^ Z.of_nat (length l).
Proof.
  induction 1 as [|b l Hb _ IH]; cbn [length le_word]; [done|].
  unfold in_u in Hb. change (2 ^ 8) with 256 in Hb.
  rewrite Nat2Z.inj_succ, Z.pow_succ_r by lia. nia.
Qed.

Lemma le_bytes_word l : bytes_ok l → le_bytes (length l) (le_word l) = l.
Proof.
  induction 1 as [|b l Hb _ IH]; simpl; [done|].
  unfold in_u in Hb. change (2 ^ 8) with 256 in Hb.
  rewrite (Z.mul_comm 256), Z.mod_add, Z.div_add by lia.
  rewrite Z.mod_small, Z.div_small, Z.add_0_l by lia. by rewrite IH.
Qed.

Lemma le_word_bytes n z : le_word (le_bytes n z) = z mod 256 ^ Z.of_nat n.
Proof.
  revert z; induction n as [|n IH]; intros z; [by rewrite Z.mod_1_r|].
  cbn [le_bytes le_word]. rewrite IH, Nat2Z.inj_succ, Z.pow_succ_r by lia.
  rewrite Z.rem_mul_r by lia. lia.
Qed.

Lemma bytes_ok_reverse l : bytes_ok l → bytes_ok (reverse l).
Proof. unfold bytes_ok. by rewrite Forall_reverse. Qed.

Lemma bswap_involutive n z : 0 ≤ z < 256 ^ Z.of_nat n → bswap n (bswap n z) = z.
Proof.
  intros Hz. unfold bswap.
  pose proof (le_bytes_word (reverse (le_bytes n z))) as H.
  rewrite length_reverse, length_le_bytes in H.
  rewrite H by apply bytes_ok_reverse, le_bytes_ok.
  rewrite reverse_involutive, le_word_bytes. by apply Z.mod_small.
Qed.

Lemma bswap_range n z : 0 ≤ bswap n z < 256 ^ Z.of_nat n.
Proof.
  unfold bswap.
  pose proof (le_word_range (reverse (le_bytes n z))
    (bytes_ok_reverse _ (le_bytes_ok n z))) as H.
  by rewrite length_reverse, length_le_bytes in H.
Qed.

Lemma bswap_inj n x y :
  0 ≤ x < 256 ^ Z.of_nat n → 0 ≤ y < 256 ^ Z.of_nat n →
  bswap n x = bswap n y → x = y.
Proof.
  intros Hx Hy H. rewrite <- (bswap_involutive n x), <- (bswap_involutive n y) by done.
  by rewrite H.
Qed.

(** ** Memory

    [sub off n l] are the [n] bytes at offset [off] of a buffer, [wr off b l]
    the buffer after the bytes [b] are stored at [off]. *)
Definition sub {A} (off n : nat) (l : list A) : list A := take n (drop off l).
Definition wr {A} (off : nat) (b l : list A) : list A := list_inserts off b l.
Definition rd (off n : nat) (l : list Z) : Z := le_word (sub off n l).
#[global] Arguments sub : simpl never.
#[global] Arguments wr : simpl never.
#[global] Arguments rd : simpl never.

Lemma length_wr {A} off (b l : list A) : length (wr off b l) = length l.
Proof. apply length_inserts. Qed.

Lemma length_sub {A} off n (l : list A) :
  (off + n ≤ length l)%nat → length (sub off n l) = n.
Proof. intros. unfold sub. rewrite length_take, length_drop. lia. Qed.

Lemma lookup_sub {A} off n (l : list A) i :
  (i < n)%nat → sub off n l !! i = l !! (off + i)%nat.
Proof. intros. unfold sub. by rewrite lookup_take_lt, lookup_drop. Qed.

Lemma lookup_sub_ge {A} off n (l : list A) i : (n ≤ i)%nat → sub off n l !! i = None.
Proof. intros. unfold sub. by apply lookup_take_ge. Qed.

Lemma sub_wr_eq {A} off n (b l : list A) :
  n = length b → (off + n ≤ length l)%nat → sub off n (wr off b l) = b.
Proof.
  intros -> H. apply list_eq. intros i. destruct (decide (i < length b)%nat).
  - rewrite lookup_sub by done. unfold wr. rewrite list_lookup_inserts by lia.
    f_equal. lia.
  - rewrite lookup_sub_ge by lia. symmetry. apply lookup_ge_None_2. lia.
Qed.

Lemma sub_wr_ne {A} off n off' (b l : list A) :
  (off + n ≤ off' ∨ off' + length b ≤ off)%nat → sub off n (wr off' b l) = sub off n l.
Proof.
  intros H. apply list_eq. intros i. destruct (decide (i < n)%nat).
  - rewrite !lookup_sub by done. unfold wr. destruct H.
    + by rewrite list_lookup_inserts_lt by lia.
    + by rewrite list_lookup_inserts_ge by lia.
  - by rewrite !lookup_sub_ge by lia.
Qed.

Lemma bytes_ok_sub off n l : bytes_ok l → bytes_ok (sub off n l).
Proof. intros. by apply Forall_take, Forall_drop. Qed.

Lemma bytes_ok_wr off b l : bytes_ok b → bytes_ok l → bytes_ok (wr off b l).
Proof.
  intros Hb Hl. apply Forall_lookup. intros i x [Hx|Hx]%list_lookup_inserts_Some.
  - by eapply Forall_lookup_1; [exact Hl|apply Hx].
  - eapply Forall_lookup_1; [exact Hb|apply Hx].
Qed.

Lemma rd_range off n l : bytes_ok l → 0 ≤ rd off n l < 256 ^ Z.of_nat n.
Proof.
  intros H. unfold rd. pose proof (le_word_range _ (bytes_ok_sub off n _ H)) as Hr.
  split; [lia|]. eapply Z.lt_le_trans; [apply Hr|]. apply Z.pow_le_mono_r; [lia|].
  unfold sub. rewrite length_take. lia.
Qed.

Lemma rd_le_bytes off n z l :
  0 ≤ z < 256 ^ Z.of_nat n → sub off n l = le_bytes n z → rd off n l = z.
Proof. intros Hz H. unfold rd. rewrite H, le_word_bytes. by apply Z.mod_small. Qed.

Lemma le_bytes_rd n off l :
  bytes_ok l → (off + n ≤ length l)%nat → le_bytes n (rd off n l) = sub off n l.
Proof.
  intros Hl Hn. unfold rd. rewrite <- (length_sub off n l Hn) at 1.
  by apply le_bytes_word, bytes_ok_sub.
Qed.

Lemma rd_eq_iff off n l z :
  bytes_ok l → (off + n ≤ length l)%nat → 0 ≤ z < 256 ^ Z.of_nat n →
  rd off n l = z ↔ sub off n l = le_bytes n z.
Proof.
  intros Hl Hn Hz. split; [|by apply rd_le_bytes].
  intros <-. by rewrite le_bytes_rd.
Qed.

Lemma rd_wr_eq off n z l :
  0 ≤ z < 256 ^ Z.of_nat n → (off + n ≤ length l)%nat →
  rd off n (wr off (le_bytes n z) l) = z.
Proof.
  intros Hz Hn. apply rd_le_bytes; [done|].
  apply sub_wr_eq; [by rewrite length_le_bytes|done].
Qed.

Lemma rd_wr_ne off n off' b l :
  (off + n ≤ off' ∨ off' + length b ≤ off)%nat → rd off n (wr off' b l) = rd off n l.
Proof. intros H. unfold rd. by rewrite sub_wr_ne. Qed.

Lemma sub_split {A} off n m (l : list A) : sub off n l ++ sub (off + n) m l = sub off (n + m) l.
Proof.
  unfold sub. rewrite <- drop_drop. set (l' := drop off l).
  rewrite <- (take_drop n (take (n + m) l')). f_equal.
  - rewrite take_take. f_equal. lia.
  - rewrite skipn_firstn_comm. f_equal. lia.
Qed.

Lemma sub_app_here {A} n (a b : list A) : n = length a → sub 0 n (a ++ b) = a.
Proof. intros ->. unfold sub. by rewrite drop_0, take_app_length. Qed.

Lemma sub_app_skip {A} off n (a b : list A) :
  (length a ≤ off)%nat → sub off n (a ++ b) = sub (off - length a) n b.
Proof. intros. unfold sub. by rewrite drop_app_ge. Qed.

Lemma sub_full {A} n (l : list A) : n = length l → sub 0 n l = l.
Proof. intros ->. unfold sub. by rewrite drop_0, take_ge. Qed.

Lemma wr_app {A} (a b c : list A) (x : list A) :
  length b = length x → wr (length a) x (a ++ b ++ c) = a ++ x ++ c.
Proof.
  intros E. unfold wr. apply list_eq. intros i.
  destruct (decide (i < length a)%nat) as [H|H].
  { rewrite list_lookup_inserts_lt by done. by rewrite !lookup_app_l by lia. }
  destruct (decide (i < length a + length x)%nat) as [H2|H2].
  - rewrite list_lookup_inserts by (rewrite ?length_app; lia).
    rewrite lookup_app_r, lookup_app_l by lia. done.
  - rewrite list_lookup_inserts_ge by lia.
    rewrite !(lookup_app_r a), !lookup_app_r by lia. by rewrite E.
Qed.

Lemma sub_app_l {A} off n (a b : list A) :
  (off + n ≤ length a)%nat → sub off n (a ++ b) = sub off n a.
Proof.
  intros. unfold sub. rewrite drop_app_le by lia.
  rewrite take_app_le; [done|]. rewrite length_drop. lia.
Qed.

#[export] Hint Rewrite @length_wr length_le_bytes : vpn.

(** ** Outcomes of C calls

    A call returns, or aborts the process ([FATAL], [abort], a failed
    [assert]), or sleeps in the kernel until another thread acts.  [M S A] is
    the monad of such computations over a state [S]; its bind is the
    sequencing of C statements. *)
Inductive outcome (S A : Type) : Type :=
| Ret (a : A) (s : S)
| Fatal (s : S)
| Block (s : S).
Arguments Ret {S A} _ _.
Arguments Fatal {S A} _.
Arguments Block {S A} _.

Definition M (S A : Type) : Type := S → outcome S A.

#[export] Instance M_ret S : MRet (M S) := λ A a s, Ret a s.
#[export] Instance M_bind S : MBind (M S) := λ A B k m s,
  match m s with
  | Ret a s' => k a s'
  | Fatal s' => Fatal s'
  | Block s' => Block s'
  end.

Definition gets {S A} (f : S → A) : M S A := λ s, Ret (f s) s.
Definition modify {S} (f : S → S) : M S () := λ s, Ret () (f s).
Definition fatal {S A} : M S A := λ s, Fatal s.
Definition block {S A} : M S A := λ s, Block s.

(** Running a sequence statement by statement. *)
Lemma bind_ret {S A B} (a : A) (k : A → M S B) s : (x ← (mret a : M S A); k x) s = k a s.
Proof. done. Qed.
Lemma bind_gets {S A B} (f : S → A) (k : A → M S B) s : (x ← gets f; k x) s = k (f s) s.
Proof. done. Qed.
Lemma bind_run {S A B} (m : M S A) (k : A → M S B) s a s' :
  m s = Ret a s' → (x ← m; k x) s = k a s'.
Proof. unfold mbind, M_bind. by intros ->. Qed.

(** [runs m s Q]: the call [m] returns from [s], with a value and a state in
    [Q]; [ends m s Q]: if it returns, it does so in [Q]. *)
Definition runs {S A} (m : M S A) (s : S) (Q : A → S → Prop) : Prop :=
  match m s with Ret a s' => Q a s' | _ => False end.
Definition ends {S A} (m : M S A) (s : S) (Q : A → S → Prop) : Prop :=
  match m s with Ret a s' => Q a s' | _ => True end.

(** [safe m s Q]: the call does not abort, and if it returns, it does so in [Q]. *)
Definition safe {S A} (m : M S A) (s : S) (Q : A → S → Prop) : Prop :=
  match m s with Ret a s' => Q a s' | Fatal _ => False | Block _ => True end.

Section rules.
Context {S A B : Type}.
Implicit Types (m : M S A) (k : A → M S B) (s : S).

Lemma runs_exists m s (Q : A → S → Prop) : runs m s Q ↔ ∃ a s', m s = Ret a s' ∧ Q a s'.
Proof.
  unfold runs. destruct (m s) as [a s'|s'|s']; split; try done; [eauto|..];
    intros (? & ? & ? & ?); simplify_eq; done.
Qed.
Lemma runs_mono m s (Q R : A → S → Prop) : runs m s Q → (∀ a s', Q a s' → R a s') → runs m s R.
Proof. unfold runs. destruct (m s); auto. Qed.
Lemma runs_bind m k s (Q : B → S → Prop) :
  runs m s (λ a s', runs (k a) s' Q) → runs (x ← m; k x) s Q.
Proof. unfold runs, mbind, M_bind. by destruct (m s). Qed.
Lemma ends_mono m s (Q R : A → S → Prop) : ends m s Q → (∀ a s', Q a s' → R a s') → ends m s R.
Proof. unfold ends. destruct (m s); auto. Qed.
Lemma ends_bind m k s (Q : B → S → Prop) :
  ends m s (λ a s', ends (k a) s' Q) → ends (x ← m; k x) s Q.
Proof. unfold ends, mbind, M_bind. by destruct (m s). Qed.
Lemma runs_ends m s (Q : A → S → Prop) : runs m s Q → ends m s Q.
Proof. unfold runs, ends. by destruct (m s). Qed.
Lemma runs_safe m s (Q : A → S → Prop) : runs m s Q → safe m s Q.
Proof. unfold runs, safe. by destruct (m s). Qed.
Lemma safe_mono m s (Q R : A → S → Prop) : safe m s Q → (∀ a s', Q a s' → R a s') → safe m s R.
Proof. unfold safe. destruct (m s); auto. Qed.
Lemma safe_bind m k s (Q : B → S → Prop) :
  safe m s (λ a s', safe (k a) s' Q) → safe (x ← m; k x) s Q.
Proof. unfold safe, mbind, M_bind. by destruct (m s). Qed.
End rules.

(** A call on a part of the state: [get] and [set] are the part's accessors. *)
Definition zoom {S T A} (get : S → T) (set : T → S → S) (m : M T A) : M S A := λ s,
  match m (get s) with
  | Ret a t => Ret a (set t s)
  | Fatal t => Fatal (set t s)
  | Block t => Block (set t s)
  end.

Lemma zoom_run {S T A} (get : S → T) (set : T → S → S) (m : M T A) s a t :
  m (get s) = Ret a t → zoom get set m s = Ret a (set t s).
Proof. unfold zoom. by intros ->. Qed.
Lemma runs_zoom {S T A} (get : S → T) (set : T → S → S) (m : M T A) s (Q : A → S → Prop) :
  runs m (get s) (λ a t, Q a (set t s)) → runs (zoom get set m) s Q.
Proof. unfold runs, zoom. by destruct (m (get s)). Qed.
Lemma ends_zoom {S T A} (get : S → T) (set : T → S → S) (m : M T A) s (Q : A → S → Prop) :
  ends m (get s) (λ a t, Q a (set t s)) → ends (zoom get set m) s Q.
Proof. unfold ends, zoom. by destruct (m (get s)). Qed.

Lemma safe_zoom {S T A} (get : S → T) (set : T → S → S) (m : M T A) s (Q : A → S → Prop) :
  safe m (get s) (λ a t, Q a (set t s)) → safe (zoom get set m) s Q.
Proof. unfold safe, zoom. by destruct (m (get s)). Qed.

(** The first steps of a sequence. *)
Lemma safe_then {S A B} (m : M S A) (k : A → M S B) s P Q :
  safe m s P → (∀ a s', P a s' → safe (k a) s' Q) → safe (x ← m; k x) s Q.
Proof. intros Hm Hk. apply safe_bind. eapply safe_mono; [exact Hm|exact Hk]. Qed.
Lemma safe_modify {S B} (f : S → S) (k : M S B) s Q : safe k (f s) Q → safe (modify f;; k) s Q.
Proof. done. Qed.
Lemma safe_gets {S A B} (f : S → A) (k : A → M S B) (s : S) Q :
  safe (k (f s)) s Q → safe (x ← gets f; k x) s Q.
Proof. done. Qed.
Lemma safe_and_ends {S A} (m : M S A) s (P Q : A → S → Prop) :
  safe m s P → ends m s Q → safe m s (λ a s', P a s' ∧ Q a s').
Proof. unfold safe, ends. by destruct (m s). Qed.

(** The result of a call that reports errors through errno: its value, or the
    error code while the C function returns -1 or NULL. *)
Inductive cres (A : Type) : Type :=
| Ok (a : A)
| Err (e : Z).
Arguments Ok {A} _.
Arguments Err {A} _.

(** The POSIX primitives whose return code the code checks; the argument is
    the number of the call in the function that makes it.  An [os_t] gives
    the code each call returns; [posix_ok] is the documented behaviour of
    calls on initialised objects. *)
Inductive prim :=
| MutexLock (site : nat)
| MutexUnlock (site : nat)
| MutexInit
| MutexDestroy
| CondInit
| CondDestroy
| CondWait
| CondSignal
| CondBroadcast
| CondattrInit
| CondattrSetclock
| SemInit (site : nat)
| SemDestroy (site : nat).

Definition os_t : Type := prim → Z.
Definition posix_ok (os : os_t) : Prop := ∀ p, os p = 0.
Definition os_posix : os_t := λ _, 0.

Lemma os_posix_ok : posix_ok os_posix.
Proof. done. Qed.

(** [if (rc != 0) FATAL(...)] *)
Definition rc_ok {S} (rc : Z) : M S () := λ s, if rc =? 0 then Ret () s else Fatal s.

Lemma rc_ok_posix {S} os p (s : S) : posix_ok os → rc_ok (os p) s = Ret () s.
Proof. intros H. unfold rc_ok. by rewrite H. Qed.

(** POSIX semaphores: the value, decremented by a wait and incremented by a
    post; a post beyond SEM_VALUE_MAX fails with EOVERFLOW. *)
Definition sem_trywait (v : Z) : option Z := if 0 <? v then Some (v - 1) else None.
Definition sem_post (v : Z) : option Z := if v <? SEM_VALUE_MAX then Some (v + 1) else None.

Lemma sem_trywait_Some v v' : sem_trywait v = Some v' ↔ 0 < v ∧ v' = v - 1.
Proof. unfold sem_trywait. destruct (Z.ltb_spec 0 v); naive_solver lia. Qed.
Lemma sem_trywait_None v : sem_trywait v = None ↔ v ≤ 0.
Proof. unfold sem_trywait. destruct (Z.ltb_spec 0 v); naive_solver lia. Qed.
Lemma sem_post_Some v v' : sem_post v = Some v' ↔ v < SEM_VALUE_MAX ∧ v' = v + 1.
Proof. unfold sem_post. destruct (Z.ltb_spec v SEM_VALUE_MAX); naive_solver lia. Qed.
Lemma sem_post_None v : sem_post v = None ↔ SEM_VALUE_MAX ≤ v.
Proof. unfold sem_post. destruct (Z.ltb_spec v SEM_VALUE_MAX); naive_solver lia. Qed.

(** ** Interleavings

    Threads over a shared state: [tstep a i s pc] is the effect of one atomic
    statement of thread [i], whose control point is [pc]; the action [a]
    resolves what the environment chooses (which operation the thread starts,
    whether a call is interrupted).  A schedule is the explicit sequence of
    (thread, action) pairs. *)
Section interleaving.
Context {Sh Pc Act : Type}.
Context (tstep : Act → nat → Sh → Pc → option (Sh * Pc)).

Definition conf : Type := Sh * list Pc.

Definition cstep (e : nat * Act) (c : conf) : option conf :=
  pc ← c.2 !! e.1;
  '(s', pc') ← tstep e.2 e.1 c.1 pc;
  Some (s', <[e.1 := pc']> c.2).

Fixpoint crun (sched : list (nat * Act)) (c : conf) : option conf :=
  match sched with
  | [] => Some c
  | e :: sched => c' ← cstep e c; crun sched c'
  end.

Definition reachable (c0 c : conf) : Prop := ∃ sched, crun sched c0 = Some c.

Lemma cstep_Some e c c' :
  cstep e c = Some c' ↔
  ∃ pc s' pc', c.2 !! e.1 = Some pc ∧ tstep e.2 e.1 c.1 pc = Some (s', pc') ∧
               c' = (s', <[e.1 := pc']> c.2).
Proof.
  unfold cstep. destruct (c.2 !! e.1) as [pc|]; simpl.
  - destruct (tstep e.2 e.1 c.1 pc) as [[s' pc']|] eqn:E; simpl; split.
    + intros [= <-]. eauto 8.
    + intros (? & ? & ? & ? & ? & ->). by simplify_eq.
    + done.
    + intros (? & ? & ? & ? & ? & ->). by simplify_eq.
  - split; [done|]. by intros (? & ? & ? & ? & ?).
Qed.

Lemma crun_app s1 s2 c : crun (s1 ++ s2) c = (c' ← crun s1 c; crun s2 c').
Proof.
  revert c. induction s1 as [|e s1 IH]; intros c; simpl; [done|].
  destruct (cstep e c); simpl; [apply IH|done].
Qed.

Lemma reachable_inv (I : conf → Prop) c0 :
  I c0 → (∀ e c c', I c → cstep e c = Some c' → I c') →
  ∀ c, reachable c0 c → I c.
Proof.
  intros H0 Hstep c [sched Hrun]. revert c0 H0 Hrun.
  induction sched as [|e sched IH]; intros c0 H0 Hrun; simplify_eq/=; [done|].
  destruct (cstep e c0) as [c1|] eqn:E; simplify_eq/=. eauto.
Qed.

Lemma reachable_step c0 c e c' : reachable c0 c → cstep e c = Some c' → reachable c0 c'.
Proof.
  intros [sched H] E. exists (sched ++ [e]). rewrite crun_app, H. simpl. by rewrite E.
Qed.

(** Sums of a per-thread quantity, for the accounting of resources. *)
Definition sum_over (w : Pc → Z) (l : list Pc) : Z := foldr (λ pc z, w pc + z) 0 l.

Lemma sum_over_insert w l i pc pc' :
  l !! i = Some pc → sum_over w (<[i := pc']> l) = sum_over w l - w pc + w pc'.
Proof.
  revert i. induction l as [|x l IH]; intros [|i] H; simplify_eq/=; [lia|].
  rewrite IH by done. lia.
Qed.

Lemma sum_over_nonneg w l : (∀ pc, 0 ≤ w pc) → 0 ≤ sum_over w l.
Proof. intros Hw. induction l as [|x l IH]; simpl; [lia|]. specialize (Hw x). lia. Qed.

Lemma sum_over_ge w l i pc : (∀ pc, 0 ≤ w pc) → l !! i = Some pc → w pc ≤ sum_over w l.
Proof.
  intros Hw. revert i. induction l as [|x l IH]; intros [|i] H; simplify_eq/=.
  - pose proof (sum_over_nonneg w l Hw). lia.
  - specialize (IH _ H). specialize (Hw x). lia.
Qed.

Lemma sum_over_zero w l : Forall (λ pc, w pc = 0) l → sum_over w l = 0.
Proof. induction 1; simpl; lia. Qed.
End interleaving.
Arguments conf : clear implicits.
