(* ===== verification/Utils.v ===== *)
(** * utils.h: byte order, netmasks, address formatting, running commands

    [struct in_addr] is its field [s_addr], a 32-bit word in network byte
    order; the host is little-endian, as htonll of the header assumes on the
    platforms the makefiles target. *)
From stdpp Require Import prelude strings pretty.
From Stdlib Require Import ZArith Lia.
From S2P Require Import Prelude.

Definition htons (x : Z) : Z := bswap 2 (u16 x).
Definition ntohs (x : Z) : Z := bswap 2 (u16 x).
Definition htonl (x : Z) : Z := bswap 4 (u32 x).
Definition ntohl (x : Z) : Z := bswap 4 (u32 x).
Definition htonll (x : Z) : Z := bswap 8 (u64 x).
Definition ntohll (x : Z) : Z := bswap 8 (u64 x).

Definition INET_ADDRSTRLEN : Z := 16.
Definition INET_CIDRSTRLEN : Z := INET_ADDRSTRLEN + 4.

(** [~x] on a uint32_t. *)
Definition not32 (x : Z) : Z := u32 (Z.lnot x).

Definition validate_mask (mask : Z) : bool :=
  let ntoh_mask := ntohl mask in
  if ntoh_mask =? 0 then true
  else
    let inverted := not32 ntoh_mask in
    Z.land (u32 (inverted + 1)) inverted =? 0.

(** [__builtin_popcount]: the number of one bits. *)
Fixpoint popcount_pos (p : positive) : Z :=
  match p with
  | xH => 1
  | xO p => popcount_pos p
  | xI p => 1 + popcount_pos p
  end.
Definition popcount (x : Z) : Z :=
  match x with Zpos p => popcount_pos p | _ => 0 end.

Definition mask_to_prefix (mask : Z) : Z :=
  if negb (validate_mask mask) then - EINVAL
  else
    let ntoh_mask := ntohl mask in
    u8 (popcount ntoh_mask).

(** inet_ntop for AF_INET: the bytes of [s_addr] in memory order, in decimal,
    separated by dots; it fails with ENOSPC when the buffer is too small. *)
Definition dec (b : Z) : string := pretty (Z.to_N b).
Definition dotted (addr : Z) : string :=
  match le_bytes 4 addr with
  | [a; b; c; d] => dec a +:+ "." +:+ dec b +:+ "." +:+ dec c +:+ "." +:+ dec d
  | _ => ""
  end.
Definition inet_ntop (addr : Z) (len : Z) : option string :=
  let s := dotted addr in
  if Z.of_nat (String.length s) + 1 <=? len then Some s else None.

(** snprintf into a buffer of [len] bytes: the text is cut to [len - 1]. *)
Definition snprintf (len : Z) (s : string) (buf : string) : string :=
  if len <=? 0 then buf else String.substring 0 (Z.to_nat (len - 1)) s.

(** The functions that fill a buffer return their code and the buffer's
    contents; a NULL argument is [None]. *)
Definition in_addr_to_cidr (addr mask : option Z) (out_cidr : option string)
    (cidr_len : Z) : Z * option string :=
  match addr, mask, out_cidr with
  | Some addr, Some mask, Some out =>
      if negb (validate_mask mask) then (- EINVAL, Some out)
      else
        let ntoh_mask := ntohl mask in
        let prefix := u8 (popcount ntoh_mask) in
        match inet_ntop addr INET_ADDRSTRLEN with
        | None => (- ENOSPC, Some out)
        | Some addr_str => (0, Some (snprintf cidr_len (addr_str +:+ "/" +:+ dec prefix) out))
        end
  | _, _, _ => (- EINVAL, out_cidr)
  end.

Definition in_addr_to_str (addr : option Z) (buf : option string) (buf_len : Z)
    : Z * option string :=
  match addr, buf with
  | Some addr, Some b =>
      if buf_len =? 0 then (- EINVAL, Some b)
      else match inet_ntop addr buf_len with
           | None => (- ENOSPC, Some b)
           | Some s => (0, Some s)
           end
  | _, _ => (- EINVAL, buf)
  end.

(** The first path that exists and is executable; [access] is the kernel's
    answer to [access(path, F_OK | X_OK) == 0]. *)
Fixpoint find_binary (access : string → bool) (paths : list string) : option string :=
  match paths with
  | [] => None
  | p :: paths => if access p then Some p else find_binary access paths
  end.

(** How a spawned process ends, as waitpid reports it. *)
Inductive wait_status :=
| Exited (code : Z)
| Signaled (sig : Z)
| OtherStatus.

(** What the kernel does with one spawn: the error of posix_spawn (0 for
    none), then waitpid's errno or the status. *)
Record proc_run := ProcRun { spawn_rc : Z; wait_res : Z + wait_status }.

Definition run_command (path : option string) (run : proc_run) : Z :=
  match path with
  | None => - EINVAL
  | Some _ =>
      if negb (spawn_rc run =? 0) then - spawn_rc run
      else match wait_res run with
           | inl e => - e
           | inr (Exited code) => code
           | inr (Signaled _) => - ECHILD
           | inr OtherStatus => - ECHILD
           end
  end.

Definition now_ns (tv_sec tv_nsec : Z) : Z :=
  u64 (u64 (u64 tv_sec * 1000000000) + u64 tv_nsec).

(** ** Byte order *)

Lemma ntohl_htonl x : 0 ≤ x < 2 ^ 32 → ntohl (htonl x) = x.
Proof.
  intros H. unfold ntohl, htonl. pose proof (bswap_range 4 (u32 x)) as Hr.
  rewrite (u32_small (bswap _ _)) by exact Hr. rewrite u32_small by lia.
  by apply bswap_involutive.
Qed.

Lemma ntohs_htons x : 0 ≤ x < 2 ^ 16 → ntohs (htons x) = x.
Proof.
  intros H. unfold ntohs, htons. pose proof (bswap_range 2 (u16 x)) as Hr.
  rewrite (u16_small (bswap _ _)) by exact Hr. rewrite u16_small by lia.
  by apply bswap_involutive.
Qed.

Lemma ntohll_htonll x : 0 ≤ x < 2 ^ 64 → ntohll (htonll x) = x.
Proof.
  intros H. unfold ntohll, htonll. pose proof (bswap_range 8 (u64 x)) as Hr.
  rewrite (u64_small (bswap _ _)) by exact Hr. rewrite u64_small by lia.
  by apply bswap_involutive.
Qed.

Lemma htonl_ntohl x : 0 ≤ x < 2 ^ 32 → htonl (ntohl x) = x.
Proof. apply ntohl_htonl. Qed.

Lemma ntohl_range x : 0 ≤ ntohl x < 2 ^ 32.
Proof. apply (bswap_range 4). Qed.
Lemma htonl_range x : 0 ≤ htonl x < 2 ^ 32.
Proof. apply (bswap_range 4). Qed.
Lemma ntohs_range x : 0 ≤ ntohs x < 2 ^ 16.
Proof. apply (bswap_range 2). Qed.

Lemma ntohl_inj x y : 0 ≤ x < 2 ^ 32 → 0 ≤ y < 2 ^ 32 → ntohl x = ntohl y → x = y.
Proof. intros Hx Hy E. rewrite <- (htonl_ntohl x), <- (htonl_ntohl y) by done. by rewrite E. Qed.

#[export] Hint Resolve ntohl_range htonl_range ntohs_range : vpn.

(** ** Netmasks *)

Lemma not32_eq x : 0 ≤ x < 2 ^ 32 → not32 x = 2 ^ 32 - 1 - x.
Proof.
  intros H. unfold not32, u32, wrap. rewrite <- (Z.mod_unique (Z.lnot x) (2 ^ 32) (-1) (2 ^ 32 - 1 - x)).
  - done.
  - left. lia.
  - unfold Z.lnot. lia.
Qed.

(** A number and its successor share no bit exactly when the successor is a
    power of two. *)
Lemma land_succ_zero n : 0 ≤ n → Z.land (n + 1) n = 0 ↔ ∃ j, 0 ≤ j ∧ n + 1 = 2 ^ j.
Proof.
  intros Hn. split.
  - intros H. exists (Z.log2 (n + 1)). split; [apply Z.log2_nonneg|].
    pose proof (Z.log2_spec (n + 1) ltac:(lia)) as [Hlo Hhi].
    destruct (Z.eq_dec (n + 1) (2 ^ Z.log2 (n + 1))) as [|Hne]; [done|].
    exfalso. set (j := Z.log2 (n + 1)) in *.
    assert (Hj : 0 ≤ j) by apply Z.log2_nonneg.
    assert (Hlog : Z.log2 n = j) by (apply Z.log2_unique; lia).
    assert (Hbit : Z.testbit (Z.land (n + 1) n) j = true).
    { rewrite Z.land_spec. apply andb_true_iff. split; [by apply Z.bit_log2; lia|].
      rewrite <- Hlog. apply Z.bit_log2. pose proof (Z.pow_pos_nonneg 2 j). lia. }
    rewrite H, Z.bits_0 in Hbit. done.
  - intros (j & Hj & E).
    replace n with (Z.ones j) by (rewrite Z.ones_equiv; lia).
    replace (Z.ones j + 1) with (2 ^ j) by (rewrite Z.ones_equiv; lia).
    rewrite Z.land_ones by done. apply Z.mod_same. apply Z.pow_nonzero; lia.
Qed.

(** The netmask of a /k prefix, in network byte order. *)
Definition mask_of_prefix (k : Z) : Z := htonl (2 ^ 32 - 2 ^ (32 - k)).

Lemma mask_of_prefix_range k : 0 ≤ k ≤ 32 → 0 ≤ 2 ^ 32 - 2 ^ (32 - k) < 2 ^ 32.
Proof.
  intros Hk. pose proof (Z.pow_le_mono_r 2 (32 - k) 32).
  pose proof (Z.pow_pos_nonneg 2 (32 - k)). lia.
Qed.

Lemma ntohl_mask_of_prefix k :
  0 ≤ k ≤ 32 → ntohl (mask_of_prefix k) = 2 ^ 32 - 2 ^ (32 - k).
Proof. intros Hk. apply ntohl_htonl. by apply mask_of_prefix_range. Qed.

Lemma validate_mask_true mask :
  in_u 32 mask →
  validate_mask mask = true ↔ ∃ k, 0 ≤ k ≤ 32 ∧ mask = mask_of_prefix k.
Proof.
  intros Hmask. unfold validate_mask.
  pose proof (ntohl_range mask) as Hr. set (m := ntohl mask) in *.
  assert (Hk : ∀ k, 0 ≤ k ≤ 32 → mask = mask_of_prefix k ↔ m = 2 ^ 32 - 2 ^ (32 - k)).
  { intros k Hk. rewrite <- ntohl_mask_of_prefix by done. split; [by intros ->|].
    apply ntohl_inj; [done|]. apply htonl_range. }
  destruct (Z.eqb_spec m 0) as [E|Hne].
  { split; [|done]. intros _. exists 0. split; [lia|]. apply Hk; [lia|].
    rewrite E. done. }
  rewrite not32_eq by done. rewrite u32_small by lia.
  rewrite Z.eqb_eq, land_succ_zero by lia. split.
  - intros (j & Hj & E). assert (j ≤ 32).
    { apply (Z.pow_le_mono_r_iff 2); lia. }
    exists (32 - j). split; [lia|]. apply Hk; [lia|].
    replace (32 - (32 - j)) with j by lia. lia.
  - intros (k & Hk' & E). apply Hk in E; [|done]. exists (32 - k). split; lia.
Qed.

(** C22. [validate_mask] accepts exactly the 33 netmasks of the prefixes /0 to
    /32: a contiguous block of ones at the top of the word (and so it refuses
    255.0.255.0). *)
Theorem validate_mask_iff mask :
  in_u 32 mask →
  validate_mask mask = true ↔ ∃ k, 0 ≤ k ≤ 32 ∧ mask = mask_of_prefix k.
Proof. apply validate_mask_true. Qed.

Lemma validate_mask_iff_witness :
  in_u 32 (mask_of_prefix 24) ∧
  (validate_mask (mask_of_prefix 24) = true ↔
   ∃ k, 0 ≤ k ≤ 32 ∧ mask_of_prefix 24 = mask_of_prefix k).
Proof.
  split; [by vm_compute|]. apply (validate_mask_iff (mask_of_prefix 24)). by vm_compute.
Defined.

Lemma validate_mask_of_prefix k : 0 ≤ k ≤ 32 → validate_mask (mask_of_prefix k) = true.
Proof.
  intros Hk. apply validate_mask_true; [apply htonl_range|]. eauto.
Qed.

Lemma popcount_prefix k : 0 ≤ k ≤ 32 → popcount (2 ^ 32 - 2 ^ (32 - k)) = k.
Proof.
  intros Hk.
  assert (H : forallb (λ k, popcount (2 ^ 32 - 2 ^ (32 - k)) =? k) (seqZ 0 33) = true)
    by (vm_compute; reflexivity).
  rewrite forallb_forall in H. apply Z.eqb_eq, H, list_elem_of_In, elem_of_seqZ. lia.
Qed.

(** [mask_to_prefix] is the inverse of the prefix-to-mask map on every
    valid mask, and reports -EINVAL on exactly the masks [validate_mask]
    refuses; its result always fits the int8_t it is returned in. *)
Theorem mask_to_prefix_spec mask :
  in_u 32 mask →
  (∀ k, 0 ≤ k ≤ 32 → mask_to_prefix (mask_of_prefix k) = k) ∧
  (0 ≤ mask_to_prefix mask → mask = mask_of_prefix (mask_to_prefix mask)) ∧
  (mask_to_prefix mask = - EINVAL ↔ validate_mask mask = false) ∧
  -128 ≤ mask_to_prefix mask ≤ 32.
Proof.
  intros Hmask.
  assert (Hinv : ∀ k, 0 ≤ k ≤ 32 → mask_to_prefix (mask_of_prefix k) = k).
  { intros k Hk. unfold mask_to_prefix. rewrite validate_mask_of_prefix by done.
    simpl. rewrite ntohl_mask_of_prefix, popcount_prefix by done. by apply u8_small; lia. }
  split; [exact Hinv|]. destruct (validate_mask mask) eqn:E.
  - pose proof E as (k & Hk & ->)%validate_mask_true; [|done]. rewrite Hinv by done.
    repeat split; unfold EINVAL; try done; lia.
  - assert (mask_to_prefix mask = -22) as -> by (unfold mask_to_prefix; by rewrite E).
    unfold EINVAL. repeat split; try done; lia.
Qed.

Lemma mask_to_prefix_spec_witness :
  in_u 32 (htonl 4278255360) ∧ mask_to_prefix (htonl 4278255360) = -22 ∧
  (mask_to_prefix (htonl 4278255360) = - EINVAL ↔ validate_mask (htonl 4278255360) = false).
Proof.
  split; [by vm_compute|]. split; [by vm_compute|].
  apply (mask_to_prefix_spec (htonl 4278255360)). by vm_compute.
Defined.

Example validate_mask_255_0_255_0 : validate_mask (htonl 4278255360) = false.
Proof. vm_compute. reflexivity. Qed.

(** ** Address formatting *)

Lemma length_string_app s1 s2 :
  String.length (s1 +:+ s2) = (String.length s1 + String.length s2)%nat.
Proof. induction s1; simpl; auto. Qed.

Lemma dec_length b : 0 ≤ b < 256 → (1 ≤ String.length (dec b) ≤ 3)%nat.
Proof.
  intros Hb.
  assert (H : forallb (λ b, let n := String.length (dec b) in (1 <=? n)%nat && (n <=? 3)%nat)
    (seqZ 0 256) = true) by (vm_compute; reflexivity).
  rewrite forallb_forall in H. specialize (H b). cbv zeta in H.
  rewrite andb_true_iff, !Nat.leb_le in H. apply H, list_elem_of_In, elem_of_seqZ. lia.
Qed.

Lemma dotted_length addr : (7 ≤ String.length (dotted addr) ≤ 15)%nat.
Proof.
  unfold dotted. pose proof (le_bytes_ok 4 addr) as H. cbn [le_bytes] in *.
  unfold bytes_ok, in_u in H. change (2 ^ 8) with 256 in H.
  repeat match goal with
  | H : Forall _ (_ :: _) |- _ => apply Forall_cons in H as [?%dec_length ?]
  end.
  rewrite !length_string_app. simpl. lia.
Qed.

Lemma inet_ntop_fits addr len : INET_ADDRSTRLEN ≤ len → inet_ntop addr len = Some (dotted addr).
Proof.
  unfold INET_ADDRSTRLEN, inet_ntop. intros H. pose proof (dotted_length addr).
  destruct (Z.leb_spec (Z.of_nat (String.length (dotted addr)) + 1) len); [done|lia].
Qed.

Lemma substring_full n s : (String.length s ≤ n)%nat → String.substring 0 n s = s.
Proof.
  revert n. induction s as [|c s IH]; intros [|n] H; simpl in *; [done..|lia|].
  rewrite IH by lia. done.
Qed.

Lemma snprintf_fits len s buf :
  Z.of_nat (String.length s) < len → snprintf len s buf = s.
Proof.
  intros H. unfold snprintf. destruct (Z.leb_spec len 0); [lia|].
  apply substring_full. lia.
Qed.

(** On an address and a valid netmask [in_addr_to_cidr] succeeds and, with
    the INET_CIDRSTRLEN bytes its callers give it, writes "a.b.c.d/k" in
    full; it fails exactly on a NULL argument or a non-contiguous mask and
    then leaves the buffer alone. *)
Theorem in_addr_to_cidr_spec addr mask out len :
  match addr, mask, out with
  | Some a, Some m, Some o =>
      if validate_mask m then
        (in_addr_to_cidr addr mask out len).1 = 0 ∧
        (INET_CIDRSTRLEN ≤ len → in_u 32 m →
         ∃ k, 0 ≤ k ≤ 32 ∧ m = mask_of_prefix k ∧
              (in_addr_to_cidr addr mask out len).2 = Some (dotted a +:+ "/" +:+ dec k))
      else in_addr_to_cidr addr mask out len = (- EINVAL, out)
  | _, _, _ => in_addr_to_cidr addr mask out len = (- EINVAL, out)
  end.
Proof.
  destruct addr as [a|], mask as [m|], out as [o|]; simpl; try done.
  destruct (validate_mask m) eqn:E; simpl; [|done].
  rewrite inet_ntop_fits by done. split; [done|].
  intros Hlen Hm. apply validate_mask_true in E as (k & Hk & ->); [|done].
  exists k. split; [done|]. split; [done|]. simpl.
  rewrite ntohl_mask_of_prefix, popcount_prefix, u8_small by lia.
  rewrite snprintf_fits; [done|]. rewrite !length_string_app.
  pose proof (dotted_length a). pose proof (dec_length k ltac:(lia)).
  unfold INET_CIDRSTRLEN, INET_ADDRSTRLEN in Hlen. simpl. lia.
Qed.

Example cidr_example :
  in_addr_to_cidr (Some (htonl 2886860801)) (Some (htonl 4294901760)) (Some "") 20
  = (0, Some "172.18.0.1/16").
Proof. vm_compute. reflexivity. Qed.

(** ** Binaries and commands *)

Lemma find_binary_Some access paths p :
  find_binary access paths = Some p ↔
  ∃ i, paths !! i = Some p ∧ access p = true ∧
       ∀ j q, (j < i)%nat → paths !! j = Some q → access q = false.
Proof.
  induction paths as [|q paths IH]; simpl.
  { split; [done|]. by intros (i & Hi & _). }
  destruct (access q) eqn:E.
  - split.
    + intros [= ->]. exists 0%nat. split; [done|]. split; [done|]. intros; lia.
    + intros ([|i] & Hi & Ha & Hj); simplify_eq/=; [done|].
      specialize (Hj 0%nat q ltac:(lia) eq_refl). congruence.
  - rewrite IH. split.
    + intros (i & Hi & Ha & Hj). exists (S i). split; [done|]. split; [done|].
      intros [|j] q' Hlt Hq; simplify_eq/=; [done|]. apply (Hj j); [lia|done].
    + intros ([|i] & Hi & Ha & Hj); simplify_eq/=; [congruence|].
      exists i. split; [done|]. split; [done|]. intros j q' Hlt Hq.
      apply (Hj (S j)); [lia|done].
Qed.

Lemma find_binary_None access paths :
  find_binary access paths = None ↔ Forall (λ p, access p = false) paths.
Proof.
  induction paths as [|q paths IH]; simpl; [done|].
  rewrite Forall_cons, <- IH. destruct (access q); naive_solver.
Qed.

(** A command succeeds (code 0) exactly when the process was spawned, waited
    for and exited with status 0. *)
Lemma run_command_zero path run :
  spawn_rc run ≠ 0 ∨ (∃ e, wait_res run = inl e ∧ e ≠ 0) ∨ (∃ w, wait_res run = inr w) →
  run_command (Some path) run = 0 ↔ spawn_rc run = 0 ∧ wait_res run = inr (Exited 0).
Proof.
  intros Hok. unfold run_command. destruct (Z.eqb_spec (spawn_rc run) 0) as [E|E]; simpl.
  - destruct (wait_res run) as [e|[code| |]] eqn:W.
    + split; [intros; exfalso|naive_solver]. destruct Hok as [?|[(?&?&?)|(?&?)]]; simplify_eq; lia.
    + split; [by intros ->|]. by intros [_ [= ->]].
    + unfold ECHILD. split; [lia|naive_solver].
    + unfold ECHILD. split; [lia|naive_solver].
  - split; [lia|]. naive_solver.
Qed.
