(* ===== verification/PktCtrl.v ===== *)
(** * pkt_ctrl.h, pkt_ctrl.c: the 1024-byte control frames

    The packed structs are modelled at their bytes.  A frame [pkt_ctrl_t] has
    its header fields, the 1004 bytes of the anonymous union (in which every
    message body starts at offset 0) and the tail magic; [pkt_bytes] and
    [pkt_of_bytes] are its representation in memory, which is also what goes
    on the wire.  A multi-byte field is stored little-endian by the host, so
    the code converts with htons, htonl and htonll first. *)
From stdpp Require Import prelude strings.
From Stdlib Require Import ZArith Lia.
From S2P Require Import Prelude Utils.

#[local] Arguments le_bytes : simpl never.

Definition HEAD_MAGIC : Z := 0xAABBCCDD.
Definition TAIL_MAGIC : Z := 0xDDBBCCAA.
Definition PKTCTRLSIZ : Z := 1024.
Definition HOSTNAMSIZ : nat := 64.

Inductive pkt_ctrl_type_t :=
| VPN_MSG_TYPE_UNKNOWN
| VPN_MSG_TYPE_CONFIG_REQ
| VPN_MSG_TYPE_CONFIG_RESP
| VPN_MSG_TYPE_ROUTE_UPDATE
| VPN_MSG_TYPE_KEEPALIVE
| VPN_MSG_TYPE_STATUS.

#[export] Instance pkt_ctrl_type_t_eq_dec : EqDecision pkt_ctrl_type_t.
Proof. solve_decision. Defined.

Definition msg_type (t : pkt_ctrl_type_t) : Z :=
  match t with
  | VPN_MSG_TYPE_UNKNOWN => 0
  | VPN_MSG_TYPE_CONFIG_REQ => 1
  | VPN_MSG_TYPE_CONFIG_RESP => 2
  | VPN_MSG_TYPE_ROUTE_UPDATE => 3
  | VPN_MSG_TYPE_KEEPALIVE => 4
  | VPN_MSG_TYPE_STATUS => 5
  end.

(** 16 bytes. *)
Record pkt_ctrl_hdr_t := {
  frame_len : Z;
  head_magic : Z;
  type : Z;
  uid : Z
}.

(** Header (16) + union (1004) + tail magic (4) = 1024 bytes. *)
Record pkt_ctrl_t := {
  hdr : pkt_ctrl_hdr_t;
  body : list Z;
  tail_magic : Z
}.

Definition body_size : nat := 1004.
#[global] Arguments body_size : simpl never.

(** ** The message bodies inside the union *)

(** pkt_ctrl_config_req_t: af_family at 0, hostname[64] at 1. *)
Definition req_af_family (b : list Z) : Z := rd 0 1 b.
Definition req_hostname (b : list Z) : list Z := sub 1 HOSTNAMSIZ b.

(** pkt_ctrl_config_resp_t: uid at 0, status_code 8, ip 12, mask 16, dns1 20,
    dns2 24, mtu 28. *)
Definition resp_uid (b : list Z) : Z := rd 0 8 b.
Definition resp_status_code (b : list Z) : Z := rd 8 4 b.
Definition resp_ip (b : list Z) : Z := rd 12 4 b.
Definition resp_mask (b : list Z) : Z := rd 16 4 b.
Definition resp_dns1 (b : list Z) : Z := rd 20 4 b.
Definition resp_dns2 (b : list Z) : Z := rd 24 4 b.
Definition resp_mtu (b : list Z) : Z := rd 28 2 b.

(** pkt_ctrl_route_update_t: route_count at 0, then 8 entries of 8 bytes. *)
Definition route_count (b : list Z) : Z := rd 0 2 b.
Definition route_entry (b : list Z) (i : nat) : Z * Z :=
  (rd (2 + 8 * i) 4 b, rd (6 + 8 * i) 4 b).

(** pkt_ctrl_keepalive_t and pkt_ctrl_status_t. *)
Definition keepalive_client_ts (b : list Z) : Z := rd 0 8 b.
Definition keepalive_server_ts (b : list Z) : Z := rd 8 8 b.
Definition status_error_code (b : list Z) : Z := rd 0 4 b.
Definition status_reason (b : list Z) : list Z := sub 4 128 b.

(** ** Memory representation *)

Definition hdr_bytes (h : pkt_ctrl_hdr_t) : list Z :=
  le_bytes 2 (frame_len h) ++ le_bytes 4 (head_magic h) ++
  le_bytes 2 (type h) ++ le_bytes 8 (uid h).

Definition pkt_bytes (p : pkt_ctrl_t) : list Z :=
  hdr_bytes (hdr p) ++ body p ++ le_bytes 4 (tail_magic p).

Definition pkt_of_bytes (l : list Z) : pkt_ctrl_t := {|
  hdr := {| frame_len := rd 0 2 l; head_magic := rd 2 4 l; type := rd 6 2 l; uid := rd 8 8 l |};
  body := sub 16 body_size l;
  tail_magic := rd 1020 4 l
|}.

(** ** Constructors *)

(** A C string is its bytes before the terminating NUL. *)
Definition c_string (s : list Z) : Prop := Forall (λ b, 0 < b < 256) s.

(** The string a char buffer holds: its bytes up to the first NUL. *)
Fixpoint cstr (buf : list Z) : list Z :=
  match buf with
  | [] => []
  | b :: buf => if b =? 0 then [] else b :: cstr buf
  end.

(** [snprintf(buf, sizeof(buf), "%s", s)] on a char array of [n] bytes at
    offset [off]. *)
Definition store_str (off n : nat) (s : list Z) (mem : list Z) : list Z :=
  wr off (take (n - 1) s ++ [0]) mem.

Definition zeroed (n : nat) : list Z := replicate n 0.
#[global] Arguments zeroed : simpl never.
#[global] Arguments store_str : simpl never.

(** [mem] is whether calloc finds memory. *)
Definition pkt_ctrl_create_config_req (mem : bool) (uid af_family : Z)
    (hostname : option (list Z)) : option pkt_ctrl_t :=
  if mem then
    let b := zeroed body_size in
    let b := wr 0 (le_bytes 1 af_family) b in
    let b := match hostname with
             | Some h => store_str 1 HOSTNAMSIZ h b
             | None => b
             end in
    Some {|
      hdr := {| frame_len := htons PKTCTRLSIZ;
                head_magic := htonl HEAD_MAGIC;
                type := htons (msg_type VPN_MSG_TYPE_CONFIG_REQ);
                uid := htonll uid |};
      body := b;
      tail_magic := htonl TAIL_MAGIC |}
  else None.

Definition pkt_ctrl_create_config_resp (mem : bool) (uid status_code mtu : Z)
    (ip mask dns1 dns2 : Z) : option pkt_ctrl_t :=
  if mem then
    let b := zeroed body_size in
    let b := wr 8 (le_bytes 4 (htonl status_code)) b in
    let b := wr 28 (le_bytes 2 (htons mtu)) b in
    let b := wr 12 (le_bytes 4 ip) b in
    let b := wr 16 (le_bytes 4 mask) b in
    let b := wr 20 (le_bytes 4 dns1) b in
    let b := wr 24 (le_bytes 4 dns2) b in
    Some {|
      hdr := {| frame_len := htons PKTCTRLSIZ;
                head_magic := htonl HEAD_MAGIC;
                type := htons (msg_type VPN_MSG_TYPE_CONFIG_RESP);
                uid := htonll uid |};
      body := b;
      tail_magic := htonl TAIL_MAGIC |}
  else None.

(** ** The receiver's conversion and validation of a frame *)

Definition pkt_ntoh (p : pkt_ctrl_t) : pkt_ctrl_hdr_t * Z :=
  ({| frame_len := ntohs (frame_len (hdr p));
      head_magic := ntohl (head_magic (hdr p));
      type := ntohs (type (hdr p));
      uid := ntohll (uid (hdr p)) |},
   ntohl (tail_magic p)).

Definition frame_ok (h : pkt_ctrl_hdr_t * Z) : bool :=
  negb (negb (frame_len h.1 =? PKTCTRLSIZ) ||
        negb (head_magic h.1 =? HEAD_MAGIC) ||
        negb (h.2 =? TAIL_MAGIC)).

(** ** pkt_ctrl_print

    What the debug printer shows of a frame (whose header it reads in host
    order), item by item. *)
Inductive print_item :=
| PrNull
| PrHeader (len magic : Z) (ok : bool)
| PrUid (uid : Z)
| PrType (type tail : Z) (ok : bool)
| PrConfigReq (af : Z) (name : string) (hostname : list Z)
| PrConfigResp (status : Z) (success : bool) (ip mask : string) (mtu : Z) (dns1 dns2 : string)
| PrRouteCount (count : Z)
| PrRoute (i : Z) (dest mask : string)
| PrKeepalive (client_ts server_ts : Z)
| PrStatus (code : Z) (reason : list Z)
| PrUnknown (type : Z).

Definition AF_INET : Z := 2.
Definition AF_INET6 : Z := 10.

Definition af_name (af : Z) : string :=
  if af =? AF_INET then "IPv4" else if af =? AF_INET6 then "IPv6" else "Unknown".

(** The loop over the pushed subnets: at most the 8 the message can hold. *)
Definition print_routes (b : list Z) : list print_item :=
  let count := if 8 <? route_count b then 8 else route_count b in
  (λ i, PrRoute (Z.of_nat i + 1) (dotted (route_entry b i).1) (dotted (route_entry b i).2))
    <$> seq 0 (Z.to_nat count).

Definition print_body (t : Z) (b : list Z) : list print_item :=
  if t =? msg_type VPN_MSG_TYPE_CONFIG_REQ then
    [PrConfigReq (req_af_family b) (af_name (req_af_family b)) (cstr (req_hostname b))]
  else if t =? msg_type VPN_MSG_TYPE_CONFIG_RESP then
    [PrConfigResp (resp_status_code b) (resp_status_code b =? 0) (dotted (resp_ip b))
       (dotted (resp_mask b)) (resp_mtu b) (dotted (resp_dns1 b)) (dotted (resp_dns2 b))]
  else if t =? msg_type VPN_MSG_TYPE_ROUTE_UPDATE then
    PrRouteCount (route_count b) :: print_routes b
  else if t =? msg_type VPN_MSG_TYPE_KEEPALIVE then
    [PrKeepalive (keepalive_client_ts b) (keepalive_server_ts b)]
  else if t =? msg_type VPN_MSG_TYPE_STATUS then
    [PrStatus (status_error_code b) (cstr (status_reason b))]
  else [PrUnknown t].

Definition pkt_ctrl_print (pkt : option pkt_ctrl_t) : list print_item :=
  match pkt with
  | None => [PrNull]
  | Some p =>
      [PrHeader (frame_len (hdr p)) (head_magic (hdr p)) (head_magic (hdr p) =? HEAD_MAGIC);
       PrUid (uid (hdr p));
       PrType (type (hdr p)) (tail_magic p) (tail_magic p =? TAIL_MAGIC)]
      ++ print_body (type (hdr p)) (body p)
  end.

(** ** Memory representation: round trips *)

Definition hdr_wf (h : pkt_ctrl_hdr_t) : Prop :=
  in_u 16 (frame_len h) ∧ in_u 32 (head_magic h) ∧ in_u 16 (type h) ∧ in_u 64 (uid h).

Definition pkt_wf (p : pkt_ctrl_t) : Prop :=
  hdr_wf (hdr p) ∧ length (body p) = body_size ∧ bytes_ok (body p) ∧ in_u 32 (tail_magic p).

Lemma length_hdr_bytes h : length (hdr_bytes h) = 16%nat.
Proof. unfold hdr_bytes. by rewrite !length_app, !length_le_bytes. Qed.

Lemma length_pkt_bytes p : length (body p) = body_size → length (pkt_bytes p) = 1024%nat.
Proof.
  intros H. unfold pkt_bytes. by rewrite !length_app, length_hdr_bytes, length_le_bytes, H.
Qed.

(** Selects a field of a concatenation of byte strings of known lengths. *)
Ltac sub_field :=
  repeat (rewrite sub_app_skip by (rewrite ?length_le_bytes, ?length_hdr_bytes; lia);
          rewrite ?length_le_bytes, ?length_hdr_bytes; cbn [Nat.sub]);
  first [ rewrite sub_app_here by (rewrite ?length_le_bytes; lia); reflexivity
        | rewrite sub_full by (rewrite ?length_le_bytes; lia); reflexivity ].

Lemma pkt_of_bytes_bytes p : pkt_wf p → pkt_of_bytes (pkt_bytes p) = p.
Proof.
  destruct p as [[fl hm ty ui] b tm].
  intros ((H1 & H2 & H3 & H4) & Hlen & _ & H5). simpl in *. unfold in_u in *.
  unfold pkt_of_bytes, pkt_bytes, hdr_bytes; simpl hdr; simpl body; simpl tail_magic;
    cbn [frame_len head_magic type uid]; rewrite <- ?(assoc_L (++)).
  assert (Hb : ∀ x : list Z, sub 1020 4 (le_bytes 2 fl ++ le_bytes 4 hm ++ le_bytes 2 ty ++
    le_bytes 8 ui ++ b ++ x) = sub 0 4 x).
  { intros x. repeat (rewrite sub_app_skip by (rewrite ?length_le_bytes, ?Hlen; unfold body_size; lia);
      rewrite ?length_le_bytes). by rewrite Hlen. }
  f_equal; [f_equal|..].
  - apply rd_le_bytes; [exact H1|]. sub_field.
  - apply rd_le_bytes; [exact H2|]. sub_field.
  - apply rd_le_bytes; [exact H3|]. sub_field.
  - apply rd_le_bytes; [exact H4|]. sub_field.
  - repeat (rewrite sub_app_skip by (rewrite ?length_le_bytes; lia); rewrite ?length_le_bytes;
      cbn [Nat.sub]). by apply sub_app_here.
  - apply rd_le_bytes; [exact H5|]. rewrite Hb. by apply sub_full.
Qed.

Lemma pkt_bytes_of_bytes l :
  bytes_ok l → length l = 1024%nat → pkt_bytes (pkt_of_bytes l) = l.
Proof.
  intros Hl Hlen. unfold pkt_bytes, hdr_bytes, pkt_of_bytes; simpl hdr; simpl body;
    simpl tail_magic; cbn [frame_len head_magic type uid].
  rewrite !le_bytes_rd by (done || lia). rewrite <- !(assoc_L (++)).
  change (sub 1020 4 l) with (sub (16 + body_size) 4 l).
  rewrite sub_split. change (sub 16 (body_size + 4) l) with (sub (8 + 8) (body_size + 4) l).
  rewrite sub_split. change (sub 8 ?n l) with (sub (6 + 2) n l).
  rewrite (sub_split 6 2). change (sub 6 ?n l) with (sub (2 + 4) n l).
  rewrite (sub_split 2 4). change (sub 2 ?n l) with (sub (0 + 2) n l).
  rewrite (sub_split 0 2). apply sub_full. by rewrite Hlen.
Qed.

(** ** Validation of a received frame *)

Lemma ntohs_eq_iff x y : in_u 16 x → in_u 16 y → ntohs x = y ↔ x = htons y.
Proof.
  intros Hx Hy. split.
  - intros <-. symmetry. by apply ntohs_htons.
  - intros ->. by apply ntohs_htons.
Qed.

Lemma ntohl_eq_iff x y : in_u 32 x → in_u 32 y → ntohl x = y ↔ x = htonl y.
Proof.
  intros Hx Hy. split.
  - intros <-. symmetry. by apply htonl_ntohl.
  - intros ->. by apply ntohl_htonl.
Qed.

Lemma frame_ok_iff h :
  frame_ok h = true ↔
  frame_len h.1 = PKTCTRLSIZ ∧ head_magic h.1 = HEAD_MAGIC ∧ h.2 = TAIL_MAGIC.
Proof.
  unfold frame_ok. rewrite negb_true_iff, !orb_false_iff, !negb_false_iff, !Z.eqb_eq. tauto.
Qed.

(** C21. The receiver accepts a 1024-byte buffer as a frame exactly when it
    starts with the length 1024 and HEAD_MAGIC and ends with TAIL_MAGIC, all
    three big-endian on the wire; the other 1014 bytes are free. *)
Theorem frame_ok_wire l :
  bytes_ok l → length l = 1024%nat →
  frame_ok (pkt_ntoh (pkt_of_bytes l)) = true ↔
  sub 0 2 l = [4; 0] ∧ sub 2 4 l = [0xAA; 0xBB; 0xCC; 0xDD] ∧
  sub 1020 4 l = [0xDD; 0xBB; 0xCC; 0xAA].
Proof.
  intros Hl Hlen. rewrite frame_ok_iff. simpl.
  rewrite ntohs_eq_iff, !ntohl_eq_iff;
    [|by apply (rd_range _ 4)|done|by apply (rd_range _ 4)|done|by apply (rd_range _ 2)|done].
  rewrite !rd_eq_iff by (done || lia). done.
Qed.

Lemma frame_ok_wire_witness :
  let l := pkt_bytes (Build_pkt_ctrl_t {| frame_len := htons 1024; head_magic := htonl HEAD_MAGIC;
                         type := htons 4; uid := 0 |} (zeroed body_size) (htonl TAIL_MAGIC)) in
  bytes_ok l ∧ length l = 1024%nat ∧ frame_ok (pkt_ntoh (pkt_of_bytes l)) = true.
Proof.
  assert (Hl : bytes_ok (pkt_bytes (Build_pkt_ctrl_t {| frame_len := htons 1024; head_magic := htonl HEAD_MAGIC;
                         type := htons 4; uid := 0 |} (zeroed body_size) (htonl TAIL_MAGIC)))).
  { apply (bool_decide_unpack _). by vm_compute. }
  split; [exact Hl|]. split; [by vm_compute|].
  apply (frame_ok_wire _ Hl); [by vm_compute|]. by vm_compute.
Defined.

(** ** Round trips over the wire *)

Lemma cstr_app s rest : Forall (λ b, b ≠ 0) s → cstr (s ++ 0 :: rest) = s.
Proof.
  induction 1 as [|b s Hb _ IH]; simpl; [done|].
  destruct (Z.eqb_spec b 0); [done|]. by rewrite IH.
Qed.

(** A string stored in a char array reads back cut to the array's size. *)
Lemma cstr_store_str off n s mem :
  (0 < n)%nat → (off + n ≤ length mem)%nat → c_string s →
  cstr (sub off n (store_str off n s mem)) = take (n - 1) s.
Proof.
  intros Hn Hmem Hs. unfold store_str.
  assert (Hlen : (length (take (n - 1) s ++ [0%Z]) ≤ n)%nat).
  { rewrite length_app, length_take. simpl. lia. }
  replace n with (length (take (n - 1) s ++ [0%Z]) + (n - length (take (n - 1) s ++ [0%Z])))%nat
    at 1 by lia.
  rewrite <- sub_split, sub_wr_eq by (done || lia).
  rewrite <- (assoc_L (++)). apply cstr_app.
  eapply Forall_impl; [by apply Forall_take|]. simpl. lia.
Qed.

Lemma c_string_bytes_ok s : c_string s → bytes_ok s.
Proof.
  intros H. eapply Forall_impl; [exact H|]. unfold in_u. simpl.
  intros. change (2 ^ 8) with 256. lia.
Qed.

Lemma bytes_ok_zeroed n : bytes_ok (zeroed n).
Proof. apply Forall_replicate. done. Qed.

Lemma bytes_ok_store_str off n s mem :
  c_string s → bytes_ok mem → bytes_ok (store_str off n s mem).
Proof.
  intros Hs Hm. apply bytes_ok_wr; [|done]. apply Forall_app. split.
  - by apply Forall_take, c_string_bytes_ok.
  - by repeat constructor.
Qed.

Lemma htons_range x : in_u 16 (htons x).
Proof. apply (bswap_range 2). Qed.
Lemma htonll_range x : in_u 64 (htonll x).
Proof. apply (bswap_range 8). Qed.

Lemma wf_intro fl hm ty u b tm :
  in_u 16 fl → in_u 32 hm → in_u 16 ty → in_u 64 u → length b = body_size → bytes_ok b →
  in_u 32 tm → pkt_wf (Build_pkt_ctrl_t (Build_pkt_ctrl_hdr_t fl hm ty u) b tm).
Proof. intros. unfold pkt_wf, hdr_wf. simpl. auto 10. Qed.

Lemma config_req_wf u af h p :
  match h with Some h => c_string h | None => True end →
  pkt_ctrl_create_config_req true u af h = Some p → pkt_wf p.
Proof.
  intros Hh Hp%(inj Some); subst p.
  apply wf_intro; [apply htons_range|apply htonl_range|apply htons_range|apply htonll_range| |
    |apply htonl_range].
  - destruct h; unfold store_str, zeroed; by rewrite ?length_wr, ?length_replicate.
  - destruct h as [h|]; [apply bytes_ok_store_str; [done|]|];
      apply bytes_ok_wr; auto using le_bytes_ok, bytes_ok_zeroed.
Qed.

Lemma config_resp_wf u st mtu ip mask d1 d2 p :
  pkt_ctrl_create_config_resp true u st mtu ip mask d1 d2 = Some p → pkt_wf p.
Proof.
  intros Hp%(inj Some); subst p.
  apply wf_intro; [apply htons_range|apply htonl_range|apply htons_range|apply htonll_range| |
    |apply htonl_range].
  - unfold zeroed. by rewrite ?length_wr, ?length_replicate.
  - repeat (apply bytes_ok_wr; [apply le_bytes_ok|]). apply bytes_ok_zeroed.
Qed.

Lemma config_req_run u af host :
  in_u 64 u → in_u 8 af → c_string host →
  ∃ p, pkt_ctrl_create_config_req true u af (Some host) = Some p ∧
    length (pkt_bytes p) = 1024%nat ∧
    let q := pkt_of_bytes (pkt_bytes p) in
    frame_ok (pkt_ntoh q) = true ∧
    type (pkt_ntoh q).1 = msg_type VPN_MSG_TYPE_CONFIG_REQ ∧
    uid (pkt_ntoh q).1 = u ∧
    req_af_family (body q) = af ∧
    cstr (req_hostname (body q)) = take 63 host.
Proof.
  intros Hu Haf Hh. eexists. split; [reflexivity|].
  pose proof (config_req_wf u af (Some host) _ Hh eq_refl) as Hwf.
  split; [by apply length_pkt_bytes, Hwf|].
  rewrite pkt_of_bytes_bytes by done. simpl. split; [by vm_compute|].
  split; [by vm_compute|]. split; [by apply ntohll_htonll|].
  unfold req_af_family, req_hostname. split.
  - unfold store_str. rewrite rd_wr_ne by lia.
    apply (rd_wr_eq 0 1); [exact Haf|]. unfold zeroed. rewrite length_replicate.
    unfold body_size. lia.
  - by apply cstr_store_str; [unfold HOSTNAMSIZ; lia|rewrite length_wr; unfold HOSTNAMSIZ; simpl; lia|].
Qed.

(** The configuration request survives the wire: what
    [pkt_ctrl_create_config_req] builds is a 1024-byte frame that the peer
    validates and from which it reads back the type, the uid, the address
    family, and the hostname cut to the 63 characters the field holds. *)
Theorem config_req_roundtrip u af host :
  in_u 64 u → in_u 8 af → c_string host →
  ∃ p, pkt_ctrl_create_config_req true u af (Some host) = Some p ∧
    length (pkt_bytes p) = 1024%nat ∧
    let q := pkt_of_bytes (pkt_bytes p) in
    frame_ok (pkt_ntoh q) = true ∧
    type (pkt_ntoh q).1 = msg_type VPN_MSG_TYPE_CONFIG_REQ ∧
    uid (pkt_ntoh q).1 = u ∧
    req_af_family (body q) = af ∧
    cstr (req_hostname (body q)) = take 63 host.
Proof. apply config_req_run. Qed.

Lemma config_req_roundtrip_witness :
  in_u 64 7 ∧ in_u 8 2 ∧ c_string [113; 117; 105; 99] ∧
  ∃ p, pkt_ctrl_create_config_req true 7 2 (Some [113; 117; 105; 99]) = Some p ∧
    uid (pkt_ntoh (pkt_of_bytes (pkt_bytes p))).1 = 7.
Proof.
  assert (H : c_string [113; 117; 105; 99]) by (repeat constructor).
  split; [done|]. split; [done|]. split; [done|].
  destruct (config_req_roundtrip 7 2 [113; 117; 105; 99]) as (p & Hp & _ & _ & _ & Hu & _);
    [done..|]. eauto.
Defined.

Lemma config_resp_run u st mtu ip mask d1 d2 :
  in_u 64 u → in_u 8 st → in_u 16 mtu →
  in_u 32 ip → in_u 32 mask → in_u 32 d1 → in_u 32 d2 →
  ∃ p, pkt_ctrl_create_config_resp true u st mtu ip mask d1 d2 = Some p ∧
    length (pkt_bytes p) = 1024%nat ∧
    let q := pkt_of_bytes (pkt_bytes p) in
    frame_ok (pkt_ntoh q) = true ∧
    type (pkt_ntoh q).1 = msg_type VPN_MSG_TYPE_CONFIG_RESP ∧
    uid (pkt_ntoh q).1 = u ∧
    ntohl (resp_status_code (body q)) = st ∧
    ntohs (resp_mtu (body q)) = mtu ∧
    resp_ip (body q) = ip ∧ resp_mask (body q) = mask ∧
    resp_dns1 (body q) = d1 ∧ resp_dns2 (body q) = d2 ∧
    resp_uid (body q) = 0.
Proof.
  intros Hu Hst Hmtu Hip Hmask Hd1 Hd2. eexists. split; [reflexivity|].
  pose proof (config_resp_wf u st mtu ip mask d1 d2 _ eq_refl) as Hwf.
  split; [by apply length_pkt_bytes, Hwf|].
  rewrite pkt_of_bytes_bytes by done. simpl. split; [by vm_compute|].
  split; [by vm_compute|]. split; [by apply ntohll_htonll|].
  unfold resp_status_code, resp_mtu, resp_ip, resp_mask, resp_dns1, resp_dns2, resp_uid.
  assert (in_u 32 st) by (unfold in_u in *; lia).
  repeat split;
    repeat rewrite rd_wr_ne by (rewrite length_le_bytes; lia);
    rewrite ?rd_wr_eq by (first [done | apply htonl_range | apply htons_range
      | rewrite ?length_wr; unfold zeroed; rewrite ?length_replicate; unfold body_size; lia]);
    auto using ntohl_htonl, ntohs_htons.
Qed.

(** C20. The configuration response survives the wire: the client validates
    the frame and reads back the uid of the header, the status, the MTU, the
    assigned address and mask and both DNS addresses; the uid field of the
    body, which no statement of the constructor sets, is always 0. *)
Theorem config_resp_roundtrip u st mtu ip mask d1 d2 :
  in_u 64 u → in_u 8 st → in_u 16 mtu →
  in_u 32 ip → in_u 32 mask → in_u 32 d1 → in_u 32 d2 →
  ∃ p, pkt_ctrl_create_config_resp true u st mtu ip mask d1 d2 = Some p ∧
    length (pkt_bytes p) = 1024%nat ∧
    let q := pkt_of_bytes (pkt_bytes p) in
    frame_ok (pkt_ntoh q) = true ∧
    type (pkt_ntoh q).1 = msg_type VPN_MSG_TYPE_CONFIG_RESP ∧
    uid (pkt_ntoh q).1 = u ∧
    ntohl (resp_status_code (body q)) = st ∧
    ntohs (resp_mtu (body q)) = mtu ∧
    resp_ip (body q) = ip ∧ resp_mask (body q) = mask ∧
    resp_dns1 (body q) = d1 ∧ resp_dns2 (body q) = d2 ∧
    resp_uid (body q) = 0.
Proof. apply config_resp_run. Qed.

Lemma config_resp_roundtrip_witness :
  in_u 64 1 ∧ in_u 16 1380 ∧ in_u 32 (htonl 2886860802) ∧
  ∃ p, pkt_ctrl_create_config_resp true 1 0 1380 (htonl 2886860802) (mask_of_prefix 16) 1 8
       = Some p ∧
    resp_ip (body (pkt_of_bytes (pkt_bytes p))) = htonl 2886860802.
Proof.
  split; [done|]. split; [done|]. split; [by vm_compute|].
  destruct (config_resp_roundtrip 1 0 1380 (htonl 2886860802) (mask_of_prefix 16) 1 8)
    as (p & Hp & _ & _ & _ & _ & _ & _ & Hip & _); [by vm_compute..|]. eauto.
Defined.

(** ** The printer *)

(** Every route the printer shows lies inside the message's array of 8, and so
    inside the union, whatever count the peer sent. *)
Lemma print_routes_length b : (length (print_routes b) ≤ 8)%nat.
Proof.
  unfold print_routes. rewrite length_fmap, length_seq.
  destruct (Z.ltb_spec 8 (route_count b)); lia.
Qed.
