(* ===== verification/Ledger.v ===== *)
(** * A ledger of resources

    The engines acquire objects, threads and descriptors when they start and
    give them back when they stop.  Each is an event of a log; the balance of
    a resource is how often it was acquired and not given back. *)
From stdpp Require Import prelude.
From Stdlib Require Import ZArith Lia.
From S2P Require Import Prelude.

Inductive ledger_event (R : Type) := Acquire (r : R) | Release (r : R).
Arguments Acquire {R} r.
Arguments Release {R} r.

Section ledger.
Context {R : Type} `{!EqDecision R}.
Implicit Types (r : R) (log : list (ledger_event R)).

Definition delta (e : ledger_event R) r : Z :=
  match e with
  | Acquire r' => if decide (r' = r) then 1 else 0
  | Release r' => if decide (r' = r) then -1 else 0
  end.
Fixpoint balance (log : list (ledger_event R)) r : Z :=
  match log with [] => 0 | e :: log => delta e r + balance log r end.

Lemma balance_app l1 l2 r : balance (l1 ++ l2) r = balance l1 r + balance l2 r.
Proof. induction l1 as [|e l1 IH]; simpl; [done|]. lia. Qed.
Lemma balance_snoc l e r : balance (l ++ [e]) r = balance l r + delta e r.
Proof. rewrite balance_app. simpl. lia. Qed.
End ledger.

(** Evaluates balances of concrete logs. *)
Ltac ledger :=
  cbn in *; rewrite ?balance_app; cbn;
  repeat match goal with
  | |- context [decide (?a = ?a)] => rewrite (decide_True (P := a = a)) by reflexivity
  | |- context [decide (?a = ?b)] => rewrite (decide_False (P := a = b)) by discriminate
  end; lia.
