(* ===== verification/PktData.v ===== *)
(** * pkt_data.h, pkt_data.c: the IP packets of the data path

    A packet is the list of the bytes at [buf]; every read goes through
    [load], which fails on an access outside the buffer, so that a result
    [Some _] of the parser is also the absence of an out-of-bounds read. *)
From stdpp Require Import prelude strings.
From Stdlib Require Import ZArith Lia.
From S2P Require Import Prelude Utils.

Definition DATAPKTBUF : Z := 2048.
Definition sizeof_iphdr : Z := 20.
Definition sizeof_tcphdr : Z := 20.
Definition sizeof_udphdr : Z := 8.
Definition IPPROTO_ICMP : Z := 1.
Definition IPPROTO_TCP : Z := 6.
Definition IPPROTO_UDP : Z := 17.

(** The [n] bytes at [off], or [None] when they are not all in the buffer. *)
Definition load (off n : Z) (buf : list Z) : option (list Z) :=
  if (0 <=? off) && (off + n <=? Z.of_nat (length buf))
  then Some (sub (Z.to_nat off) (Z.to_nat n) buf) else None.

(** The fields of [struct iphdr] the code reads: the bit fields of byte 0, the
    protocol at 9 and the addresses (network byte order) at 12 and 16. *)
Definition ip_version (ip : list Z) : Z := Z.land (Z.shiftr (rd 0 1 ip) 4) 15.
Definition ip_ihl (ip : list Z) : Z := Z.land (rd 0 1 ip) 15.
Definition ip_protocol (ip : list Z) : Z := rd 9 1 ip.
Definition ip_saddr (ip : list Z) : Z := rd 12 4 ip.
Definition ip_daddr (ip : list Z) : Z := rd 16 4 ip.

(** The source and destination ports, first in tcphdr and in udphdr. *)
Definition l4_source (h : list Z) : Z := rd 0 2 h.
Definition l4_dest (h : list Z) : Z := rd 2 2 h.

(** The code with the two out parameters; [None] arguments are NULL, [None]
    as result is a read outside the packet. *)
Definition pkt_data_iphdr (pkt : option (list Z)) (len : Z) (src dest : option Z)
    : option (Z * option Z * option Z) :=
  match src, dest, pkt with
  | Some _, Some _, Some pkt =>
      if len <? sizeof_iphdr then Some (- EINVAL, src, dest)
      else
        ip ← load 0 sizeof_iphdr pkt;
        if negb (ip_version ip =? 4) then Some (- ENOSPC, src, dest)
        else Some (0, Some (ip_saddr ip), Some (ip_daddr ip))
  | _, _, _ => Some (- EINVAL, src, dest)
  end.

(** The line pkt_data_print logs; every line also shows the direction, the
    connection id and the length. *)
Inductive pkt_line :=
| LnMalformed
| LnIcmp (src dst : string)
| LnTcpTruncated (src dst : string)
| LnTcp (src dst : string) (sport dport : Z)
| LnUdpTruncated (src dst : string)
| LnUdp (src dst : string) (sport dport : Z)
| LnOther (src dst : string) (protocol : Z)
| LnNonIPv4 (version : Z).

Definition pkt_data_print (buf : option (list Z)) (len : Z) : option (Z * option pkt_line) :=
  match buf with
  | None => Some (- EINVAL, None)
  | Some buf =>
      if len <? sizeof_iphdr then Some (- EINVAL, None)
      else
        b0 ← load 0 1 buf;
        let version := Z.land (Z.shiftr (le_word b0) 4) 15 in
        if version =? 4 then
          iph ← load 0 sizeof_iphdr buf;
          let ip_header_len := ip_ihl iph * 4 in
          if (ip_ihl iph <? 5) || (len <? ip_header_len) then
            Some (- EAFNOSUPPORT, Some LnMalformed)
          else
            match inet_ntop (ip_saddr iph) INET_ADDRSTRLEN,
                  inet_ntop (ip_daddr iph) INET_ADDRSTRLEN with
            | Some src_ip, Some dst_ip =>
                if ip_protocol iph =? IPPROTO_ICMP then Some (0, Some (LnIcmp src_ip dst_ip))
                else if ip_protocol iph =? IPPROTO_TCP then
                  if len <? ip_header_len + sizeof_tcphdr
                  then Some (0, Some (LnTcpTruncated src_ip dst_ip))
                  else
                    tcph ← load ip_header_len sizeof_tcphdr buf;
                    Some (0, Some (LnTcp src_ip dst_ip (ntohs (l4_source tcph))
                                     (ntohs (l4_dest tcph))))
                else if ip_protocol iph =? IPPROTO_UDP then
                  if len <? ip_header_len + sizeof_udphdr
                  then Some (0, Some (LnUdpTruncated src_ip dst_ip))
                  else
                    udph ← load ip_header_len sizeof_udphdr buf;
                    Some (0, Some (LnUdp src_ip dst_ip (ntohs (l4_source udph))
                                     (ntohs (l4_dest udph))))
                else Some (0, Some (LnOther src_ip dst_ip (ip_protocol iph)))
            | _, _ => Some (- EAFNOSUPPORT, None)
            end
        else Some (0, Some (LnNonIPv4 version))
  end.

(** ** Lemmas *)

Lemma load_Some off n buf :
  0 ≤ off → off + n ≤ Z.of_nat (length buf) →
  load off n buf = Some (sub (Z.to_nat off) (Z.to_nat n) buf).
Proof.
  intros H1 H2. unfold load. by rewrite (proj2 (Z.leb_le 0 off)), (proj2 (Z.leb_le _ _)).
Qed.

Lemma rd_sub off n m buf : (off + n ≤ m)%nat → rd off n (sub 0 m buf) = rd off n buf.
Proof.
  intros H. unfold rd, sub. f_equal. rewrite drop_0, skipn_firstn_comm, take_take.
  f_equal. lia.
Qed.

Lemma ip_ihl_range ip : 0 ≤ ip_ihl ip < 16.
Proof.
  unfold ip_ihl. change 15 with (Z.ones 4). rewrite Z.land_ones by lia.
  apply Z.mod_pos_bound. lia.
Qed.

Lemma big_endian_port l :
  bytes_ok l → length l = 2%nat → ntohs (le_word l) = nth 0 l 0 * 256 + nth 1 l 0.
Proof.
  intros Hl Hlen. destruct l as [|a [|b [|]]]; try done.
  unfold bytes_ok, in_u in Hl. change (2 ^ 8) with 256 in Hl.
  apply Forall_cons in Hl as [Ha Hl]. apply Forall_cons in Hl as [Hb _]. cbv beta in Ha, Hb.
  unfold ntohs. cbn [le_word nth]. rewrite u16_small by lia. unfold bswap. cbn [le_bytes].
  replace ((a + 256 * (b + 256 * 0)) mod 256) with a
    by (Z.to_euclidean_division_equations; lia).
  replace (((a + 256 * (b + 256 * 0)) / 256) mod 256) with b
    by (Z.to_euclidean_division_equations; lia).
  cbn. lia.
Qed.

(** The header length and version as the printer computes them from a packet. *)
Definition print_header_ok (l : list Z) (len : Z) : Prop :=
  5 ≤ ip_ihl l ∧ ip_ihl l * 4 ≤ len.

(** What the protocol switch logs for a well-formed IPv4 header. *)
Definition l4_line (l : list Z) (len : Z) : pkt_line :=
  let src := dotted (ip_saddr l) in
  let dst := dotted (ip_daddr l) in
  let off := Z.to_nat (ip_ihl l * 4) in
  let sport := nth off l 0 * 256 + nth (off + 1) l 0 in
  let dport := nth (off + 2) l 0 * 256 + nth (off + 3) l 0 in
  if ip_protocol l =? IPPROTO_ICMP then LnIcmp src dst
  else if ip_protocol l =? IPPROTO_TCP then
    if len <? ip_ihl l * 4 + 20 then LnTcpTruncated src dst else LnTcp src dst sport dport
  else if ip_protocol l =? IPPROTO_UDP then
    if len <? ip_ihl l * 4 + 8 then LnUdpTruncated src dst else LnUdp src dst sport dport
  else LnOther src dst (ip_protocol l).

(** The 16-bit word at [off + d] of the buffer, read from the loaded header at
    [off], is the big-endian number of its two bytes. *)
Lemma port_at l off n d :
  bytes_ok l → (d + 2 ≤ n)%nat → (off + n ≤ length l)%nat →
  ntohs (rd d 2 (sub off n l)) = nth (off + d) l 0 * 256 + nth (off + d + 1) l 0.
Proof.
  intros Hl Hd Hn. unfold rd. rewrite big_endian_port.
  - rewrite !nth_lookup, !lookup_sub by lia.
    replace (off + (d + 0))%nat with (off + d)%nat by lia.
    by replace (off + (d + 1))%nat with (off + d + 1)%nat by lia.
  - by repeat apply bytes_ok_sub.
  - apply length_sub. rewrite length_sub by done. lia.
Qed.

Lemma pkt_data_print_run l :
  bytes_ok l →
  let len := Z.of_nat (length l) in
  pkt_data_print (Some l) len = Some (
    if len <? 20 then (- EINVAL, None)
    else if ip_version l =? 4 then
      if (5 <=? ip_ihl l) && (ip_ihl l * 4 <=? len) then (0, Some (l4_line l len))
      else (- EAFNOSUPPORT, Some LnMalformed)
    else (0, Some (LnNonIPv4 (ip_version l)))).
Proof.
  intros Hl len. unfold pkt_data_print, sizeof_iphdr, sizeof_tcphdr, sizeof_udphdr.
  destruct (Z.ltb_spec len 20) as [|Hlen]; [done|].
  rewrite !load_Some by lia. cbn [mbind option_bind].
  change (Z.to_nat 0) with 0%nat. change (Z.to_nat 20) with 20%nat.
  change (le_word (sub 0 (Z.to_nat 1) l)) with (rd 0 1 l). fold (ip_version l).
  destruct (ip_version l =? 4); [|done].
  assert (Hihl : ip_ihl (sub 0 20 l) = ip_ihl l).
  { unfold ip_ihl. by rewrite rd_sub by lia. }
  rewrite Hihl. pose proof (ip_ihl_range l) as Hr. set (h := ip_ihl l) in *.
  destruct (Z.leb_spec 5 h), (Z.ltb_spec h 5); try lia; simpl; [|done].
  destruct (Z.leb_spec (h * 4) len), (Z.ltb_spec len (h * 4)); try lia; simpl; [|done].
  rewrite !inet_ntop_fits by done. unfold l4_line. fold h.
  unfold ip_saddr, ip_daddr, ip_protocol. rewrite !rd_sub by lia.
  destruct (rd 9 1 l =? IPPROTO_ICMP); [done|].
  destruct (rd 9 1 l =? IPPROTO_TCP).
  { destruct (Z.ltb_spec len (h * 4 + 20)); [done|]. rewrite load_Some by lia. simpl.
    unfold l4_source, l4_dest. rewrite !port_at by (done || lia).
    by rewrite Nat.add_0_r, <- Nat.add_assoc. }
  destruct (rd 9 1 l =? IPPROTO_UDP); [|done].
  destruct (Z.ltb_spec len (h * 4 + 8)); [done|]. rewrite load_Some by lia. simpl.
  unfold l4_source, l4_dest. rewrite !port_at by (done || lia).
  by rewrite Nat.add_0_r, <- Nat.add_assoc.
Qed.

(** [pkt_data_print] on a buffer of [len] bytes never reads outside it, and
    its code and its line are a function of the packet on every branch: a
    short buffer is -EINVAL, another version is reported, an IHL below 5 or
    past the end is -EAFNOSUPPORT, and otherwise the line shows the addresses
    and, for TCP and UDP headers that fit, the big-endian ports that follow
    the IHL*4 bytes of the IP header. *)
Theorem pkt_data_print_spec l :
  bytes_ok l →
  let len := Z.of_nat (length l) in
  pkt_data_print (Some l) len = Some (
    if len <? 20 then (- EINVAL, None)
    else if ip_version l =? 4 then
      if (5 <=? ip_ihl l) && (ip_ihl l * 4 <=? len) then (0, Some (l4_line l len))
      else (- EAFNOSUPPORT, Some LnMalformed)
    else (0, Some (LnNonIPv4 (ip_version l)))).
Proof. apply pkt_data_print_run. Qed.

(** A 28-byte UDP packet from 10.0.0.1:4660 to 10.0.0.2:53. *)
Definition udp_sample : list Z :=
  [0x45; 0; 0; 28; 0; 0; 0; 0; 64; 17; 0; 0; 10; 0; 0; 1; 10; 0; 0; 2;
   0x12; 0x34; 0; 53; 0; 8; 0; 0].

Lemma pkt_data_print_spec_witness :
  bytes_ok udp_sample ∧
  pkt_data_print (Some udp_sample) 28 = Some (0, Some (LnUdp "10.0.0.1" "10.0.0.2" 4660 53)).
Proof.
  assert (H : bytes_ok udp_sample) by (apply (bool_decide_unpack _); by vm_compute).
  split; [exact H|]. etransitivity; [apply (pkt_data_print_spec udp_sample H)|].
  by vm_compute.
Defined.

Lemma pkt_data_iphdr_run l s d :
  let len := Z.of_nat (length l) in
  pkt_data_iphdr (Some l) len (Some s) (Some d) = Some (
    if len <? 20 then (- EINVAL, Some s, Some d)
    else if ip_version l =? 4 then
      (0, Some (le_word (sub 12 4 l)), Some (le_word (sub 16 4 l)))
    else (- ENOSPC, Some s, Some d)).
Proof.
  intros len. unfold pkt_data_iphdr, sizeof_iphdr.
  destruct (Z.ltb_spec len 20); [done|]. rewrite load_Some by lia. simpl.
  unfold ip_version, ip_saddr, ip_daddr. rewrite !rd_sub by lia.
  by destruct (_ =? 4).
Qed.

(** [pkt_data_iphdr], which routes the server's outgoing packets, reads no
    byte outside the packet, stores both addresses exactly for a packet of at
    least 20 bytes whose version is 4, and on every error leaves the out
    parameters as they were. *)
Theorem pkt_data_iphdr_spec l s d :
  let len := Z.of_nat (length l) in
  pkt_data_iphdr (Some l) len (Some s) (Some d) = Some (
    if len <? 20 then (- EINVAL, Some s, Some d)
    else if ip_version l =? 4 then
      (0, Some (le_word (sub 12 4 l)), Some (le_word (sub 16 4 l)))
    else (- ENOSPC, Some s, Some d)).
Proof. apply pkt_data_iphdr_run. Qed.
