(* ===== verification/IpPool.v ===== *)
(** * ip_pool.c: the pool of virtual IPv4 addresses of the server

    An [ip_entry_t*] is the index of the entry in the pool's array and a
    [client_t*] a number that names the client.  The operations run under the
    pool's mutex, whose return codes the code ignores, so each is one atomic
    step.  A result [None] of an operation is an access outside the array;
    [option] inside the result is the NULL of the C value. *)
From stdpp Require Import prelude gmap strings.
From Stdlib Require Import ZArith Lia.
From S2P Require Import Prelude Utils.

Record ip_entry_t := IpEntry {
  ip : Z;                 (* network byte order *)
  ip_str : string;
  used : bool;
  client : option nat
}.

Record ip_pool_t := IpPool {
  net_addr : Z;
  netmask : Z;
  server_ip : Z;
  ip_entry : list ip_entry_t;
  max_clients : Z;
  next_idx : Z
}.

Definition set_entries (p : ip_pool_t) (es : list ip_entry_t) : ip_pool_t :=
  IpPool (net_addr p) (netmask p) (server_ip p) es (max_clients p) (next_idx p).
Definition set_next_idx (p : ip_pool_t) (n : Z) : ip_pool_t :=
  IpPool (net_addr p) (netmask p) (server_ip p) (ip_entry p) (max_clients p) n.

(** Entry [i] as the population loop leaves it. *)
Definition new_entry (net_host server_host max : Z) (i : nat) : ip_entry_t :=
  let current_host_ip := u32 (net_host + Z.of_nat i) in
  let addr := htonl current_host_ip in
  {| ip := addr;
     ip_str := default "" (inet_ntop addr INET_ADDRSTRLEN);
     used := (Z.of_nat i =? 0) || (Z.of_nat i =? u64 (max - 1))
             || (current_host_ip =? server_host);
     client := None |}.

(** [tun] gives the address, mask and network of the interface; [mem1] and
    [mem2] are whether the two callocs succeed. *)
Definition ip_pool_create (tun : option (Z * Z * Z)) (mem1 mem2 : bool) : option ip_pool_t :=
  match tun with
  | None => None
  | Some (server, mask, net) =>
      if negb mem1 then None
      else
        let net_host := ntohl net in
        let mask_host := ntohl mask in
        let server_host := ntohl server in
        if negb (validate_mask mask) then None
        else
          let max := u32 (not32 mask_host + 1) in
          if negb mem2 then None
          else Some {|
            net_addr := net; netmask := mask; server_ip := server;
            ip_entry := new_entry net_host server_host max <$> seq 0 (Z.to_nat max);
            max_clients := max; next_idx := 0 |}
  end.

(** The search loop, at iteration [i] of the [n] that remain. *)
Fixpoint acquire_loop (n : nat) (i : Z) (p : ip_pool_t) (c : nat)
    : option (option nat * ip_pool_t) :=
  match n with
  | O => Some (None, p)
  | S n =>
      let idx := u32 (u64 (next_idx p + i) mod max_clients p) in
      e ← ip_entry p !! Z.to_nat idx;
      if negb (used e) then
        let es := <[Z.to_nat idx := IpEntry (ip e) (ip_str e) true (Some c)]> (ip_entry p) in
        let p := set_entries p es in
        Some (Some (Z.to_nat idx), set_next_idx p (u64 (idx + 1) mod max_clients p))
      else acquire_loop n (i + 1) p c
  end.

Definition ip_acquire (pool : option ip_pool_t) (client : option nat)
    : option (option nat * option ip_pool_t) :=
  match pool, client with
  | Some p, Some c =>
      '(r, p) ← acquire_loop (Z.to_nat (max_clients p)) 0 p c; Some (r, Some p)
  | _, _ => Some (None, pool)
  end.

Definition ip_release (pool : option ip_pool_t) (entry : option nat)
    : option (Z * option ip_pool_t) :=
  match pool with
  | None => Some (- EINVAL, None)
  | Some p =>
      match entry with
      | None => Some (- EINVAL, Some p)
      | Some idx =>
          e ← ip_entry p !! idx;
          Some (0, Some (set_entries p
                 (<[idx := IpEntry (ip e) (ip_str e) false None]> (ip_entry p))))
      end
  end.

Definition ip_client_search (pool : option ip_pool_t) (addr : Z) : option (option nat) :=
  match pool with
  | None => Some None
  | Some p =>
      let net_ntoh := ntohl (net_addr p) in
      let ip_ntoh := ntohl addr in
      if (ip_ntoh <? net_ntoh) || (u64 (net_ntoh + max_clients p) <=? ip_ntoh) then Some None
      else
        let idx := u32 (ip_ntoh - net_ntoh) in
        e ← ip_entry p !! Z.to_nat idx;
        Some (if used e && (ip e =? addr) then client e else None)
  end.

(** ** The abstract pool

    What the pool promises: a finite map from the addresses of the subnet
    (host byte order) to the clients that hold them. *)
Definition reserved (p : ip_pool_t) (i : nat) : Prop :=
  Z.of_nat i = 0 ∨ Z.of_nat i = max_clients p - 1 ∨
  ntohl (net_addr p) + Z.of_nat i = ntohl (server_ip p).

Definition leases (p : ip_pool_t) : gmap Z nat :=
  omap client (kmap (λ i, ntohl (net_addr p) + Z.of_nat i) (map_seq 0 (ip_entry p))).

Record pool_wf (p : ip_pool_t) : Prop := {
  wf_len : Z.of_nat (length (ip_entry p)) = max_clients p;
  wf_fit : ntohl (net_addr p) + max_clients p ≤ 2 ^ 32;
  wf_small : max_clients p < 2 ^ 32;
  wf_next : 0 ≤ next_idx p < 2 ^ 32;
  wf_ip : ∀ i e, ip_entry p !! i = Some e → ip e = htonl (ntohl (net_addr p) + Z.of_nat i);
  wf_str : ∀ i e, ip_entry p !! i = Some e → ip_str e = dotted (ip e);
  wf_used : ∀ i e, ip_entry p !! i = Some e → used e = true ↔ reserved p i ∨ is_Some (client e);
  wf_reserved : ∀ i e, ip_entry p !! i = Some e → reserved p i → client e = None
}.

#[local] Instance addr_key_inj (p : ip_pool_t) :
  Inj (=) (=) (λ i : nat, ntohl (net_addr p) + Z.of_nat i).
Proof. intros i j. lia. Qed.

Lemma leases_at p i :
  leases p !! (ntohl (net_addr p) + Z.of_nat i) = (ip_entry p !! i ≫= client).
Proof.
  unfold leases. rewrite lookup_omap.
  rewrite (lookup_kmap (λ i : nat, ntohl (net_addr p) + Z.of_nat i)).
  by rewrite lookup_map_seq_0.
Qed.

Lemma leases_below p a : a < ntohl (net_addr p) → leases p !! a = None.
Proof.
  intros H. unfold leases. rewrite lookup_omap.
  destruct (kmap _ _ !! a) as [e|] eqn:E; [|done].
  apply (lookup_kmap_Some (λ i : nat, ntohl (net_addr p) + Z.of_nat i)) in E as (i & ? & _).
  simpl in *. lia.
Qed.

(** Two pools over the same network have equal leases when their entries agree. *)
Lemma leases_eq p m :
  (∀ a, a < ntohl (net_addr p) → m !! a = None) →
  (∀ i, ip_entry p !! i ≫= client = m !! (ntohl (net_addr p) + Z.of_nat i)) →
  leases p = m.
Proof.
  intros Hlo Hi. apply map_eq. intros a.
  destruct (decide (a < ntohl (net_addr p))) as [H|H].
  - by rewrite leases_below, Hlo.
  - replace a with (ntohl (net_addr p) + Z.of_nat (Z.to_nat (a - ntohl (net_addr p)))) by lia.
    by rewrite leases_at, Hi.
Qed.

Lemma leases_insert p idx e :
  (idx < length (ip_entry p))%nat →
  leases (set_entries p (<[idx := e]> (ip_entry p))) =
  partial_alter (λ _, client e) (ntohl (net_addr p) + Z.of_nat idx) (leases p).
Proof.
  intros Hidx. apply leases_eq; simpl.
  - intros a Ha. rewrite lookup_partial_alter_ne by lia. by apply leases_below.
  - intros i. destruct (decide (i = idx)) as [->|Hne].
    + rewrite list_lookup_insert_eq by done. by rewrite lookup_partial_alter_eq.
    + rewrite list_lookup_insert_ne by done.
      rewrite lookup_partial_alter_ne by lia. by rewrite leases_at.
Qed.

Lemma leases_set_next_idx p n : leases (set_next_idx p n) = leases p.
Proof. done. Qed.

Lemma reserved_set_entries p es i : reserved (set_entries p es) i ↔ reserved p i.
Proof. done. Qed.

(** Rewriting entry [idx] of an unreserved slot to a consistent value keeps the
    pool well formed. *)
Lemma pool_wf_insert p idx e c :
  pool_wf p → ip_entry p !! idx = Some e → ¬ reserved p idx →
  pool_wf (set_entries p
    (<[idx := IpEntry (ip e) (ip_str e) (bool_decide (is_Some c)) c]> (ip_entry p))).
Proof.
  intros [H1 H2 H3 H4 H5 H6 H7 H8] He Hres.
  split; simpl; try done; [by rewrite length_insert|..];
    intros i e' Hi; destruct (decide (i = idx)) as [->|Hne];
    try (rewrite list_lookup_insert_ne in Hi by done; eauto; fail).
  all: rewrite list_lookup_insert_eq in Hi by (by apply lookup_lt_Some in He);
    apply (inj Some) in Hi; subst e'; simpl.
  - by apply H5.
  - by apply (H6 idx).
  - rewrite bool_decide_eq_true. tauto.
  - tauto.
Qed.

(** ** Acquire *)

Lemma acquire_idx p i :
  pool_wf p → 0 ≤ i → i < max_clients p →
  u32 (u64 (next_idx p + i) mod max_clients p) = (next_idx p + i) mod max_clients p.
Proof.
  intros H Hi Hm. pose proof (wf_small _ H). pose proof (wf_next _ H).
  rewrite (u64_small (next_idx p + i)) by lia.
  pose proof (Z.mod_pos_bound (next_idx p + i) (max_clients p) ltac:(lia)).
  apply u32_small. lia.
Qed.

Lemma not_used_free p idx e :
  pool_wf p → ip_entry p !! idx = Some e → used e = false →
  ¬ reserved p idx ∧ client e = None.
Proof.
  intros H He Hu. pose proof (wf_used _ H idx e He) as Hiff. rewrite Hu in Hiff.
  split; [naive_solver|]. destruct (client e); [naive_solver|done].
Qed.

Lemma pool_wf_next p n : pool_wf p → 0 ≤ n < 2 ^ 32 → pool_wf (set_next_idx p n).
Proof. intros [] ?. by split. Qed.

(** The loop finds the first free entry from the cursor, in circular order. *)
Lemma acquire_loop_spec p c n i :
  pool_wf p → 0 ≤ i → i + Z.of_nat n = max_clients p →
  (∃ k e, i ≤ k < max_clients p ∧
     let idx := Z.to_nat ((next_idx p + k) mod max_clients p) in
     (∀ j e', i ≤ j < k → ip_entry p !! Z.to_nat ((next_idx p + j) mod max_clients p) = Some e' →
        used e' = true) ∧
     ip_entry p !! idx = Some e ∧ used e = false ∧
     acquire_loop n i p c = Some (Some idx,
       set_next_idx (set_entries p (<[idx := IpEntry (ip e) (ip_str e) true (Some c)]> (ip_entry p)))
         ((Z.of_nat idx + 1) mod max_clients p))) ∨
  ((∀ j e', i ≤ j < max_clients p →
     ip_entry p !! Z.to_nat ((next_idx p + j) mod max_clients p) = Some e' → used e' = true) ∧
   acquire_loop n i p c = Some (None, p)).
Proof.
  intros Hwf. revert i. induction n as [|n IH]; intros i Hi Hn.
  { right. split; [|done]. intros. lia. }
  cbn [acquire_loop]. rewrite acquire_idx by (done || lia).
  set (m := (next_idx p + i) mod max_clients p).
  assert (Hm : 0 ≤ m < max_clients p) by (apply Z.mod_pos_bound; lia).
  pose proof (wf_len _ Hwf) as Hlen.
  destruct (lookup_lt_is_Some_2 (ip_entry p) (Z.to_nat m)) as [e He]; [lia|].
  rewrite He. cbn [mbind option_bind]. destruct (used e) eqn:Hu; cbn [negb].
  - destruct (IH (i + 1)) as [(k & e' & Hk & Hpre & H)|[Hall H]]; [lia..| |].
    + left. exists k, e'. split; [lia|]. split; [|exact H].
      intros j e'' Hj He''. destruct (decide (j = i)) as [->|]; [|by apply (Hpre j e''); [lia|]].
      fold m in He''. congruence.
    + right. split; [|done]. intros j e'' Hj He''.
      destruct (decide (j = i)) as [->|]; [|by apply (Hall j e''); [lia|]].
      fold m in He''. congruence.
  - left. exists i, e. split; [lia|]. fold m. cbv zeta. split; [lia|]. split; [done|].
    split; [done|]. pose proof (wf_small _ Hwf).
    rewrite (u64_small (m + 1)) by lia. by rewrite Z2Nat.id by lia.
Qed.

(** Every index is visited by some iteration of the loop. *)
Lemma mod_cover next i max :
  0 ≤ i < max → ∃ j, 0 ≤ j < max ∧ (next + j) mod max = i.
Proof.
  intros H. exists ((i - next) mod max). split; [apply Z.mod_pos_bound; lia|].
  rewrite Z.add_mod_idemp_r by lia. replace (next + (i - next)) with i by lia.
  by apply Z.mod_small.
Qed.

Definition assignable (p : ip_pool_t) (a : Z) : Prop :=
  ∃ i, a = ntohl (net_addr p) + Z.of_nat i ∧ Z.of_nat i < max_clients p ∧ ¬ reserved p i.

Lemma acquire_total p c :
  pool_wf p →
  (∃ idx p', ip_acquire (Some p) (Some c) = Some (Some idx, Some p') ∧ pool_wf p' ∧
     let a := ntohl (net_addr p) + Z.of_nat idx in
     assignable p a ∧ leases p !! a = None ∧ leases p' = <[a := c]> (leases p) ∧
     next_idx p' = (Z.of_nat idx + 1) mod max_clients p ∧
     (∃ k, 0 ≤ k < max_clients p ∧ Z.of_nat idx = (next_idx p + k) mod max_clients p ∧
        ∀ j, 0 ≤ j < k → ∀ b, b = ntohl (net_addr p) + (next_idx p + j) mod max_clients p →
          assignable p b → is_Some (leases p !! b))) ∨
  (ip_acquire (Some p) (Some c) = Some (None, Some p) ∧
   ∀ a, assignable p a → is_Some (leases p !! a)).
Proof.
  intros Hwf. unfold ip_acquire. pose proof (wf_len _ Hwf) as Hlen.
  assert (Hused : ∀ i e, ip_entry p !! i = Some e → used e = true → ¬ reserved p i →
    is_Some (leases p !! (ntohl (net_addr p) + Z.of_nat i))).
  { intros i e He Hu Hr. rewrite leases_at, He. simpl.
    destruct (proj1 (wf_used _ Hwf i e He) Hu); [done|done]. }
  destruct (acquire_loop_spec p c (Z.to_nat (max_clients p)) 0)
    as [(k & e & Hk & Hpre & He & Hu & Heq)|[Hall Heq]]; [done|lia|lia| |].
  - left. rewrite Heq. cbn [mbind option_bind].
    set (idx := Z.to_nat ((next_idx p + k) mod max_clients p)) in *.
    destruct (not_used_free p idx e Hwf He Hu) as [Hres Hc].
    pose proof (lookup_lt_Some _ _ _ He) as Hlt.
    pose proof (wf_small _ Hwf).
    assert (Hb : ∀ x, 0 ≤ x mod max_clients p < max_clients p)
      by (intros; apply Z.mod_pos_bound; lia).
    eexists idx, _. split; [done|]. split.
    { apply pool_wf_next; [|specialize (Hb (Z.of_nat idx + 1)); lia].
      apply (pool_wf_insert p idx e (Some c)); done. }
    split; [exists idx; split; [done|]; split; [lia|done]|].
    rewrite leases_at, He. split; [done|].
    rewrite leases_set_next_idx, leases_insert by done. split; [done|]. split; [done|].
    exists k. split; [lia|]. split; [unfold idx; by rewrite Z2Nat.id by apply Hb|].
    intros j Hj b -> (i & Hi & Hilt & Hir).
    destruct (lookup_lt_is_Some_2 (ip_entry p) i) as [e' He']; [lia|].
    rewrite Hi. eapply Hused; [done| |done]. apply (Hpre j); [done|].
    by replace (Z.to_nat ((next_idx p + j) mod max_clients p)) with i by lia.
  - right. rewrite Heq. split; [done|]. intros a (i & -> & Hi & Hr).
    destruct (lookup_lt_is_Some_2 (ip_entry p) i) as [e He]; [lia|].
    eapply Hused; [done| |done].
    destruct (mod_cover (next_idx p) (Z.of_nat i) (max_clients p)) as (j & Hj & E); [lia|].
    apply (Hall j); [done|]. by rewrite E, Nat2Z.id.
Qed.

(** [ip_acquire] is complete and fair: it never leaves the array and
    returns either the first assignable address without a holder in circular
    order from the cursor, whose holder the client becomes, with the cursor
    moved just past it, or NULL, and NULL only when every assignable address
    of the subnet has a holder. *)
Theorem ip_acquire_spec p c :
  pool_wf p →
  (∃ idx p', ip_acquire (Some p) (Some c) = Some (Some idx, Some p') ∧ pool_wf p' ∧
     let a := ntohl (net_addr p) + Z.of_nat idx in
     assignable p a ∧ leases p !! a = None ∧ leases p' = <[a := c]> (leases p) ∧
     next_idx p' = (Z.of_nat idx + 1) mod max_clients p ∧
     (∃ k, 0 ≤ k < max_clients p ∧ Z.of_nat idx = (next_idx p + k) mod max_clients p ∧
        ∀ j, 0 ≤ j < k → ∀ b, b = ntohl (net_addr p) + (next_idx p + j) mod max_clients p →
          assignable p b → is_Some (leases p !! b))) ∨
  (ip_acquire (Some p) (Some c) = Some (None, Some p) ∧
   ∀ a, assignable p a → is_Some (leases p !! a)).
Proof. apply acquire_total. Qed.

(** ** Release and search *)

Lemma ip_release_spec p idx :
  pool_wf p → (idx < length (ip_entry p))%nat → ¬ reserved p idx →
  ∃ p', ip_release (Some p) (Some idx) = Some (0, Some p') ∧ pool_wf p' ∧
    leases p' = delete (ntohl (net_addr p) + Z.of_nat idx) (leases p).
Proof.
  intros Hwf Hidx Hres. destruct (lookup_lt_is_Some_2 _ _ Hidx) as [e He].
  eexists. unfold ip_release. rewrite He. cbn [mbind option_bind]. split; [done|]. split.
  - by apply (pool_wf_insert p idx e None).
  - by rewrite leases_insert.
Qed.

Lemma ip_client_search_spec p addr :
  pool_wf p → in_u 32 addr →
  ip_client_search (Some p) addr = Some (leases p !! ntohl addr).
Proof.
  intros Hwf Ha. unfold ip_client_search.
  pose proof (ntohl_range addr) as Hr. pose proof (ntohl_range (net_addr p)) as Hn.
  pose proof (wf_len _ Hwf) as Hlen. pose proof (wf_fit _ Hwf). pose proof (wf_small _ Hwf).
  rewrite (u64_small (_ + _)) by lia.
  destruct (Z.ltb_spec (ntohl addr) (ntohl (net_addr p))); cbn [orb].
  { by rewrite leases_below. }
  set (i := Z.to_nat (ntohl addr - ntohl (net_addr p))).
  assert (E : ntohl addr = ntohl (net_addr p) + Z.of_nat i) by lia.
  destruct (Z.leb_spec (ntohl (net_addr p) + max_clients p) (ntohl addr)).
  { rewrite E, leases_at. rewrite lookup_ge_None_2 by lia. done. }
  rewrite u32_small by lia. fold i.
  destruct (lookup_lt_is_Some_2 (ip_entry p) i) as [e He]; [lia|].
  rewrite E, leases_at, He. cbn [mbind option_bind].
  assert (Hip : (ip e =? addr) = true).
  { apply Z.eqb_eq. rewrite (wf_ip _ Hwf i e He), <- E. by apply htonl_ntohl. }
  rewrite Hip, andb_true_r. destruct (used e) eqn:Hu; [done|].
  by destruct (not_used_free p i e Hwf He Hu) as [_ ->].
Qed.

(** The state the client threads and callbacks drive: operations on one pool. *)
Inductive pool_op :=
| OpAcquire (c : nat)
| OpRelease (idx : nat)
| OpSearch (addr : Z).

Inductive pool_ret :=
| RetEntry (idx : option nat)
| RetCode (rc : Z)
| RetClient (c : option nat).

Definition pool_step (op : pool_op) (p : ip_pool_t) : option (pool_ret * ip_pool_t) :=
  match op with
  | OpAcquire c => '(r, p') ← ip_acquire (Some p) (Some c); p' ← p'; Some (RetEntry r, p')
  | OpRelease idx => '(rc, p') ← ip_release (Some p) (Some idx); p' ← p'; Some (RetCode rc, p')
  | OpSearch addr => c ← ip_client_search (Some p) addr; Some (RetClient c, p)
  end.

Fixpoint pool_run (ops : list pool_op) (p : ip_pool_t) : option (list pool_ret * ip_pool_t) :=
  match ops with
  | [] => Some ([], p)
  | op :: ops => '(r, p1) ← pool_step op p; '(rs, p2) ← pool_run ops p1; Some (r :: rs, p2)
  end.

(** The abstract machine, over the addresses [net .. net + max) of which
    [free] says which may be handed out. *)
Inductive abs_step (net : Z) (free : Z → Prop) : gmap Z nat → pool_op → pool_ret → gmap Z nat → Prop :=
| AbsAcquire m c i :
    free (net + Z.of_nat i) → m !! (net + Z.of_nat i) = None →
    abs_step net free m (OpAcquire c) (RetEntry (Some i)) (<[net + Z.of_nat i := c]> m)
| AbsFull m c :
    (∀ a, free a → is_Some (m !! a)) → abs_step net free m (OpAcquire c) (RetEntry None) m
| AbsRelease m i :
    abs_step net free m (OpRelease i) (RetCode 0) (delete (net + Z.of_nat i) m)
| AbsSearch m addr :
    abs_step net free m (OpSearch addr) (RetClient (m !! ntohl addr)) m.

Inductive abs_run (net : Z) (free : Z → Prop) :
    gmap Z nat → list pool_op → list pool_ret → gmap Z nat → Prop :=
| AbsNil m : abs_run net free m [] [] m
| AbsCons m op r m' ops rs m'' :
    abs_step net free m op r m' → abs_run net free m' ops rs m'' →
    abs_run net free m (op :: ops) (r :: rs) m''.

(** What the callers guarantee: they release only entries they acquired, which
    are never reserved ones, and search 32-bit addresses. *)
Definition op_ok (p : ip_pool_t) (op : pool_op) : Prop :=
  match op with
  | OpAcquire _ => True
  | OpRelease idx => (idx < length (ip_entry p))%nat ∧ ¬ reserved p idx
  | OpSearch addr => in_u 32 addr
  end.

(** The fields no operation changes. *)
Definition same_net (p q : ip_pool_t) : Prop :=
  net_addr q = net_addr p ∧ server_ip q = server_ip p ∧ max_clients q = max_clients p ∧
  length (ip_entry q) = length (ip_entry p).

Lemma acquire_loop_same_net n i p c r q : acquire_loop n i p c = Some (r, q) → same_net p q.
Proof.
  revert i. induction n as [|n IH]; intros i H; cbn [acquire_loop] in H.
  { by simplify_eq. }
  destruct (ip_entry p !! _) as [e|]; [|done]. cbn [mbind option_bind] in H.
  destruct (used e); cbn [negb] in H; [by eapply IH|].
  simplify_eq. split_and!; simpl; by rewrite ?length_insert.
Qed.

Lemma pool_step_same_net op p r q : pool_step op p = Some (r, q) → same_net p q.
Proof.
  destruct op as [c|idx|addr]; unfold pool_step, ip_acquire, ip_release.
  - destruct (acquire_loop _ _ _ _) as [[r' q']|] eqn:E; cbn [mbind option_bind]; [|done].
    intros [= <- <-]. by eapply acquire_loop_same_net.
  - destruct (ip_entry p !! idx); cbn [mbind option_bind]; [|done]. intros [= <- <-].
    split_and!; simpl; by rewrite ?length_insert.
  - destruct (ip_client_search (Some p) addr); cbn [mbind option_bind]; [|done].
    by intros [= <- <-].
Qed.

Lemma same_net_reserved p q i : same_net p q → reserved q i ↔ reserved p i.
Proof. unfold reserved. by intros (-> & -> & -> & _). Qed.
Lemma same_net_assignable p q a : same_net p q → assignable q a ↔ assignable p a.
Proof.
  intros H. unfold assignable. pose proof H as (-> & _ & -> & _).
  by setoid_rewrite (same_net_reserved p q _ H).
Qed.
Lemma same_net_op_ok p q op : same_net p q → op_ok q op ↔ op_ok p op.
Proof.
  intros H. destruct op; simpl; [done| |done].
  rewrite (same_net_reserved p q _ H). by destruct H as (_ & _ & _ & ->).
Qed.

Lemma abs_run_free net f1 f2 m ops rs m' :
  (∀ a, f1 a ↔ f2 a) → abs_run net f1 m ops rs m' → abs_run net f2 m ops rs m'.
Proof.
  intros Hf. induction 1 as [|m op r m' ops rs m'' Hs _ IH]; [constructor|].
  econstructor; [|exact IH]. destruct Hs; constructor; naive_solver.
Qed.

(** [ip_acquire] seen through the abstraction. *)
Lemma acquire_abs p c :
  pool_wf p →
  ∃ r p', pool_step (OpAcquire c) p = Some (r, p') ∧ pool_wf p' ∧
    abs_step (ntohl (net_addr p)) (assignable p) (leases p) (OpAcquire c) r (leases p').
Proof.
  intros Hwf.
  destruct (acquire_total p c Hwf) as [(idx & p' & E & Hwf' & Hf & Hn & Hl & _)|[E Hfull]];
    unfold pool_step; rewrite E; cbn [mbind option_bind].
  - eexists _, p'. split; [done|]. split; [done|]. rewrite Hl. by constructor.
  - eexists _, p. split; [done|]. split; [done|]. by constructor.
Qed.

Lemma pool_step_abs p op :
  pool_wf p → op_ok p op →
  ∃ r p', pool_step op p = Some (r, p') ∧ pool_wf p' ∧
    abs_step (ntohl (net_addr p)) (assignable p) (leases p) op r (leases p').
Proof.
  intros Hwf Hok. destruct op as [c|idx|addr].
  - by apply acquire_abs.
  - destruct Hok as [Hidx Hres].
    destruct (ip_release_spec p idx Hwf Hidx Hres) as (p' & E & Hwf' & Hl).
    unfold pool_step. rewrite E. cbn [mbind option_bind].
    eexists _, p'. split; [done|]. split; [done|]. rewrite Hl. constructor.
  - unfold pool_step. rewrite (ip_client_search_spec p addr Hwf Hok). cbn [mbind option_bind].
    eexists _, p. split; [done|]. split; [done|]. constructor.
Qed.

(** C5. The pool refines a finite map from addresses to clients: along every
    sequence of acquisitions, releases of acquirable entries and searches, no
    operation leaves the array, each result is the one the abstract machine
    gives, and so an address has at most one holder, a search returns exactly
    its current holder, and the network, broadcast and server addresses are
    never handed out. *)
Theorem ip_pool_refines p ops :
  pool_wf p → Forall (op_ok p) ops →
  ∃ rs p', pool_run ops p = Some (rs, p') ∧ pool_wf p' ∧
    abs_run (ntohl (net_addr p)) (assignable p) (leases p) ops rs (leases p').
Proof.
  revert p. induction ops as [|op ops IH]; intros p Hwf Hops.
  { exists [], p. split; [done|]. split; [done|]. constructor. }
  apply Forall_cons in Hops as [Hop Hops].
  destruct (pool_step_abs p op Hwf Hop) as (r & p1 & E1 & Hwf1 & Habs1).
  pose proof (pool_step_same_net _ _ _ _ E1) as Hsame.
  destruct (IH p1 Hwf1) as (rs & p2 & E2 & Hwf2 & Habs2).
  { eapply Forall_impl; [done|]. intros ?. by rewrite (same_net_op_ok p p1). }
  exists (r :: rs), p2. simpl. rewrite E1. cbn [mbind option_bind]. rewrite E2.
  split; [done|]. split; [done|]. econstructor; [done|].
  destruct Hsame as (Hnet & _). rewrite Hnet in Habs2.
  eapply abs_run_free; [|exact Habs2]. intros a.
  apply same_net_assignable. by eapply pool_step_same_net.
Qed.

(** ** Create *)

Lemma u32_succ_not32 k : 0 ≤ k ≤ 32 →
  u32 (not32 (ntohl (mask_of_prefix k)) + 1) = u32 (2 ^ (32 - k)).
Proof.
  intros Hk. rewrite ntohl_mask_of_prefix by done.
  rewrite not32_eq by (by apply mask_of_prefix_range). f_equal. lia.
Qed.

(** A network address is a multiple of the size of its subnet. *)
Lemma land_mask_aligned x k :
  0 ≤ k ≤ 32 → 0 ≤ x < 2 ^ 32 → Z.land x (2 ^ 32 - 2 ^ (32 - k)) + 2 ^ (32 - k) ≤ 2 ^ 32.
Proof.
  intros Hk Hx. set (s := 2 ^ (32 - k)).
  assert (Hs : 0 < s) by (apply Z.pow_pos_nonneg; lia).
  assert (E : 2 ^ 32 = 2 ^ k * s) by (unfold s; rewrite <- Z.pow_add_r by lia; f_equal; lia).
  assert (Hmask : 2 ^ 32 - s = Z.shiftl (Z.ones k) (32 - k)).
  { rewrite Z.shiftl_mul_pow2, Z.ones_equiv by lia. fold s. lia. }
  rewrite Hmask.
  assert (Hl : Z.land x (Z.shiftl (Z.ones k) (32 - k)) =
               Z.land (Z.shiftr x (32 - k)) (Z.ones k) * s).
  { unfold s. rewrite <- Z.shiftl_mul_pow2 by lia. apply Z.bits_inj'. intros n Hn.
    rewrite Z.land_spec, !Z.shiftl_spec by done. destruct (Z.ltb_spec (n - (32 - k)) 0).
    - rewrite (Z.testbit_neg_r (Z.ones k)), (Z.testbit_neg_r (Z.land _ _)) by lia.
      apply andb_false_r.
    - rewrite Z.land_spec, Z.shiftr_spec by lia. do 2 f_equal. lia. }
  rewrite Hl, Z.land_ones by lia.
  pose proof (Z.mod_pos_bound (Z.shiftr x (32 - k)) (2 ^ k) ltac:(apply Z.pow_pos_nonneg; lia)).
  nia.
Qed.

Lemma new_entry_lookup net server max n i e :
  (new_entry net server max <$> seq 0 n) !! i = Some e →
  (i < n)%nat ∧ e = new_entry net server max i.
Proof.
  rewrite list_lookup_fmap, fmap_Some. intros (j & Hj & ->).
  apply lookup_seq in Hj as [-> ?]. auto.
Qed.

Lemma ip_pool_create_wf server k net :
  0 < k ≤ 32 → in_u 32 server → in_u 32 net →
  ntohl net = Z.land (ntohl server) (ntohl (mask_of_prefix k)) →
  ∃ p, ip_pool_create (Some (server, mask_of_prefix k, net)) true true = Some p ∧
    pool_wf p ∧ leases p = ∅ ∧ max_clients p = 2 ^ (32 - k) ∧ next_idx p = 0 ∧
    net_addr p = net ∧ server_ip p = server ∧
    ∀ a, assignable p a ↔ ntohl net < a < ntohl net + max_clients p - 1 ∧ a ≠ ntohl server.
Proof.
  intros Hk Hs Hn Hnet.
  set (max := 2 ^ (32 - k)).
  assert (Hmax : 0 < max) by (apply Z.pow_pos_nonneg; lia).
  assert (Hmax' : max < 2 ^ 32) by (apply Z.pow_lt_mono_r; lia).
  assert (Hmask : u32 (not32 (ntohl (mask_of_prefix k)) + 1) = max).
  { rewrite u32_succ_not32 by lia. apply u32_small. lia. }
  assert (Hfit : ntohl net + max ≤ 2 ^ 32).
  { rewrite Hnet, ntohl_mask_of_prefix by lia.
    apply land_mask_aligned; [lia|apply ntohl_range]. }
  pose proof (ntohl_range net) as Hnr.
  eexists. unfold ip_pool_create. rewrite validate_mask_of_prefix by lia.
  cbn [negb]. rewrite Hmask. split; [done|]. split; [|split_and!; try done].
  - split; simpl; try (unfold in_u in *; lia).
    + rewrite length_fmap, length_seq. lia.
    + intros i e (Hi & ->)%new_entry_lookup. unfold new_entry. cbn [ip net_addr].
      by rewrite u32_small by lia.
    + intros i e (Hi & ->)%new_entry_lookup. unfold new_entry. cbn [ip ip_str].
      by rewrite inet_ntop_fits.
    + intros i e (Hi & ->)%new_entry_lookup. unfold reserved, new_entry.
      cbn [used client max_clients net_addr server_ip].
      rewrite u64_small, u32_small by lia. rewrite !orb_true_iff, !Z.eqb_eq.
      split; [tauto|]. intros [?|[? ?]]; [tauto|done].
    + by intros i e (Hi & ->)%new_entry_lookup.
  - apply leases_eq; [done|]. simpl. intros i. rewrite lookup_empty.
    destruct (_ !! i) as [e|] eqn:E; [|done]. by apply new_entry_lookup in E as [_ ->].
  - intros a. unfold assignable, reserved; simpl. split.
    + intros (i & -> & Hi & Hr). unfold in_u in *. naive_solver lia.
    + intros [Ha Hne]. exists (Z.to_nat (a - ntohl net)). split; [lia|]. split; [lia|].
      intros [?|[?|?]]; lia.
Qed.

(** On the address, mask and network of an interface, with a valid mask
    longer than /0, [ip_pool_create] builds a well-formed pool over exactly
    the addresses of the subnet: every entry holds its address and its text,
    nobody holds a lease, and the reserved entries are exactly the network,
    broadcast and server addresses.  An invalid mask, a missing interface or
    a failed allocation gives NULL. *)
Theorem ip_pool_create_spec server k net m1 m2 :
  0 < k ≤ 32 → in_u 32 server → in_u 32 net →
  ntohl net = Z.land (ntohl server) (ntohl (mask_of_prefix k)) →
  ip_pool_create None m1 m2 = None ∧
  (∀ mask, validate_mask mask = false → ip_pool_create (Some (server, mask, net)) m1 m2 = None) ∧
  (m1 && m2 = false → ip_pool_create (Some (server, mask_of_prefix k, net)) m1 m2 = None) ∧
  ∃ p, ip_pool_create (Some (server, mask_of_prefix k, net)) true true = Some p ∧
    pool_wf p ∧ leases p = ∅ ∧ max_clients p = 2 ^ (32 - k) ∧ next_idx p = 0 ∧
    net_addr p = net ∧ server_ip p = server ∧
    ∀ a, assignable p a ↔ ntohl net < a < ntohl net + max_clients p - 1 ∧ a ≠ ntohl server.
Proof.
  intros Hk Hs Hn Hnet. split; [done|]. split.
  { intros mask Hmask. unfold ip_pool_create. rewrite Hmask. by destruct m1. }
  split.
  { unfold ip_pool_create. rewrite validate_mask_of_prefix by lia. by destruct m1, m2. }
  by apply ip_pool_create_wf.
Qed.

(** 172.18.0.1/29 *)
Definition sample_net : Z := htonl 2886860800.
Definition sample_server : Z := htonl 2886860801.
Definition sample_pool : ip_pool_t :=
  default (IpPool 0 0 0 [] 0 0)
    (ip_pool_create (Some (sample_server, mask_of_prefix 29, sample_net)) true true).

Lemma ip_pool_create_spec_witness :
  in_u 32 sample_server ∧ in_u 32 sample_net ∧
  ∃ p, ip_pool_create (Some (sample_server, mask_of_prefix 29, sample_net)) true true = Some p ∧
    max_clients p = 8.
Proof.
  split; [by vm_compute|]. split; [by vm_compute|].
  destruct (ip_pool_create_spec sample_server 29 sample_net true true) as (_ & _ & _ & p & E & _ & _ & H & _);
    [lia|by vm_compute..|].
  exists p. split; [exact E|]. exact H.
Defined.

Lemma sample_pool_wf : pool_wf sample_pool.
Proof.
  destruct (ip_pool_create_wf sample_server 29 sample_net) as (p & E & Hwf & _);
    [lia|by vm_compute..|]. unfold sample_pool. by rewrite E.
Qed.

Lemma ip_acquire_spec_witness :
  pool_wf sample_pool ∧ ∃ idx p', ip_acquire (Some sample_pool) (Some 5%nat) = Some (Some idx, Some p').
Proof.
  split; [exact sample_pool_wf|].
  destruct (ip_acquire_spec sample_pool 5 sample_pool_wf) as [(idx & p' & E & _)|[E _]]; [eauto|].
  exfalso. vm_compute in E. discriminate E.
Defined.

Lemma ip_pool_refines_witness :
  pool_wf sample_pool ∧
  ∃ rs p', pool_run [OpAcquire 5; OpSearch (htonl 2886860802); OpRelease 2; OpAcquire 6] sample_pool
           = Some (rs, p').
Proof.
  split; [exact sample_pool_wf|].
  destruct (ip_pool_refines sample_pool
    [OpAcquire 5; OpSearch (htonl 2886860802); OpRelease 2; OpAcquire 6]%nat sample_pool_wf)
    as (rs & p' & E & _); [|eauto].
  repeat constructor; simpl; try (vm_compute; done); unfold reserved; vm_compute;
    intros [?|[?|?]]; discriminate.
Defined.

Example sample_round_robin :
  fst <$> pool_run [OpAcquire 5; OpSearch (htonl 2886860802); OpRelease 2; OpAcquire 6;
                    OpSearch (htonl 2886860802)]%nat sample_pool
  = Some [RetEntry (Some 2%nat); RetClient (Some 5%nat); RetCode 0; RetEntry (Some 3%nat);
          RetClient None].
Proof. vm_compute. reflexivity. Qed.
