(* ===== verification/ObjPool.v ===== *)
(** * The interface between the object pool and its clients

    What code that keeps its objects in a pool relies on, whatever the pool's
    representation.  An object is named by a number; [None] as the outcome of
    an operation is an aborted process. *)
From stdpp Require Import prelude gmap.
From Stdlib Require Import ZArith.
From S2P Require Import Prelude.

Class ObjPool (P : Type) := {
  op_ok : P → Prop;
  op_held : P → gset nat;                     (* the objects checked out *)
  op_fresh : (Z → option nat) → P → Prop;     (* the allocator returns free memory *)
  op_get : (Z → option nat) → P → option (option nat * P);
  op_put : nat → P → option P;
  op_get_law p alloc :
    op_ok p → op_fresh alloc p →
    ∃ r p', op_get alloc p = Some (r, p') ∧ op_ok p' ∧
      match r with
      | Some b => (b ∉ op_held p) ∧ op_held p' = {[b]} ∪ op_held p
      | None => op_held p' = op_held p
      end;
  op_put_law p b :
    op_ok p → b ∈ op_held p →
    ∃ p', op_put b p = Some p' ∧ op_ok p' ∧ op_held p' = op_held p ∖ {[b]}
}.
