(* ===== verification/Pool.v ===== *)
(** * pool.h: the object pool behind packets and clients

    A block is named by a number; the [heap] holds the header of every block
    the pool has allocated and not freed.  The first half models the functions
    as one thread runs them, with the return code of every pthread call; the
    second half interleaves the critical sections of any number of threads. *)
From stdpp Require Import prelude gmap sets fin_maps.
From Stdlib Require Import ZArith Lia.
From S2P Require Import Prelude ObjPool.

(** [ALIGN_UP(size, align)] on a 64-bit size_t. *)
Definition ALIGN_UP (size align : Z) : Z :=
  Z.land (u64 (size + (align - 1))) (u64 (Z.lnot (align - 1))).

Definition sizeof_pool_block_t : Z := 16.

Record pool_block_t := PoolBlock {
  next : option nat;
  owner : bool              (* whether the [pool] field points to the pool *)
}.

Record pool_t := PoolT {
  block_size : Z;
  cap : Z;
  total_blocks : Z;
  in_use : Z;
  free_list : option nat;
  heap : gmap nat pool_block_t
}.

Definition set_total (n : Z) (p : pool_t) : pool_t :=
  PoolT (block_size p) (cap p) n (in_use p) (free_list p) (heap p).
Definition set_in_use (n : Z) (p : pool_t) : pool_t :=
  PoolT (block_size p) (cap p) (total_blocks p) n (free_list p) (heap p).
Definition set_free (f : option nat) (p : pool_t) : pool_t :=
  PoolT (block_size p) (cap p) (total_blocks p) (in_use p) f (heap p).
Definition set_heap (h : gmap nat pool_block_t) (p : pool_t) : pool_t :=
  PoolT (block_size p) (cap p) (total_blocks p) (in_use p) (free_list p) h.

Definition pool_init (os : os_t) (mem : bool) (bsize capacity : Z) : cres pool_t :=
  if bsize =? 0 then Err EINVAL
  else if SIZE_MAX - sizeof_pool_block_t <? bsize then Err EINVAL
  else if negb mem then Err ENOMEM
  else if negb (os MutexInit =? 0) then Err ENOMEM
  else if negb (os CondInit =? 0) then Err ENOMEM
  else Ok (PoolT bsize capacity 0 0 None ∅).

(** The size the code requests for a block. *)
Definition block_alloc_size (bsize : Z) : Z :=
  ALIGN_UP (u64 (sizeof_pool_block_t + bsize)) 64.

(** ** The statements inside the critical sections *)

(** [free_list = b->next; b->pool = p; in_use++] for the head [b]; a head
    outside the heap is a wild pointer. *)
Definition pop_free (b : nat) : M pool_t () := λ p,
  match heap p !! b with
  | None => Fatal p
  | Some blk =>
      let p := set_free (next blk) p in
      let p := set_heap (<[b := PoolBlock (next blk) true]> (heap p)) p in
      Ret () (set_in_use (in_use p + 1) p)
  end.

(** [cap != 0 && total_blocks >= cap] *)
Definition exhausted (p : pool_t) : bool := negb (cap p =? 0) && (cap p <=? total_blocks p).

Definition alloc_begin (p : pool_t) : pool_t := set_total (u64 (total_blocks p + 1)) p.
Definition alloc_fail (p : pool_t) : pool_t := set_total (u64 (total_blocks p - 1)) p.

(** The allocated block [b], whose header malloc leaves undefined apart from
    the [pool] field the code sets. *)
Definition alloc_done (b : nat) (p : pool_t) : pool_t :=
  let p := set_heap (<[b := PoolBlock None true]> (heap p)) p in
  set_in_use (in_use p + 1) p.

(** [in_use--; if (in_use < 0) FATAL; b->next = free_list; free_list = b] *)
Definition push_free (b : nat) : M pool_t () := λ p,
  match heap p !! b with
  | None => Fatal p
  | Some blk =>
      let p := set_in_use (in_use p - 1) p in
      if in_use p <? 0 then Fatal p
      else
        let p := set_heap (<[b := PoolBlock (free_list p) (owner blk)]> (heap p)) p in
        Ret () (set_free (Some b) p)
  end.

(** ** The functions

    [null] is whether the pool argument is NULL, [alloc] what aligned_alloc
    answers to a request of that many bytes. *)
Definition pool_try_get (os : os_t) (alloc : Z → option nat) (null : bool) : M pool_t (cres nat) :=
  if null then mret (Err EINVAL)
  else
    rc_ok (os (MutexLock 0));;
    f ← gets free_list;
    match f with
    | Some b =>
        pop_free b;;
        rc_ok (os (MutexUnlock 0));;
        mret (Ok b)
    | None =>
        full ← gets exhausted;
        if full : bool then
          rc_ok (os (MutexUnlock 1));;
          mret (Err EAGAIN)
        else
          modify alloc_begin;;
          rc_ok (os (MutexUnlock 2));;
          size ← gets block_size;
          match alloc (block_alloc_size size) with
          | None =>
              modify alloc_fail;;
              mret (Err ENOMEM)
          | Some b =>
              rc_ok (os (MutexLock 1));;
              modify (alloc_done b);;
              rc_ok (os (MutexUnlock 3));;
              mret (Ok b)
          end
    end.

(** One turn of the loop of pool_wait_get; [Block] is the thread asleep in
    pthread_cond_wait, from where it goes round again. *)
Definition pool_wait_get (os : os_t) (alloc : Z → option nat) (null : bool) : M pool_t (cres nat) :=
  if null then mret (Err EINVAL)
  else
    rc_ok (os (MutexLock 0));;
    f ← gets free_list;
    match f with
    | Some b =>
        pop_free b;;
        rc_ok (os (MutexUnlock 0));;
        mret (Ok b)
    | None =>
        p ← gets id;
        if (cap p =? 0) || (total_blocks p <? cap p) then
          modify alloc_begin;;
          rc_ok (os (MutexUnlock 1));;
          size ← gets block_size;
          match alloc (block_alloc_size size) with
          | None =>
              modify alloc_fail;;
              mret (Err ENOMEM)
          | Some b =>
              rc_ok (os (MutexLock 1));;
              modify (alloc_done b);;
              rc_ok (os (MutexUnlock 2));;
              mret (Ok b)
          end
        else
          rc_ok (os CondWait);;
          block
    end.

Definition pool_put (os : os_t) (ptr : option nat) : M pool_t () :=
  match ptr with
  | None => mret ()
  | Some b =>
      rc_ok (os (MutexLock 0));;
      push_free b;;
      rc_ok (os CondSignal);;
      rc_ok (os (MutexUnlock 0));;
      mret ()
  end.

(** The loop that frees the free list; [n] bounds its turns. *)
Fixpoint free_blocks (n : nat) (b : option nat) (h : gmap nat pool_block_t)
    : option (gmap nat pool_block_t) :=
  match b with
  | None => Some h
  | Some b =>
      match n with
      | O => None
      | S n => blk ← h !! b; free_blocks n (next blk) (delete b h)
      end
  end.

Definition pool_destroy (os : os_t) (null : bool) : M pool_t Z :=
  if null then mret (- EINVAL)
  else
    rc_ok (os (MutexLock 0));;
    rc_ok (os (MutexUnlock 0));;
    rc_ok (os CondDestroy);;
    rc_ok (os MutexDestroy);;
    p ← gets id;
    match free_blocks (S (size (heap p))) (free_list p) (heap p) with
    | None => fatal
    | Some h => modify (λ _, PoolT 0 0 0 0 None h);; mret 0
    end.

Definition pool_get_used (os : os_t) (null : bool) : M pool_t (cres Z) :=
  if null then mret (Err EINVAL)
  else
    rc_ok (os (MutexLock 0));;
    n ← gets in_use;
    rc_ok (os (MutexUnlock 0));;
    mret (Ok n).

(** ** Representation invariant

    [chain h hd l]: from [hd] the [next] pointers run through the blocks [l]. *)
Fixpoint chain (h : gmap nat pool_block_t) (hd : option nat) (l : list nat) : Prop :=
  match l with
  | [] => hd = None
  | b :: l => hd = Some b ∧ ∃ blk, h !! b = Some blk ∧ chain h (next blk) l
  end.

(** [pool_inv k p fl]: the free blocks of [p] are [fl] from the top of the
    stack, and [k] threads are inside aligned_alloc. *)
Record pool_inv (k : Z) (p : pool_t) (fl : list nat) : Prop := {
  inv_chain : chain (heap p) (free_list p) fl;
  inv_nodup : NoDup fl;
  inv_used : in_use p = Z.of_nat (size (heap p)) - Z.of_nat (length fl);
  inv_total : total_blocks p = u64 (Z.of_nat (size (heap p)) + k);
  inv_cap : cap p ≠ 0 → 0 < cap p ≤ SIZE_MAX ∧ Z.of_nat (size (heap p)) + k ≤ cap p;
  inv_k : 0 ≤ k;
  inv_owner : ∀ b blk, heap p !! b = Some blk → owner blk = true
}.

(** The blocks the callers hold. *)
Definition held (p : pool_t) (fl : list nat) : gset nat := dom (heap p) ∖ list_to_set fl.

Lemma chain_lookup h hd l b : chain h hd l → b ∈ l → is_Some (h !! b).
Proof.
  revert hd. induction l as [|c l IH]; intros hd Hc Hb; [by apply not_elem_of_nil in Hb|].
  destruct Hc as (-> & blk & Hblk & Hc). apply elem_of_cons in Hb as [->|Hb]; eauto.
Qed.

Lemma chain_insert h hd l b x : chain h hd l → b ∉ l → chain (<[b:=x]> h) hd l.
Proof.
  revert hd. induction l as [|c l IH]; intros hd; simpl; [done|].
  intros (-> & blk & Hblk & Hc) [Hne Hnb]%not_elem_of_cons. split; [done|]. exists blk.
  split; [by rewrite lookup_insert_ne|]. by apply IH.
Qed.

Lemma chain_delete h hd l b : chain h hd l → b ∉ l → chain (delete b h) hd l.
Proof.
  revert hd. induction l as [|c l IH]; intros hd; simpl; [done|].
  intros (-> & blk & Hblk & Hc) [Hne Hnb]%not_elem_of_cons. split; [done|]. exists blk.
  split; [by rewrite lookup_delete_ne|]. by apply IH.
Qed.

Lemma size_insert_Some {A} (h : gmap nat A) b x : is_Some (h !! b) → size (<[b:=x]> h) = size h.
Proof. intros [y Hy]. rewrite map_size_insert. by rewrite Hy. Qed.

Lemma dom_insert_Some {A} (h : gmap nat A) b x :
  is_Some (h !! b) → dom (<[b:=x]> h) = dom h.
Proof. intros H%elem_of_dom. rewrite dom_insert_L. set_solver. Qed.

Lemma chain_length_size h hd l : chain h hd l → NoDup l → (length l ≤ size h)%nat.
Proof.
  intros Hc Hl. rewrite <- (size_list_to_set (C := gset nat) l) by done.
  rewrite <- size_dom. apply subseteq_size. intros b Hb%elem_of_list_to_set.
  apply elem_of_dom. by eapply chain_lookup.
Qed.

Lemma held_elem p fl b : b ∈ held p fl ↔ is_Some (heap p !! b) ∧ b ∉ fl.
Proof. unfold held. rewrite elem_of_difference, elem_of_dom, elem_of_list_to_set. done. Qed.

(** The number of blocks checked out is the size of the set of those blocks. *)
Lemma inv_used_held k p fl : pool_inv k p fl → in_use p = Z.of_nat (size (held p fl)).
Proof.
  intros [Hc Hl Hu _ _ _ _]. unfold held. rewrite size_difference.
  - rewrite size_dom, size_list_to_set by done. pose proof (chain_length_size _ _ _ Hc Hl). lia.
  - intros b Hb%elem_of_list_to_set. apply elem_of_dom. by eapply chain_lookup.
Qed.

Lemma pop_free_inv k p b fl :
  pool_inv k p (b :: fl) →
  ∃ p', pop_free b p = Ret () p' ∧ pool_inv k p' fl ∧ free_list p = Some b ∧
    dom (heap p') = dom (heap p) ∧ cap p' = cap p ∧ block_size p' = block_size p.
Proof.
  intros [Hc [Hb Hl]%NoDup_cons Hu Ht Hcap Hk Ho]. destruct Hc as (Hhd & blk & Hblk & Hc).
  eexists. unfold pop_free. rewrite Hblk. split; [done|].
  assert (Hs : size (<[b:=PoolBlock (next blk) true]> (heap p)) = size (heap p))
    by (by apply size_insert_Some).
  split; [|split_and!; simpl; try done; by apply dom_insert_Some].
  split; simpl; try done; rewrite ?Hs; try done.
  - by apply chain_insert.
  - rewrite Hu. simpl. lia.
  - intros b' blk' [[<- <-]|[? ?]]%lookup_insert_Some; [done|eauto].
Qed.

Lemma push_free_inv k p b fl :
  pool_inv k p fl → b ∈ held p fl →
  ∃ p', push_free b p = Ret () p' ∧ pool_inv k p' (b :: fl) ∧
    dom (heap p') = dom (heap p) ∧ cap p' = cap p ∧ block_size p' = block_size p.
Proof.
  intros Hinv Hb. pose proof (inv_used_held _ _ _ Hinv) as Hheld.
  pose proof Hb as [[blk Hblk] Hnb]%held_elem. destruct Hinv as [Hc Hl Hu Ht Hcap Hk Ho].
  assert (0 < in_use p).
  { assert (size (held p fl) ≠ 0%nat); [|lia]. apply size_non_empty_iff. set_solver. }
  eexists. unfold push_free. rewrite Hblk. cbv zeta. cbn [in_use set_in_use].
  destruct (Z.ltb_spec (in_use p - 1) 0); [lia|]. split; [done|].
  assert (Hs : ∀ x, size (<[b:=x]> (heap p)) = size (heap p)) by (intros; by apply size_insert_Some).
  split; [|split_and!; simpl; try done; by apply dom_insert_Some].
  split; simpl; try done; rewrite ?Hs; try done.
  - split; [done|]. eexists. split; [apply lookup_insert_eq|]. by apply chain_insert.
  - by constructor.
  - lia.
  - intros b' blk' [[<- <-]|[? ?]]%lookup_insert_Some; [simpl; by eapply Ho|eauto].
Qed.

Lemma exhausted_spec k p fl :
  pool_inv k p fl → exhausted p = true ↔ cap p ≠ 0 ∧ cap p = Z.of_nat (size (heap p)) + k.
Proof.
  intros [_ _ _ Ht Hcap Hk _]. unfold exhausted. rewrite andb_true_iff, negb_true_iff, Z.eqb_neq, Z.leb_le.
  rewrite Ht. split.
  - intros [H0 Hle]. split; [done|]. specialize (Hcap H0). unfold SIZE_MAX in Hcap.
    rewrite u64_small in Hle by lia. lia.
  - intros [H0 E]. split; [done|]. specialize (Hcap H0). unfold SIZE_MAX in Hcap.
    rewrite u64_small by lia. lia.
Qed.

Lemma exhausted_false p :
  0 ≤ cap p → exhausted p = false ↔ (cap p =? 0) || (total_blocks p <? cap p) = true.
Proof.
  intros Hc. unfold exhausted.
  destruct (Z.eqb_spec (cap p) 0), (Z.leb_spec (cap p) (total_blocks p)),
    (Z.ltb_spec (total_blocks p) (cap p)); simpl; try done; lia.
Qed.

Lemma alloc_begin_inv k p fl :
  pool_inv k p fl → exhausted p = false → pool_inv (k + 1) (alloc_begin p) fl.
Proof.
  intros Hinv Hex. pose proof (exhausted_spec _ _ _ Hinv) as Hiff. rewrite Hex in Hiff.
  destruct Hinv as [Hc Hl Hu Ht Hcap Hk Ho]. split; simpl; try done.
  - rewrite Ht, u64_add_l. f_equal. lia.
  - intros H0. specialize (Hcap H0). split; [lia|].
    destruct (Z.eq_dec (cap p) (Z.of_nat (size (heap p)) + k)); [naive_solver|lia].
  - lia.
Qed.

Lemma alloc_fail_inv k p fl : 0 ≤ k → pool_inv (k + 1) p fl → pool_inv k (alloc_fail p) fl.
Proof.
  intros Hk' [Hc Hl Hu Ht Hcap Hk Ho]. split; simpl; try done.
  - rewrite Ht, u64_sub_l. f_equal. lia.
  - intros H0. specialize (Hcap H0). lia.
Qed.

Lemma alloc_done_inv k p fl b :
  0 ≤ k → pool_inv (k + 1) p fl → heap p !! b = None → pool_inv k (alloc_done b p) fl.
Proof.
  intros Hk' [Hc Hl Hu Ht Hcap Hk Ho] Hb.
  assert (Hs : ∀ x, size (<[b:=x]> (heap p)) = S (size (heap p)))
    by (intros; by apply map_size_insert_None).
  assert (b ∉ fl). { intros H. apply (chain_lookup _ _ _ _ Hc) in H as [? ?]. congruence. }
  split; simpl; rewrite ?Hs; try done.
  - by apply chain_insert.
  - lia.
  - rewrite Ht. f_equal. lia.
  - intros H0. specialize (Hcap H0). lia.
  - intros b' blk' [[<- <-]|[? ?]]%lookup_insert_Some; [done|eauto].
Qed.

(** ** The functions on a quiet pool

    [posix_ok]: every pthread call on these initialised objects returns 0. *)
(** aligned_alloc returns memory that is not in use. *)
Definition fresh_alloc (alloc : Z → option nat) (p : pool_t) : Prop :=
  ∀ sz b, alloc sz = Some b → heap p !! b = None.

(** What either checkout does with a free block, and with room for a new one. *)
Inductive got (alloc : Z → option nat) (p : pool_t) : list nat → cres nat → pool_t → list nat → Prop :=
| GotFree b fl p' :
    pool_inv 0 p' fl → held p' fl = {[b]} ∪ held p (b :: fl) → b ∉ held p (b :: fl) →
    got alloc p (b :: fl) (Ok b) p' fl
| GotNew b p' :
    exhausted p = false → alloc (block_alloc_size (block_size p)) = Some b →
    pool_inv 0 p' [] → held p' [] = {[b]} ∪ held p [] → b ∉ held p [] →
    got alloc p [] (Ok b) p' []
| GotNoMem p' :
    exhausted p = false → alloc (block_alloc_size (block_size p)) = None →
    pool_inv 0 p' [] → held p' [] = held p [] →
    got alloc p [] (Err ENOMEM) p' [].

Lemma pop_free_held k p b fl p' :
  pool_inv k p (b :: fl) → dom (heap p') = dom (heap p) →
  (b ∉ held p (b :: fl)) ∧ held p' fl = {[b]} ∪ held p (b :: fl).
Proof.
  intros Hinv Hdom. pose proof (inv_nodup _ _ _ Hinv) as [Hb Hl]%NoDup_cons.
  assert (b ∈ dom (heap p)).
  { apply elem_of_dom. eapply chain_lookup; [apply (inv_chain _ _ _ Hinv)|]. set_solver. }
  unfold held. rewrite Hdom. split; [set_solver|].
  apply set_eq. intros c. destruct (decide (c = b)) as [->|]; set_solver.
Qed.

Lemma pop_free_got alloc p b fl p' :
  pool_inv 0 p (b :: fl) → pool_inv 0 p' fl → dom (heap p') = dom (heap p) →
  got alloc p (b :: fl) (Ok b) p' fl.
Proof.
  intros Hinv Hinv' Hdom. destruct (pop_free_held _ _ _ _ _ Hinv Hdom). by constructor.
Qed.

Lemma alloc_done_held k b p fl :
  pool_inv k p fl → heap p !! b = None →
  (b ∉ held p fl) ∧ held (alloc_done b p) fl = {[b]} ∪ held p fl.
Proof.
  intros Hinv Hb. assert (b ∉ dom (heap p)) by (by apply not_elem_of_dom).
  assert (b ∉ fl).
  { intros H'. apply (chain_lookup _ _ _ _ (inv_chain _ _ _ Hinv)) in H' as [? ?]. congruence. }
  unfold held. simpl. rewrite dom_insert_L. split; [set_solver|].
  apply set_eq. intros c. destruct (decide (c = b)) as [->|]; set_solver.
Qed.

Lemma alloc_done_got alloc p b :
  pool_inv 0 p [] → exhausted p = false → fresh_alloc alloc p →
  alloc (block_alloc_size (block_size p)) = Some b →
  got alloc p [] (Ok b) (alloc_done b (alloc_begin p)) [].
Proof.
  intros Hinv Hex Hfresh Ha. pose proof (Hfresh _ _ Ha) as Hb.
  constructor; [done..| | |].
  - apply alloc_done_inv; [done| |done]. by apply alloc_begin_inv.
  - unfold held. simpl. rewrite dom_insert_L. set_solver.
  - unfold held. rewrite elem_of_difference, elem_of_dom, Hb. by intros [[? ?] _].
Qed.

Lemma alloc_fail_got alloc p :
  pool_inv 0 p [] → exhausted p = false →
  alloc (block_alloc_size (block_size p)) = None →
  got alloc p [] (Err ENOMEM) (alloc_fail (alloc_begin p)) [].
Proof.
  intros Hinv Hex Ha. constructor; try done.
  apply alloc_fail_inv; [done|]. by apply alloc_begin_inv.
Qed.

Section sequential.
Context (os : os_t) (Hos : posix_ok os).

Lemma pool_try_get_run alloc p fl :
  pool_inv 0 p fl → fresh_alloc alloc p →
  (exhausted p = true ∧ fl = [] ∧ pool_try_get os alloc false p = Ret (Err EAGAIN) p) ∨
  ∃ r p' fl', pool_try_get os alloc false p = Ret r p' ∧ got alloc p fl r p' fl'.
Proof.
  intros Hinv Hfresh. pose proof (inv_chain _ _ _ Hinv) as Hc. unfold pool_try_get.
  unfold mbind, M_bind, gets, modify. rewrite !(rc_ok_posix os) by done. destruct fl as [|b fl].
  - simpl in Hc. rewrite Hc. destruct (exhausted p) eqn:Hex.
    { left. rewrite !(rc_ok_posix os) by done. done. }
    right. rewrite !(rc_ok_posix os) by done.
    change (block_size (alloc_begin p)) with (block_size p).
    destruct (alloc _) as [b|] eqn:Ha.
    + rewrite !(rc_ok_posix os) by done. eexists _, _, []. split; [done|]. by apply alloc_done_got.
    + eexists _, _, []. split; [done|]. by apply alloc_fail_got.
  - right. destruct (pop_free_inv _ _ _ _ Hinv) as (p' & E & Hinv' & Hhd & Hdom & _).
    rewrite Hhd. rewrite E. rewrite !(rc_ok_posix os) by done. eexists _, _, fl.
    split; [done|]. by apply pop_free_got.
Qed.

(** Away from the cap the blocking checkout is the other one. *)
Lemma pool_wait_get_eq alloc p :
  0 ≤ cap p →
  pool_wait_get os alloc false p =
  match free_list p with
  | None => if exhausted p then Block p else pool_try_get os alloc false p
  | Some _ => pool_try_get os alloc false p
  end.
Proof.
  intros Hcap. unfold pool_wait_get, pool_try_get, mbind, M_bind, gets, modify, id.
  rewrite !(rc_ok_posix os) by done. destruct (free_list p) as [b|]; [done|].
  pose proof (exhausted_false p Hcap) as Hiff.
  destruct ((cap p =? 0) || (total_blocks p <? cap p)), (exhausted p);
    try (exfalso; naive_solver).
  - rewrite !(rc_ok_posix os) by done. destruct (alloc _); [|done].
    by rewrite !(rc_ok_posix os) by done.
  - by rewrite !(rc_ok_posix os) by done.
Qed.

Lemma pool_put_run p fl b :
  pool_inv 0 p fl → b ∈ held p fl →
  ∃ p', pool_put os (Some b) p = Ret () p' ∧ pool_inv 0 p' (b :: fl) ∧
    held p' (b :: fl) = held p fl ∖ {[b]}.
Proof.
  intros Hinv Hb. destruct (push_free_inv _ _ _ _ Hinv Hb) as (p' & E & Hinv' & Hdom & _).
  exists p'. unfold pool_put, mbind, M_bind. rewrite !(rc_ok_posix os) by done.
  rewrite E. rewrite !(rc_ok_posix os) by done. split; [done|]. split; [done|].
  unfold held. rewrite Hdom. set_solver.
Qed.
End sequential.

(** The checkouts hand out each block to one holder: on a well-formed pool
    with room, [pool_try_get] and [pool_wait_get] both return the top of the
    free stack, or else a fresh block of the allocator, in either case one no
    caller holds, and record it as held; when the allocator fails they return
    ENOMEM with the accounting restored; at the cap, with nothing free,
    pool_try_get returns EAGAIN and pool_wait_get goes to sleep, both without
    touching the pool. *)
Theorem pool_get_spec os alloc p fl :
  posix_ok os → pool_inv 0 p fl → fresh_alloc alloc p → 0 ≤ cap p →
  if exhausted p && bool_decide (fl = []) then
    pool_try_get os alloc false p = Ret (Err EAGAIN) p ∧
    pool_wait_get os alloc false p = Block p
  else
    ∃ r p' fl', pool_try_get os alloc false p = Ret r p' ∧
      pool_wait_get os alloc false p = Ret r p' ∧ got alloc p fl r p' fl'.
Proof.
  intros Hos Hinv Hfresh Hcap. rewrite (pool_wait_get_eq os Hos) by done.
  pose proof (inv_chain _ _ _ Hinv) as Hc.
  destruct (pool_try_get_run os Hos alloc p fl Hinv Hfresh) as [(Hex & -> & E)|(r & p' & fl' & E & Hg)].
  - simpl in Hc. by rewrite Hex, Hc.
  - assert (Hb : fl = [] → exhausted p = false) by (intros ->; by inversion Hg).
    destruct fl as [|b fl].
    + simpl in Hc. rewrite Hc, (Hb eq_refl). simpl. eauto 10.
    + destruct Hc as [-> _]. rewrite bool_decide_eq_false_2, andb_false_r by done. eauto 10.
Qed.

(** A pool of capacity 2 from which block 7 was taken and returned. *)
Definition sample_pool : pool_t :=
  PoolT 2048 2 1 0 (Some 7%nat) {[7%nat := PoolBlock None true]}.

Lemma sample_pool_inv : pool_inv 0 sample_pool [7%nat].
Proof.
  split; simpl; try done.
  - split; [done|]. by exists (PoolBlock None true).
  - apply NoDup_singleton.
  - intros b blk [<- <-]%lookup_singleton_Some. done.
Qed.

Lemma pool_get_spec_witness :
  pool_inv 0 sample_pool [7%nat] ∧
  ∃ r p', pool_try_get os_posix (λ _, None) false sample_pool = Ret r p'.
Proof.
  split; [exact sample_pool_inv|].
  destruct (pool_get_spec os_posix (λ _, None) sample_pool [7%nat]) as (r & p' & fl' & E & _);
    [done|exact sample_pool_inv|done|done|]. eauto.
Defined.

(** [pool_put] of a block a caller holds makes it the top of the free
    stack and nothing else changes hands; the next checkout returns exactly
    that block and leaves the stack as it was (LIFO).  NULL is ignored, and a
    return while no block is checked out aborts the process. *)
Theorem pool_put_spec os alloc p fl b :
  posix_ok os → pool_inv 0 p fl →
  pool_put os None p = Ret () p ∧
  (in_use p = 0 → pool_put os (Some b) p = Fatal p ∨
                  pool_put os (Some b) p = Fatal (set_in_use (-1) p)) ∧
  (b ∈ held p fl → ∃ p' p'',
     pool_put os (Some b) p = Ret () p' ∧ pool_inv 0 p' (b :: fl) ∧
     held p' (b :: fl) = held p fl ∖ {[b]} ∧
     pool_try_get os alloc false p' = Ret (Ok b) p'' ∧ pool_inv 0 p'' fl ∧
     held p'' fl = held p fl).
Proof.
  intros Hos Hinv. split; [done|]. split.
  { intros H0. unfold pool_put, mbind, M_bind. rewrite !(rc_ok_posix os) by done.
    unfold push_free. destruct (heap p !! b); [|by left].
    cbv zeta. cbn [in_use set_in_use]. rewrite H0. by right. }
  intros Hb. destruct (pool_put_run os Hos p fl b Hinv Hb) as (p' & E & Hinv' & Hheld).
  destruct (pop_free_inv _ _ _ _ Hinv') as (p'' & E2 & Hinv2 & Hhd & Hdom & _).
  exists p', p''. do 3 (split; [done|]). split; [|split; [done|]].
  - unfold pool_try_get, mbind, M_bind, gets. rewrite !(rc_ok_posix os) by done.
    rewrite Hhd, E2. by rewrite !(rc_ok_posix os) by done.
  - pose proof (inv_nodup _ _ _ Hinv') as [Hnb _]%NoDup_cons.
    pose proof (pop_free_got (λ _, None) p' b fl p'' Hinv' Hinv2 Hdom) as Hg.
    inversion Hg as [? ? ? _ Hh _| |]; subst. rewrite Hh, Hheld. apply set_eq. intros c. destruct (decide (c = b)) as [->|]; set_solver.
Qed.

(** The pool after block 7 was checked out. *)
Definition sample_pool_out : pool_t :=
  PoolT 2048 2 1 1 None {[7%nat := PoolBlock None true]}.

Lemma pool_put_spec_witness :
  pool_inv 0 sample_pool_out [] ∧ 7%nat ∈ held sample_pool_out [] ∧
  ∃ p', pool_put os_posix (Some 7%nat) sample_pool_out = Ret () p'.
Proof.
  assert (H : pool_inv 0 sample_pool_out []).
  { split; simpl; try done; [constructor|].
    intros b blk [<- <-]%lookup_singleton_Some. done. }
  assert (Hb : 7%nat ∈ held sample_pool_out []) by (apply (bool_decide_unpack _); by vm_compute).
  split; [exact H|]. split; [exact Hb|].
  destruct (pool_put_spec os_posix (λ _, None) sample_pool_out [] 7 os_posix_ok H) as (_ & _ & Hp).
  destruct (Hp Hb) as (p' & _ & E & _). eauto.
Defined.

(** Returning a block twice while another is out goes unnoticed, and the next
    two checkouts return the same block. *)
Example double_put_aliases :
  let p := PoolT 8 0 2 2 None {[1%nat := PoolBlock None true; 2%nat := PoolBlock None true]} in
  ∃ q q' q'',
    pool_put os_posix (Some 1%nat) p = Ret () q ∧ pool_put os_posix (Some 1%nat) q = Ret () q' ∧
    ∃ q3, pool_try_get os_posix (λ _, None) false q' = Ret (Ok 1%nat) q3 ∧
          pool_try_get os_posix (λ _, None) false q3 = Ret (Ok 1%nat) q''.
Proof. do 3 eexists. split; [reflexivity|]. split; [reflexivity|]. eexists. split; reflexivity. Qed.

(** ** Block sizes *)

Lemma align_up_64 x : 0 ≤ x < 2 ^ 64 - 63 →
  x ≤ ALIGN_UP x 64 < x + 64 ∧ ALIGN_UP x 64 mod 64 = 0.
Proof.
  intros Hx. unfold ALIGN_UP. rewrite u64_small by lia.
  replace (u64 (Z.lnot (64 - 1))) with (Z.shiftl (Z.ones 58) 6) by (vm_compute; done).
  change (Z.ones 58) with (Z.ones (64 - 6)). rewrite land_high by lia. change (x + (64 - 1)) with (x + 63).
  change (2 ^ 6) with 64.
  pose proof (Z.div_mod (x + 63) 64 ltac:(lia)). pose proof (Z.mod_pos_bound (x + 63) 64 ltac:(lia)).
  split; [lia|]. rewrite Z.mul_comm. apply Z.mod_mul. lia.
Qed.

(** Every block is requested with room for its header and payload, at a
    multiple of the 64-byte alignment and less than 64 bytes larger, for every
    payload size up to SIZE_MAX - 79; for the larger sizes that pool_init
    still accepts the rounding wraps around and the code requests 0 bytes. *)
Theorem block_alloc_size_bounds os bsize capacity :
  posix_ok os → 0 ≤ bsize ≤ SIZE_MAX →
  (0 < bsize ≤ SIZE_MAX - 79 →
     bsize + sizeof_pool_block_t ≤ block_alloc_size bsize < bsize + sizeof_pool_block_t + 64 ∧
     block_alloc_size bsize mod 64 = 0) ∧
  (SIZE_MAX - 79 < bsize ≤ SIZE_MAX - sizeof_pool_block_t → block_alloc_size bsize = 0) ∧
  (pool_init os true bsize capacity =
     if decide (0 < bsize ≤ SIZE_MAX - sizeof_pool_block_t)
     then Ok (PoolT bsize capacity 0 0 None ∅) else Err EINVAL).
Proof.
  unfold sizeof_pool_block_t, SIZE_MAX. intros Hos Hb. unfold block_alloc_size, sizeof_pool_block_t.
  split; [|split].
  - intros H. rewrite u64_small by lia. pose proof (align_up_64 (16 + bsize)). lia.
  - intros H. rewrite u64_small by lia. unfold ALIGN_UP.
    replace (u64 (16 + bsize + (64 - 1))) with (16 + bsize + 63 - 2 ^ 64).
    2:{ unfold u64, wrap. apply (Z.mod_unique _ _ 1); lia. }
    replace (u64 (Z.lnot (64 - 1))) with (Z.shiftl (Z.ones 58) 6) by (vm_compute; done).
    assert (Hs : 0 ≤ 16 + bsize + 63 - 2 ^ 64 < 64) by lia. revert Hs.
    generalize (16 + bsize + 63 - 2 ^ 64). intros y Hy. apply Z.bits_inj'. intros n Hn.
    rewrite Z.land_spec, Z.bits_0, Z.shiftl_spec by done. destruct (Z.ltb_spec (n - 6) 0).
    + rewrite (Z.testbit_neg_r _ (n - 6)) by lia. apply andb_false_r.
    + destruct (Z.eq_dec y 0) as [->|]; [by rewrite Z.bits_0|].
      rewrite (Z.bits_above_log2 y); [done|lia|].
      apply (Z.lt_le_trans _ 6); [apply Z.log2_lt_pow2; lia|lia].
  - unfold pool_init, sizeof_pool_block_t, SIZE_MAX. rewrite !Hos. simpl.
    case_decide; destruct (Z.eqb_spec bsize 0), (Z.ltb_spec (2 ^ 64 - 1 - 16) bsize); try done; lia.
Qed.

Lemma block_alloc_size_bounds_witness :
  0 ≤ 2056 ≤ SIZE_MAX ∧ 2056 + 16 ≤ block_alloc_size 2056 ∧
  block_alloc_size (2 ^ 64 - 17) = 0.
Proof.
  split; [by vm_compute|].
  destruct (block_alloc_size_bounds os_posix 2056 0 os_posix_ok) as (H & _); [by vm_compute|].
  destruct (block_alloc_size_bounds os_posix (2 ^ 64 - 17) 0 os_posix_ok) as (_ & H2 & _);
    [by vm_compute|].
  split; [apply H; by vm_compute|]. apply H2. by vm_compute.
Defined.

(** ** Destroy *)

Lemma free_blocks_spec n hd h l :
  chain h hd l → NoDup l → (length l ≤ n)%nat →
  ∃ h', free_blocks n hd h = Some h' ∧ dom h' = dom h ∖ list_to_set l ∧
        ∀ b, b ∉ l → h' !! b = h !! b.
Proof.
  revert n hd h. induction l as [|b l IH]; intros n hd h Hc Hl Hn.
  { simpl in Hc. subst hd. exists h. split; [by destruct n|]. split; [set_solver|done]. }
  destruct Hc as (-> & blk & Hblk & Hc). apply NoDup_cons in Hl as [Hb Hl].
  destruct n as [|n]; simpl in Hn; [lia|]. simpl. rewrite Hblk. simpl.
  destruct (IH n (next blk) (delete b h)) as (h' & E & Hdom & Hlk);
    [by apply chain_delete|done|lia|].
  exists h'. split; [done|]. split.
  - rewrite Hdom, dom_delete_L. set_solver.
  - intros c [Hne Hc']%not_elem_of_cons. rewrite Hlk by done. by rewrite lookup_delete_ne.
Qed.

(** [pool_destroy] always comes to the end of the free list; it frees the free
    blocks and exactly those, so the blocks still checked out leak. *)
Lemma pool_destroy_spec os p k fl :
  posix_ok os → pool_inv k p fl →
  ∃ h, pool_destroy os false p = Ret 0 (PoolT 0 0 0 0 None h) ∧ dom h = held p fl.
Proof.
  intros Hos Hinv. pose proof (inv_chain _ _ _ Hinv) as Hc. pose proof (inv_nodup _ _ _ Hinv) as Hl.
  pose proof (chain_length_size _ _ _ Hc Hl).
  destruct (free_blocks_spec (S (size (heap p))) (free_list p) (heap p) fl) as (h & E & Hdom & _);
    [done|done|lia|].
  exists h. unfold pool_destroy, mbind, M_bind, gets, modify, id.
  rewrite !(rc_ok_posix os) by done. rewrite E. done.
Qed.

(** ** The pool as an object pool *)

Fixpoint walk (n : nat) (hd : option nat) (h : gmap nat pool_block_t) : list nat :=
  match n, hd with
  | S n, Some b => b :: match h !! b with Some blk => walk n (next blk) h | None => [] end
  | _, _ => []
  end.

Lemma walk_chain n hd h l : chain h hd l → (length l ≤ n)%nat → walk n hd h = l.
Proof.
  revert n hd. induction l as [|b l IH]; intros n hd Hc Hn.
  { simpl in Hc. subst. by destruct n. }
  destruct Hc as (-> & blk & Hblk & Hc). destruct n as [|n]; simpl in Hn; [lia|].
  simpl. rewrite Hblk. f_equal. apply IH; [done|lia].
Qed.

Definition free_blocks_of (p : pool_t) : list nat := walk (size (heap p)) (free_list p) (heap p).

Lemma free_blocks_of_inv k p fl : pool_inv k p fl → free_blocks_of p = fl.
Proof.
  intros Hinv. pose proof (inv_chain _ _ _ Hinv). pose proof (inv_nodup _ _ _ Hinv).
  apply walk_chain; [done|]. by eapply chain_length_size.
Qed.

Lemma got_law alloc p fl r p' fl' :
  got alloc p fl r p' fl' →
  pool_inv 0 p' fl' ∧
  match r with
  | Ok b => (b ∉ held p fl) ∧ held p' fl' = {[b]} ∪ held p fl
  | Err _ => held p' fl' = held p fl
  end.
Proof. by inversion 1; subst. Qed.

(** The operations as the client sees them: the checked-out object, or NULL. *)
Definition pool_get_obj (alloc : Z → option nat) (p : pool_t) : option (option nat * pool_t) :=
  match pool_try_get os_posix alloc false p with
  | Ret (Ok b) p => Some (Some b, p)
  | Ret (Err _) p => Some (None, p)
  | Fatal _ => None
  | Block _ => None
  end.

Definition pool_put_obj (b : nat) (p : pool_t) : option pool_t :=
  match pool_put os_posix (Some b) p with
  | Ret _ p => Some p
  | Fatal _ => None
  | Block _ => None
  end.

Definition pool_held (p : pool_t) : gset nat := held p (free_blocks_of p).
Definition pool_ok (p : pool_t) : Prop := ∃ fl, pool_inv 0 p fl.

Lemma pool_get_law p alloc :
  pool_ok p → fresh_alloc alloc p →
  ∃ r p', pool_get_obj alloc p = Some (r, p') ∧ pool_ok p' ∧
    match r with
    | Some b => (b ∉ pool_held p) ∧ pool_held p' = {[b]} ∪ pool_held p
    | None => pool_held p' = pool_held p
    end.
Proof.
  intros [fl Hinv] Hf. unfold pool_get_obj, pool_held. rewrite (free_blocks_of_inv _ _ _ Hinv).
  destruct (pool_try_get_run _ os_posix_ok alloc p fl Hinv Hf)
    as [(Hex & -> & E)|(r & p' & fl' & E & [Hinv' Hr]%got_law)]; rewrite E.
  - exists None, p. split; [done|]. split; [by exists []|].
    by rewrite (free_blocks_of_inv _ _ _ Hinv).
  - destruct r as [b|e]; eexists _, p'; (split; [done|]); (split; [by exists fl'|]);
      rewrite (free_blocks_of_inv _ _ _ Hinv'); done.
Qed.

Lemma pool_put_law p b :
  pool_ok p → b ∈ pool_held p →
  ∃ p', pool_put_obj b p = Some p' ∧ pool_ok p' ∧ pool_held p' = pool_held p ∖ {[b]}.
Proof.
  intros [fl Hinv]. unfold pool_put_obj, pool_held.
  rewrite (free_blocks_of_inv _ _ _ Hinv). intros Hb.
  destruct (pool_put_run _ os_posix_ok p fl b Hinv Hb) as (p' & E & Hinv' & Hheld).
  exists p'. rewrite E. split; [done|]. split; [by eexists|].
  by rewrite (free_blocks_of_inv _ _ _ Hinv').
Qed.

(** The pool as [pool_init] makes it. *)
Lemma new_pool_inv bsize capacity :
  0 ≤ capacity ≤ SIZE_MAX → pool_inv 0 (PoolT bsize capacity 0 0 None ∅) [].
Proof.
  intros Hc. split; cbn [heap free_list in_use total_blocks cap].
  - reflexivity.
  - apply NoDup_nil. exact I.
  - reflexivity.
  - reflexivity.
  - intros Hn. rewrite map_size_empty. lia.
  - lia.
  - intros b blk Hb. rewrite lookup_empty in Hb. discriminate.
Qed.
Lemma new_pool_ok bsize capacity : 0 ≤ capacity ≤ SIZE_MAX → pool_ok (PoolT bsize capacity 0 0 None ∅).
Proof. intros Hc. exists []. by apply new_pool_inv. Qed.
Lemma new_pool_held bsize capacity : pool_held (PoolT bsize capacity 0 0 None ∅) = ∅.
Proof. unfold pool_held, held. cbn [heap]. set_solver. Qed.

#[export] Instance pool_objpool : ObjPool pool_t := {|
  op_ok := pool_ok;
  op_held := pool_held;
  op_fresh := fresh_alloc;
  op_get := pool_get_obj;
  op_put := pool_put_obj;
  op_get_law := pool_get_law;
  op_put_law := pool_put_law
|}.
