(* ===== verification/PoolConc.v ===== *)
(** * pool.h: the object pool under concurrency

    Any number of threads run pool_try_get, pool_wait_get and pool_put.  A
    step is one critical section, which the pool's mutex makes atomic; between
    two of them a thread is inside aligned_alloc ([PAlloc]) or asleep in
    pthread_cond_wait ([PWaiting]).  Waiters wake only when signalled:
    [wakes] counts the delivered signals no waiter has consumed yet. *)
From stdpp Require Import prelude gmap sets.
From Stdlib Require Import ZArith Lia.
From S2P Require Import Prelude ObjPool Pool.

Inductive pc :=
| PIdle
| PAlloc
| PWaiting
| PAborted.

Inductive act :=
| ATry                    (* call pool_try_get *)
| AWait                   (* call pool_wait_get *)
| AMalloc (r : option nat)  (* aligned_alloc returns *)
| APut (b : nat)          (* call pool_put on a block that is checked out *)
| AWake.                  (* a signalled waiter takes the lock again *)

Record shared := Shared { pl : pool_t; waiters : Z; wakes : Z }.

Definition set_pool (p : pool_t) (s : shared) : shared := Shared p (waiters s) (wakes s).

(** pthread_cond_signal: wakes one of the threads that wait unsignalled. *)
Definition cond_signal (s : shared) : shared :=
  if wakes s <? waiters s then Shared (pl s) (waiters s) (wakes s + 1) else s.

Definition cond_sleep (s : shared) : shared := Shared (pl s) (waiters s + 1) (wakes s).

(** The first critical section of a checkout; [blocking] for pool_wait_get. *)
Definition get_section (blocking : bool) (s : shared) : shared * pc :=
  match free_list (pl s) with
  | Some b =>
      match pop_free b (pl s) with
      | Ret _ p => (set_pool p s, PIdle)
      | Fatal p | Block p => (set_pool p s, PAborted)
      end
  | None =>
      if exhausted (pl s) then
        if blocking then (cond_sleep s, PWaiting) else (s, PIdle)
      else (set_pool (alloc_begin (pl s)) s, PAlloc)
  end.

Definition tstep (a : act) (_ : nat) (s : shared) (p : pc) : option (shared * pc) :=
  match a, p with
  | ATry, PIdle => Some (get_section false s)
  | AWait, PIdle => Some (get_section true s)
  | AMalloc None, PAlloc => Some (set_pool (alloc_fail (pl s)) s, PIdle)
  | AMalloc (Some b), PAlloc =>
      match heap (pl s) !! b with
      | Some _ => None                        (* aligned_alloc returns free memory *)
      | None => Some (set_pool (alloc_done b (pl s)) s, PIdle)
      end
  | APut b, PIdle =>
      if decide (b ∈ pool_held (pl s)) then   (* the caller's obligation *)
        match push_free b (pl s) with
        | Ret _ q => Some (cond_signal (set_pool q s), PIdle)
        | Fatal q | Block q => Some (set_pool q s, PAborted)
        end
      else None
  | AWake, PWaiting =>
      if 0 <? wakes s
      then Some (get_section true (Shared (pl s) (waiters s - 1) (wakes s - 1)))
      else None
  | _, _ => None
  end.

Definition w_alloc (p : pc) : Z := match p with PAlloc => 1 | _ => 0 end.
Definition w_wait (p : pc) : Z := match p with PWaiting => 1 | _ => 0 end.
Definition w_abort (p : pc) : Z := match p with PAborted => 1 | _ => 0 end.

(** A new pool and [n] idle threads. *)
Definition start (bsize capacity : Z) (n : nat) : conf shared pc :=
  (Shared (PoolT bsize capacity 0 0 None ∅) 0 0, replicate n PIdle).

(** ** Invariant *)

Definition conc_inv (c : conf shared pc) : Prop :=
  pool_inv (sum_over w_alloc c.2) (pl c.1) (free_blocks_of (pl c.1)) ∧
  waiters c.1 = sum_over w_wait c.2 ∧ 0 ≤ wakes c.1 ≤ waiters c.1 ∧
  sum_over w_abort c.2 = 0.

Lemma get_section_cap blocking s : cap (pl (get_section blocking s).1) = cap (pl s).
Proof.
  unfold get_section, pop_free. destruct (free_list (pl s)) as [b|].
  - by destruct (heap (pl s) !! b).
  - by destruct (exhausted (pl s)), blocking.
Qed.

Lemma tstep_cap a i s p s' p' : tstep a i s p = Some (s', p') → cap (pl s') = cap (pl s).
Proof.
  intros E. destruct a as [| |[b|]|b|], p; simplify_eq/=.
  - pose proof (get_section_cap false s) as H. by rewrite E in H.
  - pose proof (get_section_cap true s) as H. by rewrite E in H.
  - by destruct (heap (pl s) !! b); simplify_eq/=.
  - done.
  - case_decide; [|done]. unfold push_free, cond_signal in E.
    destruct (heap (pl s) !! b); [|by simplify_eq/=]. simpl in E.
    destruct (in_use (pl s) - 1 <? 0); [by simplify_eq/=|].
    simplify_eq/=. by destruct (wakes s <? waiters s).
  - destruct (0 <? wakes s); [|done].
    pose proof (get_section_cap true (Shared (pl s) (waiters s - 1) (wakes s - 1))) as H.
    injection E as E. by rewrite E in H.
Qed.

(** How the set of checked-out blocks may change in one step. *)
Definition handover (h h' : gset nat) : Prop :=
  h' = h ∨ (∃ b, (b ∉ h) ∧ h' = {[b]} ∪ h) ∨ (∃ b, b ∈ h ∧ h' = h ∖ {[b]}).

Lemma w_nonneg : (∀ p, 0 ≤ w_alloc p) ∧ (∀ p, 0 ≤ w_wait p) ∧ (∀ p, 0 ≤ w_abort p).
Proof. split_and!; by intros []. Qed.

(** The result of a first critical section, relative to [k] other allocators. *)
Lemma get_section_inv k blocking s :
  pool_inv k (pl s) (free_blocks_of (pl s)) →
  ∃ s' p', get_section blocking s = (s', p') ∧
    pool_inv (k + w_alloc p') (pl s') (free_blocks_of (pl s')) ∧
    waiters s' = waiters s + w_wait p' ∧ wakes s' = wakes s ∧ w_abort p' = 0 ∧
    handover (pool_held (pl s)) (pool_held (pl s')).
Proof.
  intros Hinv. unfold get_section, handover, pool_held.
  pose proof (inv_chain _ _ _ Hinv) as Hc. destruct (free_blocks_of (pl s)) as [|b fl] eqn:Efl.
  - simpl in Hc. rewrite Hc. destruct (exhausted (pl s)) eqn:Hex.
    + destruct blocking; eexists _, _; (split; [done|]); simpl; rewrite Efl, ?Z.add_0_r; auto 10.
    + eexists _, _; split; [done|]. simpl.
      pose proof (alloc_begin_inv _ _ _ Hinv Hex) as Hinv'.
      rewrite (free_blocks_of_inv _ _ _ Hinv'), Z.add_0_r. auto 10.
  - destruct (pop_free_inv _ _ _ _ Hinv) as (p' & E & Hinv' & Hhd & Hdom & _).
    rewrite Hhd, E. eexists _, _; split; [done|]. simpl.
    rewrite (free_blocks_of_inv _ _ _ Hinv'), !Z.add_0_r. do 4 (split; [done|]).
    right. left. exists b.
    exact (pop_free_held _ _ _ _ _ Hinv Hdom).
Qed.

Lemma tstep_inv k a i s p s' p' :
  pool_inv (k + w_alloc p) (pl s) (free_blocks_of (pl s)) → 0 ≤ k →
  0 ≤ wakes s ≤ waiters s → tstep a i s p = Some (s', p') →
  pool_inv (k + w_alloc p') (pl s') (free_blocks_of (pl s')) ∧
  waiters s' - waiters s = w_wait p' - w_wait p ∧ 0 ≤ wakes s' ≤ waiters s' ∧
  w_abort p' = 0 ∧ handover (pool_held (pl s)) (pool_held (pl s')).
Proof.
  intros Hinv Hk Hw E.
  destruct a as [| |[b|]|b|], p; simplify_eq/=; rewrite ?Z.add_0_r in Hinv.
  - destruct (get_section_inv k false s Hinv) as (s1 & p1 & E1 & Hinv1 & Hw1 & Hk1 & Ha1 & Hh).
    rewrite E1 in E. simplify_eq. assert (0 ≤ w_wait p') by apply w_nonneg.
    split_and!; (done || lia).
  - destruct (get_section_inv k true s Hinv) as (s1 & p1 & E1 & Hinv1 & Hw1 & Hk1 & Ha1 & Hh).
    rewrite E1 in E. simplify_eq. assert (0 ≤ w_wait p') by apply w_nonneg.
    split_and!; (done || lia).
  - destruct (heap (pl s) !! b) eqn:Hb; simplify_eq/=.
    pose proof (alloc_done_inv _ _ _ _ Hk Hinv Hb) as Hinv'. rewrite Z.add_0_r.
    rewrite (free_blocks_of_inv _ _ _ Hinv'). split_and!; try (done || lia).
    right. left. exists b. unfold pool_held. rewrite (free_blocks_of_inv _ _ _ Hinv').
    by eapply alloc_done_held.
  - pose proof (alloc_fail_inv _ _ _ Hk Hinv) as Hinv'. rewrite Z.add_0_r.
    rewrite (free_blocks_of_inv _ _ _ Hinv'). split_and!; try (done || lia).
    left. unfold pool_held. by rewrite (free_blocks_of_inv _ _ _ Hinv').
  - case_decide as Hb; [|done].
    destruct (push_free_inv _ _ _ _ Hinv Hb) as (q & Eq & Hinv' & Hdom & _).
    rewrite Eq in E. simplify_eq/=. unfold cond_signal. simpl.
    destruct (Z.ltb_spec (wakes s) (waiters s)); simpl;
      rewrite Z.add_0_r, (free_blocks_of_inv _ _ _ Hinv'); split_and!; try (done || lia);
      right; right; exists b; (split; [done|]);
      unfold pool_held; rewrite (free_blocks_of_inv _ _ _ Hinv'); unfold held; rewrite Hdom; set_solver.
  - destruct (Z.ltb_spec 0 (wakes s)); [|done].
    destruct (get_section_inv k true (Shared (pl s) (waiters s - 1) (wakes s - 1)) Hinv)
      as (s1 & p1 & E1 & Hinv1 & Hw1 & Hk1 & Ha1 & Hh). simpl in *.
    rewrite E1 in E. simplify_eq. assert (0 ≤ w_wait p') by apply w_nonneg.
    split_and!; (done || lia).
Qed.

Lemma cstep_inv e c c' :
  conc_inv c → cstep tstep e c = Some c' →
  conc_inv c' ∧ handover (pool_held (pl c.1)) (pool_held (pl c'.1)).
Proof.
  intros (Hinv & Hwait & Hwakes & Habort) (p & s' & p' & Hp & E & ->)%cstep_Some.
  destruct w_nonneg as (H1 & H2 & H3).
  pose proof (sum_over_ge w_alloc _ _ _ H1 Hp). pose proof (sum_over_ge w_abort _ _ _ H3 Hp).
  specialize (H3 p).
  destruct (tstep_inv (sum_over w_alloc c.2 - w_alloc p) e.2 e.1 c.1 p s' p')
    as (Hinv' & Hw' & Hk' & Ha' & Hh); [by rewrite Z.sub_add|lia|done|done|].
  split; [|done]. unfold conc_inv. simpl.
  rewrite !(sum_over_insert _ _ _ _ p' Hp). split; [done|]. split; [lia|]. split; [done|]. lia.
Qed.

Lemma start_inv bsize capacity n : 0 ≤ capacity ≤ SIZE_MAX → conc_inv (start bsize capacity n).
Proof.
  intros Hcap. unfold conc_inv, start. simpl.
  rewrite !sum_over_zero by (apply Forall_replicate; done).
  split; [|done]. split; simpl; try done.
  - constructor.
  - change (size ∅) with 0%nat. lia.
Qed.

Lemma reachable_conc_inv bsize capacity n c :
  0 ≤ capacity ≤ SIZE_MAX → reachable tstep (start bsize capacity n) c → conc_inv c.
Proof.
  intros Hcap. apply reachable_inv; [by apply start_inv|].
  intros e c1 c2 Hc E. by destruct (cstep_inv e c1 c2 Hc E).
Qed.

Lemma reachable_cap bsize capacity n c :
  reachable tstep (start bsize capacity n) c → cap (pl c.1) = capacity.
Proof.
  apply (reachable_inv tstep (λ c, cap (pl c.1) = capacity)); [done|].
  intros e c1 c2 Hc (p & s' & p' & _ & E & ->)%cstep_Some. simpl.
  rewrite (tstep_cap _ _ _ _ _ _ E). exact Hc.
Qed.

(** C11. Whatever the interleaving of checkouts, returns and allocations of any
    number of threads, no thread aborts on a corrupt pool, the free list is
    a chain without repetition, [in_use] is the number of blocks checked out,
    [total_blocks] counts the blocks that exist and those being allocated, so
    that a capped pool never grows past its cap, and each step checks out at
    most one block, which nobody held, or takes back one that was held. *)
Theorem pool_conc_safe bsize capacity n c :
  0 ≤ capacity ≤ SIZE_MAX → reachable tstep (start bsize capacity n) c →
  let p := pl c.1 in
  (PAborted ∉ c.2) ∧
  (∃ fl, chain (heap p) (free_list p) fl ∧ NoDup fl ∧
     held p fl = pool_held p ∧ in_use p = Z.of_nat (size (held p fl))) ∧
  total_blocks p = u64 (Z.of_nat (size (heap p)) + sum_over w_alloc c.2) ∧
  (capacity ≠ 0 → Z.of_nat (size (heap p)) + sum_over w_alloc c.2 ≤ capacity) ∧
  (∀ e c', cstep tstep e c = Some c' → handover (pool_held p) (pool_held (pl c'.1))).
Proof.
  intros Hcap Hr. pose proof (reachable_conc_inv _ _ _ _ Hcap Hr) as Hc.
  pose proof Hc as (Hinv & Hwait & Hwakes & Habort). simpl. split_and!.
  - intros [i Hi]%list_elem_of_lookup. destruct w_nonneg as (_ & _ & H3).
    pose proof (sum_over_ge w_abort _ _ _ H3 Hi). simpl in *. lia.
  - exists (free_blocks_of (pl c.1)).
    split_and!; [apply Hinv|apply Hinv|done|by eapply inv_used_held].
  - apply Hinv.
  - intros H0. rewrite <- (reachable_cap _ _ _ _ Hr) in H0 |- *. by apply (inv_cap _ _ _ Hinv).
  - intros e c' E. by apply (cstep_inv e c c' Hc E).
Qed.

Lemma pool_conc_safe_witness :
  0 ≤ 2 ≤ SIZE_MAX ∧
  ∃ c, reachable tstep (start 64 2 3) c ∧ pool_held (pl c.1) = {[5%nat]} ∧ PAborted ∉ c.2.
Proof.
  split; [by vm_compute|].
  destruct (crun tstep [(0, ATry); (1, ATry); (0, AMalloc (Some 5)); (1, AMalloc (Some 6));
                        (2, AWait); (0, APut 6); (2, AWake); (1, APut 6)]%nat (start 64 2 3)) as [c|] eqn:E;
    [|vm_compute in E; discriminate E].
  assert (Hr : reachable tstep (start 64 2 3) c) by (by eexists).
  exists c. split; [exact Hr|]. split.
  - vm_compute in E. injection E as <-. by vm_compute.
  - apply (pool_conc_safe 64 2 3 c); [by vm_compute|exact Hr].
Defined.

(** A failed allocation loses a wake-up: with cap 1, a thread that waits
    while another is inside aligned_alloc is not signalled when that
    allocation fails.  It then sleeps, although no block is checked out,
    nobody is allocating and the pool is below its cap, and no action of its
    own can wake it. *)
Theorem pool_wait_get_lost_wakeup bsize :
  ∃ c, reachable tstep (start bsize 1 2) c ∧ c.2 = [PIdle; PWaiting] ∧
    in_use (pl c.1) = 0 ∧ exhausted (pl c.1) = false ∧ pool_held (pl c.1) = ∅ ∧
    ∀ a, cstep tstep (1%nat, a) c = None.
Proof.
  eexists. split.
  { exists [(0, ATry); (1, AWait); (0, AMalloc None)]%nat. reflexivity. }
  split; [done|]. split; [done|]. split; [done|]. split; [done|].
  by intros [| |[]| |].
Qed.
