(* ===== verification/WinPool.v ===== *)
(** * pool.h, Windows: the object pool on critical sections

    The pool is that of Pool.v with the number of threads inside malloc, which
    total_blocks does not count here: the limit is tested again once malloc has
    returned.  First each function as one call; then any number of threads,
    a step being one critical section, up to the next malloc or the next
    sleep on the condition variable, from which a thread may also wake
    without cause. *)
From stdpp Require Import prelude gmap sets.
From Stdlib Require Import ZArith Lia.
From S2P Require Import Prelude ObjPool Pool PoolConc.

Definition ERROR_NOT_ENOUGH_MEMORY : Z := 8.
Definition ERROR_INVALID_PARAMETER : Z := 87.
Definition ERROR_BUSY : Z := 170.

Record win_pool := WinPool { wp : pool_t; allocators : Z }.

Definition set_wp (p : pool_t) (w : win_pool) : win_pool := WinPool p (allocators w).
Definition enter_malloc (w : win_pool) : win_pool := WinPool (wp w) (u64 (allocators w + 1)).
Definition leave_malloc (w : win_pool) : win_pool := WinPool (wp w) (u64 (allocators w - 1)).

Definition pool_init (mem : bool) (bsize capacity : Z) : cres win_pool :=
  if bsize =? 0 then Err ERROR_INVALID_PARAMETER
  else if SIZE_MAX - sizeof_pool_block_t <? bsize then Err ERROR_INVALID_PARAMETER
  else if negb mem then Err ERROR_NOT_ENOUGH_MEMORY
  else Ok (WinPool (PoolT bsize capacity 0 0 None ∅) 0).

Definition malloc_size (bsize : Z) : Z := u64 (sizeof_pool_block_t + bsize).

(** [total_blocks++; in_use++; b->pool = p] *)
Definition commit (b : nat) (p : pool_t) : pool_t := alloc_done b (alloc_begin p).

Definition on_wp {A} (m : M pool_t A) : M win_pool A := zoom wp set_wp m.

(** ** The functions *)

Definition pool_try_get (alloc : Z → option nat) (null : bool) : M win_pool (cres nat) :=
  if null then mret (Err ERROR_INVALID_PARAMETER)
  else
    p ← gets wp;
    match free_list p with
    | Some b => on_wp (pop_free b);; mret (Ok b)
    | None =>
        if exhausted p then mret (Err ERROR_BUSY)
        else
          modify enter_malloc;;
          let r := alloc (malloc_size (block_size p)) in
          modify leave_malloc;;
          match r with
          | None => mret (Err ERROR_NOT_ENOUGH_MEMORY)
          | Some b =>
              p ← gets wp;
              if exhausted p then mret (Err ERROR_BUSY)         (* free(b) *)
              else modify (λ w, set_wp (commit b (wp w)) w);; mret (Ok b)
          end
    end.

(** One turn of the loop of pool_wait_get: [None] is [continue] after the second
    test of the limit, [Block] a sleep. *)
Definition wait_turn (alloc : Z → option nat) : M win_pool (option nat) :=
  p ← gets wp;
  match free_list p with
  | Some b => on_wp (pop_free b);; mret (Some b)
  | None =>
      if (cap p =? 0) || (total_blocks p <? cap p) then
        modify enter_malloc;;
        let r := alloc (malloc_size (block_size p)) in
        modify leave_malloc;;
        match r with
        | None => block
        | Some b =>
            p ← gets wp;
            if exhausted p then mret None                       (* free(b) *)
            else modify (λ w, set_wp (commit b (wp w)) w);; mret (Some b)
        end
      else block
  end.

Definition pool_wait_get (alloc : Z → option nat) (null : bool) : M win_pool (cres (option nat)) :=
  if null then mret (Err ERROR_INVALID_PARAMETER)
  else r ← wait_turn alloc; mret (Ok r).

Definition pool_put (ptr : option nat) : M win_pool () :=
  match ptr with None => mret () | Some b => on_wp (push_free b) end.

Definition pool_destroy (null : bool) : M win_pool Z :=
  if null then mret (- ERROR_INVALID_PARAMETER)
  else
    w ← gets id;
    if 0 <? allocators w then block
    else
      match free_blocks (S (size (heap (wp w)))) (free_list (wp w)) (heap (wp w)) with
      | None => fatal
      | Some h => modify (set_wp (PoolT 0 0 0 0 None h));; mret 0
      end.

Definition pool_get_used (null : bool) : M win_pool (cres Z) :=
  if null then mret (Err ERROR_INVALID_PARAMETER) else n ← gets (λ w, in_use (wp w)); mret (Ok n).

(** ** Equivalence with the POSIX pool, one call at a time *)

(** Same result, and the same pool; the error codes are those of each system. *)
Definition same_result (r : outcome win_pool (cres nat)) (r' : outcome pool_t (cres nat)) (n : Z) : Prop :=
  match r, r' with
  | Ret (Ok b) w, Ret (Ok b') p => b = b' ∧ wp w = p ∧ allocators w = n
  | Ret (Err e) w, Ret (Err e') p =>
      (e = ERROR_BUSY ↔ e' = EAGAIN) ∧ (e = ERROR_NOT_ENOUGH_MEMORY ↔ e' = ENOMEM) ∧
      wp w = p ∧ allocators w = n
  | Block w, Block p => wp w = p ∧ allocators w = n
  | Fatal w, Fatal p => wp w = p ∧ allocators w = n
  | _, _ => False
  end.

Lemma u64_back x : in_u 64 x → u64 (u64 (x + 1) - 1) = x.
Proof. intros H. rewrite u64_sub_l. replace (x + 1 - 1) with x by lia. by apply u64_small. Qed.
Lemma leave_enter w : in_u 64 (allocators w) → leave_malloc (enter_malloc w) = w.
Proof. intros H. destruct w as [p n]. unfold leave_malloc, enter_malloc. cbn [wp allocators]. by rewrite u64_back. Qed.
Lemma fail_begin p : in_u 64 (total_blocks p) → alloc_fail (alloc_begin p) = p.
Proof.
  intros H. destruct p as [bs c t u f h]. unfold alloc_fail, alloc_begin, set_total.
  cbn [total_blocks block_size cap in_use free_list heap]. by rewrite u64_back.
Qed.

(** The Windows pool is the POSIX pool, one call at a time: with an allocator
    that answers the two the same, pool_try_get gives the same block or the
    corresponding error and leaves the same pool, pool_put the same pool; so
    does pool_wait_get, except that it sleeps where the POSIX one reports that
    there is no memory. *)
Theorem win_pool_equivalent alloc alloc' w :
  in_u 64 (allocators w) → in_u 64 (total_blocks (wp w)) → 0 ≤ cap (wp w) →
  alloc (malloc_size (block_size (wp w))) = alloc' (block_alloc_size (block_size (wp w))) →
  same_result (pool_try_get alloc false w) (Pool.pool_try_get os_posix alloc' false (wp w)) (allocators w) ∧
  match pool_wait_get alloc false w, Pool.pool_wait_get os_posix alloc' false (wp w) with
  | Ret (Ok (Some b)) w', Ret (Ok b') p' => b = b' ∧ wp w' = p' ∧ allocators w' = allocators w
  | Block w', Ret (Err e') p' => e' = ENOMEM ∧ wp w' = p' ∧ allocators w' = allocators w
  | Block w', Block p' | Fatal w', Fatal p' => wp w' = p' ∧ allocators w' = allocators w
  | _, _ => False
  end ∧
  ∀ b, match pool_put (Some b) w, Pool.pool_put os_posix (Some b) (wp w) with
       | Ret _ w', Ret _ p' | Fatal w', Fatal p' | Block w', Block p' => wp w' = p' ∧ allocators w' = allocators w
       | _, _ => False
       end.
Proof.
  intros Ha Ht Hcap Halloc. pose proof (exhausted_false (wp w) Hcap) as Hex.
  destruct w as [p n]. cbn [wp allocators] in *.
  split; [|split].
  - unfold pool_try_get, Pool.pool_try_get, mbind, M_bind, gets. cbn [wp].
    rewrite !(rc_ok_posix os_posix) by done. destruct (free_list p) as [b|].
    + unfold on_wp, zoom. cbn [wp]. destruct (pop_free b p); by rewrite ?(rc_ok_posix os_posix).
    + destruct (exhausted p) eqn:E; [by rewrite (rc_ok_posix os_posix)|]. unfold modify.
      rewrite !(rc_ok_posix os_posix) by done. rewrite leave_enter by done. cbn [block_size alloc_begin set_total].
      rewrite Halloc. destruct (alloc' _) as [b|].
      * cbn [wp]. rewrite E, !(rc_ok_posix os_posix) by done. done.
      * rewrite fail_begin by done. done.
  - unfold pool_wait_get, wait_turn, Pool.pool_wait_get, mbind, M_bind, gets. cbn [wp].
    rewrite !(rc_ok_posix os_posix) by done. destruct (free_list p) as [b|].
    + unfold on_wp, zoom. cbn [wp]. destruct (pop_free b p); by rewrite ?(rc_ok_posix os_posix).
    + unfold id. destruct ((cap p =? 0) || (total_blocks p <? cap p)) eqn:E; [|by rewrite (rc_ok_posix os_posix)].
      unfold modify. rewrite !(rc_ok_posix os_posix) by done. rewrite leave_enter by done.
      cbn [block_size alloc_begin set_total]. rewrite Halloc. destruct (alloc' _) as [b|].
      * cbn [wp]. rewrite (proj2 Hex eq_refl), !(rc_ok_posix os_posix) by done. done.
      * rewrite fail_begin by done. done.
  - intros b. unfold pool_put, Pool.pool_put, on_wp, zoom, mbind, M_bind. cbn [wp].
    rewrite !(rc_ok_posix os_posix) by done. destruct (push_free b p); by rewrite ?(rc_ok_posix os_posix).
Qed.

Lemma win_pool_equivalent_witness :
  same_result (pool_try_get (λ _, Some 3%nat) false (WinPool (PoolT 64 2 0 0 None ∅) 0))
    (Pool.pool_try_get os_posix (λ _, Some 3%nat) false (PoolT 64 2 0 0 None ∅)) 0.
Proof.
  apply (win_pool_equivalent (λ _, Some 3%nat) (λ _, Some 3%nat) (WinPool (PoolT 64 2 0 0 None ∅) 0));
    [by vm_compute|by vm_compute|done|done].
Defined.

(** ** The threads *)
Module Conc.

Inductive pc :=
| WIdle
| WMalloc (blocking : bool)      (* inside malloc *)
| WAsleep                        (* pool_wait_get sleeps *)
| WDestroying                    (* pool_destroy sleeps *)
| WAborted.

Inductive act :=
| ATry
| AWait
| AMalloc (r : option nat)
| APut (b : nat)
| ADestroy
| AWake
| ASpurious.

(** [gone]: pool_destroy has freed the pool, which nobody may use any more. *)
Record shared := Shared { pl : pool_t; allocs : Z; waiters : Z; wakes : Z; gone : bool }.

Definition set_pl (p : pool_t) (s : shared) : shared := Shared p (allocs s) (waiters s) (wakes s) (gone s).
Definition set_allocs (n : Z) (s : shared) : shared := Shared (pl s) n (waiters s) (wakes s) (gone s).
Definition sleep (s : shared) : shared := Shared (pl s) (allocs s) (waiters s + 1) (wakes s) (gone s).
Definition wake_one (s : shared) : shared :=
  Shared (pl s) (allocs s) (waiters s) (if wakes s <? waiters s then wakes s + 1 else wakes s) (gone s).
Definition wake_all (s : shared) : shared := Shared (pl s) (allocs s) (waiters s) (waiters s) (gone s).
Definition awake (w : Z) (s : shared) : shared := Shared (pl s) (allocs s) (waiters s - 1) w (gone s).

(** The head of the loop of pool_wait_get, or pool_try_get up to malloc. *)
Definition get_section (blocking : bool) (s : shared) : shared * pc :=
  match free_list (pl s) with
  | Some b =>
      match pop_free b (pl s) with
      | Ret _ p => (set_pl p s, WIdle)
      | Fatal p | Block p => (set_pl p s, WAborted)
      end
  | None =>
      if exhausted (pl s) then
        if blocking then (sleep s, WAsleep) else (s, WIdle)
      else (set_allocs (u64 (allocs s + 1)) s, WMalloc blocking)
  end.

(** After malloc. *)
Definition alloc_section (blocking : bool) (r : option nat) (s : shared) : shared * pc :=
  let s := set_allocs (u64 (allocs s - 1)) s in
  match r with
  | None => if blocking then (sleep s, WAsleep) else (wake_all s, WIdle)
  | Some b =>
      if exhausted (pl s) then
        if blocking then get_section true (wake_all s) else (wake_all s, WIdle)
      else (set_pl (commit b (pl s)) s, WIdle)
  end.

Definition destroy_section (s : shared) : shared * pc :=
  if 0 <? allocs s then (sleep s, WDestroying)
  else
    match free_blocks (S (size (heap (pl s)))) (free_list (pl s)) (heap (pl s)) with
    | None => (s, WAborted)
    | Some h => (Shared (PoolT 0 0 0 0 None h) 0 (waiters s) (wakes s) true, WIdle)
    end.

Definition resume (p : pc) (s : shared) : option (shared * pc) :=
  match p with
  | WAsleep => Some (get_section true s)
  | WDestroying => Some (destroy_section s)
  | _ => None
  end.

Definition tstep (a : act) (_ : nat) (s : shared) (p : pc) : option (shared * pc) :=
  if gone s then None
  else
    match a, p with
    | ATry, WIdle => Some (get_section false s)
    | AWait, WIdle => Some (get_section true s)
    | AMalloc None, WMalloc b => Some (alloc_section b None s)
    | AMalloc (Some x), WMalloc b =>
        match heap (pl s) !! x with
        | Some _ => None                        (* malloc returns free memory *)
        | None => Some (alloc_section b (Some x) s)
        end
    | APut b, WIdle =>
        if decide (b ∈ pool_held (pl s)) then   (* the caller's obligation *)
          match push_free b (pl s) with
          | Ret _ q => Some (wake_one (set_pl q s), WIdle)
          | Fatal q | Block q => Some (set_pl q s, WAborted)
          end
        else None
    | ADestroy, WIdle => Some (destroy_section s)
    | AWake, _ => if 0 <? wakes s then resume p (awake (wakes s - 1) s) else None
    | ASpurious, _ => if wakes s <? waiters s then resume p (awake (wakes s) s) else None
    | _, _ => None
    end.

Definition start (bsize capacity : Z) (n : nat) : conf shared pc :=
  (Shared (PoolT bsize capacity 0 0 None ∅) 0 0 0 false, replicate n WIdle).

(** ** Invariant *)

Definition w_alloc (p : pc) : Z := match p with WMalloc _ => 1 | _ => 0 end.
Definition w_abort (p : pc) : Z := match p with WAborted => 1 | _ => 0 end.

Definition win_inv (capacity : Z) (c : conf shared pc) : Prop :=
  sum_over w_abort c.2 = 0 ∧
  (gone c.1 = false →
   pool_inv 0 (pl c.1) (free_blocks_of (pl c.1)) ∧ cap (pl c.1) = capacity ∧
   allocs c.1 = u64 (sum_over w_alloc c.2)).

Lemma commit_inv p fl b : pool_inv 0 p fl → exhausted p = false → heap p !! b = None →
  pool_inv 0 (commit b p) fl.
Proof.
  intros Hinv Hex Hb. apply alloc_done_inv; [done|by apply alloc_begin_inv|done].
Qed.

(** What a section does to a pool that is not gone, with [k] other threads in
    malloc. *)
Definition section_ok (capacity k : Z) (r : shared * pc) : Prop :=
  w_abort r.2 = 0 ∧
  (gone r.1 = false →
   pool_inv 0 (pl r.1) (free_blocks_of (pl r.1)) ∧ cap (pl r.1) = capacity ∧
   allocs r.1 = u64 (k + w_alloc r.2)).

Lemma get_section_ok capacity k b s :
  pool_inv 0 (pl s) (free_blocks_of (pl s)) → cap (pl s) = capacity → allocs s = u64 k →
  section_ok capacity k (get_section b s).
Proof.
  intros Hinv Hcap Ha. unfold get_section, section_ok. pose proof (inv_chain _ _ _ Hinv) as Hc.
  destruct (free_blocks_of (pl s)) as [|x fl] eqn:Efl.
  - cbn in Hc. rewrite Hc. destruct (exhausted (pl s)); [destruct b|]; cbn; rewrite Efl, ?Z.add_0_r; (split; [done|]);
      intros _; try done. split; [done|]. split; [done|]. by rewrite Ha, u64_add_l.
  - destruct (pop_free_inv _ _ _ _ Hinv) as (p' & E & Hinv' & Hhd & _ & Hcap' & _).
    rewrite Hhd, E. cbn. split; [done|]. intros _. rewrite (free_blocks_of_inv _ _ _ Hinv'), Z.add_0_r.
    split; [done|]. split; [congruence|done].
Qed.

Lemma alloc_section_ok capacity k b r s :
  pool_inv 0 (pl s) (free_blocks_of (pl s)) → cap (pl s) = capacity → allocs s = u64 (k + 1) →
  (∀ x, r = Some x → heap (pl s) !! x = None) → section_ok capacity k (alloc_section b r s).
Proof.
  intros Hinv Hcap Ha Hr. unfold alloc_section.
  assert (Ha' : u64 (allocs s - 1) = u64 k) by (rewrite Ha, u64_sub_l; f_equal; lia).
  destruct r as [x|].
  - destruct (exhausted _) eqn:Hex; cbn in Hex.
    + destruct b; [by apply get_section_ok|]. unfold section_ok. cbn. rewrite Z.add_0_r. done.
    + unfold section_ok. cbn -[commit]. split; [done|]. intros _. rewrite Z.add_0_r.
      pose proof (commit_inv _ _ x Hinv Hex (Hr x eq_refl)) as Hinv'.
      by rewrite (free_blocks_of_inv _ _ _ Hinv').
  - unfold section_ok. destruct b; cbn; by rewrite Z.add_0_r.
Qed.

Lemma destroy_section_ok capacity k s :
  pool_inv 0 (pl s) (free_blocks_of (pl s)) → cap (pl s) = capacity → allocs s = u64 k →
  section_ok capacity k (destroy_section s).
Proof.
  intros Hinv Hcap Ha. unfold destroy_section, section_ok. destruct (0 <? allocs s); cbn -[free_blocks].
  - by rewrite Z.add_0_r.
  - pose proof (inv_nodup _ _ _ Hinv) as Hnd.
    pose proof (chain_length_size _ _ _ (inv_chain _ _ _ Hinv) Hnd).
    destruct (free_blocks_spec (S (size (heap (pl s)))) (free_list (pl s)) (heap (pl s)) (free_blocks_of (pl s)))
      as (h & E & _); [apply (inv_chain _ _ _ Hinv)|done|lia|].
    rewrite E. by split.
Qed.

Lemma win_abort_nonneg p : 0 ≤ w_abort p.
Proof. by destruct p. Qed.

(** Every step is such a section. *)
Lemma win_tstep_ok capacity k a i s p s' p' :
  pool_inv 0 (pl s) (free_blocks_of (pl s)) → cap (pl s) = capacity → allocs s = u64 (k + w_alloc p) →
  tstep a i s p = Some (s', p') → section_ok capacity k (s', p').
Proof.
  intros Hinv Hcap Ha E. unfold tstep in E. destruct (gone s) eqn:Eg; [done|].
  assert (Hres : ∀ w, resume p (awake w s) = Some (s', p') → section_ok capacity k (s', p')).
  { intros w Er. destruct p; cbn in Er, Ha; try done; apply (inj Some) in Er; rewrite <- Er; rewrite Z.add_0_r in Ha;
      [by apply get_section_ok|by apply destroy_section_ok]. }
  destruct a as [| |r|b| | |].
  - destruct p; try done. apply (inj Some) in E. rewrite <- E. apply get_section_ok; try done. by rewrite Ha, Z.add_0_r.
  - destruct p; try done. apply (inj Some) in E. rewrite <- E. apply get_section_ok; try done. by rewrite Ha, Z.add_0_r.
  - destruct r as [x|], p; try done.
    + destruct (heap (pl s) !! x) eqn:Ex; [done|]. apply (inj Some) in E. rewrite <- E.
      apply alloc_section_ok; try done. by intros y [= <-].
    + apply (inj Some) in E. rewrite <- E. by apply alloc_section_ok.
  - destruct p; try done. case_decide as Hb; [|done].
    destruct (push_free_inv _ _ _ _ Hinv Hb) as (q & Eq & Hinv' & _ & Hcap' & _). rewrite Eq in E.
    injection E as <- <-. split; [done|]. intros _. cbn. rewrite (free_blocks_of_inv _ _ _ Hinv').
    split; [done|]. split; [congruence|done].
  - destruct p; try done. apply (inj Some) in E. rewrite <- E. apply destroy_section_ok; try done.
    by rewrite Ha, Z.add_0_r.
  - destruct (0 <? wakes s); [|done]. by eapply Hres.
  - destruct (wakes s <? waiters s); [|done]. by eapply Hres.
Qed.

Lemma win_cstep_inv capacity e c c' : win_inv capacity c → cstep tstep e c = Some c' → win_inv capacity c'.
Proof.
  intros [Hab Hinv] (p & s' & p' & Hp & E & ->)%cstep_Some.
  assert (Hg : gone c.1 = false) by (unfold tstep in E; by destruct (gone c.1)).
  destruct (Hinv Hg) as (Hpool & Hcap & Ha).
  destruct (win_tstep_ok capacity (sum_over w_alloc c.2 - w_alloc p) _ _ _ _ _ _ Hpool Hcap
    ltac:(by rewrite Z.sub_add) E) as [Hab' Hinv'].
  pose proof (sum_over_ge w_abort _ _ _ win_abort_nonneg Hp). pose proof (win_abort_nonneg p).
  cbn [fst snd] in *. split; cbn [fst snd].
  - rewrite (sum_over_insert _ _ _ _ p' Hp). lia.
  - intros Hg'. destruct (Hinv' Hg') as (H1 & H2 & H3). split; [done|]. split; [done|].
    by rewrite (sum_over_insert _ _ _ _ p' Hp).
Qed.

Lemma win_start_inv bsize capacity n : 0 ≤ capacity ≤ SIZE_MAX → win_inv capacity (start bsize capacity n).
Proof.
  intros Hcap. split; cbn -[sum_over]; [by apply sum_over_zero, Forall_replicate|].
  intros _. rewrite (sum_over_zero w_alloc) by (by apply Forall_replicate).
  split; [|done]. split; cbn; try done; [constructor|change (size ∅) with 0%nat; lia].
Qed.

(** C39. The Windows pool under concurrency: while the pool exists, in every
    interleaving of gets, puts, failing allocations, sleeps and a destroy, no
    thread aborts, the free list is a chain without repetition, in_use is the
    number of blocks checked out, total_blocks counts the blocks that exist,
    at most [capacity] of them although several threads may be in malloc at
    once, and allocators counts those threads. *)
Theorem win_pool_conc_safe bsize capacity n c :
  0 ≤ capacity ≤ SIZE_MAX → reachable tstep (start bsize capacity n) c →
  let p := pl c.1 in
  (WAborted ∉ c.2) ∧
  (gone c.1 = false →
   (∃ fl, chain (heap p) (free_list p) fl ∧ NoDup fl ∧ in_use p = Z.of_nat (size (held p fl))) ∧
   total_blocks p = u64 (Z.of_nat (size (heap p))) ∧
   (capacity ≠ 0 → Z.of_nat (size (heap p)) ≤ capacity) ∧
   allocs c.1 = u64 (sum_over w_alloc c.2)).
Proof.
  intros Hcap Hr. assert (Hc : win_inv capacity c).
  { revert c Hr. apply reachable_inv; [by apply win_start_inv|intros e c1 c2; apply win_cstep_inv]. }
  destruct Hc as [Hab Hinv]. cbv zeta. split.
  - intros [i Hi]%list_elem_of_lookup. pose proof (sum_over_ge w_abort _ _ _ win_abort_nonneg Hi). cbn in *. lia.
  - intros Hg. destruct (Hinv Hg) as (Hp & Hcap' & Ha). pose proof Hp as [H1 H2 H3 H4 H5 _ _].
    rewrite Z.add_0_r in H4, H5. split; [exists (free_blocks_of (pl c.1))|split; [done|split; [|done]]].
    + split_and!; [done|done|by eapply inv_used_held].
    + intros H0. rewrite Hcap' in H5. by apply H5.
Qed.

(** Two threads in malloc for the one block of the pool, and a put. *)
Definition sample_schedule : list (nat * act) :=
  [(0, ATry); (1, AWait); (0, AMalloc (Some 5)); (1, AMalloc (Some 6)); (0, APut 5); (1, AWake)]%nat.
Lemma win_pool_conc_safe_witness :
  0 ≤ 1 ≤ SIZE_MAX ∧ ∃ c, reachable tstep (start 64 1 2) c ∧ pool_held (pl c.1) = {[5%nat]} ∧ WAborted ∉ c.2.
Proof.
  split; [by vm_compute|].
  destruct (crun tstep sample_schedule (start 64 1 2)) as [c|] eqn:E; [|vm_compute in E; discriminate E].
  assert (Hr : reachable tstep (start 64 1 2) c) by (by eexists).
  exists c. split; [exact Hr|]. split.
  - vm_compute in E. injection E as <-. by vm_compute.
  - apply (win_pool_conc_safe 64 1 2 c); [by vm_compute|exact Hr].
Defined.

(** Two sleeps that nothing ends but a wake-up without cause: pool_destroy
    waits for the threads in malloc, but the one that succeeds wakes nobody
    when it leaves, so that no thread is in malloc and pool_destroy sleeps on;
    and pool_wait_get, when malloc fails, sleeps for a block to come back
    although none is out and the pool may grow. *)
Theorem win_pool_lost_wakeups bsize :
  (∃ c, reachable tstep (start bsize 0 2) c ∧ c.2 = [WIdle; WDestroying] ∧ allocs c.1 = 0 ∧
     ∀ a, a ≠ ASpurious → cstep tstep (1%nat, a) c = None) ∧
  (∃ c, reachable tstep (start bsize 0 1) c ∧ c.2 = [WAsleep] ∧ in_use (pl c.1) = 0 ∧
     exhausted (pl c.1) = false ∧ ∀ a, a ≠ ASpurious → cstep tstep (0%nat, a) c = None).
Proof.
  split; eexists.
  - split; [exists [(0, ATry); (1, ADestroy); (0, AMalloc (Some 5))]%nat; reflexivity|].
    do 2 (split; [reflexivity|]). intros [| |[x|]|x| | |] Ha; reflexivity || by destruct Ha.
  - split; [exists [(0, AWait); (0, AMalloc None)]%nat; reflexivity|].
    do 3 (split; [reflexivity|]). intros [| |[x|]|x| | |] Ha; reflexivity || by destruct Ha.
Qed.
End Conc.
