(* ===== verification/ClientList.v ===== *)
(** * client.c: the server's registry of clients

    A [client_t*] is the number of its block in the client pool, which is any
    implementation of [ObjPool].  [garbage] is what the memory of a block
    holds before the code first writes it.  A result [None] is an aborted
    process or an access outside an array; inside the result [option] is NULL.
    Each function's body runs under client_list_lock. *)
From stdpp Require Import prelude gmap sets.
From Stdlib Require Import ZArith Lia.
From S2P Require Import Prelude Utils ObjPool.
From S2P Require IpPool Pool.

(** Conversion of a uint64_t to int64_t. *)
Definition s64 (x : Z) : Z := if x <? 2 ^ 63 then x else x - 2 ^ 64.

Record client_t := Client {
  ConnectionHandle : option nat;
  session : bool;              (* points to the one session *)
  uid : Z;
  slot_idx : Z;
  ip_entry : option nat
}.

Definition set_handle (h : option nat) (c : client_t) : client_t :=
  Client h (session c) (uid c) (slot_idx c) (ip_entry c).
Definition set_session (c : client_t) : client_t :=
  Client (ConnectionHandle c) true (uid c) (slot_idx c) (ip_entry c).
Definition set_uid (u : Z) (c : client_t) : client_t :=
  Client (ConnectionHandle c) (session c) u (slot_idx c) (ip_entry c).
Definition set_slot_idx (i : Z) (c : client_t) : client_t :=
  Client (ConnectionHandle c) (session c) (uid c) i (ip_entry c).
Definition set_ip_entry (e : option nat) (c : client_t) : client_t :=
  Client (ConnectionHandle c) (session c) (uid c) (slot_idx c) e.

(** The part of session_t the registry works on. *)
Record session_t (P : Type) := Session {
  ip_pool : IpPool.ip_pool_t;
  client_pool : P;
  client_cnt : Z;
  client_list : list (option nat);
  clients : gmap nat client_t
}.
Arguments Session {P} _ _ _ _ _.
Arguments ip_pool {P} _.
Arguments client_pool {P} _.
Arguments client_cnt {P} _.
Arguments client_list {P} _.
Arguments clients {P} _.

Section registry.
Context {P : Type} `{!ObjPool P} (garbage : nat → client_t).

Definition get_client (s : session_t P) (c : nat) : client_t :=
  default (garbage c) (clients s !! c).

Definition upd_client (c : nat) (f : client_t → client_t) (s : session_t P) : session_t P :=
  Session (ip_pool s) (client_pool s) (client_cnt s) (client_list s)
    (<[c := f (get_client s c)]> (clients s)).
Definition set_ip_pool (q : IpPool.ip_pool_t) (s : session_t P) : session_t P :=
  Session q (client_pool s) (client_cnt s) (client_list s) (clients s).
Definition set_client_pool (q : P) (s : session_t P) : session_t P :=
  Session (ip_pool s) q (client_cnt s) (client_list s) (clients s).
Definition set_client_cnt (n : Z) (s : session_t P) : session_t P :=
  Session (ip_pool s) (client_pool s) n (client_list s) (clients s).
Definition set_client_list (l : list (option nat)) (s : session_t P) : session_t P :=
  Session (ip_pool s) (client_pool s) (client_cnt s) l (clients s).

Definition max_clients (s : session_t P) : Z := IpPool.max_clients (ip_pool s).

(** The loop of list_add_client from slot [idx], with [n] slots left. *)
Fixpoint add_loop (n : nat) (idx : nat) (alloc : Z → option nat) (handle : option nat)
    (s : session_t P) : option (option nat * session_t P) :=
  match n with
  | O => Some (None, s)
  | S n =>
      slot ← client_list s !! idx;
      match slot with
      | Some _ => add_loop n (S idx) alloc handle s
      | None =>
          '(r, q) ← op_get alloc (client_pool s);
          let s := set_client_pool q s in
          match r with
          | None => Some (None, s)
          | Some c =>
              let s := upd_client c (set_slot_idx (Z.of_nat idx)) s in
              let s := upd_client c (set_handle handle) s in
              let s := upd_client c set_session s in
              let s := upd_client c (set_ip_entry None) s in
              let s := set_client_list (<[idx := Some c]> (client_list s)) s in
              Some (Some c, s)
          end
      end
  end.

Definition list_add_client (alloc : Z → option nat) (handle : option nat) (s : session_t P)
    : option (option nat * session_t P) :=
  add_loop (Z.to_nat (max_clients s)) 0 alloc handle s.

(** [assert(client)] and [assert(session)] abort. *)
Definition initialize_client_state (client : option nat) (s : session_t P)
    : option (Z * session_t P) :=
  c ← client;
  if negb (session (get_client s c)) then None
  else
    '(e, q) ← IpPool.ip_acquire (Some (ip_pool s)) (Some c);
    let s := set_ip_pool (default (ip_pool s) q) s in
    let s := upd_client c (set_ip_entry e) s in
    match e with
    | None => Some (-1, s)
    | Some _ =>
        let s' := upd_client c (set_uid (s64 (client_cnt s))) s in
        Some (0, set_client_cnt (u64 (client_cnt s + 1)) s')
    end.

Definition restore_client_state (client : option nat) (u : Z) (s : session_t P)
    : option (Z * session_t P) :=
  c ← client;
  if negb (session (get_client s c)) then None
  else
    let s := upd_client c (set_uid (s64 u)) s in
    let s := upd_client c (set_ip_entry None) s in
    Some (0, s).

(** [null]: the session argument is NULL.  The index of the list that is
    cleared is read from the client after it was set to 0. *)
Definition list_remove_client (null : bool) (client : option nat) (s : session_t P)
    : option (Z * session_t P) :=
  if null then Some (- EINVAL, s)
  else
    match client with
    | None => Some (- EINVAL, s)
    | Some c =>
        let cl := get_client s c in
        if (slot_idx cl <? 0) || (max_clients s <? slot_idx cl) then Some (- ERANGE, s)
        else
          let s := upd_client c (set_slot_idx 0) s in
          let s := upd_client c (set_uid 0) s in
          let s := upd_client c (set_ip_entry None) s in
          let i := Z.to_nat (slot_idx (get_client s c)) in
          _ ← client_list s !! i;
          let s := set_client_list (<[i := None]> (client_list s)) s in
          q ← op_put c (client_pool s);
          Some (0, set_client_pool q s)
    end.

Fixpoint find_loop (n : nat) (i : nat) (u : Z) (s : session_t P) : option (option nat) :=
  match n with
  | O => Some None
  | S n =>
      slot ← client_list s !! i;
      match slot with
      | Some c => if u64 (uid (get_client s c)) =? u then Some (Some c) else find_loop n (S i) u s
      | None => find_loop n (S i) u s
      end
  end.

(** [null]: the session or its list is NULL. *)
Definition list_find_client_by_uid (null : bool) (u : Z) (s : session_t P) : option (option nat) :=
  if null then Some None
  else if u =? 0 then Some None
  else find_loop (Z.to_nat (max_clients s)) 0 u s.

(** ** Invariants

    [list_wf]: the list has a slot per address, its pool is sound.  [reg_wf]:
    the registered clients are distinct checked-out objects that know their
    slot. *)
Definition list_wf (s : session_t P) : Prop :=
  Z.of_nat (length (client_list s)) = max_clients s ∧ op_ok (client_pool s).

Record reg_wf (s : session_t P) : Prop := {
  reg_list : list_wf s;
  reg_held : ∀ i c, client_list s !! i = Some (Some c) → c ∈ op_held (client_pool s);
  reg_slot : ∀ i c, client_list s !! i = Some (Some c) →
    slot_idx (get_client s c) = Z.of_nat i ∧ session (get_client s c) = true
}.

Lemma get_upd_eq s c f : get_client (upd_client c f s) c = f (get_client s c).
Proof. unfold get_client, upd_client. simpl. by rewrite lookup_insert_eq. Qed.
Lemma get_upd_ne s c c' f : c ≠ c' → get_client (upd_client c f s) c' = get_client s c'.
Proof. intros H. unfold get_client, upd_client. simpl. by rewrite lookup_insert_ne. Qed.

Lemma get_set_list l s c : get_client (set_client_list l s) c = get_client s c.
Proof. done. Qed.

Lemma get_set_pool q s c : get_client (set_client_pool q s) c = get_client s c.
Proof. done. Qed.

Lemma get_set_cnt n s c : get_client (set_client_cnt n s) c = get_client s c.
Proof. done. Qed.

(** The slots of a well-formed registry hold distinct clients. *)
Lemma reg_inj s i j c :
  reg_wf s → client_list s !! i = Some (Some c) → client_list s !! j = Some (Some c) → i = j.
Proof.
  intros H Hi Hj. pose proof (reg_slot _ H i c Hi) as [E1 _].
  pose proof (reg_slot _ H j c Hj) as [E2 _]. lia.
Qed.

Definition first_free (l : list (option nat)) (idx : nat) : Prop :=
  l !! idx = Some None ∧ ∀ j, (j < idx)%nat → ∃ c, l !! j = Some (Some c).

(** The outcomes of adding a client. *)
Inductive added (handle : option nat) (s : session_t P) : option nat → session_t P → Prop :=
| AddedAt idx c s' :
    first_free (client_list s) idx → (c ∉ op_held (client_pool s)) →
    client_list s' = <[idx := Some c]> (client_list s) →
    get_client s' c = Client handle true (uid (get_client s c)) (Z.of_nat idx) None →
    (∀ c', c' ≠ c → get_client s' c' = get_client s c') →
    op_ok (client_pool s') → op_held (client_pool s') = {[c]} ∪ op_held (client_pool s) →
    ip_pool s' = ip_pool s → client_cnt s' = client_cnt s →
    added handle s (Some c) s'
| AddedNone s' :
    client_list s' = client_list s → clients s' = clients s → ip_pool s' = ip_pool s →
    client_cnt s' = client_cnt s →
    op_ok (client_pool s') → op_held (client_pool s') = op_held (client_pool s) →
    added handle s None s'.

Lemma add_loop_spec n idx alloc handle s :
  list_wf s → op_fresh alloc (client_pool s) →
  (idx + n = length (client_list s))%nat →
  (∀ j, (j < idx)%nat → ∃ c, client_list s !! j = Some (Some c)) →
  ∃ r s', add_loop n idx alloc handle s = Some (r, s') ∧ added handle s r s'.
Proof.
  intros [Hlen Hok] Hfresh. revert idx. induction n as [|n IH]; intros idx Hn Hpre.
  { eexists _, _; split; [done|]. by constructor. }
  destruct (lookup_lt_is_Some_2 (client_list s) idx) as [slot Hslot]; [lia|].
  cbn [add_loop]. rewrite Hslot. cbn [mbind option_bind]. destruct slot as [c|].
  - apply IH; [lia|]. intros j Hj. destruct (decide (j = idx)) as [->|]; [by exists c|].
    apply Hpre. lia.
  - destruct (op_get_law (client_pool s) alloc Hok Hfresh) as (r & q & E & Hok' & Hr).
    rewrite E. cbn [mbind option_bind]. destruct r as [c|].
    + destruct Hr as [Hnh Hh]. eexists _, _; split; [done|].
      eapply (AddedAt _ _ idx c); simpl; try done.
      * by rewrite get_set_list, !get_upd_eq.
      * intros c' Hne. by rewrite get_set_list, !get_upd_ne by congruence.
    + eexists _, _; split; [done|]. by constructor.
Qed.

Lemma list_add_client_added alloc handle s :
  list_wf s → op_fresh alloc (client_pool s) →
  ∃ r s', list_add_client alloc handle s = Some (r, s') ∧ added handle s r s'.
Proof.
  intros Hwf Hf. apply add_loop_spec; [done|done| |intros; lia].
  destruct Hwf as [Hlen _]. lia.
Qed.

Lemma added_reg_wf handle s r s' : reg_wf s → added handle s r s' → reg_wf s'.
Proof.
  intros [[Hlen Hok] Hheld Hslot] H.
  destruct H as [idx c s' Hfree Hnh Hl Hc Hne Hok' Hh Hip Hcnt|s' Hl Hcl Hip Hcnt Hok' Hh].
  - assert (Hlt : (idx < length (client_list s))%nat) by (eapply lookup_lt_Some, Hfree).
    assert (Hlk : ∀ i c', client_list s' !! i = Some (Some c') →
      (i = idx ∧ c' = c) ∨ (c' ≠ c ∧ client_list s !! i = Some (Some c'))).
    { intros i c'. rewrite Hl. destruct (decide (i = idx)) as [->|Hi].
      - rewrite list_lookup_insert_eq by done. intros [= ->]. by left.
      - rewrite list_lookup_insert_ne by done. intros Hc'. right. split; [|done].
        intros ->. apply Hnh. eauto. }
    split.
    + split; [|done]. rewrite Hl, length_insert. unfold max_clients. by rewrite Hip.
    + intros i c' [[-> ->]|[? ?]]%Hlk; rewrite Hh; [set_solver|].
      apply elem_of_union_r. eauto.
    + intros i c' [[-> ->]|[? ?]]%Hlk; [by rewrite Hc|]. rewrite Hne by done. eauto.
  - split.
    + split; [|done]. unfold max_clients. by rewrite Hl, Hip.
    + intros i c. rewrite Hl, Hh. apply Hheld.
    + intros i c. rewrite Hl. unfold get_client. rewrite Hcl. apply Hslot.
Qed.

(** Clearing slot 0 of a well-formed registry whose client [c] sits at [k]. *)
Lemma remove_run s k c :
  reg_wf s → client_list s !! k = Some (Some c) →
  ∃ s', list_remove_client false (Some c) s = Some (0, s') ∧
    client_list s' = <[0%nat := None]> (client_list s) ∧
    op_ok (client_pool s') ∧ op_held (client_pool s') = op_held (client_pool s) ∖ {[c]} ∧
    get_client s' c = Client (ConnectionHandle (get_client s c)) true 0 0 None ∧
    (∀ c', c' ≠ c → get_client s' c' = get_client s c') ∧ ip_pool s' = ip_pool s.
Proof.
  intros Hwf Hk. destruct (reg_list _ Hwf) as [Hlen Hok].
  pose proof (reg_held _ Hwf k c Hk) as Hheld. destruct (reg_slot _ Hwf k c Hk) as [Hs Hsess].
  pose proof (lookup_lt_Some _ _ _ Hk) as Hlt.
  destruct (op_put_law (client_pool s) c Hok Hheld) as (q & E & Hok' & Hh).
  destruct (lookup_lt_is_Some_2 (client_list s) 0) as [slot Hslot]; [lia|].
  unfold list_remove_client. rewrite Hs.
  destruct (Z.ltb_spec (Z.of_nat k) 0); [lia|].
  destruct (Z.ltb_spec (max_clients s) (Z.of_nat k)); [lia|]. cbn [orb].
  rewrite !get_upd_eq. cbn [slot_idx set_ip_entry set_uid set_slot_idx].
  change (Z.to_nat 0) with 0%nat.
  set (s3 := upd_client c (set_ip_entry None) _). change (client_list s3) with (client_list s).
  rewrite Hslot. cbn [mbind option_bind].
  change (client_pool (set_client_list _ s3)) with (client_pool s).
  rewrite E. cbn [mbind option_bind].
  eexists. split; [done|]. split; [done|]. split; [done|]. split; [done|]. split; [|split; [|done]].
  - rewrite get_set_pool, get_set_list. unfold s3. rewrite !get_upd_eq.
    unfold set_ip_entry, set_uid, set_slot_idx; simpl. by rewrite Hsess.
  - intros c' Hne. rewrite get_set_pool, get_set_list. unfold s3.
    by rewrite !get_upd_ne by congruence.
Qed.

Lemma find_loop_spec n i u s :
  (i + n = length (client_list s))%nat →
  ∃ r, find_loop n i u s = Some r ∧
    match r with
    | Some c => ∃ k, (i ≤ k)%nat ∧ client_list s !! k = Some (Some c) ∧
        u64 (uid (get_client s c)) = u ∧
        ∀ j c', (i ≤ j < k)%nat → client_list s !! j = Some (Some c') →
          u64 (uid (get_client s c')) ≠ u
    | None => ∀ j c', (i ≤ j)%nat → client_list s !! j = Some (Some c') →
        u64 (uid (get_client s c')) ≠ u
    end.
Proof.
  revert i. induction n as [|n IH]; intros i Hn.
  { eexists; split; [done|]. simpl. intros j c' Hj Hc. apply lookup_lt_Some in Hc. lia. }
  destruct (lookup_lt_is_Some_2 (client_list s) i) as [slot Hslot]; [lia|].
  cbn [find_loop]. rewrite Hslot. cbn [mbind option_bind].
  assert (Hnext : (∀ c, slot = Some c → u64 (uid (get_client s c)) ≠ u) →
    ∃ r, find_loop n (S i) u s = Some r ∧
    match r with
    | Some c => ∃ k, (i ≤ k)%nat ∧ client_list s !! k = Some (Some c) ∧
        u64 (uid (get_client s c)) = u ∧
        ∀ j c', (i ≤ j < k)%nat → client_list s !! j = Some (Some c') →
          u64 (uid (get_client s c')) ≠ u
    | None => ∀ j c', (i ≤ j)%nat → client_list s !! j = Some (Some c') →
        u64 (uid (get_client s c')) ≠ u
    end).
  { intros Hne. destruct (IH (S i)) as (r & E & Hr); [lia|]. exists r. split; [done|].
    destruct r as [c|].
    - destruct Hr as (k & Hk & Hkc & Hu & Hpre). exists k. split; [lia|]. do 2 (split; [done|]).
      intros j c' Hj Hc'. destruct (decide (j = i)) as [->|];
        [apply Hne; congruence|by apply (Hpre j); [lia|]].
    - intros j c' Hj Hc'. destruct (decide (j = i)) as [->|];
        [apply Hne; congruence|by apply (Hr j); [lia|]]. }
  destruct slot as [c|]; [|by apply Hnext].
  destruct (Z.eqb_spec (u64 (uid (get_client s c))) u) as [Hu|Hu].
  - eexists; split; [done|]. exists i. split; [done|]. do 2 (split; [done|]). intros; lia.
  - apply Hnext. by intros c' [= <-].
Qed.


(** C16. Removing a client clears the wrong slot: [list_remove_client] of the
    client at slot [k] gives its object back to the pool but always empties
    slot 0, because the slot number is reset before it is used.  For [k = 0]
    the registry stays well formed; for any other [k] the list keeps a
    reference to an object that is no longer checked out. *)
Theorem list_remove_client_spec s k c :
  reg_wf s → client_list s !! k = Some (Some c) →
  ∃ s', list_remove_client false (Some c) s = Some (0, s') ∧
    client_list s' = <[0%nat := None]> (client_list s) ∧
    op_held (client_pool s') = op_held (client_pool s) ∖ {[c]} ∧
    (k = 0%nat → reg_wf s') ∧
    (k ≠ 0%nat → client_list s' !! k = Some (Some c) ∧ (c ∉ op_held (client_pool s')) ∧
       ¬ reg_wf s').
Proof.
  intros Hwf Hk. destruct (remove_run s k c Hwf Hk) as (s' & E & Hl & Hok & Hh & Hc & Hne & Hip).
  exists s'. do 3 (split; [done|]). destruct (reg_list _ Hwf) as [Hlen _]. split.
  - intros ->.
    assert (Hlk : ∀ i c', client_list s' !! i = Some (Some c') →
      c' ≠ c ∧ client_list s !! i = Some (Some c')).
    { intros i c'. rewrite Hl. destruct (decide (i = 0%nat)) as [->|Hi].
      - rewrite list_lookup_insert_eq by (by eapply lookup_lt_Some). done.
      - rewrite list_lookup_insert_ne by done. intros Hc'. split; [|done].
        intros ->. apply Hi. by eapply (reg_inj s). }
    split.
    + split; [|done]. unfold max_clients. by rewrite Hl, length_insert, Hip.
    + intros i c' [? Hc']%Hlk. rewrite Hh. pose proof (reg_held _ Hwf i c' Hc'). set_solver.
    + intros i c' [? Hc']%Hlk. rewrite Hne by done. by eapply (reg_slot _ Hwf).
  - intros Hk0. assert (Hd : client_list s' !! k = Some (Some c)).
    { rewrite Hl. by rewrite list_lookup_insert_ne by done. }
    split; [done|]. rewrite Hh. split; [set_solver|]. intros Hwf'.
    pose proof (reg_held _ Hwf' k c Hd) as Hin. rewrite Hh in Hin. set_solver.
Qed.

(** [list_find_client_by_uid] never leaves the list; it returns the client
    of the lowest slot whose uid is the one asked for, or NULL when there is
    none; uid 0, which the code uses for "not assigned", never matches. *)
Theorem list_find_client_by_uid_spec u s :
  list_wf s →
  list_find_client_by_uid false 0 s = Some None ∧
  (u ≠ 0 → ∃ r, list_find_client_by_uid false u s = Some r ∧
    match r with
    | Some c => ∃ k, client_list s !! k = Some (Some c) ∧ u64 (uid (get_client s c)) = u ∧
        ∀ j c', (j < k)%nat → client_list s !! j = Some (Some c') →
          u64 (uid (get_client s c')) ≠ u
    | None => ∀ j c', client_list s !! j = Some (Some c') → u64 (uid (get_client s c')) ≠ u
    end).
Proof.
  intros [Hlen _]. split; [done|]. intros Hu. unfold list_find_client_by_uid.
  destruct (Z.eqb_spec u 0); [done|].
  destruct (find_loop_spec (Z.to_nat (max_clients s)) 0 u s) as (r & E & Hr); [lia|].
  exists r. split; [done|]. destruct r as [c|].
  - destruct Hr as (k & _ & Hk & Huid & Hpre). exists k. do 2 (split; [done|]).
    intros j c' Hj. apply Hpre. lia.
  - intros j c'. apply Hr. lia.
Qed.

(** Connecting gives a client an address and an identity of its own: when
    an address is free, [initialize_client_state] leases one that nobody held
    to the client, points the client at it and gives it the counter as uid,
    which it advances; otherwise it returns -1, with every address taken, the
    leases and the counter unchanged and no address in the client. *)
Theorem initialize_client_state_spec s c :
  IpPool.pool_wf (ip_pool s) → session (get_client s c) = true →
  ∃ rc s', initialize_client_state (Some c) s = Some (rc, s') ∧
    IpPool.pool_wf (ip_pool s') ∧ client_list s' = client_list s ∧
    client_pool s' = client_pool s ∧
    (∀ c', c' ≠ c → get_client s' c' = get_client s c') ∧
    ((rc = 0 ∧ client_cnt s' = u64 (client_cnt s + 1) ∧
      uid (get_client s' c) = s64 (client_cnt s) ∧
      ∃ i, ip_entry (get_client s' c) = Some i ∧
        let a := ntohl (IpPool.net_addr (ip_pool s)) + Z.of_nat i in
        IpPool.leases (ip_pool s) !! a = None ∧
        IpPool.leases (ip_pool s') = <[a := c]> (IpPool.leases (ip_pool s))) ∨
     (rc = -1 ∧ client_cnt s' = client_cnt s ∧ ip_pool s' = ip_pool s ∧
      uid (get_client s' c) = uid (get_client s c) ∧ ip_entry (get_client s' c) = None ∧
      ∀ a, IpPool.assignable (ip_pool s) a → is_Some (IpPool.leases (ip_pool s) !! a))).
Proof.
  intros Hwf Hs. unfold initialize_client_state. cbn [mbind option_bind]. rewrite Hs. cbn [negb].
  destruct (IpPool.acquire_total (ip_pool s) c Hwf)
    as [(i & q & E & Hwf' & _ & Hnone & Hl & _)|[E Hfull]]; rewrite E; cbn [mbind option_bind].
  - cbn [default]. set (s1 := set_ip_pool _ s). eexists 0, _. split; [done|].
    do 3 (split; [done|]). split.
    { intros c' Hne. rewrite get_set_cnt. by rewrite !get_upd_ne by congruence. }
    left. do 2 (split; [done|]). rewrite get_set_cnt, !get_upd_eq. simpl.
    split; [done|]. exists i. rewrite Hl. auto.
  - cbn [default]. set (s1 := set_ip_pool _ s). eexists (-1), _. split; [done|].
    do 3 (split; [done|]). split.
    { intros c' Hne. by rewrite !get_upd_ne by congruence. }
    right. do 3 (split; [done|]). rewrite get_upd_eq. done.
Qed.
End registry.

(** ** A registry of two clients, on the object pool of the code *)

#[local] Existing Instance Pool.pool_objpool.

Definition no_garbage : nat → client_t := λ _, Client None false 0 0 None.

Definition sample_session : session_t Pool.pool_t := Session
  IpPool.sample_pool
  (Pool.PoolT 40 8 2 2 None
     {[1%nat := Pool.PoolBlock None true; 2%nat := Pool.PoolBlock None true]})
  3
  (Some 1%nat :: Some 2%nat :: replicate 6 None)
  {[1%nat := Client (Some 11%nat) true 1 0 None; 2%nat := Client (Some 12%nat) true 2 1 None]}.

Lemma sample_registered (Q : nat → nat → Prop) :
  Q 0%nat 1%nat → Q 1%nat 2%nat →
  ∀ i c, client_list sample_session !! i = Some (Some c) → Q i c.
Proof.
  intros H0 H1 i c Hi. destruct i as [|[|i]]; [by injection Hi as <-..|].
  assert (H : client_list sample_session !! S (S i) = replicate 6 (None : option nat) !! i) by done.
  rewrite H in Hi. by apply lookup_replicate in Hi as [? _].
Qed.

Lemma sample_reg_wf : reg_wf no_garbage sample_session.
Proof.
  split.
  - split; [by vm_compute|]. exists []. split; try done.
    + by apply NoDup_nil.
    + assert (H : map_Forall (λ _ x, Pool.owner x = true) (Pool.heap (client_pool sample_session)))
        by (apply (bool_decide_unpack _); by vm_compute).
      exact H.
  - apply (sample_registered (λ _ c, c ∈ op_held (client_pool sample_session)));
      apply (bool_decide_unpack _); by vm_compute.
  - apply (sample_registered (λ i c, slot_idx (get_client no_garbage sample_session c) = Z.of_nat i ∧
      session (get_client no_garbage sample_session c) = true)); by vm_compute.
Qed.

Lemma sample_fresh : op_fresh (λ _, Some 3%nat) (client_pool sample_session).
Proof. intros sz b [= <-]. by vm_compute. Qed.


Lemma list_remove_client_spec_witness :
  reg_wf no_garbage sample_session ∧
  ∃ s', list_remove_client no_garbage false (Some 2%nat) sample_session = Some (0, s') ∧
        client_list s' !! 0%nat = Some None ∧ client_list s' !! 1%nat = Some (Some 2%nat).
Proof.
  split; [exact sample_reg_wf|].
  destruct (list_remove_client_spec no_garbage sample_session 1 2 sample_reg_wf eq_refl)
    as (s' & E & Hl & _). exists s'. split; [exact E|]. rewrite Hl. done.
Defined.

Lemma list_find_client_by_uid_spec_witness :
  list_wf sample_session ∧
  ∃ r, list_find_client_by_uid no_garbage false 2 sample_session = Some r.
Proof.
  split; [exact (reg_list _ _ sample_reg_wf)|].
  destruct (list_find_client_by_uid_spec no_garbage 2 sample_session (reg_list _ _ sample_reg_wf))
    as [_ H]. destruct (H ltac:(done)) as (r & E & _). eauto.
Defined.

Lemma initialize_client_state_spec_witness :
  IpPool.pool_wf (ip_pool sample_session) ∧
  ∃ rc s', initialize_client_state no_garbage (Some 2%nat) sample_session = Some (rc, s') ∧
           IpPool.pool_wf (ip_pool s').
Proof.
  split; [exact IpPool.sample_pool_wf|].
  destruct (initialize_client_state_spec no_garbage sample_session 2 IpPool.sample_pool_wf eq_refl)
    as (rc & s' & E & H & _). eauto.
Defined.

(** Three connections and the departure of the second leave the list with a
    slot that no client owns and the first client unregistered: a request of
    the client with uid 1 finds nobody. *)
Example remove_unregisters_another :
  (r ← list_remove_client no_garbage false (Some 2%nat) sample_session;
   list_find_client_by_uid no_garbage false 1 r.2) = Some None ∧
  list_find_client_by_uid no_garbage false 1 sample_session = Some (Some 1%nat).
Proof. split; vm_compute; reflexivity. Qed.
