(* ===== verification/StateSync.v ===== *)
(** * state_sync.h: waiting for a state

    The state is what the mutex protects.  What other threads do while a
    caller sleeps is given by [wakes]: for every return of pthread_cond_wait
    or pthread_cond_timedwait, its code and the value the caller then finds.
    When they are used up the caller is still asleep ([Block]). *)
From stdpp Require Import prelude.
From Stdlib Require Import ZArith Lia.
From S2P Require Import Prelude.

Definition state_sync_t : Type := Z.

(** struct timespec *)
Record timespec := Timespec { tv_sec : Z; tv_nsec : Z }.

(** The code with the new value of [*ts]; the sums are those of the code, so a
    value outside int64_t is a signed overflow. *)
Definition state_sync_timespec_add_ms (ts : timespec) (timeout_ms : Z) : Z * timespec :=
  let sec_add := timeout_ms / 1000 in
  let nsec_add := timeout_ms mod 1000 * 1000000 in
  if INT64_MAX - sec_add <? tv_sec ts then (- EINVAL, ts)
  else
    let ts := Timespec (tv_sec ts + sec_add) (tv_nsec ts + nsec_add) in
    if 1000000000 <=? tv_nsec ts
    then (0, Timespec (tv_sec ts + 1) (tv_nsec ts - 1000000000))
    else (0, ts).

(** Returns the code; the mutex and attribute clean-ups ignore theirs. *)
Definition state_sync_init (os : os_t) (null : bool) (initial_state : Z) : M state_sync_t Z :=
  if null then mret (- EINVAL)
  else
    modify (λ _, initial_state);;
    if negb (os MutexInit =? 0) then mret (- os MutexInit)
    else if negb (os CondattrInit =? 0) then mret (- os CondattrInit)
    else if negb (os CondattrSetclock =? 0) then mret (- os CondattrSetclock)
    else if negb (os CondInit =? 0) then mret (- os CondInit)
    else mret 0.

Definition state_sync_destroy (os : os_t) (null : bool) : M state_sync_t () :=
  if null then mret ()
  else
    rc_ok (os CondDestroy);;
    rc_ok (os MutexDestroy);;
    modify (λ _, -1).

Definition state_sync_set (os : os_t) (null : bool) (new_state : Z) : M state_sync_t () :=
  if null then fatal
  else
    rc_ok (os (MutexLock 0));;
    s ← gets id;
    (if negb (s =? new_state) then
       modify (λ _, new_state);;
       rc_ok (os CondBroadcast)
     else mret ());;
    rc_ok (os (MutexUnlock 0)).

Definition state_sync_get (os : os_t) (null : bool) : M state_sync_t Z :=
  if null then fatal
  else
    rc_ok (os (MutexLock 0));;
    val ← gets id;
    rc_ok (os (MutexUnlock 0));;
    mret val.

Definition state_sync_check (os : os_t) (null : bool) (target : Z) : M state_sync_t bool :=
  if null then fatal
  else
    rc_ok (os (MutexLock 0));;
    s ← gets id;
    rc_ok (os (MutexUnlock 0));;
    mret (s =? target).

(** [while (!done) { rc = pthread_cond_wait(..); if (rc != 0) FATAL }] *)
Fixpoint cond_wait_loop (done : Z → bool) (wakes : list (Z * Z)) : M state_sync_t () := λ s,
  if done s then Ret () s
  else
    match wakes with
    | [] => Block s
    | (rc, s') :: wakes => if rc =? 0 then cond_wait_loop done wakes s' else Fatal s'
    end.

Definition wait_until (done : Z → bool) (os : os_t) (null : bool) (wakes : list (Z * Z))
    : M state_sync_t () :=
  if null then fatal
  else
    rc_ok (os (MutexLock 0));;
    cond_wait_loop done wakes;;
    rc_ok (os (MutexUnlock 0)).

Definition state_sync_wait os null (target : Z) wakes : M state_sync_t () :=
  wait_until (λ s, s =? target) os null wakes.
Definition state_sync_wait_for_any os null (a b : Z) wakes : M state_sync_t () :=
  wait_until (λ s, (s =? a) || (s =? b)) os null wakes.
Definition state_sync_wait_while os null (value : Z) wakes : M state_sync_t () :=
  wait_until (λ s, negb (s =? value)) os null wakes.

(** The timed loop of state_sync_wait_ms: any code but 0 ends it at once. *)
Fixpoint timed_loop (os : os_t) (target : Z) (wakes : list (Z * Z)) : M state_sync_t Z := λ s,
  if s =? target then (rc_ok (os (MutexUnlock 1));; mret 0) s
  else
    match wakes with
    | [] => Block s
    | (rc, s') :: wakes =>
        if rc =? 0 then timed_loop os target wakes s'
        else (rc_ok (os (MutexUnlock 0));; mret (- ETIMEDOUT)) s'
    end.

(** [clock]: what clock_gettime returns, [None] for its failure. *)
Definition state_sync_wait_ms (os : os_t) (null : bool) (target timeout_ms : Z)
    (clock : option timespec) (wakes : list (Z * Z)) : M state_sync_t Z :=
  if null then mret (- EINVAL)
  else
    match clock with
    | None => mret (- ECANCELED)
    | Some ts =>
        if negb ((state_sync_timespec_add_ms ts timeout_ms).1 =? 0) then mret (- ECANCELED)
        else
          rc_ok (os (MutexLock 0));;
          timed_loop os target wakes
    end.

Fixpoint abort_loop (os : os_t) (target abort_state : Z) (wakes : list (Z * Z)) : M state_sync_t Z :=
  λ s,
  if s =? target then (rc_ok (os (MutexUnlock 1));; mret 0) s
  else if s =? abort_state then Ret (- ECONNABORTED) s
  else
    match wakes with
    | [] => Block s
    | (rc, s') :: wakes =>
        if rc =? 0 then abort_loop os target abort_state wakes s'
        else if s' =? target then (rc_ok (os (MutexUnlock 1));; mret 0) s'
        else if s' =? abort_state then Ret (- ECONNABORTED) s'
        else Ret (- ETIMEDOUT) s'
    end.

Definition state_sync_wait_ms_abort (os : os_t) (null : bool) (target abort_state timeout_ms : Z)
    (clock : option timespec) (wakes : list (Z * Z)) : M state_sync_t Z :=
  if null then mret (- EINVAL)
  else
    rc_ok (os (MutexLock 0));;
    s ← gets id;
    if s =? target then mret 0
    else if s =? abort_state then mret (- ECONNABORTED)
    else
      match clock with
      | None => mret (- ECANCELED)
      | Some ts =>
          if negb ((state_sync_timespec_add_ms ts timeout_ms).1 =? 0) then mret (- ECANCELED)
          else abort_loop os target abort_state wakes
      end.

(** ** Deadlines *)

Definition timespec_ok (ts : timespec) : Prop :=
  0 ≤ tv_sec ts ≤ INT64_MAX ∧ 0 ≤ tv_nsec ts < 1000000000.
Definition ns_of (ts : timespec) : Z := tv_sec ts * 1000000000 + tv_nsec ts.

Lemma timespec_add_ok ts ms :
  timespec_ok ts → 0 ≤ ms → tv_sec ts + ms / 1000 < INT64_MAX →
  let '(rc, ts') := state_sync_timespec_add_ms ts ms in
  rc = 0 ∧ timespec_ok ts' ∧ ns_of ts' = ns_of ts + ms * 1000000.
Proof.
  intros [Hs Hn] Hms Hlt. unfold state_sync_timespec_add_ms, timespec_ok, ns_of.
  pose proof (Z.div_mod ms 1000 ltac:(lia)). pose proof (Z.mod_pos_bound ms 1000 ltac:(lia)).
  pose proof (Z.div_pos ms 1000 Hms ltac:(lia)).
  destruct (Z.ltb_spec (INT64_MAX - ms / 1000) (tv_sec ts)); [lia|].
  cbn [tv_sec tv_nsec].
  destruct (Z.leb_spec 1000000000 (tv_nsec ts + ms mod 1000 * 1000000)); cbn [tv_sec tv_nsec]; lia.
Qed.

(** The deadline is exact: on a normalised time [state_sync_timespec_add_ms]
    yields a normalised time later by exactly the timeout, for every timeout
    of the uint32_t; it refuses the sums past INT64_MAX seconds, except that
    its guard forgets the carry: at exactly INT64_MAX seconds with a carry
    from the nanoseconds the code goes on to overflow tv_sec. *)
Theorem timespec_add_ms_spec ts ms :
  timespec_ok ts → in_u 32 ms →
  let '(rc, ts') := state_sync_timespec_add_ms ts ms in
  if decide (tv_sec ts + ms / 1000 < INT64_MAX)
  then rc = 0 ∧ timespec_ok ts' ∧ ns_of ts' = ns_of ts + ms * 1000000
  else if decide (tv_sec ts + ms / 1000 = INT64_MAX)
  then rc = 0 ∧
       (tv_sec ts' = INT64_MAX + 1 ↔ 1000000000 ≤ tv_nsec ts + ms mod 1000 * 1000000)
  else rc = - EINVAL ∧ ts' = ts.
Proof.
  intros Hts [Hms _]. case_decide as H1.
  { by apply timespec_add_ok. }
  destruct Hts as [Hs Hn]. unfold state_sync_timespec_add_ms.
  case_decide as H2; destruct (Z.ltb_spec (INT64_MAX - ms / 1000) (tv_sec ts)); try lia; [|done].
  cbn [tv_sec tv_nsec].
  destruct (Z.leb_spec 1000000000 (tv_nsec ts + ms mod 1000 * 1000000)); cbn [tv_sec]; lia.
Qed.

Lemma timespec_add_ms_spec_witness :
  timespec_ok (Timespec 100 999000000) ∧ in_u 32 5001 ∧
  state_sync_timespec_add_ms (Timespec 100 999000000) 5001 = (0, Timespec 106 0) ∧
  (state_sync_timespec_add_ms (Timespec 100 999000000) 5001).1 = 0.
Proof.
  assert (H : timespec_ok (Timespec 100 999000000)) by (by vm_compute).
  split; [exact H|]. split; [by vm_compute|]. split; [by vm_compute|].
  pose proof (timespec_add_ms_spec (Timespec 100 999000000) 5001 H ltac:(by vm_compute)) as Hp.
  exact (proj1 Hp).
Defined.

(** ** Waiting *)

(** Closes the facts about a return code and a state. *)
Ltac codes := unfold ECONNABORTED, ETIMEDOUT in *; split_and!; first [done | lia | (intros; exfalso; lia)].

Lemma abort_loop_asleep os target ab wakes s s' :
  posix_ok os → abort_loop os target ab wakes s = Block s' → s ≠ target ∧ s ≠ ab.
Proof.
  intros Hos E. destruct wakes as [|[r x] w]; cbn [abort_loop] in E; unfold mbind, M_bind in E;
    rewrite ?(rc_ok_posix os) in E by done;
    (destruct (Z.eqb_spec s target); [done|]); by destruct (Z.eqb_spec s ab).
Qed.

Lemma abort_loop_run os target ab wakes s :
  posix_ok os → target ≠ ab →
  (∃ s', abort_loop os target ab wakes s = Block s' ∧ s' ≠ target ∧ s' ≠ ab ∧
     Forall (λ w, w.1 = 0 ∧ w.2 ≠ target ∧ w.2 ≠ ab) wakes) ∨
  ∃ rc s', abort_loop os target ab wakes s = Ret rc s' ∧
    (rc = 0 ↔ s' = target) ∧ (rc = - ECONNABORTED ↔ s' = ab) ∧
    (rc = - ETIMEDOUT ↔ s' ≠ target ∧ s' ≠ ab) ∧
    (rc = - ETIMEDOUT → Exists (λ w, w.1 ≠ 0) wakes).
Proof.
  intros Hos Hne. unfold ECONNABORTED, ETIMEDOUT.
  revert s. induction wakes as [|[rc s1] wakes IH]; intros s; cbn [abort_loop];
    unfold mbind, M_bind; rewrite ?(rc_ok_posix os) by done;
    (destruct (Z.eqb_spec s target) as [->|Ht];
      [right; eexists _, _; split; [done|]; codes|]);
    (destruct (Z.eqb_spec s ab) as [->|Ha];
      [right; eexists _, _; split; [done|]; codes|]).
  { left. exists s. auto. }
  destruct (Z.eqb_spec rc 0) as [->|Hrc].
  { destruct (IH s1) as [(s' & E & H1 & H2 & HF)|(rc & s' & E & H1 & H2 & H3 & H4)].
    - left. exists s'. do 3 (split; [done|]). constructor; [|done]. simpl.
      split; [done|]. by eapply abort_loop_asleep.
    - right. exists rc, s'. do 4 (split; [done|]). intros H. apply Exists_cons_tl. auto. }
  right. destruct (Z.eqb_spec s1 target) as [->|Ht1].
  { rewrite ?(rc_ok_posix os) by done. eexists _, _; split; [done|]. codes. }
  destruct (Z.eqb_spec s1 ab) as [->|Ha1]; eexists _, _; (split; [done|]); [codes|].
  unfold ETIMEDOUT. split_and!; [lia..|]. intros _. by apply Exists_cons_hd.
Qed.

(** C30. The wait the client connects with tells the outcome truthfully: with a
    sane clock, [state_sync_wait_ms_abort] returns 0 exactly in the target
    state, -ECONNABORTED exactly in the abort state and -ETIMEDOUT only when
    the deadline passed in neither; it sleeps on only while every wake-up
    found another state, and so it always returns once the deadline passes. *)
Theorem state_sync_wait_ms_abort_spec os target ab ms ts wakes s :
  posix_ok os → target ≠ ab → timespec_ok ts → 0 ≤ ms → tv_sec ts + ms / 1000 < INT64_MAX →
  match state_sync_wait_ms_abort os false target ab ms (Some ts) wakes s with
  | Ret rc s' =>
      (rc = 0 ↔ s' = target) ∧ (rc = - ECONNABORTED ↔ s' = ab) ∧
      (rc = - ETIMEDOUT ↔ s' ≠ target ∧ s' ≠ ab) ∧
      (rc = - ETIMEDOUT → Exists (λ w, w.1 ≠ 0) wakes)
  | Block s' =>
      s' ≠ target ∧ s' ≠ ab ∧ Forall (λ w, w.1 = 0 ∧ w.2 ≠ target ∧ w.2 ≠ ab) wakes
  | Fatal _ => False
  end.
Proof.
  intros Hos Hne Hts Hms Hlt. pose proof (timespec_add_ok ts ms Hts Hms Hlt) as Hadd.
  unfold state_sync_wait_ms_abort. unfold mbind at 1, M_bind. rewrite (rc_ok_posix os) by done.
  unfold mbind, M_bind, gets, id.
  destruct (Z.eqb_spec s target) as [->|Ht]; [unfold ECONNABORTED, ETIMEDOUT; simpl; codes|].
  destruct (Z.eqb_spec s ab) as [->|Ha]; [unfold ECONNABORTED, ETIMEDOUT; simpl; codes|].
  destruct (state_sync_timespec_add_ms ts ms) as [rc ts']. destruct Hadd as (-> & _). simpl.
  destruct (abort_loop_run os target ab wakes s Hos Hne) as [(s' & -> & H)|(rc & s' & -> & H)]; done.
Qed.

Lemma state_sync_wait_ms_abort_spec_witness :
  timespec_ok (Timespec 100 0) ∧
  match state_sync_wait_ms_abort os_posix false 2 0 5000 (Some (Timespec 100 0))
          [(0, 1); (0, 2)] 1 with
  | Ret rc s' => rc = 0 ↔ s' = 2
  | Block s' => s' ≠ 2
  | Fatal _ => False
  end.
Proof.
  split; [by vm_compute|].
  pose proof (state_sync_wait_ms_abort_spec os_posix 2 0 5000 (Timespec 100 0) [(0, 1); (0, 2)] 1
    os_posix_ok ltac:(done) ltac:(by vm_compute) ltac:(done) ltac:(by vm_compute)) as H.
  destruct (state_sync_wait_ms_abort _ _ _ _ _ _ _ _); [apply H|exact H|apply H].
Defined.

Lemma cond_wait_loop_run done wakes s :
  Forall (λ w, w.1 = 0) wakes →
  (∃ s', cond_wait_loop done wakes s = Ret () s' ∧ done s' = true) ∨
  (∃ s', cond_wait_loop done wakes s = Block s' ∧ done s' = false).
Proof.
  revert s. induction wakes as [|[rc s1] wakes IH]; intros s Hw; simpl;
    destruct (done s) eqn:Hd; eauto.
  apply Forall_cons in Hw as [E Hw]. simpl in E. subst rc. simpl. by apply IH.
Qed.

(** The untimed waits return only in a state they wait for: the target, one
    of the two alternatives, or any state but the given one; while asleep the
    state is not such a one.  [state_sync_wait_ms] likewise returns 0 only in
    the target state, but gives up at its deadline without looking at the
    state again, so -ETIMEDOUT does not mean that the target is not reached. *)
Theorem state_sync_waits_spec os wakes s :
  posix_ok os → Forall (λ w, w.1 = 0) wakes →
  (∀ target, match state_sync_wait os false target wakes s with
     | Ret _ s' => s' = target | Block s' => s' ≠ target | Fatal _ => False end) ∧
  (∀ a b, match state_sync_wait_for_any os false a b wakes s with
     | Ret _ s' => s' = a ∨ s' = b | Block s' => s' ≠ a ∧ s' ≠ b | Fatal _ => False end) ∧
  (∀ v, match state_sync_wait_while os false v wakes s with
     | Ret _ s' => s' ≠ v | Block s' => s' = v | Fatal _ => False end) ∧
  state_sync_wait_ms os false 7 5000 (Some (Timespec 1 0)) [(ETIMEDOUT, 7)] 6
    = Ret (- ETIMEDOUT) 7.
Proof.
  intros Hos Hw.
  assert (H : ∀ done, match wait_until done os false wakes s with
    | Ret _ s' => done s' = true | Block s' => done s' = false | Fatal _ => False end).
  { intros dn. unfold wait_until, mbind, M_bind. rewrite (rc_ok_posix os) by done.
    destruct (cond_wait_loop_run dn wakes s Hw) as [(s' & -> & E)|(s' & -> & E)]; [|done].
    by rewrite (rc_ok_posix os). }
  unfold state_sync_wait, state_sync_wait_for_any, state_sync_wait_while. split_and!.
  - intros target. specialize (H (λ s, s =? target)).
    destruct (wait_until _ _ _ _ _); [lia|done|lia].
  - intros a b. specialize (H (λ s, (s =? a) || (s =? b))).
    destruct (wait_until _ _ _ _ _); [lia|done|lia].
  - intros v. specialize (H (λ s, negb (s =? v))).
    destruct (wait_until _ _ _ _ _); [lia|done|lia].
  - unfold state_sync_wait_ms, mbind, M_bind. simpl. rewrite (rc_ok_posix os) by done. simpl.
    unfold mbind, M_bind. by rewrite (rc_ok_posix os).
Qed.

Lemma state_sync_waits_spec_witness :
  Forall (λ w : Z * Z, w.1 = 0) [(0, 3)] ∧
  match state_sync_wait os_posix false 3 [(0, 3)] 1 with
  | Ret _ s' => s' = 3 | Block s' => s' ≠ 3 | Fatal _ => False end.
Proof.
  assert (H : Forall (λ w : Z * Z, w.1 = 0) [(0, 3)]) by (by repeat constructor).
  split; [exact H|]. apply (state_sync_waits_spec os_posix [(0, 3)] 1 os_posix_ok H).
Defined.

(** Setting, reading and checking on initialised objects. *)
Lemma state_sync_set_posix os v s : posix_ok os → state_sync_set os false v s = Ret () v.
Proof.
  intros Hos. unfold state_sync_set, mbind, M_bind, gets, modify, id.
  rewrite (rc_ok_posix os) by done. destruct (Z.eqb_spec s v) as [->|]; simpl.
  - by rewrite (rc_ok_posix os).
  - rewrite !(rc_ok_posix os) by done. done.
Qed.

Lemma state_sync_get_posix os s : posix_ok os → state_sync_get os false s = Ret s s.
Proof.
  intros Hos. unfold state_sync_get, mbind, M_bind, gets, id. by rewrite !(rc_ok_posix os).
Qed.

Lemma state_sync_check_posix os v s : posix_ok os → state_sync_check os false v s = Ret (s =? v) s.
Proof.
  intros Hos. unfold state_sync_check, mbind, M_bind, gets, id. by rewrite !(rc_ok_posix os).
Qed.
#[export] Hint Rewrite state_sync_set_posix state_sync_get_posix state_sync_check_posix
  using done : vpn.
