(* ===== verification/Fifo.v ===== *)
(** * The interface between the packet queue and the threads that use it

    What the packet threads and callbacks rely on, whatever the queue's
    representation.  The elements are pointers, [None] being NULL; [None] as
    the outcome of an operation is an aborted process. *)
From stdpp Require Import prelude.
From Stdlib Require Import ZArith.
From S2P Require Import Prelude.

Class Fifo (Q : Type) := {
  ff_ok : Q → Prop;
  ff_items : Q → list (option nat);
  ff_cap : Q → nat;
  ff_try_push : option nat → Q → option (Z * Q);      (* the code and the queue *)
  ff_try_pop : Q → option (option nat * Q);           (* NULL when empty *)
  ff_try_push_law q x :
    ff_ok q →
    ∃ q', ff_try_push x q =
      Some (if decide (length (ff_items q) < ff_cap q)%nat then 0 else -1, q') ∧
      ff_ok q' ∧ ff_cap q' = ff_cap q ∧
      ff_items q' = (if decide (length (ff_items q) < ff_cap q)%nat
                     then ff_items q ++ [x] else ff_items q);
  ff_try_pop_law q :
    ff_ok q →
    ∃ q', ff_try_pop q = Some (default None (head (ff_items q)), q') ∧
      ff_ok q' ∧ ff_cap q' = ff_cap q ∧ ff_items q' = tail (ff_items q)
}.
