(* ===== verification/Queue.v ===== *)
(** * queue.h: the bounded blocking queue

    A circular buffer of pointers with a mutex and two POSIX semaphores.  The
    functions are modelled as one thread runs them; [null] is the test that the
    queue or its buffer is NULL; a semaphore wait that
    finds the value 0 is [Block], one that a signal interrupts is EINTR. *)
From stdpp Require Import prelude list.
From Stdlib Require Import ZArith Lia.
From S2P Require Import Prelude Fifo.

Record queue_t := Queue {
  size : Z;
  ptr : list (option nat);
  head : Z;
  tail : Z;
  pending : Z;
  push_semaphore : Z;
  pop_semaphore : Z
}.

Definition queue_init (os : os_t) (mem1 mem2 : bool) (n : Z) : outcome () (cres queue_t) :=
  if n =? 0 then Ret (Err EINVAL) ()
  else if SEM_VALUE_MAX <? n then Ret (Err EINVAL) ()
  else if negb mem1 then Ret (Err ENOMEM) ()
  else if negb mem2 then Ret (Err ENOMEM) ()
  else if negb (os MutexInit =? 0) then Fatal ()
  else if negb (os (SemInit 0) =? 0) then Fatal ()
  else if negb (os (SemInit 1) =? 0) then Fatal ()
  else Ret (Ok (Queue n (replicate (Z.to_nat n) None) 0 0 0 n 0)) ().

Definition set_push_sem (v : Z) (q : queue_t) : queue_t :=
  Queue (size q) (ptr q) (head q) (tail q) (pending q) v (pop_semaphore q).
Definition set_pop_sem (v : Z) (q : queue_t) : queue_t :=
  Queue (size q) (ptr q) (head q) (tail q) (pending q) (push_semaphore q) v.

(** [ptr[tail] = x; tail = (tail + 1) % size; pending++]; an index outside the
    buffer is a wild store. *)
Definition insert_elem (x : option nat) : M queue_t () := λ q,
  match ptr q !! Z.to_nat (tail q) with
  | None => Fatal q
  | Some _ =>
      Ret () (Queue (size q) (<[Z.to_nat (tail q) := x]> (ptr q)) (head q)
                (u64 (tail q + 1) mod size q) (u64 (pending q + 1))
                (push_semaphore q) (pop_semaphore q))
  end.

(** [entry = ptr[head]; ptr[head] = NULL; head = (head + 1) % size; pending--] *)
Definition remove_elem : M queue_t (option nat) := λ q,
  match ptr q !! Z.to_nat (head q) with
  | None => Fatal q
  | Some entry =>
      Ret entry (Queue (size q) (<[Z.to_nat (head q) := None]> (ptr q))
                   (u64 (head q + 1) mod size q) (tail q) (u64 (pending q - 1))
                   (push_semaphore q) (pop_semaphore q))
  end.

(** sem_wait: [intr] when a signal handler interrupts it. *)
Definition wait_push_sem (intr : bool) : M queue_t (cres ()) := λ q,
  if intr then Ret (Err EINTR) q
  else match sem_trywait (push_semaphore q) with
       | None => Block q
       | Some v => Ret (Ok ()) (set_push_sem v q)
       end.
Definition wait_pop_sem (intr : bool) : M queue_t (cres ()) := λ q,
  if intr then Ret (Err EINTR) q
  else match sem_trywait (pop_semaphore q) with
       | None => Block q
       | Some v => Ret (Ok ()) (set_pop_sem v q)
       end.
Definition try_push_sem : M queue_t (cres ()) := λ q,
  match sem_trywait (push_semaphore q) with
  | None => Ret (Err EAGAIN) q
  | Some v => Ret (Ok ()) (set_push_sem v q)
  end.
Definition try_pop_sem : M queue_t (cres ()) := λ q,
  match sem_trywait (pop_semaphore q) with
  | None => Ret (Err EAGAIN) q
  | Some v => Ret (Ok ()) (set_pop_sem v q)
  end.

(** [if (sem_post(..) == -1) FATAL] *)
Definition post_pop_sem : M queue_t () := λ q,
  match sem_post (pop_semaphore q) with
  | None => Fatal q
  | Some v => Ret () (set_pop_sem v q)
  end.
Definition post_push_sem : M queue_t () := λ q,
  match sem_post (push_semaphore q) with
  | None => Fatal q
  | Some v => Ret () (set_push_sem v q)
  end.

(** Steps 3 to 6 of the two pushes and of the two pops. *)
Definition push_body (os : os_t) (x : option nat) : M queue_t (cres ()) :=
  rc_ok (os (MutexLock 0));;
  insert_elem x;;
  rc_ok (os (MutexUnlock 0));;
  post_pop_sem;;
  mret (Ok ()).

Definition pop_body (os : os_t) : M queue_t (cres (option nat)) :=
  rc_ok (os (MutexLock 0));;
  entry ← remove_elem;
  rc_ok (os (MutexUnlock 0));;
  post_push_sem;;
  mret (Ok entry).

(** The functions; [Err e] is the return value -1 or NULL with errno [e]. *)
Definition queue_wait_push (os : os_t) (intr null : bool) (x : option nat) : M queue_t (cres ()) :=
  if null then mret (Err EINVAL)
  else
    r ← wait_push_sem intr;
    match r with
    | Err e => mret (Err e)
    | Ok _ => push_body os x
    end.

Definition queue_try_push (os : os_t) (null : bool) (x : option nat) : M queue_t (cres ()) :=
  if null then mret (Err EINVAL)
  else
    r ← try_push_sem;
    match r with
    | Err e => mret (Err e)
    | Ok _ => push_body os x
    end.

Definition queue_wait_pop (os : os_t) (intr null : bool) : M queue_t (cres (option nat)) :=
  if null then mret (Err EINVAL)
  else
    r ← wait_pop_sem intr;
    match r with
    | Err e => mret (Err e)
    | Ok _ => pop_body os
    end.

Definition queue_try_pop (os : os_t) (null : bool) : M queue_t (cres (option nat)) :=
  if null then mret (Err EINVAL)
  else
    r ← try_pop_sem;
    match r with
    | Err e => mret (Err e)
    | Ok _ => pop_body os
    end.

Definition queue_destroy (os : os_t) (null : bool) : M queue_t (cres ()) :=
  if null then mret (Err EINVAL)
  else
    rc_ok (os (SemDestroy 0));;
    rc_ok (os (SemDestroy 1));;
    rc_ok (os MutexDestroy);;
    modify (λ q, Queue 0 [] 0 0 0 (push_semaphore q) (pop_semaphore q));;
    mret (Ok ()).

Definition queue_get_pending (os : os_t) (null : bool) : M queue_t (cres Z) :=
  if null then mret (Err EINVAL)
  else
    rc_ok (os (MutexLock 0));;
    n ← gets pending;
    (if SSIZE_MAX <? n then fatal else mret ());;
    rc_ok (os (MutexUnlock 0));;
    mret (Ok n).

(** ** Representation

    [queue_inv q l]: the queue holds the elements [l], oldest first. *)
Record queue_inv (q : queue_t) (l : list (option nat)) : Prop := {
  qi_size : 0 < size q ≤ SEM_VALUE_MAX;
  qi_len : Z.of_nat (length (ptr q)) = size q;
  qi_head : 0 ≤ head q < size q;
  qi_pending : pending q = Z.of_nat (length l);
  qi_cap : pending q ≤ size q;
  qi_tail : tail q = (head q + pending q) mod size q;
  qi_push : push_semaphore q = size q - pending q;
  qi_pop : pop_semaphore q = pending q;
  qi_elems : ∀ i x, l !! i = Some x →
    ptr q !! Z.to_nat ((head q + Z.of_nat i) mod size q) = Some x
}.

Lemma queue_init_inv os n :
  posix_ok os → 0 < n ≤ SEM_VALUE_MAX →
  ∃ q, queue_init os true true n = Ret (Ok q) () ∧ queue_inv q [] ∧ size q = n.
Proof.
  intros Hos Hn. unfold queue_init. rewrite !Hos.
  destruct (Z.eqb_spec n 0); [lia|]. destruct (Z.ltb_spec SEM_VALUE_MAX n); [lia|].
  eexists. split; [done|]. split; [|done]. split; cbn [size ptr head tail pending push_semaphore
    pop_semaphore length]; try lia; [|rewrite Z.mod_0_l; lia|done].
  rewrite length_replicate. lia.
Qed.

(** Distinct positions of the window are distinct cells. *)
Lemma mod_window_ne h s i j :
  0 ≤ h < s → 0 ≤ i < s → 0 ≤ j < s → i ≠ j → (h + i) mod s ≠ (h + j) mod s.
Proof.
  intros Hh Hi Hj Hne E. apply Hne.
  assert (H : (h + i - (h + j)) mod s = 0) by (rewrite Zminus_mod, E, Z.sub_diag; done).
  apply Z.mod_divide in H as [k Hk]; [|lia]. assert (k = 0) by nia. lia.
Qed.

Lemma sem_max_u64 x : 0 ≤ x ≤ SEM_VALUE_MAX + 1 → u64 x = x.
Proof. unfold SEM_VALUE_MAX, INT_MAX. intros. apply u64_small. lia. Qed.

Lemma insert_elem_inv q l x :
  0 < size q ≤ SEM_VALUE_MAX → Z.of_nat (length (ptr q)) = size q → 0 ≤ head q < size q →
  pending q = Z.of_nat (length l) → pending q < size q →
  tail q = (head q + pending q) mod size q →
  (∀ i y, l !! i = Some y → ptr q !! Z.to_nat ((head q + Z.of_nat i) mod size q) = Some y) →
  ∃ q', insert_elem x q = Ret () q' ∧
    size q' = size q ∧ head q' = head q ∧ pending q' = pending q + 1 ∧
    push_semaphore q' = push_semaphore q ∧ pop_semaphore q' = pop_semaphore q ∧
    length (ptr q') = length (ptr q) ∧ tail q' = (head q + (pending q + 1)) mod size q ∧
    (∀ i y, (l ++ [x]) !! i = Some y →
       ptr q' !! Z.to_nat ((head q + Z.of_nat i) mod size q) = Some y).
Proof.
  intros Hs Hlen Hh Hp Hroom Ht He.
  pose proof (Z.mod_pos_bound (head q + pending q) (size q) ltac:(lia)) as Hb.
  destruct (lookup_lt_is_Some_2 (ptr q) (Z.to_nat (tail q))) as [y0 Hy0]; [lia|].
  eexists. unfold insert_elem. rewrite Hy0. split; [done|]. simpl.
  rewrite !sem_max_u64 by lia. do 5 (split; [done|]). rewrite length_insert. split; [done|].
  split.
  { rewrite Ht, Z.add_mod_idemp_l by lia. f_equal. lia. }
  intros i y Hi. apply lookup_app_Some in Hi as [Hi|[Hge Hi]].
  - pose proof (lookup_lt_Some _ _ _ Hi). rewrite list_lookup_insert_ne; [by apply He|].
    rewrite Ht. intros E. apply Z2Nat.inj in E; [|lia|apply Z.mod_pos_bound; lia].
    symmetry in E. revert E. apply mod_window_ne; lia.
  - apply list_lookup_singleton_Some in Hi as [Hi <-].
    replace (Z.of_nat i) with (pending q) by lia. rewrite <- Ht.
    apply list_lookup_insert_eq. by eapply lookup_lt_Some.
Qed.

Lemma remove_elem_inv q x l :
  0 < size q ≤ SEM_VALUE_MAX → Z.of_nat (length (ptr q)) = size q → 0 ≤ head q < size q →
  pending q = Z.of_nat (length (x :: l)) → pending q ≤ size q →
  tail q = (head q + pending q) mod size q →
  (∀ i y, (x :: l) !! i = Some y →
     ptr q !! Z.to_nat ((head q + Z.of_nat i) mod size q) = Some y) →
  ∃ q', remove_elem q = Ret x q' ∧
    size q' = size q ∧ 0 ≤ head q' < size q ∧ pending q' = pending q - 1 ∧
    push_semaphore q' = push_semaphore q ∧ pop_semaphore q' = pop_semaphore q ∧
    length (ptr q') = length (ptr q) ∧ tail q' = (head q' + pending q') mod size q ∧
    (∀ i y, l !! i = Some y →
       ptr q' !! Z.to_nat ((head q' + Z.of_nat i) mod size q) = Some y).
Proof.
  intros Hs Hlen Hh Hp Hcap Ht He. cbn [length] in Hp.
  pose proof (He 0%nat x eq_refl) as Hx. rewrite Z.add_0_r, Z.mod_small in Hx by lia.
  eexists. unfold remove_elem. rewrite Hx. split; [done|]. simpl.
  rewrite !sem_max_u64 by lia. split; [done|].
  split; [apply Z.mod_pos_bound; lia|]. do 3 (split; [done|]). rewrite length_insert.
  split; [done|]. split.
  { rewrite Ht, Z.add_mod_idemp_l by lia. f_equal. lia. }
  intros i y Hi. pose proof (lookup_lt_Some _ _ _ Hi).
  assert (E : (head q + 1) mod size q + Z.of_nat i = (head q + 1) mod size q + Z.of_nat i) by done.
  rewrite Z.add_mod_idemp_l by lia.
  replace (head q + 1 + Z.of_nat i) with (head q + Z.of_nat (S i)) by lia.
  rewrite list_lookup_insert_ne; [by apply He|].
  intros E'. apply Z2Nat.inj in E'; [|lia|apply Z.mod_pos_bound; lia].
  assert (E2 : (head q + 0) mod size q = (head q + Z.of_nat (S i)) mod size q).
  { rewrite Z.add_0_r, (Z.mod_small (head q)) by lia. done. }
  revert E2. apply mod_window_ne; lia.
Qed.

Section posix.
Context (os : os_t) (Hos : posix_ok os).

Lemma push_body_run q l x :
  queue_inv q l → Z.of_nat (length l) < size q →
  ∃ q', push_body os x (set_push_sem (push_semaphore q - 1) q) = Ret (Ok ()) q' ∧
        queue_inv q' (l ++ [x]) ∧ size q' = size q.
Proof.
  intros [H1 H2 H3 H4 H5 H6 H7 H8 H9] Hroom.
  destruct (insert_elem_inv (set_push_sem (push_semaphore q - 1) q) l x)
    as (q1 & E & Es & Eh & Ep & Eps & Epop & El & Et & Ee); simpl; try done; [lia|].
  simpl in *. unfold push_body, mbind, M_bind. rewrite (rc_ok_posix os) by done. rewrite E.
  rewrite (rc_ok_posix os) by done. unfold post_pop_sem.
  assert (Hpost : sem_post (pop_semaphore q1) = Some (pop_semaphore q1 + 1))
    by (apply sem_post_Some; lia).
  rewrite Hpost. eexists. split; [done|]. split; [|done].
  split; simpl; rewrite ?length_app, ?Es, ?Eh; simpl; try lia; try done. by rewrite Et, Ep.
Qed.

Lemma pop_body_run q l x :
  queue_inv q (x :: l) →
  ∃ q', pop_body os (set_pop_sem (pop_semaphore q - 1) q) = Ret (Ok x) q' ∧
        queue_inv q' l ∧ size q' = size q.
Proof.
  intros [H1 H2 H3 H4 H5 H6 H7 H8 H9].
  destruct (remove_elem_inv (set_pop_sem (pop_semaphore q - 1) q) x l)
    as (q1 & E & Es & Eh & Ep & Eps & Epop & El & Et & Ee); simpl; try done.
  simpl in *. unfold pop_body, mbind, M_bind. rewrite (rc_ok_posix os) by done. rewrite E.
  rewrite (rc_ok_posix os) by done. unfold post_push_sem.
  assert (Hpost : sem_post (push_semaphore q1) = Some (push_semaphore q1 + 1))
    by (apply sem_post_Some; lia).
  rewrite Hpost. eexists. split; [done|]. split; [|done].
  split; simpl; rewrite ?Es; try lia; try done.
Qed.

Lemma push_run q l x :
  queue_inv q l →
  (Z.of_nat (length l) < size q ∧ ∃ q',
     queue_try_push os false x q = Ret (Ok ()) q' ∧
     queue_wait_push os false false x q = Ret (Ok ()) q' ∧
     queue_inv q' (l ++ [x]) ∧ size q' = size q) ∨
  (Z.of_nat (length l) = size q ∧
     queue_try_push os false x q = Ret (Err EAGAIN) q ∧
     queue_wait_push os false false x q = Block q).
Proof.
  intros Hinv. unfold queue_try_push, queue_wait_push, mbind, M_bind, try_push_sem, wait_push_sem.
  pose proof (qi_push _ _ Hinv) as Hps. pose proof (qi_pending _ _ Hinv) as Hp.
  pose proof (qi_cap _ _ Hinv) as Hc.
  destruct (decide (pending q < size q)) as [Hlt|Hge].
  - left. split; [lia|].
    assert (E : sem_trywait (push_semaphore q) = Some (push_semaphore q - 1))
      by (apply sem_trywait_Some; lia).
    rewrite E. destruct (push_body_run q l x Hinv) as (q' & E' & H); [lia|].
    rewrite E'. eauto.
  - right. split; [lia|].
    assert (E : sem_trywait (push_semaphore q) = None) by (apply sem_trywait_None; lia).
    by rewrite E.
Qed.

Lemma pop_run q l :
  queue_inv q l →
  match l with
  | x :: l => ∃ q', queue_try_pop os false q = Ret (Ok x) q' ∧
      queue_wait_pop os false false q = Ret (Ok x) q' ∧ queue_inv q' l ∧ size q' = size q
  | [] => queue_try_pop os false q = Ret (Err EAGAIN) q ∧
      queue_wait_pop os false false q = Block q
  end.
Proof.
  intros Hinv. unfold queue_try_pop, queue_wait_pop, mbind, M_bind, try_pop_sem, wait_pop_sem.
  pose proof (qi_pop _ _ Hinv) as Hps. pose proof (qi_pending _ _ Hinv) as Hp.
  destruct l as [|x l]; simpl in Hp.
  - assert (E : sem_trywait (pop_semaphore q) = None) by (apply sem_trywait_None; lia).
    by rewrite E.
  - assert (E : sem_trywait (pop_semaphore q) = Some (pop_semaphore q - 1))
      by (apply sem_trywait_Some; lia).
    rewrite E. destruct (pop_body_run q l x Hinv) as (q' & E' & H). rewrite E'. eauto.
Qed.
End posix.

(** The pushes implement a bounded FIFO: on a queue holding [l] with room
    both append the element, without overwriting any other; on a full one
    queue_try_push returns EAGAIN and queue_wait_push blocks, the queue
    unchanged; an interrupted wait is EINTR, the queue unchanged. *)
Theorem queue_push_spec os q l x :
  posix_ok os → queue_inv q l →
  queue_wait_push os true false x q = Ret (Err EINTR) q ∧
  if decide (Z.of_nat (length l) < size q) then
    ∃ q', queue_try_push os false x q = Ret (Ok ()) q' ∧
      queue_wait_push os false false x q = Ret (Ok ()) q' ∧
      queue_inv q' (l ++ [x]) ∧ size q' = size q
  else
    Z.of_nat (length l) = size q ∧
    queue_try_push os false x q = Ret (Err EAGAIN) q ∧
    queue_wait_push os false false x q = Block q.
Proof.
  intros Hos Hinv. split; [done|].
  destruct (push_run os Hos q l x Hinv) as [[H ?]|[H ?]]; case_decide; (done || lia).
Qed.

(** The pops take the oldest element, whatever it is: NULL is an element
    like any other, which the threads use as a sentinel, and the return value
    alone does not tell it from failure.  On an empty queue queue_try_pop
    returns NULL with EAGAIN and queue_wait_pop blocks; an interrupted wait
    returns NULL with EINTR. *)
Theorem queue_pop_spec os q l :
  posix_ok os → queue_inv q l →
  queue_wait_pop os true false q = Ret (Err EINTR) q ∧
  match l with
  | x :: l => ∃ q', queue_try_pop os false q = Ret (Ok x) q' ∧
      queue_wait_pop os false false q = Ret (Ok x) q' ∧ queue_inv q' l ∧ size q' = size q
  | [] => queue_try_pop os false q = Ret (Err EAGAIN) q ∧
      queue_wait_pop os false false q = Block q
  end.
Proof. intros Hos Hinv. split; [done|]. by apply pop_run. Qed.

(** A queue of size 2 that wrapped around, holding pointer 9 and the sentinel. *)
Definition sample_queue : queue_t := Queue 2 [None; Some 9%nat] 1 1 2 0 2.

Lemma sample_queue_inv : queue_inv sample_queue [Some 9%nat; None].
Proof.
  split; try (by vm_compute). intros [|[|i]] x [= <-]; by vm_compute.
Qed.

Lemma queue_push_spec_witness :
  queue_inv sample_queue [Some 9%nat; None] ∧
  queue_try_push os_posix false (Some 4%nat) sample_queue = Ret (Err EAGAIN) sample_queue.
Proof.
  split; [exact sample_queue_inv|].
  destruct (queue_push_spec os_posix sample_queue [Some 9%nat; None] (Some 4%nat) os_posix_ok
    sample_queue_inv) as [_ H].
  rewrite decide_False in H by (by vm_compute). apply H.
Defined.

Lemma queue_pop_spec_witness :
  queue_inv sample_queue [Some 9%nat; None] ∧
  ∃ q', queue_try_pop os_posix false sample_queue = Ret (Ok (Some 9%nat)) q' ∧ queue_inv q' [None].
Proof.
  split; [exact sample_queue_inv|].
  destruct (queue_pop_spec os_posix sample_queue [Some 9%nat; None] os_posix_ok sample_queue_inv)
    as (_ & q' & E & _ & H & _). eauto.
Defined.

(** ** The queue as the packet threads see it *)

Definition window (q : queue_t) : list (option nat) :=
  (λ i, default None (ptr q !! Z.to_nat ((head q + Z.of_nat i) mod size q)))
    <$> seq 0 (Z.to_nat (pending q)).

Lemma window_inv q l : queue_inv q l → window q = l.
Proof.
  intros H. apply list_eq. intros i. unfold window. rewrite list_lookup_fmap.
  pose proof (qi_pending _ _ H). destruct (decide (i < length l)%nat) as [Hi|Hi].
  - rewrite lookup_seq_lt by lia. simpl. destruct (lookup_lt_is_Some_2 l i Hi) as [x Hx].
    rewrite Hx. by rewrite (qi_elems _ _ H i x Hx).
  - rewrite lookup_seq_ge by lia. simpl. symmetry. apply lookup_ge_None. lia.
Qed.

Definition queue_ok (q : queue_t) : Prop := ∃ l, queue_inv q l.

Definition try_push_obj (x : option nat) (q : queue_t) : option (Z * queue_t) :=
  match queue_try_push os_posix false x q with
  | Ret (Ok _) q => Some (0, q)
  | Ret (Err _) q => Some (-1, q)
  | Fatal _ => None
  | Block _ => None
  end.

Definition try_pop_obj (q : queue_t) : option (option nat * queue_t) :=
  match queue_try_pop os_posix false q with
  | Ret (Ok x) q => Some (x, q)
  | Ret (Err _) q => Some (None, q)
  | Fatal _ => None
  | Block _ => None
  end.

Lemma try_push_law q x :
  queue_ok q →
  let room := decide (length (window q) < Z.to_nat (size q))%nat in
  ∃ q', try_push_obj x q = Some (if room then 0 else -1, q') ∧
    queue_ok q' ∧ Z.to_nat (size q') = Z.to_nat (size q) ∧
    window q' = (if room then window q ++ [x] else window q).
Proof.
  intros [l Hinv]. simpl. rewrite (window_inv _ _ Hinv).
  pose proof (qi_size _ _ Hinv). unfold try_push_obj.
  destruct (push_run os_posix os_posix_ok q l x Hinv) as [(Hlt & q' & E & _ & Hinv' & Es)|(Heq & E & _)];
    rewrite E; case_decide; try lia.
  - exists q'. split; [done|]. split; [by eexists|]. rewrite Es. split; [done|].
    by rewrite (window_inv _ _ Hinv').
  - exists q. split; [done|]. split; [by eexists|]. split; [done|]. by rewrite (window_inv _ _ Hinv).
Qed.

Lemma try_pop_law q :
  queue_ok q →
  ∃ q', try_pop_obj q = Some (default None (list.head (window q)), q') ∧
    queue_ok q' ∧ Z.to_nat (size q') = Z.to_nat (size q) ∧ window q' = list.tail (window q).
Proof.
  intros [l Hinv]. rewrite (window_inv _ _ Hinv). unfold try_pop_obj.
  pose proof (pop_run os_posix os_posix_ok q l Hinv) as Hp. destruct l as [|x l].
  - destruct Hp as [E _]. rewrite E. exists q. split; [done|]. split; [by eexists|].
    split; [done|]. by rewrite (window_inv _ _ Hinv).
  - destruct Hp as (q' & E & _ & Hinv' & Es). rewrite E. exists q'. split; [done|].
    split; [by eexists|]. rewrite Es. split; [done|]. by rewrite (window_inv _ _ Hinv').
Qed.

#[export] Instance queue_fifo : Fifo queue_t := {|
  ff_ok := queue_ok;
  ff_items := window;
  ff_cap q := Z.to_nat (size q);
  ff_try_push := try_push_obj;
  ff_try_pop := try_pop_obj;
  ff_try_push_law := try_push_law;
  ff_try_pop_law := try_pop_law
|}.
