(* ===== verification/QueueConc.v ===== *)
(** * queue.h: the bounded queue under concurrency

    Any number of threads push and pop.  A step is a semaphore operation or
    the critical section, which the mutex makes atomic: a thread between its
    steps has reserved a slot or an element ([PushReserved], [PopReserved]) or
    still has to post the other semaphore ([PushPosting], [PopPosting]).
    [pushed] and [popped] log what the critical sections did, in order. *)
From stdpp Require Import prelude list.
From Stdlib Require Import ZArith Lia.
From S2P Require Import Prelude Fifo Queue.

Inductive op :=
| WaitPush (x : option nat)
| TryPush (x : option nat)
| WaitPop
| TryPop.

Inductive pc :=
| QIdle
| PushReserved (x : option nat)
| PushPosting
| PopReserved
| PopPosting (x : option nat)
| QAborted.

Inductive act :=
| ACall (o : op)         (* call a function, up to its semaphore *)
| AIntr (o : op)         (* a signal interrupts the wait of a call *)
| ARun.                  (* the next step of the call *)

Record shared := Shared {
  qu : queue_t;
  pushed : list (option nat);
  popped : list (option nat)
}.

Definition tstep (a : act) (_ : nat) (s : shared) (p : pc) : option (shared * pc) :=
  match a, p with
  | ACall (WaitPush x), QIdle =>
      match wait_push_sem false (qu s) with
      | Ret (Ok _) q => Some (Shared q (pushed s) (popped s), PushReserved x)
      | _ => None
      end
  | ACall (TryPush x), QIdle =>
      match try_push_sem (qu s) with
      | Ret (Ok _) q => Some (Shared q (pushed s) (popped s), PushReserved x)
      | _ => Some (s, QIdle)
      end
  | ACall WaitPop, QIdle =>
      match wait_pop_sem false (qu s) with
      | Ret (Ok _) q => Some (Shared q (pushed s) (popped s), PopReserved)
      | _ => None
      end
  | ACall TryPop, QIdle =>
      match try_pop_sem (qu s) with
      | Ret (Ok _) q => Some (Shared q (pushed s) (popped s), PopReserved)
      | _ => Some (s, QIdle)
      end
  | AIntr (WaitPush _), QIdle => Some (s, QIdle)
  | AIntr WaitPop, QIdle => Some (s, QIdle)
  | ARun, PushReserved x =>
      match insert_elem x (qu s) with
      | Ret _ q => Some (Shared q (pushed s ++ [x]) (popped s), PushPosting)
      | _ => Some (s, QAborted)
      end
  | ARun, PopReserved =>
      match remove_elem (qu s) with
      | Ret x q => Some (Shared q (pushed s) (popped s ++ [x]), PopPosting x)
      | _ => Some (s, QAborted)
      end
  | ARun, PushPosting =>
      match post_pop_sem (qu s) with
      | Ret _ q => Some (Shared q (pushed s) (popped s), QIdle)
      | _ => Some (s, QAborted)
      end
  | ARun, PopPosting _ =>
      match post_push_sem (qu s) with
      | Ret _ q => Some (Shared q (pushed s) (popped s), QIdle)
      | _ => Some (s, QAborted)
      end
  | _, _ => None
  end.

(** A new queue of size [n] and [k] idle threads. *)
Definition start (n : Z) (k : nat) : conf shared pc :=
  (Shared (Queue n (replicate (Z.to_nat n) None) 0 0 0 n 0) [] [], replicate k QIdle).

(** ** Invariant: where the tokens of the two semaphores are *)

Definition w_push (p : pc) : Z :=
  match p with PushReserved _ | PopPosting _ => 1 | _ => 0 end.
Definition w_pop (p : pc) : Z :=
  match p with PopReserved | PushPosting => 1 | _ => 0 end.
Definition w_abort (p : pc) : Z := match p with QAborted => 1 | _ => 0 end.

(** [ring_inv q l a b]: [q] holds [l]; [a] push tokens and [b] pop tokens are in
    the hands of threads. *)
Record ring_inv (q : queue_t) (l : list (option nat)) (a b : Z) : Prop := {
  ri_size : 0 < size q ≤ SEM_VALUE_MAX;
  ri_len : Z.of_nat (length (ptr q)) = size q;
  ri_head : 0 ≤ head q < size q;
  ri_pending : pending q = Z.of_nat (length l);
  ri_tail : tail q = (head q + pending q) mod size q;
  ri_elems : ∀ i x, l !! i = Some x →
    ptr q !! Z.to_nat ((head q + Z.of_nat i) mod size q) = Some x;
  ri_push : push_semaphore q + a + pending q = size q;
  ri_pop : pop_semaphore q + b = pending q;
  ri_sems : 0 ≤ push_semaphore q ∧ 0 ≤ pop_semaphore q
}.

Definition conc_inv (n : Z) (c : conf shared pc) : Prop :=
  (∃ l, ring_inv (qu c.1) l (sum_over w_push c.2) (sum_over w_pop c.2) ∧
        pushed c.1 = popped c.1 ++ l) ∧
  size (qu c.1) = n ∧ sum_over w_abort c.2 = 0.

Lemma queue_w_nonneg : (∀ p, 0 ≤ w_push p) ∧ (∀ p, 0 ≤ w_pop p) ∧ (∀ p, 0 ≤ w_abort p).
Proof. split_and!; by intros []. Qed.

Lemma insert_ring q l a b x :
  ring_inv q l (a + 1) b → 0 ≤ a →
  ∃ q', insert_elem x q = Ret () q' ∧ ring_inv q' (l ++ [x]) a (b + 1) ∧ size q' = size q.
Proof.
  intros [H1 H2 H3 H4 H5 H6 H7 H8 H9] Ha.
  destruct (insert_elem_inv q l x) as (q1 & E & Es & Eh & Ep & Eps & Epop & El & Et & Ee);
    try done; [lia|].
  exists q1. split; [done|]. split; [|done].
  split; rewrite ?length_app, ?Es, ?Eh; simpl; try lia; try done. by rewrite Et, Ep.
Qed.

Lemma remove_ring q x l a b :
  ring_inv q (x :: l) a (b + 1) → 0 ≤ a →
  ∃ q', remove_elem q = Ret x q' ∧ ring_inv q' l (a + 1) b ∧ size q' = size q.
Proof.
  intros [H1 H2 H3 H4 H5 H6 H7 H8 H9] Ha.
  destruct (remove_elem_inv q x l) as (q1 & E & Es & Eh & Ep & Eps & Epop & El & Et & Ee);
    try done; [lia|]. simpl in H4.
  exists q1. split; [done|]. split; [|done].
  split; rewrite ?Es; try lia; try done.
Qed.

Lemma take_push_ring q l a b :
  ring_inv q l a b → 0 < push_semaphore q →
  ring_inv (set_push_sem (push_semaphore q - 1) q) l (a + 1) b.
Proof. intros [] ?. split; simpl; (done || lia). Qed.
Lemma take_pop_ring q l a b :
  ring_inv q l a b → 0 < pop_semaphore q →
  ring_inv (set_pop_sem (pop_semaphore q - 1) q) l a (b + 1).
Proof. intros [] ?. split; simpl; (done || lia). Qed.

(** A post never overflows: the token was part of the size. *)
Lemma post_push_ring q l a b :
  ring_inv q l (a + 1) b → 0 ≤ a →
  ∃ q', post_push_sem q = Ret () q' ∧ ring_inv q' l a b ∧ size q' = size q.
Proof.
  intros [H1 H2 H3 H4 H5 H6 H7 H8 H9] Ha. unfold post_push_sem.
  assert (E : sem_post (push_semaphore q) = Some (push_semaphore q + 1))
    by (apply sem_post_Some; lia).
  rewrite E. eexists. split; [done|]. split; [|done]. split; simpl; (done || lia).
Qed.
Lemma post_pop_ring q l a b :
  ring_inv q l a (b + 1) → 0 ≤ a → 0 ≤ b →
  ∃ q', post_pop_sem q = Ret () q' ∧ ring_inv q' l a b ∧ size q' = size q.
Proof.
  intros [H1 H2 H3 H4 H5 H6 H7 H8 H9] Ha Hb. unfold post_pop_sem.
  assert (E : sem_post (pop_semaphore q) = Some (pop_semaphore q + 1))
    by (apply sem_post_Some; lia).
  rewrite E. eexists. split; [done|]. split; [|done]. split; simpl; (done || lia).
Qed.

Lemma queue_tstep_inv a b l act i s p s' p' :
  ring_inv (qu s) l (a + w_push p) (b + w_pop p) → 0 ≤ a → 0 ≤ b →
  pushed s = popped s ++ l → tstep act i s p = Some (s', p') →
  ∃ l', ring_inv (qu s') l' (a + w_push p') (b + w_pop p') ∧
    pushed s' = popped s' ++ l' ∧ size (qu s') = size (qu s) ∧ w_abort p' = 0.
Proof.
  intros Hinv Ha Hb Hlog E.
  destruct act as [[x|x| |]|[x|x| |]|], p as [|y| | |y|]; simplify_eq/=;
    rewrite ?Z.add_0_r in Hinv; try (exists l; by rewrite !Z.add_0_r).
  - unfold wait_push_sem in E. destruct (sem_trywait _) as [v|] eqn:Ev; [|done].
    apply sem_trywait_Some in Ev as [? ->]. simplify_eq/=.
    exists l. rewrite Z.add_0_r. eauto using take_push_ring.
  - unfold try_push_sem in E. destruct (sem_trywait _) as [v|] eqn:Ev; simplify_eq/=.
    + apply sem_trywait_Some in Ev as [? ->]. exists l. rewrite Z.add_0_r.
      eauto using take_push_ring.
    + exists l. by rewrite !Z.add_0_r.
  - unfold wait_pop_sem in E. destruct (sem_trywait _) as [v|] eqn:Ev; [|done].
    apply sem_trywait_Some in Ev as [? ->]. simplify_eq/=.
    exists l. rewrite Z.add_0_r. eauto using take_pop_ring.
  - unfold try_pop_sem in E. destruct (sem_trywait _) as [v|] eqn:Ev; simplify_eq/=.
    + apply sem_trywait_Some in Ev as [? ->]. exists l. rewrite Z.add_0_r.
      eauto using take_pop_ring.
    + exists l. by rewrite !Z.add_0_r.
  - destruct (insert_ring _ _ _ _ y Hinv Ha) as (q & Eq & Hinv' & Es). rewrite Eq in E.
    simplify_eq/=. exists (l ++ [y]). rewrite Z.add_0_r, Hlog, (assoc_L (++)). done.
  - destruct (post_pop_ring _ _ _ _ Hinv Ha Hb) as (q & Eq & Hinv' & Es). rewrite Eq in E.
    simplify_eq/=. exists l. by rewrite !Z.add_0_r.
  - destruct l as [|y l].
    { destruct Hinv. simpl in *. lia. }
    destruct (remove_ring _ _ _ _ _ Hinv Ha) as (q & Eq & Hinv' & Es). rewrite Eq in E.
    simplify_eq/=. exists l. rewrite Z.add_0_r, Hlog, <- (assoc_L (++)). done.
  - destruct (post_push_ring _ _ _ _ Hinv Ha) as (q & Eq & Hinv' & Es). rewrite Eq in E.
    simplify_eq/=. exists l. by rewrite !Z.add_0_r.
Qed.

Lemma queue_cstep_inv n e c c' : conc_inv n c → cstep tstep e c = Some c' → conc_inv n c'.
Proof.
  intros ((l & Hinv & Hlog) & Hsize & Habort) (p & s' & p' & Hp & E & ->)%cstep_Some.
  destruct queue_w_nonneg as (H1 & H2 & H3).
  pose proof (sum_over_ge w_push _ _ _ H1 Hp). pose proof (sum_over_ge w_pop _ _ _ H2 Hp).
  pose proof (sum_over_ge w_abort _ _ _ H3 Hp). specialize (H3 p).
  destruct (queue_tstep_inv (sum_over w_push c.2 - w_push p) (sum_over w_pop c.2 - w_pop p)
    l e.2 e.1 c.1 p s' p') as (l' & Hinv' & Hlog' & Es & Ha'); [by rewrite !Z.sub_add|lia|lia|done|done|].
  split; [|split].
  - exists l'. simpl. by rewrite !(sum_over_insert _ _ _ _ p' Hp).
  - simpl. congruence.
  - simpl. rewrite (sum_over_insert _ _ _ _ p' Hp). lia.
Qed.

Lemma queue_start_inv n k : 0 < n ≤ SEM_VALUE_MAX → conc_inv n (start n k).
Proof.
  intros Hn. unfold conc_inv, start. simpl.
  rewrite !sum_over_zero by (apply Forall_replicate; done). split; [|done].
  exists []. split; [|done].
  split; simpl; rewrite ?length_replicate, ?Z.mod_0_l; try lia; done.
Qed.

(** C12. The queue is a FIFO under every interleaving of any number of producers
    and consumers: no thread ever indexes outside the buffer, overwrites an
    element that was not taken, takes from an empty queue or overflows a
    semaphore (each would abort it); the elements taken are, in order, a
    prefix of the elements inserted, and the rest, at most [n], are what the
    queue holds. *)
Theorem queue_conc_fifo n k c :
  0 < n ≤ SEM_VALUE_MAX → reachable tstep (start n k) c →
  (QAborted ∉ c.2) ∧
  ∃ l, pushed c.1 = popped c.1 ++ l ∧ Z.of_nat (length l) ≤ n ∧
    pending (qu c.1) = Z.of_nat (length l) ∧
    ∀ i x, l !! i = Some x →
      ptr (qu c.1) !! Z.to_nat ((head (qu c.1) + Z.of_nat i) mod n) = Some x.
Proof.
  intros Hn Hr.
  assert (Hc : conc_inv n c).
  { revert c Hr. apply reachable_inv; [by apply queue_start_inv|apply queue_cstep_inv]. }
  destruct Hc as ((l & Hinv & Hlog) & Hsize & Habort).
  destruct queue_w_nonneg as (H1 & H2 & H3). pose proof (sum_over_nonneg w_push c.2 H1).
  split.
  - intros [i Hi]%list_elem_of_lookup.
    pose proof (sum_over_ge w_abort _ _ _ H3 Hi). simpl in *. lia.
  - exists l. split; [done|]. rewrite <- Hsize. destruct Hinv. split; [lia|]. done.
Qed.

Definition sample_schedule : list (nat * act) :=
  [(0, ACall (WaitPush (Some 1))); (1, ACall (TryPush (Some 2))); (0, ARun); (1, ARun);
   (0, ARun); (1, ARun); (2, ACall WaitPop); (2, ARun); (2, ARun);
   (0, ACall (WaitPush None)); (0, ARun)]%nat.

Lemma queue_conc_fifo_witness :
  0 < 2 ≤ SEM_VALUE_MAX ∧
  ∃ c, reachable tstep (start 2 3) c ∧
    pushed c.1 = [Some 1; Some 2; None]%nat ∧ popped c.1 = [Some 1%nat] ∧ QAborted ∉ c.2.
Proof.
  assert (Hn : 0 < 2 ≤ SEM_VALUE_MAX) by (by vm_compute). split; [exact Hn|].
  assert (Hrun : (λ c, (pushed c.1, popped c.1)) <$> crun tstep sample_schedule (start 2 3)
    = Some ([Some 1; Some 2; None], [Some 1])%nat) by (vm_compute; reflexivity).
  destruct (crun tstep sample_schedule (start 2 3)) as [c|] eqn:E; [|discriminate Hrun].
  assert (Hr : reachable tstep (start 2 3) c) by (exists sample_schedule; exact E).
  exists c. split; [exact Hr|]. simpl in Hrun. injection Hrun as H1 H2.
  split; [exact H1|]. split; [exact H2|].
  exact (proj1 (queue_conc_fifo 2 3 c Hn Hr)).
Defined.

(** Progress: in a reachable configuration in which no call is in the
    middle, a consumer can go ahead exactly when the queue holds an element
    and a producer exactly when it has room; no wake-up is lost. *)
Theorem queue_conc_progress n k c i x :
  0 < n ≤ SEM_VALUE_MAX → reachable tstep (start n k) c →
  Forall (λ p, p = QIdle) c.2 → c.2 !! i = Some QIdle →
  (is_Some (cstep tstep (i, ACall WaitPop) c) ↔ 0 < pending (qu c.1)) ∧
  (is_Some (cstep tstep (i, ACall (WaitPush x)) c) ↔ pending (qu c.1) < n).
Proof.
  intros Hn Hr Hidle Hi.
  assert (Hc : conc_inv n c).
  { revert c Hr Hidle Hi. intros c Hr _ _. revert c Hr.
    apply reachable_inv; [by apply queue_start_inv|apply queue_cstep_inv]. }
  destruct Hc as ((l & Hinv & _) & Hsize & _).
  rewrite !sum_over_zero in Hinv by (eapply Forall_impl; [done|]; by intros ? ->).
  unfold cstep. simpl. rewrite Hi. simpl. unfold wait_pop_sem, wait_push_sem.
  destruct Hinv. split.
  - destruct (sem_trywait (pop_semaphore (qu c.1))) eqn:E; simpl.
    + apply sem_trywait_Some in E. split; [lia|eauto].
    + apply sem_trywait_None in E. split; [by intros [? ?]|lia].
  - destruct (sem_trywait (push_semaphore (qu c.1))) eqn:E; simpl.
    + apply sem_trywait_Some in E. split; [lia|eauto].
    + apply sem_trywait_None in E. split; [by intros [? ?]|lia].
Qed.

Lemma queue_conc_progress_witness :
  reachable tstep (start 2 3) (start 2 3) ∧
  is_Some (cstep tstep (1%nat, ACall (WaitPush (Some 7%nat))) (start 2 3)).
Proof.
  assert (Hr : reachable tstep (start 2 3) (start 2 3)) by (by exists []).
  split; [exact Hr|].
  assert (Hn : 0 < 2 ≤ SEM_VALUE_MAX) by (by vm_compute).
  assert (Hidle : Forall (λ p, p = QIdle) (start 2 3).2) by (repeat constructor).
  apply (proj2 (queue_conc_progress 2 3 (start 2 3) 1 (Some 7%nat) Hn Hr Hidle eq_refl)).
  by vm_compute.
Defined.
