(* ===== verification/WinQueue.v ===== *)
(** * queue.h, Windows: the bounded queue on Win32 semaphores

    The queue is that of Queue.v, whose record and buffer statements are the
    same; a Win32 semaphore counts up to the maximum it was created with, here
    the size of the queue.  A wait that cannot proceed is [Block]; [wait_ok] is
    whether WaitForSingleObject works at all.  A critical section does not
    fail.  size_t has 64 bits.  Then the threads, as in
    QueueConc.v. *)
From stdpp Require Import prelude list.
From Stdlib Require Import ZArith Lia.
From S2P Require Import Prelude Fifo Queue QueueConc.

Definition LONG_MAX : Z := 2 ^ 31 - 1.

(** The calls that can fail. *)
Inductive win_op := CreateSemaphore (n : nat) | CloseHandle (n : nat).

Section functions.
Context (works : win_op → bool).

Definition queue_init (mem1 mem2 : bool) (n : Z) : outcome () (cres queue_t) :=
  if (n =? 0) || (LONG_MAX <? n) then Ret (Err EINVAL) ()
  else if negb mem1 then Ret (Err ENOMEM) ()
  else if negb mem2 then Ret (Err ENOMEM) ()
  else if negb (works (CreateSemaphore 0)) then Fatal ()
  else if negb (works (CreateSemaphore 1)) then Fatal ()
  else Ret (Ok (Queue n (replicate (Z.to_nat n) None) 0 0 0 n 0)) ().

Definition ReleaseSemaphore (maximum v : Z) : option Z := if v <? maximum then Some (v + 1) else None.

Definition release_pop : M queue_t () := λ q,
  match ReleaseSemaphore (size q) (pop_semaphore q) with
  | None => Fatal q
  | Some v => Ret () (set_pop_sem v q)
  end.
Definition release_push : M queue_t () := λ q,
  match ReleaseSemaphore (size q) (push_semaphore q) with
  | None => Fatal q
  | Some v => Ret () (set_push_sem v q)
  end.

(** WaitForSingleObject without a timeout, and with timeout 0. *)
Definition wait_push (wait_ok : bool) : M queue_t (cres ()) :=
  if wait_ok then wait_push_sem false else mret (Err EINVAL).
Definition wait_pop (wait_ok : bool) : M queue_t (cres ()) :=
  if wait_ok then wait_pop_sem false else mret (Err EINVAL).
Definition poll_push (wait_ok : bool) : M queue_t (cres ()) :=
  if wait_ok then try_push_sem else mret (Err EINVAL).
Definition poll_pop (wait_ok : bool) : M queue_t (cres ()) :=
  if wait_ok then try_pop_sem else mret (Err EINVAL).

(** What follows a successful wait. *)
Definition put_element (x : option nat) (r : cres ()) : M queue_t (cres ()) :=
  match r with
  | Err e => mret (Err e)
  | Ok _ => insert_elem x;; release_pop;; mret (Ok ())
  end.
Definition take_element (r : cres ()) : M queue_t (cres (option nat)) :=
  match r with
  | Err e => mret (Err e)
  | Ok _ => entry ← remove_elem; release_push;; mret (Ok entry)
  end.

(** The functions; a NULL element is refused. *)
Definition queue_wait_push (wait_ok null : bool) (x : option nat) : M queue_t (cres ()) :=
  if null || bool_decide (x = None) then mret (Err EINVAL)
  else r ← wait_push wait_ok; put_element x r.
Definition queue_try_push (wait_ok null : bool) (x : option nat) : M queue_t (cres ()) :=
  if null || bool_decide (x = None) then mret (Err EINVAL)
  else r ← poll_push wait_ok; put_element x r.
Definition queue_wait_pop (wait_ok null : bool) : M queue_t (cres (option nat)) :=
  if null then mret (Err EINVAL) else r ← wait_pop wait_ok; take_element r.
Definition queue_try_pop (wait_ok null : bool) : M queue_t (cres (option nat)) :=
  if null then mret (Err EINVAL) else r ← poll_pop wait_ok; take_element r.

Definition queue_destroy (null : bool) : M queue_t (cres ()) :=
  if null then mret (Err EINVAL)
  else if negb (works (CloseHandle 0)) then fatal
  else if negb (works (CloseHandle 1)) then fatal
  else modify (λ q, Queue 0 [] 0 0 0 (push_semaphore q) (pop_semaphore q));; mret (Ok ()).

Definition queue_get_pending (null : bool) : M queue_t (cres Z) :=
  if null then mret (Err EINVAL)
  else
    n ← gets pending;
    if SSIZE_MAX <? n then fatal else mret (Ok n).
End functions.

(** ** The threads: the steps of QueueConc.v with the Win32 calls *)
Definition tstep (a : act) (i : nat) (s : shared) (p : pc) : option (shared * pc) :=
  match a, p with
  | AIntr _, _ => None                                 (* a wait is not interrupted *)
  | ACall (WaitPush None), QIdle | ACall (TryPush None), QIdle => Some (s, QIdle)
  | ARun, PushPosting =>
      match release_pop (qu s) with
      | Ret _ q => Some (Shared q (pushed s) (popped s), QIdle)
      | _ => Some (s, QAborted)
      end
  | ARun, PopPosting _ =>
      match release_push (qu s) with
      | Ret _ q => Some (Shared q (pushed s) (popped s), QIdle)
      | _ => Some (s, QAborted)
      end
  | _, _ => QueueConc.tstep a i s p
  end.

(** ** Equivalence with the POSIX queue *)

Lemma release_pop_eq q : pop_semaphore q < size q ≤ SEM_VALUE_MAX → release_pop q = post_pop_sem q.
Proof.
  intros H. unfold release_pop, post_pop_sem, ReleaseSemaphore, sem_post.
  destruct (Z.ltb_spec (pop_semaphore q) (size q)), (Z.ltb_spec (pop_semaphore q) SEM_VALUE_MAX); (done || lia).
Qed.
Lemma release_push_eq q : push_semaphore q < size q ≤ SEM_VALUE_MAX → release_push q = post_push_sem q.
Proof.
  intros H. unfold release_push, post_push_sem, ReleaseSemaphore, sem_post.
  destruct (Z.ltb_spec (push_semaphore q) (size q)), (Z.ltb_spec (push_semaphore q) SEM_VALUE_MAX); (done || lia).
Qed.

(** The semaphores are below their maximum whenever a thread is about to
    release one. *)
Lemma posting_room n c i p : conc_inv n c → c.2 !! i = Some p →
  (p = PushPosting → pop_semaphore (qu c.1) < size (qu c.1) ≤ SEM_VALUE_MAX) ∧
  (∀ x, p = PopPosting x → push_semaphore (qu c.1) < size (qu c.1) ≤ SEM_VALUE_MAX).
Proof.
  intros ((l & [Hs Hl Hh Hp Ht He Hpu Hpo Hsem] & _) & _ & _) Hi. destruct queue_w_nonneg as (H1 & H2 & _).
  pose proof (sum_over_ge w_push _ _ _ H1 Hi). pose proof (sum_over_ge w_pop _ _ _ H2 Hi).
  pose proof (sum_over_nonneg w_push c.2 H1). pose proof (sum_over_nonneg w_pop c.2 H2).
  split; [intros ->|intros x ->]; cbn [w_push w_pop] in *; lia.
Qed.

(** A step with the Win32 calls is a step of the POSIX queue, or nothing. *)
Lemma win_step n e c c' : conc_inv n c → cstep tstep e c = Some c' →
  c' = c ∨ cstep QueueConc.tstep e c = Some c'.
Proof.
  intros Hinv (p & s' & p' & Hp & E & ->)%cstep_Some.
  destruct (posting_room _ _ _ _ Hinv Hp) as [R1 R2].
  assert (Hsame : QueueConc.tstep e.2 e.1 c.1 p = Some (s', p') →
    cstep QueueConc.tstep e c = Some (s', <[e.1:=p']> c.2)).
  { intros E'. apply cstep_Some. eauto 8. }
  destruct c as [s l]; destruct (e.2) as [[[x|]|[x|]| |]|o|] eqn:Ea, p; cbn in E; try done;
    try (right; by apply Hsame);
    try (left; injection E as <- <-; cbn in Hp |- *; by rewrite list_insert_id).
  - right. apply Hsame. cbn in R1 |- *. rewrite <- release_pop_eq by (by apply R1). exact E.
  - right. apply Hsame. cbn in R2 |- *. rewrite <- release_push_eq by (by eapply R2). exact E.
Qed.

Lemma win_reachable n k c : 0 < n ≤ SEM_VALUE_MAX →
  reachable tstep (start n k) c → conc_inv n c ∧ reachable QueueConc.tstep (start n k) c.
Proof.
  intros Hn. apply (reachable_inv tstep (λ c, conc_inv n c ∧ reachable QueueConc.tstep (start n k) c)).
  - split; [by apply queue_start_inv|by exists []].
  - intros e c1 c2 [Hc Hr] E. destruct (win_step _ _ _ _ Hc E) as [->|E']; [done|].
    split; [by eapply queue_cstep_inv|by eapply reachable_step].
Qed.

(** The sequential functions. *)
Lemma put_element_eq q l x : queue_inv q l → Z.of_nat (length l) < size q →
  put_element x (Ok ()) (set_push_sem (push_semaphore q - 1) q) =
  push_body os_posix x (set_push_sem (push_semaphore q - 1) q).
Proof.
  intros [H1 H2 H3 H4 H5 H6 H7 H8 H9] Hroom.
  destruct (insert_elem_inv (set_push_sem (push_semaphore q - 1) q) l x)
    as (q1 & E & Es & Eh & Ep & Eps & Epop & _); cbn; try done; [lia|]. cbn in *.
  unfold put_element, push_body, mbind, M_bind. rewrite !(rc_ok_posix os_posix) by done. rewrite E.
  rewrite !(rc_ok_posix os_posix) by done. rewrite release_pop_eq; [done|lia].
Qed.
Lemma take_element_eq q x l : queue_inv q (x :: l) →
  take_element (Ok ()) (set_pop_sem (pop_semaphore q - 1) q) =
  pop_body os_posix (set_pop_sem (pop_semaphore q - 1) q).
Proof.
  intros [H1 H2 H3 H4 H5 H6 H7 H8 H9]. cbn [length] in H4.
  destruct (remove_elem_inv (set_pop_sem (pop_semaphore q - 1) q) x l)
    as (q1 & E & Es & Eh & Ep & Eps & Epop & _); cbn; try done. cbn in *.
  unfold take_element, pop_body, mbind, M_bind. rewrite !(rc_ok_posix os_posix) by done. rewrite E.
  rewrite !(rc_ok_posix os_posix) by done. rewrite release_push_eq; [done|lia].
Qed.

(** C38. The Windows queue is the POSIX queue: on a queue that holds [l] every
    function gives the same result and the same queue, except that a NULL
    element is refused with EINVAL, which is what the engines push to end a
    thread; and whatever a set of threads can reach with the Win32 calls they
    can reach with the POSIX ones, so that no interleaving aborts and the
    elements taken are, in order, a prefix of those inserted. *)
Theorem win_queue_equivalent works q l x n k c :
  queue_inv q l → 0 < n ≤ SEM_VALUE_MAX → reachable tstep (start n k) c →
  queue_wait_push true false (Some x) q = Queue.queue_wait_push os_posix false false (Some x) q ∧
  queue_try_push true false (Some x) q = Queue.queue_try_push os_posix false (Some x) q ∧
  queue_wait_pop true false q = Queue.queue_wait_pop os_posix false false q ∧
  queue_try_pop true false q = Queue.queue_try_pop os_posix false q ∧
  (queue_wait_push true false None q = Ret (Err EINVAL) q) ∧
  ((∀ o, works o = true) → ∀ m, queue_init works true true m = Queue.queue_init os_posix true true m) ∧
  reachable QueueConc.tstep (start n k) c ∧ (QAborted ∉ c.2) ∧ ∃ rest, pushed c.1 = popped c.1 ++ rest.
Proof.
  intros Hq Hn Hr. destruct (win_reachable n k c Hn Hr) as [((m & Hring & Hlog) & Hsize & Hab) Hr'].
  assert (Hfull : sem_trywait (push_semaphore q) = Some (push_semaphore q - 1) → Z.of_nat (length l) < size q).
  { intros [H _]%sem_trywait_Some. pose proof (qi_push _ _ Hq). pose proof (qi_pending _ _ Hq). lia. }
  split_and!; try done.
  - unfold queue_wait_push, Queue.queue_wait_push, wait_push. cbn [orb]. rewrite bool_decide_false by done.
    unfold mbind, M_bind, wait_push_sem. destruct (sem_trywait _) as [v|] eqn:E; [|reflexivity].
    apply sem_trywait_Some in E as E'. destruct E' as [_ ->]. apply (put_element_eq q l); auto.
  - unfold queue_try_push, Queue.queue_try_push, poll_push. cbn [orb]. rewrite bool_decide_false by done.
    unfold mbind, M_bind, try_push_sem. destruct (sem_trywait _) as [v|] eqn:E; [|reflexivity].
    apply sem_trywait_Some in E as E'. destruct E' as [_ ->]. apply (put_element_eq q l); auto.
  - unfold queue_wait_pop, Queue.queue_wait_pop, wait_pop, mbind, M_bind, wait_pop_sem.
    destruct (sem_trywait (pop_semaphore q)) as [v|] eqn:E; [|reflexivity]. apply sem_trywait_Some in E as [H ->].
    destruct l as [|y l]; [pose proof (qi_pop _ _ Hq); pose proof (qi_pending _ _ Hq); cbn in *; lia|].
    by apply (take_element_eq q y l).
  - unfold queue_try_pop, Queue.queue_try_pop, poll_pop, mbind, M_bind, try_pop_sem.
    destruct (sem_trywait (pop_semaphore q)) as [v|] eqn:E; [|reflexivity]. apply sem_trywait_Some in E as [H ->].
    destruct l as [|y l]; [pose proof (qi_pop _ _ Hq); pose proof (qi_pending _ _ Hq); cbn in *; lia|].
    by apply (take_element_eq q y l).
  - intros Hw m'. unfold queue_init, Queue.queue_init. rewrite !Hw. cbn [os_posix].
    change LONG_MAX with SEM_VALUE_MAX. by destruct (m' =? 0), (SEM_VALUE_MAX <? m').
  - intros [i Hi]%list_elem_of_lookup. destruct queue_w_nonneg as (_ & _ & H3).
    pose proof (sum_over_ge w_abort _ _ _ H3 Hi). cbn in *. lia.
  - by exists m.
Qed.

Lemma win_queue_equivalent_witness :
  queue_inv sample_queue [Some 9%nat; None] ∧ reachable tstep (start 2 1) (start 2 1) ∧
  queue_try_push true false (Some 4%nat) sample_queue = Queue.queue_try_push os_posix false (Some 4%nat) sample_queue.
Proof.
  assert (Hr : reachable tstep (start 2 1) (start 2 1)) by (by exists []).
  split; [exact sample_queue_inv|]. split; [exact Hr|].
  apply (win_queue_equivalent (λ _, true) sample_queue [Some 9%nat; None] 4 2 1 (start 2 1) sample_queue_inv
    ltac:(by vm_compute) Hr).
Defined.
