(* ===== verification/LfQueue.v ===== *)
(** * lf_queue.h: the lock-free queue of one producer and one consumer

    A pointer is an [option], [None] being NULL.  The first part is each
    function as one call that nothing interrupts; [Block] is a call that sleeps,
    or spins, until the other thread acts.  The second part interleaves the two
    threads at the granularity of the single load, store and semaphore
    operation, in sequentially consistent order: the acquire and release
    accesses of the header order everything it relies on. *)
From stdpp Require Import prelude list.
From Stdlib Require Import ZArith Lia Znumtheory.
From S2P Require Import Prelude.

Record lf_queue := LfQueue {
  capacity : Z;
  mask : Z;
  ptr : option (list (option nat));     (* NULL, or the allocated slots *)
  tail : Z;
  head : Z;
  items_sem : Z
}.

Definition set_ptr (l : list (option nat)) (q : lf_queue) : lf_queue :=
  LfQueue (capacity q) (mask q) (Some l) (tail q) (head q) (items_sem q).
Definition set_tail (t : Z) (q : lf_queue) : lf_queue :=
  LfQueue (capacity q) (mask q) (ptr q) t (head q) (items_sem q).
Definition set_head (h : Z) (q : lf_queue) : lf_queue :=
  LfQueue (capacity q) (mask q) (ptr q) (tail q) h (items_sem q).
Definition set_sem (v : Z) (q : lf_queue) : lf_queue :=
  LfQueue (capacity q) (mask q) (ptr q) (tail q) (head q) v.

(** The slots that [malloc(size * sizeof(void * ))] holds. *)
Definition slots_of (size : Z) : Z := u64 (size * 8) / 8.

(** [sem_rc]: 0, or the error of sem_init. *)
Definition lf_queue_init (null mem : bool) (sem_rc size : Z) : cres lf_queue :=
  if null || (size =? 0) then Err EINVAL
  else if negb (Z.land size (size - 1) =? 0) then Err EINVAL
  else if negb mem then Err ENOMEM
  else if negb (sem_rc =? 0) then Err sem_rc
  else Ok (LfQueue size (size - 1) (Some (replicate (Z.to_nat (slots_of size)) None)) 0 0 0).

(** An access outside the slots is a wild pointer. *)
Definition write_slot (pos : Z) (x : option nat) (q : lf_queue) : option lf_queue :=
  sl ← ptr q;
  let i := Z.to_nat (Z.land pos (mask q)) in
  _ ← sl !! i;
  Some (set_ptr (<[i := x]> sl) q).
Definition read_slot (pos : Z) (q : lf_queue) : option (option nat) :=
  sl ← ptr q; sl !! Z.to_nat (Z.land pos (mask q)).

(** sem_post at its maximum fails, and the result is ignored. *)
Definition post_items (q : lf_queue) : lf_queue := set_sem (default (items_sem q) (sem_post (items_sem q))) q.

Definition full (t h : Z) (q : lf_queue) : bool := capacity q <=? u64 (t - h).

(** ** The functions *)

Definition or_fatal {A} (x : option A) : M lf_queue A := match x with None => fatal | Some a => mret a end.

Definition lf_queue_try_push (null : bool) (x : option nat) : M lf_queue (cres ()) :=
  q ← gets id;
  match null, ptr q, x with
  | false, Some _, Some _ =>
      let current_tail := tail q in
      let current_head := head q in
      if full current_tail current_head q then mret (Err EAGAIN)
      else
        q ← or_fatal (write_slot current_tail x q);
        modify (λ _, set_tail (u64 (current_tail + 1)) q);;
        modify post_items;;
        mret (Ok ())
  | _, _, _ => mret (Err EINVAL)
  end.

Definition lf_queue_wait_push (null : bool) (x : option nat) : M lf_queue (cres ()) :=
  r ← lf_queue_try_push null x;
  match r with
  | Ok _ => mret (Ok ())
  | Err e => if e =? EAGAIN then block else mret (Err e)
  end.

(** What both pops do once they hold a token. *)
Definition take_entry : M lf_queue (option nat) :=
  q ← gets id;
  let current_head := head q in
  entry ← or_fatal (read_slot current_head q);
  q ← or_fatal (write_slot current_head None q);
  modify (λ _, set_head (u64 (current_head + 1)) q);;
  mret entry.

Definition lf_queue_wait_pop (null : bool) : M lf_queue (option nat) :=
  q ← gets id;
  match null, ptr q with
  | false, Some _ =>
      if items_sem q =? 0 then block
      else
        modify (set_sem (items_sem q - 1));;
        take_entry
  | _, _ => mret None
  end.

Definition lf_queue_try_pop (null : bool) : M lf_queue (option nat) :=
  q ← gets id;
  match null, ptr q with
  | false, Some _ =>
      if items_sem q =? 0 then mret None
      else
        modify (set_sem (items_sem q - 1));;
        take_entry
  | _, _ => mret None
  end.

Definition lf_queue_get_pending (null : bool) (q : lf_queue) : Z :=
  match null, ptr q with
  | false, Some _ => let d := u64 (tail q - head q) in if d <? 2 ^ 63 then d else d - 2 ^ 64
  | _, _ => -1
  end.

Definition lf_queue_destroy (null : bool) : M lf_queue (cres ()) :=
  q ← gets id;
  match null, ptr q with
  | false, Some _ => modify (λ q, LfQueue 0 0 None (tail q) (head q) (items_sem q));; mret (Ok ())
  | _, _ => mret (Err EINVAL)
  end.

(** ** The two threads

    The producer's control points, then the consumer's: what the thread has
    loaded and done so far.  [b]: the call is lf_queue_wait_push. *)
Inductive pc :=
| PIdle
| PRetry (x : nat)                    (* spinning: about to call try_push again *)
| PTail (b : bool) (x : nat) (t : Z)
| PHead (b : bool) (x : nat) (t h : Z)
| PWritten (x : nat) (t : Z)
| PPost
| CIdle
| CWoken
| CHead (h : Z)
| CRead (h : Z) (e : option nat)
| CCleared (h : Z) (e : option nat)
| LfAborted.

Inductive act :=
| APush (b : bool) (x : nat)
| APop                                (* lf_queue_wait_pop returns from sem_wait *)
| ATryPop
| ARun.

(** [sent]: the elements whose push was published, [got]: those popped. *)
Record shared := Shared { q : lf_queue; sent : list nat; got : list (option nat) }.

Definition set_q (x : lf_queue) (s : shared) : shared := Shared x (sent s) (got s).

Definition tstep (a : act) (_ : nat) (s : shared) (p : pc) : option (shared * pc) :=
  match a, p with
  | APush b x, PIdle => Some (s, PTail b x (tail (q s)))
  | ARun, PRetry x => Some (s, PTail true x (tail (q s)))
  | ARun, PTail b x t => Some (s, PHead b x t (head (q s)))
  | ARun, PHead b x t h =>
      if full t h (q s) then Some (s, if b then PRetry x else PIdle)
      else
        match write_slot t (Some x) (q s) with
        | None => Some (s, LfAborted)
        | Some q' => Some (set_q q' s, PWritten x t)
        end
  | ARun, PWritten x t => Some (Shared (set_tail (u64 (t + 1)) (q s)) (sent s ++ [x]) (got s), PPost)
  | ARun, PPost => Some (set_q (post_items (q s)) s, PIdle)
  | APop, CIdle =>
      if items_sem (q s) =? 0 then None
      else Some (set_q (set_sem (items_sem (q s) - 1) (q s)) s, CWoken)
  | ATryPop, CIdle =>
      if items_sem (q s) =? 0 then Some (s, CIdle)
      else Some (set_q (set_sem (items_sem (q s) - 1) (q s)) s, CWoken)
  | ARun, CWoken => Some (s, CHead (head (q s)))
  | ARun, CHead h =>
      match read_slot h (q s) with
      | None => Some (s, LfAborted)
      | Some e => Some (s, CRead h e)
      end
  | ARun, CRead h e =>
      match write_slot h None (q s) with
      | None => Some (s, LfAborted)
      | Some q' => Some (set_q q' s, CCleared h e)
      end
  | ARun, CCleared h e => Some (Shared (set_head (u64 (h + 1)) (q s)) (sent s) (got s ++ [e]), CIdle)
  | _, _ => None
  end.

(** A new queue of [2 ^ k] slots, the producer and the consumer idle. *)
Definition start (k : Z) : conf shared pc :=
  (Shared (LfQueue (2 ^ k) (2 ^ k - 1) (Some (replicate (Z.to_nat (2 ^ k)) None)) 0 0 0) [] [],
   [PIdle; CIdle]).

(** ** The ring *)

(** The slot of the [n]-th element ever pushed. *)
Definition slot (k n : Z) : nat := Z.to_nat (n mod 2 ^ k).

Lemma slot_land k n : 0 ≤ k ≤ 64 → Z.to_nat (Z.land (u64 n) (2 ^ k - 1)) = slot k n.
Proof.
  intros Hk. unfold slot. f_equal. replace (2 ^ k - 1) with (Z.ones k) by (rewrite Z.ones_equiv; lia).
  rewrite Z.land_ones by lia. unfold u64, wrap.
  apply Z.mod_mod_divide. exists (2 ^ (64 - k)). rewrite <- Z.pow_add_r by lia. f_equal. lia.
Qed.
Lemma slot_lt k n (sl : list (option nat)) : 0 ≤ k → Z.of_nat (length sl) = 2 ^ k → (slot k n < length sl)%nat.
Proof.
  intros Hk Hl. unfold slot. pose proof (Z.pow_pos_nonneg 2 k ltac:(lia) Hk).
  pose proof (Z.mod_pos_bound n (2 ^ k) ltac:(lia)). lia.
Qed.
Lemma slot_ne k i j : 0 ≤ k → i < j < i + 2 ^ k → slot k i ≠ slot k j.
Proof.
  intros Hk Hij. unfold slot. pose proof (Z.pow_pos_nonneg 2 k ltac:(lia) Hk).
  pose proof (Z.mod_pos_bound i (2 ^ k) ltac:(lia)).
  pose proof (Z.mod_pos_bound j (2 ^ k) ltac:(lia)). intros E%Z2Nat.inj; [|lia..].
  pose proof (Z.div_mod i (2 ^ k) ltac:(lia)). pose proof (Z.div_mod j (2 ^ k) ltac:(lia)).
  assert (j - i = 2 ^ k * (j / 2 ^ k - i / 2 ^ k)) as Hd by (rewrite Z.mul_sub_distr_l; lia).
  clear - Hij Hd H. revert Hd. generalize (j / 2 ^ k - i / 2 ^ k). intros d Hd.
  generalize dependent (2 ^ k). intros c Hij Hc Hd. destruct (Z.le_gt_cases d 0); nia.
Qed.

(** The check for room, on wrapped counters. *)
Lemma full_spec k p m x : 0 ≤ k ≤ 62 → capacity x = 2 ^ k → 0 ≤ p - m ≤ 2 ^ k →
  full (u64 p) (u64 m) x = bool_decide (p = m + 2 ^ k).
Proof.
  intros Hk Hc Hpm. unfold full. rewrite Hc.
  assert (2 ^ k ≤ 2 ^ 62) by (apply Z.pow_le_mono_r; lia).
  assert (E : u64 (u64 p - u64 m) = p - m).
  { unfold u64, wrap. rewrite <- Zminus_mod. apply Z.mod_small. lia. }
  rewrite E. case_bool_decide; lia.
Qed.
Lemma u64_succ n : u64 (u64 n + 1) = u64 (n + 1).
Proof. apply u64_add_l. Qed.

(** ** Invariant *)
Section invariant.
Context (k : Z) (Hk : 0 ≤ k ≤ 30).

Definition pushed (s : shared) : Z := Z.of_nat (length (sent s)).
Definition popped (s : shared) : Z := Z.of_nat (length (got s)).

(** The token of items_sem the consumer holds; the one the producer owes. *)
Definition token (p : pc) : Z := match p with CWoken | CHead _ | CRead _ _ | CCleared _ _ => 1 | _ => 0 end.
Definition posting (p : pc) : Z := match p with PPost => 1 | _ => 0 end.
Definition cleared (p : pc) : bool := match p with CCleared _ _ => true | _ => false end.

Definition prod_ok (s : shared) (sl : list (option nat)) (p : pc) : Prop :=
  match p with
  | PIdle | PRetry _ | PPost => True
  | PTail _ _ t => t = u64 (pushed s)
  | PHead _ _ t h => t = u64 (pushed s) ∧ ∃ m, m ≤ popped s ∧ h = u64 m ∧ pushed s ≤ m + 2 ^ k
  | PWritten x t => t = u64 (pushed s) ∧ pushed s < popped s + 2 ^ k ∧ sl !! slot k (pushed s) = Some (Some x)
  | _ => False
  end.
Definition cons_ok (s : shared) (p : pc) : Prop :=
  match p with
  | CIdle | CWoken => True
  | CHead h => h = u64 (popped s)
  | CRead h e | CCleared h e => h = u64 (popped s) ∧ ∃ x, sent s !! length (got s) = Some x ∧ e = Some x
  | _ => False
  end.

Record lf_inv (s : shared) (sl : list (option nat)) (pp cp : pc) : Prop := {
  li_q : q s = LfQueue (2 ^ k) (2 ^ k - 1) (Some sl) (u64 (pushed s)) (u64 (popped s)) (items_sem (q s));
  li_len : Z.of_nat (length sl) = 2 ^ k;
  li_room : popped s ≤ pushed s ≤ popped s + 2 ^ k;
  li_got : got s = Some <$> take (length (got s)) (sent s);
  li_slots : ∀ i x, (length (got s) ≤ i)%nat → sent s !! i = Some x →
    (cleared cp = true → i ≠ length (got s)) → sl !! slot k (Z.of_nat i) = Some (Some x);
  li_sem : items_sem (q s) + token cp + posting pp = pushed s - popped s ∧ 0 ≤ items_sem (q s);
  li_prod : prod_ok s sl pp;
  li_cons : cons_ok s cp
}.

Lemma pow_sem : 2 ^ k < SEM_VALUE_MAX.
Proof. assert (2 ^ k ≤ 2 ^ 30) by (apply Z.pow_le_mono_r; lia). change SEM_VALUE_MAX with 2147483647. lia. Qed.

(** Slots are addressed inside the allocation. *)
Lemma write_slot_run s sl pp cp n x : lf_inv s sl pp cp →
  write_slot (u64 n) x (q s) = Some (set_ptr (<[slot k n := x]> sl) (q s)).
Proof.
  intros [Eq Hlen _ _ _ _ _ _]. unfold write_slot. rewrite Eq. cbn [ptr mask].
  cbn [mbind option_bind]. rewrite slot_land by lia.
  destruct (lookup_lt_is_Some_2 sl (slot k n)) as [y ->]; [by apply slot_lt; lia|]. done.
Qed.
Lemma read_slot_run s sl pp cp n : lf_inv s sl pp cp → read_slot (u64 n) (q s) = sl !! slot k n.
Proof.
  intros [Eq _ _ _ _ _ _ _]. unfold read_slot. rewrite Eq. cbn [ptr mask mbind option_bind].
  by rewrite slot_land by lia.
Qed.

Lemma producer_step a i s sl pp cp s' pp' : lf_inv s sl pp cp → tstep a i s pp = Some (s', pp') →
  ∃ sl', lf_inv s' sl' pp' cp.
Proof.
  intros Hinv E. pose proof pow_sem as Hpow.
  pose proof Hinv as [Eq Hlen Hroom Hgot Hslots [Hsem Hpos] Hp Hc].
  destruct a as [b x| | |], pp as [|x'|b' x' t|b' x' t h|x' t| | | | | | |]; cbn in E; try done;
    try (cbn in Hp; done).
  - injection E as <- <-. exists sl. split; try done. cbn. by rewrite Eq.
  - injection E as <- <-. exists sl. split; try done. cbn. by rewrite Eq.
  - injection E as <- <-. exists sl. split; try done. cbn. split; [done|]. exists (popped s).
    rewrite Eq. cbn. lia.
  - destruct Hp as [-> (m & Hm & -> & Hbound)].
    assert (Hm' : 0 ≤ pushed s - m ≤ 2 ^ k) by lia.
    rewrite (full_spec k) in E; [|lia|by rewrite Eq|done]. case_bool_decide as Hf.
    + injection E as <- <-. exists sl. by destruct b'.
    + rewrite (write_slot_run s sl _ _ _ _ Hinv) in E. injection E as <- <-.
      exists (<[slot k (pushed s) := Some x']> sl). split; cbn; try done.
      * rewrite Eq. done.
      * by rewrite length_insert.
      * intros j y Hj Hy Hne. rewrite list_lookup_insert_ne; [by apply Hslots|].
        apply lookup_lt_Some in Hy as Hlt. intros Es. symmetry in Es. revert Es.
        apply slot_ne; [lia|]. unfold pushed, popped in *. lia.
      * split; [done|]. split; [unfold pushed, popped in *; cbn; lia|].
        apply list_lookup_insert_eq. apply slot_lt; [lia|done].
  - destruct Hp as (-> & Hlt & Hx). injection E as <- <-. exists sl. cbn in Hsem.
    assert (Hpu : pushed (Shared (set_tail (u64 (u64 (pushed s) + 1)) (q s)) (sent s ++ [x']) (got s)) = pushed s + 1)
      by (unfold pushed; cbn; rewrite length_app; cbn; lia).
    split; rewrite ?Hpu; cbn; try done.
    + rewrite Eq. cbn. by rewrite u64_succ.
    + unfold popped in *. cbn. lia.
    + rewrite take_app_le; [done|]. unfold pushed, popped in *. lia.
    + intros j y Hj Hy Hne. apply lookup_app_Some in Hy as [Hy|[Hge Hy]]; [by apply Hslots|].
      apply list_lookup_singleton_Some in Hy as [Hj0 <-].
      replace (Z.of_nat j) with (pushed s) by (unfold pushed; lia). done.
    + unfold popped in *. cbn. lia.
    + unfold cons_ok in *. destruct cp; try done; destruct Hc as (Hh & y & Hy & Hy2); (split; [done|]);
        exists y; (split; [|done]); cbn; rewrite lookup_app_l; try done; by eapply lookup_lt_Some.
  - injection E as <- <-. exists sl. cbn in Hsem.
    assert (Hp2 : items_sem (post_items (q s)) = items_sem (q s) + 1).
    { unfold post_items, sem_post. destruct (Z.ltb_spec (items_sem (q s)) SEM_VALUE_MAX); cbn; [done|].
      assert (0 ≤ token cp) by (destruct cp; cbn; lia). unfold pushed, popped in *. lia. }
    assert (E2 : post_items (q s) = set_sem (items_sem (q s) + 1) (q s)) by (unfold post_items in *; cbn in Hp2; by rewrite Hp2).
    rewrite E2. split; cbn; try done; [by rewrite Eq|unfold pushed, popped in *; cbn; lia].
Qed.

Lemma consumer_step a i s sl pp cp s' cp' : lf_inv s sl pp cp → tstep a i s cp = Some (s', cp') →
  ∃ sl', lf_inv s' sl' pp cp'.
Proof.
  intros Hinv E. pose proof Hinv as [Eq Hlen Hroom Hgot Hslots [Hsem Hpos] Hp Hc].
  assert (Hpost : 0 ≤ posting pp) by (destruct pp; cbn; lia).
  destruct a as [b x| | |], cp as [| | | | | | | |h|h e|h e|]; cbn in E; try done; try (cbn in Hc; done).
  - destruct (Z.eqb_spec (items_sem (q s)) 0); [done|]. injection E as <- <-. exists sl. cbn in Hsem.
    split; cbn; try done; [by rewrite Eq|unfold pushed, popped in *; cbn; lia].
  - destruct (Z.eqb_spec (items_sem (q s)) 0); injection E as <- <-; exists sl; [done|]. cbn in Hsem.
    split; cbn; try done; [by rewrite Eq|unfold pushed, popped in *; cbn; lia].
  - injection E as <- <-. exists sl. split; cbn; try done. by rewrite Eq.
  - cbn in Hc. subst h. rewrite (read_slot_run s sl _ _ _ Hinv) in E. cbn in Hsem.
    destruct (lookup_lt_is_Some_2 (sent s) (length (got s))) as [x Hx]; [unfold pushed, popped in *; lia|].
    pose proof (Hslots (length (got s)) x ltac:(lia) Hx ltac:(done)) as Hs.
    fold (popped s) in Hs. rewrite Hs in E. injection E as <- <-. exists sl. split; cbn; try done. eauto.
  - destruct Hc as [-> (x & Hx & ->)]. rewrite (write_slot_run s sl _ _ _ _ Hinv) in E. injection E as <- <-.
    exists (<[slot k (popped s) := None]> sl). cbn in Hsem. split; cbn; try done.
    + by rewrite Eq.
    + by rewrite length_insert.
    + intros j y Hj Hy Hne. specialize (Hne eq_refl). apply lookup_lt_Some in Hy as Hlt.
      rewrite list_lookup_insert_ne; [by apply Hslots|]. apply slot_ne; [lia|]. unfold pushed, popped in *. lia.
    + unfold prod_ok in *. destruct pp; try done. destruct Hp as (Ht & Hlt & Hw). split; [done|]. split; [done|].
      unfold pushed, popped in *. cbn.
      rewrite list_lookup_insert_ne; [done|]. apply slot_ne; lia.
    + eauto.
  - destruct Hc as [-> (x & Hx & ->)]. injection E as <- <-. exists sl. cbn in Hsem.
    assert (Hpo : popped (Shared (set_head (u64 (u64 (popped s) + 1)) (q s)) (sent s) (got s ++ [Some x])) = popped s + 1)
      by (unfold popped; cbn; rewrite length_app; cbn; lia).
    split; rewrite ?Hpo; cbn; try done.
    + rewrite Eq. cbn. by rewrite u64_succ.
    + unfold pushed in *. cbn. lia.
    + rewrite length_app, Nat.add_1_r. cbn. rewrite (take_S_r _ _ _ Hx), fmap_app, <- Hgot. done.
    + rewrite length_app. cbn. intros j y Hj Hy _. apply Hslots; [lia|done|]. intros _. lia.
    + unfold pushed in *. cbn. lia.
    + unfold prod_ok in *. rewrite ?Hpo. destruct pp; try done.
      * destruct Hp as [Ht (m & Hm & Hh & Hb)]. split; [done|]. exists m. unfold pushed in *. cbn. lia.
      * destruct Hp as (Ht & Hlt & Hw). unfold pushed in *. cbn. split; [done|]. split; [lia|done].
Qed.
End invariant.

(** ** Results *)

Definition spsc (k : Z) (c : conf shared pc) : Prop :=
  ∃ sl pp cp, c.2 = [pp; cp] ∧ lf_inv k c.1 sl pp cp.

Lemma spsc_start k : 0 ≤ k → spsc k (start k).
Proof.
  intros Hk. pose proof (Z.pow_pos_nonneg 2 k ltac:(lia) Hk). eexists _, _, _. split; [done|].
  split; cbn; try done; unfold pushed, popped; cbn; try lia.
  rewrite length_replicate. lia.
Qed.
Lemma spsc_step k e c c' : 0 ≤ k ≤ 30 → spsc k c → cstep tstep e c = Some c' → spsc k c'.
Proof.
  intros Hk (sl & pp & cp & Ec & Hinv) (p & s' & p' & Hp & E & ->)%cstep_Some. rewrite Ec in Hp |- *.
  destruct (e.1) as [|[|i]]; cbn in Hp; simplify_eq.
  - destruct (producer_step k Hk _ _ _ _ _ _ _ _ Hinv E) as [sl' H']. by exists sl', p', cp.
  - destruct (consumer_step k Hk _ _ _ _ _ _ _ _ Hinv E) as [sl' H']. by exists sl', pp, p'.
Qed.
Lemma spsc_reachable k c : 0 ≤ k ≤ 30 → reachable tstep (start k) c → spsc k c.
Proof.
  intros Hk. apply reachable_inv; [apply spsc_start; lia|]. intros e c1 c2. by apply spsc_step.
Qed.

Lemma pending_spec k s sl pp cp : 0 ≤ k ≤ 30 → lf_inv k s sl pp cp →
  lf_queue_get_pending false (q s) = pushed s - popped s.
Proof.
  intros Hk [Eq _ Hroom _ _ _ _ _]. unfold lf_queue_get_pending. rewrite Eq. cbn [ptr tail head].
  assert (2 ^ k ≤ 2 ^ 30) by (apply Z.pow_le_mono_r; lia).
  assert (E : u64 (u64 (pushed s) - u64 (popped s)) = pushed s - popped s).
  { unfold u64, wrap. rewrite <- Zminus_mod. apply Z.mod_small. lia. }
  rewrite E. destruct (Z.ltb_spec (pushed s - popped s) (2 ^ 63)); lia.
Qed.

(** C14. The lock-free queue is a FIFO: however the loads, stores and semaphore
    operations of the producer and the consumer interleave, and across the wrap
    of its counters, no slot outside the ring is touched, what was popped is
    exactly the first elements pushed, in order and never NULL, at most the
    capacity is pending and get_pending says how much, and a pop sleeps only when
    nothing is pending or the producer is about to post. *)
Theorem lf_queue_spsc_fifo k c : 0 ≤ k ≤ 30 → reachable tstep (start k) c →
  (LfAborted ∉ c.2) ∧
  got c.1 = Some <$> take (length (got c.1)) (sent c.1) ∧
  0 ≤ pushed c.1 - popped c.1 ≤ 2 ^ k ∧
  lf_queue_get_pending false (q c.1) = pushed c.1 - popped c.1 ∧
  (c.2 !! 1%nat = Some CIdle → cstep tstep (1%nat, APop) c = None →
   pushed c.1 = popped c.1 ∨ c.2 !! 0%nat = Some PPost).
Proof.
  intros Hk Hr. destruct (spsc_reachable k c Hk Hr) as (sl & pp & cp & Ec & Hinv).
  pose proof Hinv as [Eq Hlen Hroom Hgot Hslots [Hsem Hpos] Hp Hc]. rewrite Ec.
  split; [|split; [done|split; [lia|split; [by eapply pending_spec|]]]].
  - intros [i Hi]%list_elem_of_lookup. destruct i as [|[|i]]; cbn in Hi; by simplify_eq.
  - cbn. intros [= ->]. unfold cstep. rewrite Ec. cbn.
    destruct (Z.eqb_spec (items_sem (q c.1)) 0) as [E0|]; [|done]. intros _. cbn in Hsem.
    destruct pp; cbn in Hsem; try (left; lia). by right.
Qed.

Lemma lf_queue_spsc_fifo_witness :
  0 ≤ 1 ≤ 30 ∧ ∃ c, reachable tstep (start 1) c ∧ got c.1 = [Some 7%nat] ∧ pushed c.1 - popped c.1 ≤ 2.
Proof.
  split; [lia|].
  destruct (crun tstep ([(0, APush true 7)] ++ replicate 4 (0, ARun) ++ [(0, APush true 8); (1, APop); (0, ARun); (1, ARun);
    (0, ARun); (1, ARun); (0, ARun); (1, ARun); (1, ARun)])%nat (start 1)) as [c|] eqn:E; [|vm_compute in E; discriminate E].
  exists c. assert (Hr : reachable tstep (start 1) c) by (by eexists). split; [exact Hr|]. split.
  - vm_compute in E. injection E as <-. reflexivity.
  - apply (lf_queue_spsc_fifo 1 c); [lia|exact Hr].
Defined.

Lemma crun_cons e l c c' : cstep tstep e c = Some c' → crun tstep (e :: l) c = crun tstep l c'.
Proof. intros E. cbn [crun]. by rewrite E. Qed.

(** A call that nothing interrupts is its steps in sequence. *)
Lemma push_alone b x s cp q' : ptr (q s) ≠ None →
  lf_queue_try_push false (Some x) (q s) = Ret (Ok ()) q' →
  crun tstep [(0, APush b x); (0, ARun); (0, ARun); (0, ARun); (0, ARun)]%nat (s, [PIdle; cp]) =
    Some (Shared q' (sent s ++ [x]) (got s), [PIdle; cp]).
Proof.
  intros Hptr. unfold lf_queue_try_push. rewrite bind_gets. unfold id. destruct (ptr (q s)); [|by destruct Hptr].
  destruct (full (tail (q s)) (head (q s)) (q s)) eqn:Ef; [done|].
  destruct (write_slot (tail (q s)) (Some x) (q s)) as [q1|] eqn:Ew; [|done].
  unfold or_fatal, mbind at 1, M_bind at 1, mret at 1, M_ret at 1. cbn. rewrite Ef, Ew. cbn. by intros [= <-].
Qed.
Lemma pop_alone s pp e q' : ptr (q s) ≠ None → 
  lf_queue_wait_pop false (q s) = Ret e q' →
  crun tstep [(1, APop); (1, ARun); (1, ARun); (1, ARun); (1, ARun)]%nat (s, [pp; CIdle]) =
    Some (Shared q' (sent s) (got s ++ [e]), [pp; CIdle]).
Proof.
  intros Hptr. unfold lf_queue_wait_pop. rewrite bind_gets. unfold id. destruct (ptr (q s)); [|by destruct Hptr].
  destruct (items_sem (q s) =? 0) eqn:Es; [done|]. set (q1 := set_sem (items_sem (q s) - 1) (q s)).
  rewrite (bind_run _ _ _ () q1) by done. unfold take_entry. rewrite bind_gets. unfold id.
  destruct (read_slot (head q1) q1) as [x|] eqn:Er; [|done].
  rewrite (bind_run _ _ q1 x q1) by done.
  destruct (write_slot (head q1) None q1) as [q2|] eqn:Ew; [|done].
  rewrite (bind_run _ _ q1 q2 q1) by done. intros [= <- <-].
  assert (S1 : cstep tstep (1, APop)%nat (s, [pp; CIdle]) = Some (set_q q1 s, [pp; CWoken]))
    by (unfold cstep; cbn -[q1]; by rewrite Es).
  assert (S2 : cstep tstep (1, ARun)%nat (set_q q1 s, [pp; CWoken]) = Some (set_q q1 s, [pp; CHead (head q1)])) by done.
  assert (S3 : cstep tstep (1, ARun)%nat (set_q q1 s, [pp; CHead (head q1)]) = Some (set_q q1 s, [pp; CRead (head q1) x]))
    by (unfold cstep; cbn -[q1 read_slot]; by rewrite Er).
  assert (S4 : cstep tstep (1, ARun)%nat (set_q q1 s, [pp; CRead (head q1) x]) = Some (set_q q2 s, [pp; CCleared (head q1) x]))
    by (unfold cstep; cbn -[q1 write_slot]; by rewrite Ew).
  by rewrite (crun_cons _ _ _ _ S1), (crun_cons _ _ _ _ S2), (crun_cons _ _ _ _ S3), (crun_cons _ _ _ _ S4).
Qed.

(** The power-of-two test. *)
Lemma land_pred_pow2 n : 0 < n → Z.land n (n - 1) = 0 ↔ ∃ k, 0 ≤ k ∧ n = 2 ^ k.
Proof.
  intros Hn. split.
  - intros E. exists (Z.log2 n). split; [apply Z.log2_nonneg|].
    destruct (Z.log2_spec n Hn) as [Hlo Hhi]. destruct (Z.eq_dec n (2 ^ Z.log2 n)) as [|Hne]; [done|exfalso].
    assert (E2 : Z.log2 (n - 1) = Z.log2 n) by (apply Z.log2_unique; [apply Z.log2_nonneg|lia]).
    assert (Hn1 : 0 < n - 1).
    { assert (0 < 2 ^ Z.log2 n) by (apply Z.pow_pos_nonneg; [lia|apply Z.log2_nonneg]). lia. }
    assert (Hb : Z.testbit (Z.land n (n - 1)) (Z.log2 n) = true).
    { rewrite Z.land_spec, Z.bit_log2 by done. rewrite <- E2. by rewrite Z.bit_log2. }
    rewrite E, Z.bits_0 in Hb. done.
  - intros (k & Hk & ->). replace (2 ^ k - 1) with (Z.ones k) by (rewrite Z.ones_equiv; lia).
    rewrite Z.land_ones by done. apply Z.mod_same. lia.
Qed.

(** lf_queue_init accepts the powers of two and nothing else, and the queue
    it makes is empty with a slot per element - up to 2^60: at 2^61 the size of
    the allocation wraps to 0, and the first push writes outside it. *)
Theorem lf_queue_init_spec n :
  0 ≤ n < 2 ^ 64 →
  (∀ q, lf_queue_init false true 0 n = Ok q → ∃ k, 0 ≤ k ≤ 63 ∧ n = 2 ^ k ∧
     (k ≤ 60 → ptr q = Some (replicate (Z.to_nat n) None) ∧ lf_queue_get_pending false q = 0) ∧
     (60 < k → ptr q = Some [] ∧ ∀ x, lf_queue_try_push false (Some x) q = Fatal q)) ∧
  (∀ k, 0 ≤ k → n = 2 ^ k → ∃ q, lf_queue_init false true 0 n = Ok q) ∧
  ((∀ k, 0 ≤ k → n ≠ 2 ^ k) → lf_queue_init false true 0 n = Err EINVAL).
Proof.
  intros Hn. unfold lf_queue_init. cbn [orb negb].
  destruct (Z.eqb_spec n 0) as [->|Hne].
  { split; [done|]. split; [|done]. intros k Hk E. pose proof (Z.pow_pos_nonneg 2 k). lia. }
  pose proof (land_pred_pow2 n ltac:(lia)) as Hpow.
  destruct (Z.eqb_spec (Z.land n (n - 1)) 0) as [E|E]; cbn [negb Z.eqb].
  - split; [|split; [by eauto|]].
    + intros q [= <-]. destruct (proj1 Hpow E) as (k & Hk & ->). exists k.
      assert (Hk64 : k < 64) by (apply (Z.pow_lt_mono_r_iff 2); lia).
      split; [lia|]. split; [done|]. split.
      * intros Hk60. assert (2 ^ k ≤ 2 ^ 60) by (apply Z.pow_le_mono_r; lia). cbn [ptr]. split; [|done].
        unfold slots_of. rewrite u64_small by lia. by rewrite Z.div_mul.
      * intros Hk60. assert (Hs : slots_of (2 ^ k) = 0).
        { unfold slots_of. replace (2 ^ k * 8) with (2 ^ (k - 61) * 2 ^ 64).
          - unfold u64, wrap. by rewrite Z.mod_mul.
          - change 8 with (2 ^ 3). rewrite <- !Z.pow_add_r by lia. f_equal. lia. }
        rewrite Hs. split; [done|]. intros x. unfold lf_queue_try_push. rewrite bind_gets. cbn [id ptr tail head].
        unfold full. cbn [capacity]. change (u64 (0 - 0)) with 0.
        destruct (Z.leb_spec (2 ^ k) 0); [pose proof (Z.pow_pos_nonneg 2 k); lia|].
        unfold write_slot, or_fatal, mbind, M_bind, fatal. cbn [ptr option_bind]. done.
    + intros Hno. destruct (proj1 Hpow E) as (k & Hk & E'). by destruct (Hno k Hk).
  - split; [done|]. split; [|done]. intros k Hk E'. exfalso. apply E, Hpow. eauto.
Qed.

Lemma lf_queue_init_spec_witness :
  0 ≤ 2 ^ 61 < 2 ^ 64 ∧ ∃ q, lf_queue_init false true 0 (2 ^ 61) = Ok q.
Proof.
  split; [lia|]. destruct (lf_queue_init_spec (2 ^ 61) ltac:(lia)) as (_ & H & _).
  apply (H 61); [lia|reflexivity].
Defined.
