(* ===== verification/LfPool.v ===== *)
(** * lf_pool.h: the lock-free pool of blocks

    A block is its index in the arena; the model keeps the header of each
    block, its [next_idx].  The first part is the arithmetic of the arena and
    each function as one call that nothing interrupts ([Block]: asleep in
    sem_wait; [Fatal]: an access outside the arena).  The second part
    interleaves any number of threads at the granularity of the single load,
    store, compare-and-swap and semaphore operation, in sequentially
    consistent order.  A weak compare-and-swap may fail without reason. *)
From stdpp Require Import prelude list.
From Stdlib Require Import ZArith Lia.
From S2P Require Import Prelude.

Definition UINT32_MAX : Z := 2 ^ 32 - 1.
Definition sizeof_header : Z := 4.

(** lf_pool_head_t: two pools' heads are equal as 64-bit words exactly when
    both halves are. *)
Record lf_pool_head_t := Head { next_idx : Z; generation : Z }.
#[export] Instance head_eq_dec : EqDecision lf_pool_head_t.
Proof. solve_decision. Defined.

Record lf_pool := LfPool {
  block_size : Z;
  real_block_size : Z;
  capacity : Z;
  raw_memory : option (list Z);         (* NULL, or the next_idx of each block *)
  head : lf_pool_head_t;
  in_use : Z;
  blocks_sem : Z
}.

Definition set_mem (l : list Z) (p : lf_pool) : lf_pool :=
  LfPool (block_size p) (real_block_size p) (capacity p) (Some l) (head p) (in_use p) (blocks_sem p).
Definition set_head (h : lf_pool_head_t) (p : lf_pool) : lf_pool :=
  LfPool (block_size p) (real_block_size p) (capacity p) (raw_memory p) h (in_use p) (blocks_sem p).
Definition set_in_use (n : Z) (p : lf_pool) : lf_pool :=
  LfPool (block_size p) (real_block_size p) (capacity p) (raw_memory p) (head p) n (blocks_sem p).
Definition set_sem (v : Z) (p : lf_pool) : lf_pool :=
  LfPool (block_size p) (real_block_size p) (capacity p) (raw_memory p) (head p) (in_use p) v.

(** ** The arena *)

(** [(sizeof(header) + block_size + 7) & ~7] in size_t. *)
Definition allocation_size (bsize : Z) : Z :=
  Z.land (u64 (u64 (sizeof_header + bsize) + 7)) (2 ^ 64 - 8).

(** The pointer handed out for block [i] of an arena at [base], and the block
    lf_pool_put computes from a pointer. *)
Definition block_ptr (base real : Z) (i : Z) : Z := base + i * real + sizeof_header.
Definition block_index (base real ptr : Z) : Z := u32 ((ptr - sizeof_header - base) / real).

(** The free list the loop of lf_pool_init links. *)
Definition linked (n : Z) : list Z :=
  (λ i : nat, if Z.of_nat i <? n - 1 then Z.of_nat i + 1 else UINT32_MAX) <$> seq 0 (Z.to_nat n).

(** [Fatal]: the loop writes outside an allocation whose size wrapped.
    [sem_rc]: 0, or an error of sem_init other than that of a value too large. *)
Definition lf_pool_init (null mem : bool) (sem_rc bsize n : Z) : outcome () (cres lf_pool) :=
  if null || (bsize =? 0) || (n =? 0) then Ret (Err EINVAL) ()
  else if UINT32_MAX <=? n then Ret (Err EINVAL) ()
  else
    let real := allocation_size bsize in
    let bytes := u64 (n * real) in
    if negb mem then Ret (Err ENOMEM) ()
    else if bytes <? (n - 1) * real + sizeof_header then Fatal ()
    else if SEM_VALUE_MAX <? n then Ret (Err EINVAL) ()
    else if negb (sem_rc =? 0) then Ret (Err sem_rc) ()
    else Ret (Ok (LfPool bsize real n (Some (linked n)) (Head 0 0) 0 n)) ().

Definition or_fatal {A} (x : option A) : M lf_pool A := match x with None => fatal | Some a => mret a end.

Definition read_next (i : Z) (p : lf_pool) : option Z := l ← raw_memory p; l !! Z.to_nat i.
Definition write_next (i v : Z) (p : lf_pool) : option lf_pool :=
  l ← raw_memory p; _ ← l !! Z.to_nat i; Some (set_mem (<[Z.to_nat i := v]> l) p).

(** sem_post at its maximum fails, and the result is ignored. *)
Definition post_blocks (p : lf_pool) : lf_pool := set_sem (default (blocks_sem p) (sem_post (blocks_sem p))) p.
Definition bump (h : lf_pool_head_t) (i : Z) : lf_pool_head_t := Head i (u32 (generation h + 1)).

(** ** The functions *)

(** The pop of the free list; [checked] for lf_pool_try_get. *)
Definition pop_block (checked : bool) : M lf_pool (option Z) :=
  p ← gets id;
  let old_head := head p in
  if checked && (next_idx old_head =? UINT32_MAX) then modify post_blocks;; mret None
  else
    n ← or_fatal (read_next (next_idx old_head) p);
    modify (set_head (bump old_head n));;
    modify (λ p, set_in_use (u64 (in_use p + 1)) p);;
    mret (Some (next_idx old_head)).

(** The block, [None] for NULL. *)
Definition lf_pool_try_get (null : bool) : M lf_pool (option Z) :=
  p ← gets id;
  match null, raw_memory p with
  | false, Some _ =>
      if blocks_sem p =? 0 then mret None
      else modify (set_sem (blocks_sem p - 1));; pop_block true
  | _, _ => mret None
  end.
Definition lf_pool_wait_get (null : bool) : M lf_pool (option Z) :=
  p ← gets id;
  match null, raw_memory p with
  | false, Some _ =>
      if blocks_sem p =? 0 then block
      else modify (set_sem (blocks_sem p - 1));; pop_block false
  | _, _ => mret None
  end.

Definition lf_pool_put (null : bool) (b : option Z) : M lf_pool () :=
  p ← gets id;
  match null, raw_memory p, b with
  | false, Some _, Some b =>
      let old_head := head p in
      p ← or_fatal (write_next b (next_idx old_head) p);
      modify (λ _, set_head (bump old_head b) p);;
      modify (λ p, set_in_use (u64 (in_use p - 1)) p);;
      modify post_blocks
  | _, _, _ => mret ()
  end.

Definition lf_pool_get_used (null : bool) (p : lf_pool) : Z :=
  if null then -1 else if in_use p <? 2 ^ 63 then in_use p else in_use p - 2 ^ 64.

Definition lf_pool_destroy (null : bool) : M lf_pool (cres ()) :=
  if null then mret (Err EINVAL)
  else modify (λ p, LfPool 0 0 0 None (Head 0 0) 0 (blocks_sem p));; mret (Ok ()).

(** ** The threads

    [b]: the call is lf_pool_try_get.  [h], [n]: the head and the next index
    the thread has loaded. *)
Inductive pc :=
| LIdle
| GToken (b : bool)                                   (* before the load of the head *)
| GHead (b : bool) (h : lf_pool_head_t)               (* before the check and the load of next_idx *)
| GNext (b : bool) (h : lf_pool_head_t) (n : Z)       (* before the compare-and-swap *)
| GRefund
| GTaken (i : nat)                                    (* before the count of in_use *)
| PPut (i : nat)                                      (* before the load of the head *)
| PHead (i : nat) (h : lf_pool_head_t)                (* before the store of next_idx *)
| PLinked (i : nat) (h : lf_pool_head_t)              (* before the compare-and-swap *)
| PCount                                              (* before the count of in_use *)
| PPost
| LAborted.

Inductive act :=
| ATryGet
| AWaitGet
| APut (j : nat)          (* give back the [j]-th block in the callers' hands *)
| ARun
| ASpurious.              (* the compare-and-swap fails without reason *)

(** [held]: the blocks the callers have; [updates]: how often the head changed. *)
Record shared := Shared { p : lf_pool; held : list nat; updates : Z }.

Definition set_p (x : lf_pool) (s : shared) : shared := Shared x (held s) (updates s).
Definition swap_head (h : lf_pool_head_t) (s : shared) : shared := Shared (set_head h (p s)) (held s) (updates s + 1).

Definition tstep (a : act) (_ : nat) (s : shared) (c : pc) : option (shared * pc) :=
  match a, c with
  | ATryGet, LIdle =>
      if blocks_sem (p s) =? 0 then Some (s, LIdle)
      else Some (set_p (set_sem (blocks_sem (p s) - 1) (p s)) s, GToken true)
  | AWaitGet, LIdle =>
      if blocks_sem (p s) =? 0 then None
      else Some (set_p (set_sem (blocks_sem (p s) - 1) (p s)) s, GToken false)
  | APut j, LIdle =>
      i ← held s !! j;
      Some (Shared (p s) (delete j (held s)) (updates s), PPut i)
  | ARun, GToken b => Some (s, GHead b (head (p s)))
  | ARun, GHead b h =>
      if b && (next_idx h =? UINT32_MAX) then Some (s, GRefund)
      else
        match read_next (next_idx h) (p s) with
        | None => Some (s, LAborted)
        | Some n => Some (s, GNext b h n)
        end
  | ARun, GRefund => Some (set_p (post_blocks (p s)) s, LIdle)
  | ARun, GNext b h n =>
      if decide (head (p s) = h) then Some (swap_head (bump h n) s, GTaken (Z.to_nat (next_idx h)))
      else Some (s, GHead b (head (p s)))
  | ASpurious, GNext b h n => Some (s, GHead b (head (p s)))
  | ARun, GTaken i =>
      Some (Shared (set_in_use (u64 (in_use (p s) + 1)) (p s)) (i :: held s) (updates s), LIdle)
  | ARun, PPut i => Some (s, PHead i (head (p s)))
  | ARun, PHead i h =>
      match write_next (Z.of_nat i) (next_idx h) (p s) with
      | None => Some (s, LAborted)
      | Some p' => Some (set_p p' s, PLinked i h)
      end
  | ARun, PLinked i h =>
      if decide (head (p s) = h) then Some (swap_head (bump h (Z.of_nat i)) s, PCount)
      else Some (s, PHead i (head (p s)))
  | ASpurious, PLinked i h => Some (s, PHead i (head (p s)))
  | ARun, PCount => Some (set_p (set_in_use (u64 (in_use (p s) - 1)) (p s)) s, PPost)
  | ARun, PPost => Some (set_p (post_blocks (p s)) s, LIdle)
  | _, _ => None
  end.

(** A new pool of [n] blocks and [k] idle threads. *)
Definition start (bsize n : Z) (k : nat) : conf shared pc :=
  (Shared (LfPool bsize (allocation_size bsize) n (Some (linked n)) (Head 0 0) 0 n) [] 0, replicate k LIdle).

(** ** Invariant

    It is stated up to the order of the threads, so that the thread that steps
    is the first of the list. *)
Fixpoint chain (l : list Z) (idx : Z) (fl : list nat) : Prop :=
  match fl with
  | [] => idx = UINT32_MAX
  | i :: fl => idx = Z.of_nat i ∧ ∃ n, l !! i = Some n ∧ chain l n fl
  end.

Definition owned (c : pc) : list nat :=
  match c with GTaken i | PPut i | PHead i _ | PLinked i _ => [i] | _ => [] end.
Definition w_token (c : pc) : Z := match c with GToken _ | GHead _ _ | GNext _ _ _ | GRefund => 1 | _ => 0 end.
Definition w_post (c : pc) : Z := match c with PCount | PPost => 1 | _ => 0 end.
Definition w_use (c : pc) : Z := match c with PPut _ | PHead _ _ | PLinked _ _ | PCount => 1 | _ => 0 end.

Definition pc_ok (s : shared) (l : list Z) (c : pc) : Prop :=
  match c with
  | GHead _ h => generation h ≤ updates s ∧ 0 ≤ next_idx h < Z.of_nat (length l)
  | GNext _ h n => generation h ≤ updates s ∧ 0 ≤ next_idx h < Z.of_nat (length l) ∧
      (h = head (p s) → l !! Z.to_nat (next_idx h) = Some n)
  | PLinked i h => l !! i = Some (next_idx h)
  | GRefund | LAborted => False
  | _ => True
  end.

Record lf_pool_inv (cap : nat) (s : shared) (ths : list pc) (l : list Z) (fl : list nat) : Prop := {
  lp_mem : raw_memory (p s) = Some l;
  lp_len : length l = cap;
  lp_gen : generation (head (p s)) = updates s ∧ 0 ≤ updates s;
  lp_chain : chain l (next_idx (head (p s))) fl;
  lp_parts : fl ++ held s ++ (ths ≫= owned) ≡ₚ seq 0 cap;
  lp_sem : blocks_sem (p s) + sum_over w_token ths + sum_over w_post ths = Z.of_nat (length fl);
  lp_sem_pos : 0 ≤ blocks_sem (p s);
  lp_use : in_use (p s) = Z.of_nat (length (held s)) + sum_over w_use ths;
  lp_pcs : Forall (pc_ok s l) ths
}.

Lemma chain_head l idx i fl : chain l idx (i :: fl) → idx = Z.of_nat i.
Proof. by intros [? _]. Qed.
Lemma chain_set l idx fl i v : i ∉ fl → chain l idx fl → chain (<[i := v]> l) idx fl.
Proof.
  revert idx. induction fl as [|j fl IH]; intros idx Hi; cbn; [done|]. apply not_elem_of_cons in Hi as [Hne Hi].
  intros (-> & n & Hn & Hc). split; [done|]. exists n. split; [by rewrite list_lookup_insert_ne|]. by apply IH.
Qed.

Lemma sum_over_perm (w : pc → Z) l l' : l ≡ₚ l' → sum_over w l = sum_over w l'.
Proof. unfold sum_over. induction 1; cbn; lia. Qed.
Lemma sum_over_cons (w : pc → Z) c l : sum_over w (c :: l) = w c + sum_over w l.
Proof. done. Qed.

Lemma insert_perm {A} (l : list A) i x y : l !! i = Some x → <[i := y]> l ≡ₚ y :: delete i l.
Proof.
  revert i. induction l as [|z l IH]; intros [|i] Hi; simplify_eq/=; [done|].
  rewrite (IH i Hi). by apply Permutation_swap.
Qed.

Lemma w_nonneg_lf c : 0 ≤ w_token c ∧ 0 ≤ w_post c ∧ 0 ≤ w_use c.
Proof. by destruct c. Qed.

Lemma lf_inv_perm cap s ths ths' l fl : ths ≡ₚ ths' → lf_pool_inv cap s ths l fl → lf_pool_inv cap s ths' l fl.
Proof.
  intros Hp []. split; try done.
  - by rewrite <- Hp.
  - by rewrite <- !(sum_over_perm _ _ _ Hp).
  - by rewrite <- (sum_over_perm _ _ _ Hp).
  - by rewrite <- Hp.
Qed.

(** The others' knowledge survives a step that keeps the head and the links, or
    that moves the head on. *)
Lemma pc_ok_same s s' l c : head (p s') = head (p s) → updates s' = updates s → pc_ok s l c → pc_ok s' l c.
Proof. intros Eh Eu. unfold pc_ok. rewrite Eh, Eu. done. Qed.
Lemma pc_ok_swap s s' l c : generation (head (p s')) = updates s' → updates s' = updates s + 1 →
  pc_ok s l c → pc_ok s' l c.
Proof.
  intros Eg Eu. unfold pc_ok. destruct c; try done.
  - intros [? ?]. lia.
  - intros (? & ? & _). split; [lia|]. split; [done|]. intros ->. lia.
Qed.

Section steps.
Context (cap : nat) (Hcap : (0 < cap)%nat ∧ Z.of_nat cap ≤ SEM_VALUE_MAX).
Implicit Types (s : shared) (rest : list pc).

Lemma parts_nodup s c rest l fl : lf_pool_inv cap s (c :: rest) l fl →
  NoDup (fl ++ held s ++ owned c ++ (rest ≫= owned)) ∧
  ∀ i, i ∈ fl ++ held s ++ owned c ++ (rest ≫= owned) → (i < cap)%nat.
Proof.
  intros [_ _ _ _ Hp _ _ _ _]. rewrite bind_cons in Hp. split.
  - rewrite Hp. apply NoDup_seq.
  - intros i Hi. rewrite Hp in Hi. apply elem_of_seq in Hi. lia.
Qed.

(** A thread with a token finds a block. *)
Lemma token_block s c rest l fl : lf_pool_inv cap s (c :: rest) l fl → w_token c = 1 →
  ∃ i fl' n, fl = i :: fl' ∧ next_idx (head (p s)) = Z.of_nat i ∧ (i < cap)%nat ∧ l !! i = Some n ∧ chain l n fl'.
Proof.
  intros Hinv Ht. pose proof (parts_nodup _ _ _ _ _ Hinv) as [_ Hlt]. destruct Hinv as [_ Hlen _ Hc _ Hs H0 _ _].
  rewrite !sum_over_cons in Hs. pose proof (sum_over_nonneg w_token rest (λ c, proj1 (w_nonneg_lf c))).
  pose proof (sum_over_nonneg w_post rest (λ c, proj1 (proj2 (w_nonneg_lf c)))).
  pose proof (proj1 (proj2 (w_nonneg_lf c))). destruct fl as [|i fl']; [cbn in Hs; lia|].
  destruct Hc as (Hi & n & Hn & Hc). exists i, fl', n. do 2 (split; [done|]). split; [|done]. apply Hlt. by left.
Qed.

(** A step that leaves the arena, the head and the blocks' places alone. *)
Lemma local_step s c rest l fl s' c' : lf_pool_inv cap s (c :: rest) l fl →
  raw_memory (p s') = raw_memory (p s) → head (p s') = head (p s) → updates s' = updates s →
  held s' = held s → owned c' = owned c →
  blocks_sem (p s') + w_token c' + w_post c' = blocks_sem (p s) + w_token c + w_post c → 0 ≤ blocks_sem (p s') →
  in_use (p s') - w_use c' = in_use (p s) - w_use c → pc_ok s' l c' →
  lf_pool_inv cap s' (c' :: rest) l fl.
Proof.
  intros [Hm Hl [Hg Hu] Hc Hp Hs H0 Hus Hok] Em Eh Eu Ehd Eo Es Es0 Eus Hc'. rewrite !sum_over_cons in *. rewrite bind_cons in Hp.
  split; rewrite ?Em, ?Eh, ?Eu, ?Ehd, ?sum_over_cons, ?bind_cons, ?Eo; try done; try lia.
  constructor; [done|]. apply Forall_cons in Hok as [_ Hok]. eapply Forall_impl; [exact Hok|].
  intros d. by apply pc_ok_same.
Qed.

(** The compare-and-swap of a get. *)
Lemma pop_step s b h n rest l fl : lf_pool_inv cap s (GNext b h n :: rest) l fl → head (p s) = h →
  updates s + 1 < 2 ^ 32 →
  ∃ fl', lf_pool_inv cap (swap_head (bump h n) s) (GTaken (Z.to_nat (next_idx h)) :: rest) l fl'.
Proof.
  intros Hinv <- Hu32. destruct (token_block _ _ _ _ _ Hinv eq_refl) as (i & fl' & n' & -> & Hi & Hlt & Hn & Hc).
  destruct Hinv as [Hm Hl [Hg Hu] _ Hp Hs H0 Hus Hok]. rewrite !sum_over_cons in *. rewrite bind_cons in Hp.
  apply Forall_cons in Hok as [(_ & _ & Hnn) Hok]. specialize (Hnn eq_refl).
  rewrite Hi, Nat2Z.id, Hn in Hnn. injection Hnn as ->.
  assert (Hg' : generation (head (p (swap_head (bump (head (p s)) n) s))) = updates (swap_head (bump (head (p s)) n) s)).
  { cbn. rewrite Hg. apply u32_small. lia. }
  exists fl'. split; rewrite ?sum_over_cons, ?bind_cons; try done.
  - split; [done|]. cbn. lia.
  - rewrite Hi, Nat2Z.id. cbn [owned held swap_head]. rewrite <- Hp.
    cbn [owned app]. rewrite <- (Permutation_middle (held s)), <- Permutation_middle. done.
  - cbn in Hs |- *. lia.
  - constructor; [done|]. eapply Forall_impl; [exact Hok|]. intros d. by apply pc_ok_swap.
Qed.

(** The store and the compare-and-swap of a put. *)
Lemma link_step s i h rest l fl : lf_pool_inv cap s (PHead i h :: rest) l fl →
  lf_pool_inv cap (set_p (set_mem (<[i := next_idx h]> l) (p s)) s) (PLinked i h :: rest) (<[i := next_idx h]> l) fl.
Proof.
  intros Hinv. destruct (parts_nodup _ _ _ _ _ Hinv) as [Hnd Hlt]. cbn [owned] in Hnd, Hlt.
  assert (Hicap : (i < cap)%nat) by (apply Hlt; set_solver).
  apply NoDup_app in Hnd as (_ & Hfl & Hnd). apply NoDup_app in Hnd as (_ & _ & Hnd).
  cbn in Hnd. apply NoDup_cons in Hnd as [Hrest _].
  assert (Hi : i ∉ fl) by (intros Hin; apply (Hfl i Hin); set_solver).
  destruct Hinv as [Hm Hl Hg Hc Hp Hs H0 Hus Hok]. rewrite !sum_over_cons in *. rewrite bind_cons in Hp.
  apply Forall_cons in Hok as [_ Hok].
  split; rewrite ?sum_over_cons, ?bind_cons; try done.
  - by rewrite length_insert.
  - by apply chain_set.
  - constructor; [cbn; by rewrite list_lookup_insert_eq by lia|]. apply Forall_forall. intros d Hd.
    rewrite Forall_forall in Hok. specialize (Hok d Hd). unfold pc_ok in *. rewrite length_insert.
    destruct d as [|b|b h'|b h' m| |j|j|j h'|j h'| | |]; try done.
    + destruct Hok as (H1 & H2 & H3). split; [done|]. split; [done|]. cbn. intros ->. specialize (H3 eq_refl).
      rewrite list_lookup_insert_ne; [done|]. intros ->. destruct fl as [|k fl].
      * cbn in Hc. rewrite Hc in H2. rewrite Hl in H2. change SEM_VALUE_MAX with 2147483647 in Hcap.
        change UINT32_MAX with 4294967295 in H2. lia.
      * apply chain_head in Hc. rewrite Hc, Nat2Z.id in Hi. apply Hi. by left.
    + rewrite list_lookup_insert_ne; [done|]. intros ->. apply Hrest. apply list_elem_of_bind. exists (PLinked j h').
      split; [by left|done].
Qed.

Lemma push_step s i h rest l fl : lf_pool_inv cap s (PLinked i h :: rest) l fl → head (p s) = h →
  updates s + 1 < 2 ^ 32 →
  lf_pool_inv cap (swap_head (bump h (Z.of_nat i)) s) (PCount :: rest) l (i :: fl).
Proof.
  intros [Hm Hl [Hg Hu] Hc Hp Hs H0 Hus Hok] <- Hu32. rewrite !sum_over_cons in *. rewrite bind_cons in Hp.
  apply Forall_cons in Hok as [Hi Hok]. cbn in Hi.
  assert (Hg' : generation (head (p (swap_head (bump (head (p s)) (Z.of_nat i)) s))) =
    updates (swap_head (bump (head (p s)) (Z.of_nat i)) s)).
  { cbn. rewrite Hg. apply u32_small. lia. }
  split; rewrite ?sum_over_cons, ?bind_cons; try done.
  - split; [done|]. cbn. lia.
  - cbn. split; [done|]. by exists (next_idx (head (p s))).
  - cbn [owned held swap_head app]. rewrite <- Hp. cbn [owned app].
    rewrite <- (Permutation_middle (held s)), <- Permutation_middle. done.
  - cbn in Hs |- *. lia.
  - constructor; [done|]. eapply Forall_impl; [exact Hok|]. intros d. by apply pc_ok_swap.
Qed.

(** A block changes hands between a thread and the callers. *)
Lemma use_bound (ths : list pc) :
  0 ≤ sum_over w_use ths ≤ Z.of_nat (length (ths ≫= owned)) + sum_over w_post ths.
Proof.
  induction ths as [|c ths IH]; [done|]. rewrite !sum_over_cons, bind_cons, length_app.
  assert (0 ≤ w_use c ≤ Z.of_nat (length (owned c)) + w_post c) by (by destruct c). lia.
Qed.

Lemma in_use_bound s ths l fl : lf_pool_inv cap s ths l fl → 0 ≤ in_use (p s) ≤ 2 * Z.of_nat cap.
Proof.
  intros [_ _ _ _ Hp Hs H0 Hus _]. pose proof (use_bound ths) as Hb.
  pose proof (sum_over_nonneg w_token ths (λ c, proj1 (w_nonneg_lf c))).
  apply Permutation_length in Hp. rewrite !length_app, length_seq in Hp. lia.
Qed.

Lemma take_step s i rest l fl : lf_pool_inv cap s (GTaken i :: rest) l fl →
  lf_pool_inv cap (Shared (set_in_use (u64 (in_use (p s) + 1)) (p s)) (i :: held s) (updates s)) (LIdle :: rest) l fl.
Proof.
  intros Hinv. pose proof (in_use_bound _ _ _ _ Hinv) as Hb.
  change SEM_VALUE_MAX with 2147483647 in Hcap.
  destruct Hinv as [Hm Hl Hg Hc Hp Hs H0 Hus Hok]. rewrite !sum_over_cons in *. rewrite bind_cons in Hp.
  split; rewrite ?sum_over_cons, ?bind_cons; try done.
  - cbn [owned held app]. rewrite <- Hp. cbn [owned app].
    by rewrite <- (Permutation_middle (held s)).
  - cbn -[Z.of_nat] in *. rewrite u64_small by lia. cbn. lia.
  - apply Forall_cons in Hok as [_ Hok]. constructor; [done|]. eapply Forall_impl; [exact Hok|].
    intros d. by apply pc_ok_same.
Qed.
Lemma give_step s j i rest l fl : lf_pool_inv cap s (LIdle :: rest) l fl → held s !! j = Some i →
  lf_pool_inv cap (Shared (p s) (delete j (held s)) (updates s)) (PPut i :: rest) l fl.
Proof.
  intros [Hm Hl Hg Hc Hp Hs H0 Hus Hok] Hj. rewrite !sum_over_cons in *. rewrite bind_cons in Hp.
  pose proof (delete_Permutation _ _ _ Hj) as Hperm.
  split; rewrite ?sum_over_cons, ?bind_cons; try done.
  - cbn [owned held app]. rewrite <- Hp. rewrite Hperm at 2. cbn [owned app].
    rewrite <- (Permutation_middle (delete j (held s))). done.
  - cbn. rewrite Hperm in Hus. cbn in Hus. lia.
  - apply Forall_cons in Hok as [_ Hok]. constructor; [done|]. eapply Forall_impl; [exact Hok|].
    intros d. by apply pc_ok_same.
Qed.

Lemma lf_step a t s c s' c' rest l fl : lf_pool_inv cap s (c :: rest) l fl →
  tstep a t s c = Some (s', c') → updates s' < 2 ^ 32 →
  ∃ l' fl', lf_pool_inv cap s' (c' :: rest) l' fl'.
Proof.
  intros Hinv E Hu. pose proof Hinv as [Hm Hl [Hg Hu0] Hc Hp Hs H0 Hus Hok].
  apply Forall_cons in Hok as [Hpc _].
  assert (Hlocal : ∀ s2 c2, raw_memory (p s2) = raw_memory (p s) → head (p s2) = head (p s) → updates s2 = updates s →
    held s2 = held s → owned c2 = owned c →
    blocks_sem (p s2) + w_token c2 + w_post c2 = blocks_sem (p s) + w_token c + w_post c → 0 ≤ blocks_sem (p s2) →
    in_use (p s2) - w_use c2 = in_use (p s) - w_use c → pc_ok s2 l c2 →
    ∃ l' fl', lf_pool_inv cap s2 (c2 :: rest) l' fl').
  { intros s2 c2 ? ? ? ? ? ? ? ? ?. exists l, fl. by apply (local_step s c). }
  assert (Hhead : w_token c = 1 → ∀ b, pc_ok s l (GHead b (head (p s)))).
  { intros Ht b. destruct (token_block _ _ _ _ _ Hinv Ht) as (i & _ & _ & _ & Hi & Hlt & _). cbn. rewrite Hi. lia. }
  destruct a, c; cbn in E; try done.
  - destruct (Z.eqb_spec (blocks_sem (p s)) 0); injection E as <- <-; apply Hlocal; cbn; try (done || lia).
  - destruct (Z.eqb_spec (blocks_sem (p s)) 0); [done|]. injection E as <- <-. apply Hlocal; cbn; try (done || lia).
  - destruct (held s !! j) as [i|] eqn:Ej; [|done]. injection E as <- <-. exists l, fl. by apply give_step.
  - injection E as <- <-. apply Hlocal; cbn; try (done || lia). by apply Hhead.
  - destruct Hpc as [H1 H2].
    assert (Hne : next_idx h ≠ UINT32_MAX).
    { change SEM_VALUE_MAX with 2147483647 in Hcap. change UINT32_MAX with 4294967295. lia. }
    destruct (Z.eqb_spec (next_idx h) UINT32_MAX); [done|]. rewrite andb_false_r in E.
    unfold read_next in E. rewrite Hm in E. cbn in E.
    destruct (lookup_lt_is_Some_2 l (Z.to_nat (next_idx h))) as [n' Hn]; [lia|]. rewrite Hn in E.
    injection E as <- <-. by apply Hlocal.
  - case_decide as Eh; injection E as <- <-.
    + cbn in Hu. destruct (pop_step s b h n rest l fl Hinv Eh Hu) as [fl' H']. by exists l, fl'.
    + apply Hlocal; cbn; try (done || lia). by apply Hhead.
  - injection E as <- <-. exists l, fl. by apply take_step.
  - injection E as <- <-. by apply Hlocal.
  - unfold write_next in E. rewrite Hm in E. cbn in E.
    destruct (parts_nodup _ _ _ _ _ Hinv) as [_ Hlt]. cbn [owned] in Hlt.
    assert (i < cap)%nat by (apply Hlt; set_solver). rewrite Nat2Z.id in E.
    destruct (lookup_lt_is_Some_2 l i) as [n' Hn]; [lia|]. rewrite Hn in E. cbn in E. injection E as <- <-.
    exists (<[i := next_idx h]> l), fl. by apply link_step.
  - case_decide as Eh; injection E as <- <-.
    + cbn in Hu. exists l, (i :: fl). by apply push_step.
    + by apply Hlocal.
  - injection E as <- <-. pose proof (in_use_bound _ _ _ _ Hinv) as Hb.
    change SEM_VALUE_MAX with 2147483647 in Hcap. pose proof (use_bound rest). rewrite sum_over_cons in Hus. cbn in Hus.
    apply Hlocal; cbn; try (done || lia). rewrite u64_small by lia. lia.
  - injection E as <- <-.
    assert (Hsem : post_blocks (p s) = set_sem (blocks_sem (p s) + 1) (p s)).
    { unfold post_blocks. rewrite (proj2 (sem_post_Some _ (blocks_sem (p s) + 1))); [done|]. split; [|done].
      rewrite !sum_over_cons in Hs. cbn in Hs.
      pose proof (sum_over_nonneg w_token rest (λ c, proj1 (w_nonneg_lf c))).
      pose proof (sum_over_nonneg w_post rest (λ c, proj1 (proj2 (w_nonneg_lf c)))).
      apply Permutation_length in Hp. rewrite !length_app, length_seq in Hp. lia. }
    rewrite Hsem. apply Hlocal; cbn; try (done || lia).
  - injection E as <- <-. apply Hlocal; cbn; try (done || lia). by apply Hhead.
  - injection E as <- <-. by apply Hlocal.
Qed.
End steps.

(** ** Results *)

Lemma chain_linked n i : (i < n)%nat → chain (linked (Z.of_nat n)) (Z.of_nat i) (seq i (n - i)).
Proof.
  intros Hi. remember (n - i)%nat as m eqn:Em. revert i Hi Em. induction m as [|m IH]; intros i Hi Em; [lia|].
  cbn. split; [done|]. unfold linked.
  exists (if Z.of_nat i <? Z.of_nat n - 1 then Z.of_nat i + 1 else UINT32_MAX).
  rewrite list_lookup_fmap, Nat2Z.id, (lookup_seq_lt 0 n i) by done. split; [done|].
  destruct (Z.ltb_spec (Z.of_nat i) (Z.of_nat n - 1)).
  - specialize (IH (S i) ltac:(lia) ltac:(lia)). unfold linked in IH. rewrite Nat2Z.id in IH.
    replace (Z.of_nat i + 1) with (Z.of_nat (S i)) by lia. exact IH.
  - assert (m = 0%nat) as -> by lia. done.
Qed.

Lemma lf_pool_start_inv bsize n k : (0 < n)%nat →
  ∃ l fl, lf_pool_inv n (start bsize (Z.of_nat n) k).1 (start bsize (Z.of_nat n) k).2 l fl.
Proof.
  intros Hn. exists (linked (Z.of_nat n)), (seq 0 n).
  assert (Hz : ∀ w : pc → Z, w LIdle = 0 → sum_over w (replicate k LIdle) = 0).
  { intros w Hw. apply sum_over_zero, Forall_replicate, Hw. }
  split; cbn -[sum_over]; rewrite ?Hz by done; try done.
  - unfold linked. by rewrite length_fmap, length_seq, Nat2Z.id.
  - pose proof (chain_linked n 0 Hn) as H. by rewrite Nat.sub_0_r in H.
  - replace (replicate k LIdle ≫= owned) with (@nil nat); [by rewrite app_nil_r|].
    clear. induction k as [|k IH]; cbn; [done|exact IH].
  - rewrite length_seq. lia.
  - lia.
  - by apply Forall_replicate.
Qed.

Lemma tstep_updates a t s c s' c' : tstep a t s c = Some (s', c') → updates s ≤ updates s'.
Proof.
  intros E. destruct a, c; cbn -[read_next write_next post_blocks u64] in E; try discriminate E;
    try (injection E as <- _; apply Z.le_refl).
  - destruct (_ =? _); injection E as <- _; apply Z.le_refl.
  - destruct (_ =? _); [discriminate E|]. injection E as <- _; apply Z.le_refl.
  - destruct (held s !! j); [|discriminate E]. injection E as <- _; apply Z.le_refl.
  - destruct (_ && _); [injection E as <- _; apply Z.le_refl|].
    destruct (read_next _ _); injection E as <- _; apply Z.le_refl.
  - destruct (decide _); injection E as <- _; cbn; lia.
  - destruct (write_next _ _ _); injection E as <- _; apply Z.le_refl.
  - destruct (decide _); injection E as <- _; cbn; lia.
Qed.

Lemma lf_pool_reachable bsize n k c : (0 < n)%nat → Z.of_nat n ≤ SEM_VALUE_MAX →
  reachable tstep (start bsize (Z.of_nat n) k) c → updates c.1 < 2 ^ 32 → ∃ l fl, lf_pool_inv n c.1 c.2 l fl.
Proof.
  intros Hn Hmax Hr. revert c Hr.
  apply (reachable_inv tstep (λ c, updates c.1 < 2 ^ 32 → ∃ l fl, lf_pool_inv n c.1 c.2 l fl));
    [intros _; by apply lf_pool_start_inv|].
  intros e c c' IH (x & s' & x' & Hx & E & ->)%cstep_Some Hu. cbn in Hu |- *.
  assert (Hmono : updates c.1 ≤ updates s').
  { by eapply tstep_updates. }
  destruct (IH ltac:(lia)) as (l & fl & Hinv).
  pose proof (lf_inv_perm _ _ _ _ _ _ (delete_Permutation _ _ _ Hx) Hinv) as Hinv'.
  destruct (lf_step n (conj Hn Hmax) _ _ _ _ _ _ _ _ _ Hinv' E Hu) as (l' & fl' & H').
  exists l', fl'. eapply lf_inv_perm; [|exact H'].
  by rewrite (insert_perm _ _ _ _ Hx).
Qed.

(** C13. The lock-free pool never hands a block out twice: however any number of
    gets and puts interleave, and however the weak compare-and-swaps fail, as
    long as the head has changed fewer than 2^32 times each block is in exactly
    one place - the free list, a caller's hands, or a call that moves it -
    no access leaves the arena, in_use counts the blocks given out once the
    calls have ended, a thread that got a token always finds a block, so that
    the refund of lf_pool_try_get is never reached, and one sleeps only when
    every free block is spoken for. *)
Theorem lf_pool_conc_safe bsize n k c :
  (0 < n)%nat → Z.of_nat n ≤ SEM_VALUE_MAX →
  reachable tstep (start bsize (Z.of_nat n) k) c → updates c.1 < 2 ^ 32 →
  (LAborted ∉ c.2) ∧ (GRefund ∉ c.2) ∧
  (∃ l fl, raw_memory (p c.1) = Some l ∧ chain l (next_idx (head (p c.1))) fl ∧
     fl ++ held c.1 ++ (c.2 ≫= owned) ≡ₚ seq 0 n ∧
     blocks_sem (p c.1) + sum_over w_token c.2 + sum_over w_post c.2 = Z.of_nat (length fl)) ∧
  NoDup (held c.1) ∧ Z.of_nat (length (held c.1)) ≤ Z.of_nat n ∧
  in_use (p c.1) = Z.of_nat (length (held c.1)) + sum_over w_use c.2.
Proof.
  intros Hn Hmax Hr Hu. destruct (lf_pool_reachable _ _ _ _ Hn Hmax Hr Hu) as (l & fl & Hinv).
  pose proof Hinv as [Hm Hl Hg Hc Hp Hs H0 Hus Hok]. rewrite Forall_forall in Hok.
  split; [by intros H%Hok|]. split; [by intros H%Hok|]. split; [by exists l, fl|].
  assert (Hnd : NoDup (fl ++ held c.1 ++ (c.2 ≫= owned))) by (rewrite Hp; apply NoDup_seq).
  apply NoDup_app in Hnd as (_ & _ & Hnd). apply NoDup_app in Hnd as (Hnd & _ & _). split; [done|]. split; [|done].
  apply Permutation_length in Hp. rewrite !length_app, length_seq in Hp. lia.
Qed.

Lemma lf_pool_conc_safe_witness :
  ∃ c, reachable tstep (start 64 3 3) c ∧ held c.1 = [2; 0; 1]%nat ∧ NoDup (held c.1).
Proof.
  destruct (crun tstep [(0, ATryGet); (0, ARun); (0, ARun);             (* loaded block 0, next 1 *)
    (1, ATryGet); (1, ARun); (1, ARun); (1, ARun); (1, ARun);           (* block 0 is taken *)
    (2, AWaitGet); (2, ARun); (2, ARun); (2, ARun); (2, ARun);          (* and block 1 *)
    (1, APut 1); (1, ARun); (1, ARun); (1, ARun); (1, ARun); (1, ARun); (* block 0 comes back *)
    (0, ARun); (0, ARun); (0, ASpurious); (0, ARun); (0, ARun); (0, ARun);
    (1, AWaitGet); (1, ARun); (1, ARun); (1, ARun); (1, ARun)]%nat (start 64 3 3)) as [c|] eqn:E;
    [|vm_compute in E; discriminate E].
  assert (Hr : reachable tstep (start 64 3 3) c) by (by eexists).
  assert (Hu : updates c.1 < 2 ^ 32) by (vm_compute in E; injection E as <-; by vm_compute).
  exists c. split; [exact Hr|]. split.
  - vm_compute in E. injection E as <-. reflexivity.
  - apply (lf_pool_conc_safe 64 3 3 c); [lia|by vm_compute|exact Hr|exact Hu].
Defined.

(** ** The arena of a pool *)

Lemma allocation_size_bounds bsize : 0 < bsize → bsize + 11 < 2 ^ 64 →
  allocation_size bsize mod 8 = 0 ∧ bsize + 4 ≤ allocation_size bsize < bsize + 12.
Proof.
  intros H0 H1. unfold allocation_size, sizeof_header. rewrite !u64_small by (rewrite ?u64_small; lia).
  replace (2 ^ 64 - 8) with (Z.shiftl (Z.ones (64 - 3)) 3) by (vm_compute; done).
  rewrite land_high by lia. change (2 ^ 3) with 8. split; [rewrite Z.mul_comm; by apply Z.mod_mul|].
  Z.div_mod_to_equations. lia.
Qed.

(** The arena: the blocks a pool hands out do not overlap, lie inside the
    arena, and lf_pool_put finds the block of every pointer handed out; the
    payload lies 4 bytes past an 8-byte boundary. *)
Theorem lf_pool_arena base bsize n :
  0 ≤ base → base mod 8 = 0 → 0 < bsize → bsize + 11 < 2 ^ 64 → 0 < n < 2 ^ 32 →
  let real := allocation_size bsize in
  (∀ i, 0 ≤ i < n →
     block_index base real (block_ptr base real i) = i ∧
     block_ptr base real i mod 8 = 4 ∧
     base ≤ block_ptr base real i - sizeof_header ∧
     block_ptr base real i + bsize ≤ base + n * real) ∧
  (∀ i j, 0 ≤ i < j → block_ptr base real i + bsize ≤ block_ptr base real j - sizeof_header).
Proof.
  intros Hb Hb8 H0 H1 Hn. cbv zeta. destruct (allocation_size_bounds bsize H0 H1) as [H8 Hr].
  set (real := allocation_size bsize) in *. unfold block_index, block_ptr, sizeof_header. split.
  - intros i Hi. split; [|split; [|nia]].
    + replace (base + i * real + 4 - 4 - base) with (i * real) by lia. rewrite Z.div_mul by lia. apply u32_small. lia.
    + apply Z.mod_divide in H8 as [k ->]; [|done]. apply Z.mod_divide in Hb8 as [m ->]; [|done].
      replace (m * 8 + i * (k * 8) + 4) with (4 + (m + i * k) * 8) by lia. by rewrite Z.mod_add.
  - intros i j Hij. nia.
Qed.

Lemma lf_pool_arena_witness :
  0 ≤ 4096 ∧ block_index 4096 (allocation_size 2064) (block_ptr 4096 (allocation_size 2064) 5) = 5.
Proof.
  split; [lia|]. apply (lf_pool_arena 4096 2064 8); [lia|done|lia..].
Defined.

(** lf_pool_init makes a pool of [n] free blocks, unless the size of the arena
    wraps: then it writes outside its allocation. *)
Lemma lf_pool_init_spec bsize n : 0 < bsize → bsize + 11 < 2 ^ 64 → 0 < n ≤ SEM_VALUE_MAX →
  lf_pool_init false true 0 bsize n =
    if n * allocation_size bsize <? 2 ^ 64 then Ret (Ok (p (start bsize n 0).1)) () else Fatal ().
Proof.
  intros H0 H1 Hn. destruct (allocation_size_bounds bsize H0 H1) as [_ Hr]. unfold lf_pool_init.
  change SEM_VALUE_MAX with 2147483647 in *. change UINT32_MAX with 4294967295.
  destruct (Z.eqb_spec bsize 0); [lia|]. destruct (Z.eqb_spec n 0); [lia|]. cbn [orb].
  destruct (Z.leb_spec 4294967295 n); [lia|]. cbn [negb]. set (real := allocation_size bsize) in *.
  unfold sizeof_header. destruct (Z.ltb_spec (n * real) (2 ^ 64)).
  - rewrite u64_small by nia. destruct (Z.ltb_spec (n * real) ((n - 1) * real + 4)); [nia|].
    destruct (Z.ltb_spec 2147483647 n); [lia|]. done.
  - assert (u64 (n * real) ≤ n * real - 2 ^ 64).
    { unfold u64, wrap. pose proof (Z.div_mod (n * real) (2 ^ 64) ltac:(done)).
      assert (1 ≤ n * real / 2 ^ 64) by (apply Z.div_le_lower_bound; lia). lia. }
    destruct (Z.ltb_spec (u64 (n * real)) ((n - 1) * real + 4)); [done|nia].
Qed.
