(* ===== verification/Sync.v ===== *)
(** * cnt_sync.h and cond_sync.h: the countdown latch and the one-shot signal

    First each function as one call, in the manner of StateSync.v: the state is
    what the object holds, [wakes] gives for every return of a wait its code
    and the value then found, and [Block] is a caller that still sleeps.  Then
    any number of threads on one object, interleaved at the operations on the
    mutex, the condition and the counter; [wakes] then counts the wake-ups
    delivered to sleepers that have not yet run. *)
From stdpp Require Import prelude.
From Stdlib Require Import ZArith Lia.
From S2P Require Import Prelude StateSync.

(** ** cnt_sync.h *)

Definition cnt_sync_t : Type := Z.

(** [condattr_destroy] ignores its code; the error goes to errno. *)
Definition cnt_sync_init (os : os_t) (null : bool) (initial : Z) : M cnt_sync_t (cres ()) :=
  if null then mret (Err EINVAL)
  else
    modify (λ _, initial);;
    if negb (os CondattrInit =? 0) then mret (Err (os CondattrInit))
    else if negb (os CondattrSetclock =? 0) then mret (Err (os CondattrSetclock))
    else if negb (os MutexInit =? 0) then mret (Err (os MutexInit))
    else if negb (os CondInit =? 0) then mret (Err (os CondInit))
    else mret (Ok ()).

Definition cnt_sync_destroy (os : os_t) (null : bool) : M cnt_sync_t () :=
  if null then mret ()
  else
    rc_ok (os CondDestroy);;
    rc_ok (os MutexDestroy);;
    modify (λ _, 2 ^ 64 - 1).

Definition cnt_sync_inc (null : bool) : M cnt_sync_t Z :=
  if null then fatal
  else
    old ← gets id;
    modify (λ _, u64 (old + 1));;
    mret (u64 (old + 1)).

Definition cnt_sync_dec (os : os_t) (null : bool) : M cnt_sync_t Z :=
  if null then fatal
  else
    rc_ok (os (MutexLock 0));;
    old ← gets id;
    modify (λ _, u64 (old - 1));;
    if old =? 0 then fatal                      (* abort() *)
    else
      (if u64 (old - 1) =? 0 then rc_ok (os CondBroadcast) else mret ());;
      rc_ok (os (MutexUnlock 0));;
      mret (u64 (old - 1)).

Definition cnt_sync_get (null : bool) : M cnt_sync_t Z := if null then fatal else gets id.

Definition cnt_sync_wait_zero (os : os_t) (null : bool) (wakes : list (Z * Z)) : M cnt_sync_t () :=
  wait_until (λ v, v =? 0) os null wakes.

Fixpoint zero_loop (os : os_t) (wakes : list (Z * Z)) : M cnt_sync_t (cres ()) := λ v,
  if v =? 0 then (rc_ok (os (MutexUnlock 1));; mret (Ok ())) v
  else
    match wakes with
    | [] => Block v
    | (rc, v') :: wakes =>
        if rc =? 0 then zero_loop os wakes v'
        else (rc_ok (os (MutexUnlock 0));; mret (Err rc)) v'
    end.

(** [clock]: what clock_gettime returns, or its error.  The deadline is
    computed as in state_sync.h. *)
Definition cnt_sync_wait_zero_ms (os : os_t) (null : bool) (timeout_ms : Z) (clock : timespec + Z)
    (wakes : list (Z * Z)) : M cnt_sync_t (cres ()) :=
  if null then mret (Err EINVAL)
  else
    match clock with
    | inr e => mret (Err e)
    | inl ts =>
        if negb ((state_sync_timespec_add_ms ts timeout_ms).1 =? 0) then mret (Err EINVAL)
        else
          rc_ok (os (MutexLock 0));;
          zero_loop os wakes
    end.

Lemma zero_loop_run os wakes v :
  posix_ok os →
  (zero_loop os wakes v = Ret (Ok ()) 0) ∨
  (∃ v', zero_loop os wakes v = Block v' ∧ v' ≠ 0 ∧ Forall (λ w, w.1 = 0 ∧ w.2 ≠ 0) wakes) ∨
  (∃ rc v', zero_loop os wakes v = Ret (Err rc) v' ∧ rc ≠ 0 ∧ (rc, v') ∈ wakes).
Proof.
  intros Hos. revert v. induction wakes as [|[rc v1] wakes IH]; intros v; cbn [zero_loop];
    unfold mbind, M_bind; rewrite ?(rc_ok_posix os) by done;
    (destruct (Z.eqb_spec v 0) as [->|Hv]; [by left|]); [right; left; by exists v|].
  destruct (Z.eqb_spec rc 0) as [->|Hrc]; [|right; right; exists rc, v1; split_and!; [done|done|set_solver]].
  destruct (IH v1) as [H|[(v' & E & H & HF)|(rc & v' & E & H & Hin)]]; [by left|right; left|right; right].
  - exists v'. split_and!; [done|done|]. constructor; [|done]. split; [done|]. intros H1. cbn in H1. subst v1.
    destruct wakes as [|[??] wakes]; cbn in E; unfold mbind, M_bind in E; by rewrite (rc_ok_posix os) in E.
  - exists rc, v'. split_and!; [done|done|]. set_solver.
Qed.

(** The latch, one call at a time, when the system calls succeed: an
    increment and a decrement return the new value, a decrement at 0 ends the
    program, and the timed wait returns 0 only at 0, an error only when the
    condition wait reported it, and sleeps on only while every wake-up found
    another value. *)
Theorem cnt_sync_spec os v ms ts wakes :
  posix_ok os → in_u 64 v → timespec_ok ts → 0 ≤ ms → tv_sec ts + ms / 1000 < INT64_MAX →
  cnt_sync_inc false v = Ret ((v + 1) mod 2 ^ 64) ((v + 1) mod 2 ^ 64) ∧
  cnt_sync_dec os false v = (if v =? 0 then Fatal (2 ^ 64 - 1) else Ret (v - 1) (v - 1)) ∧
  match cnt_sync_wait_zero_ms os false ms (inl ts) wakes v with
  | Ret (Ok _) v' => v' = 0
  | Ret (Err rc) v' => (rc, v') ∈ wakes ∧ rc ≠ 0
  | Block v' => v' ≠ 0 ∧ Forall (λ w, w.1 = 0 ∧ w.2 ≠ 0) wakes
  | Fatal _ => False
  end.
Proof.
  intros Hos Hv Hts Hms Hlt. pose proof (timespec_add_ok ts ms Hts Hms Hlt) as Hadd. split_and!.
  - done.
  - unfold cnt_sync_dec, mbind, M_bind, gets, id, modify. rewrite (rc_ok_posix os) by done.
    destruct (Z.eqb_spec v 0) as [->|Hne]; [done|]. unfold in_u in Hv.
    assert (E : u64 (v - 1) = v - 1) by (apply Z.mod_small; lia). rewrite E.
    destruct (v - 1 =? 0); cbn; by rewrite ?(rc_ok_posix os).
  - unfold cnt_sync_wait_zero_ms, mbind, M_bind.
    destruct (state_sync_timespec_add_ms ts ms) as [rc ts']. destruct Hadd as (-> & _).
    cbn [fst Z.eqb negb]. rewrite (rc_ok_posix os) by done.
    destruct (zero_loop_run os wakes v Hos) as [->|[(v' & -> & H)|(rc & v' & -> & H1 & H2)]]; done.
Qed.

Lemma cnt_sync_spec_witness :
  timespec_ok (Timespec 100 0) ∧ cnt_sync_inc false 1 = Ret 2 2 ∧
  cnt_sync_wait_zero_ms os_posix false 5000 (inl (Timespec 100 0)) [(0, 1); (0, 0)] 2 = Ret (Ok ()) 0.
Proof.
  assert (H : timespec_ok (Timespec 100 0)) by (by vm_compute).
  split; [exact H|].
  destruct (cnt_sync_spec os_posix 1 5000 (Timespec 100 0) [(0, 1); (0, 0)] os_posix_ok
    ltac:(done) H ltac:(done) ltac:(by vm_compute)) as (H1 & _). split; [exact H1|reflexivity].
Defined.

(** ** cond_sync.h: the codes of the calls after the initialisation are ignored *)

Definition cond_sync_t : Type := bool.

Definition cond_sync_init (os : os_t) : M cond_sync_t Z :=
  if negb (os MutexInit =? 0) then mret (-1)
  else if negb (os CondInit =? 0) then mret (-1)
  else modify (λ _, false);; mret 0.
Definition cond_sync_signal : M cond_sync_t () := modify (λ _, true).
Definition cond_sync_broadcast : M cond_sync_t () := modify (λ _, true).
Fixpoint cond_sync_wait (wakes : list bool) : M cond_sync_t () := λ signaled,
  if signaled then Ret () false
  else
    match wakes with
    | [] => Block signaled
    | s :: wakes => cond_sync_wait wakes s
    end.

(** ** The latch and its threads *)
Module Latch.

Inductive pc :=
| Idle
| DLocked              (* cnt_sync_dec: before the subtraction *)
| DZero                (* before the broadcast *)
| DUnlock              (* before the unlock *)
| WCheck               (* cnt_sync_wait_zero: the mutex is held, before the load *)
| WSleep               (* in pthread_cond_wait *)
| WExit                (* the load was 0: before the unlock *)
| Aborted.

Inductive act := AInc | ADec | AWaitZero | ARun | ASpurious.

(** [wrapped]: an increment has wrapped the counter to 0. *)
Record shared := Shared { value : Z; locked : bool; waiters : Z; wakes : Z; wrapped : bool }.

Definition set_locked (b : bool) (s : shared) : shared := Shared (value s) b (waiters s) (wakes s) (wrapped s).

(** A sleeper runs again once it has the mutex back. *)
Definition woken (w : Z) (s : shared) : shared := Shared (value s) true (waiters s - 1) w (wrapped s).

Definition tstep (a : act) (_ : nat) (s : shared) (p : pc) : option (shared * pc) :=
  match a, p with
  | AInc, Idle => 
      Some (Shared (u64 (value s + 1)) (locked s) (waiters s) (wakes s) (wrapped s || (u64 (value s + 1) =? 0)), Idle)
  | ADec, Idle => if locked s then None else Some (set_locked true s, DLocked)
  | AWaitZero, Idle => if locked s then None else Some (set_locked true s, WCheck)
  | ARun, DLocked =>
      let s' := Shared (u64 (value s - 1)) (locked s) (waiters s) (wakes s) (wrapped s) in
      if value s =? 0 then Some (s', Aborted)
      else if u64 (value s - 1) =? 0 then Some (s', DZero) else Some (s', DUnlock)
  | ARun, DZero => Some (Shared (value s) (locked s) (waiters s) (waiters s) (wrapped s), DUnlock)
  | ARun, DUnlock => Some (set_locked false s, Idle)
  | ARun, WCheck =>
      if value s =? 0 then Some (s, WExit)
      else Some (Shared (value s) false (waiters s + 1) (wakes s) (wrapped s), WSleep)
  | ARun, WSleep => if locked s || (wakes s =? 0) then None else Some (woken (wakes s - 1) s, WCheck)
  | ASpurious, WSleep =>
      if locked s || (waiters s <=? wakes s) then None else Some (woken (wakes s) s, WCheck)
  | ARun, WExit => Some (set_locked false s, Idle)
  | _, _ => None
  end.

(** A latch of [v] and [n] threads. *)
Definition start (v : Z) (n : nat) : conf shared pc := (Shared v false 0 0 false, replicate n Idle).

Definition w_lock (p : pc) : Z :=
  match p with DLocked | DZero | DUnlock | WCheck | WExit | Aborted => 1 | _ => 0 end.
Definition w_sleep (p : pc) : Z := match p with WSleep => 1 | _ => 0 end.
Definition w_zero (p : pc) : Z := match p with DZero => 1 | _ => 0 end.

Record latch_inv (c : conf shared pc) : Prop := {
  la_value : 0 ≤ value c.1 < 2 ^ 64;
  la_lock : sum_over w_lock c.2 = if locked c.1 then 1 else 0;
  la_sleep : waiters c.1 = sum_over w_sleep c.2;
  la_wakes : 0 ≤ wakes c.1 ≤ waiters c.1;
  (* an unsignalled sleeper: the value is not 0, or a broadcast is due *)
  la_due : wrapped c.1 = false → wakes c.1 < waiters c.1 → value c.1 = 0 → 0 < sum_over w_zero c.2
}.

Lemma latch_weights p : 0 ≤ w_lock p ∧ 0 ≤ w_sleep p ∧ 0 ≤ w_zero p ≤ w_lock p.
Proof. by destruct p. Qed.
Lemma zero_le_lock l : sum_over w_zero l ≤ sum_over w_lock l.
Proof.
  unfold sum_over. induction l as [|p l IH]; cbn; [lia|]. pose proof (latch_weights p). lia.
Qed.

(** The threads beside the one that steps hold the lock if it does not. *)
Lemma latch_step e c c' : latch_inv c → cstep tstep e c = Some c' → latch_inv c'.
Proof.
  intros [Hv Hl Hs Hw Hd] (p & s' & p' & Hp & E & ->)%cstep_Some.
  pose proof (sum_over_ge w_lock _ _ _ (λ p, proj1 (latch_weights p)) Hp) as G1.
  pose proof (sum_over_ge w_sleep _ _ _ (λ p, proj1 (proj2 (latch_weights p))) Hp) as G2.
  pose proof (zero_le_lock c.2) as G3.
  assert (G4 : 0 ≤ sum_over w_zero c.2 - w_zero p).
  { pose proof (sum_over_ge w_zero _ _ _ (λ p, proj1 (proj2 (proj2 (latch_weights p)))) Hp). lia. }
  assert (Hz : sum_over w_zero (<[e.1 := p']> c.2) = sum_over w_zero c.2 - w_zero p + w_zero p')
    by by apply sum_over_insert.
  assert (Hk : sum_over w_lock (<[e.1 := p']> c.2) = sum_over w_lock c.2 - w_lock p + w_lock p')
    by by apply sum_over_insert.
  assert (Hq : sum_over w_sleep (<[e.1 := p']> c.2) = sum_over w_sleep c.2 - w_sleep p + w_sleep p')
    by by apply sum_over_insert.
  pose proof (u64_range (value c.1 + 1)) as R1. pose proof (u64_range (value c.1 - 1)) as R2.
  change 18446744073709551616 with (2 ^ 64) in R1, R2.
  split; cbn [fst snd]; rewrite ?Hz, ?Hk, ?Hq; clear Hz Hk Hq Hp;
    destruct e as [t a], c as [s l]; cbn [fst snd] in *; destruct (locked s) eqn:Elock;
    destruct a, p; cbn -[u64] in E; rewrite ?Elock in E; cbn [orb] in E; try discriminate E;
    repeat match type of E with context [if ?b then _ else _] => destruct b eqn:?; cbn -[u64] in E end;
    try discriminate E; injection E as <- <-; cbn -[u64] in *; rewrite ?Elock; try lia;
    (intros W1 W2 W3; try apply orb_false_iff in W1 as [W1 ?]; try specialize (Hd W1); lia).
Qed.

Lemma latch_start v n : in_u 64 v → latch_inv (start v n).
Proof.
  intros Hv. assert (Hz : ∀ w : pc → Z, w Idle = 0 → sum_over w (replicate n Idle) = 0).
  { intros w H. apply sum_over_zero. by apply Forall_replicate. }
  split; cbn -[sum_over]; rewrite ?Hz by done; try done; lia.
Qed.

Definition at_rest (p : pc) : Prop := p = Idle ∨ p = WSleep.

Lemma rest_weights l : Forall at_rest l → sum_over w_lock l = 0 ∧ sum_over w_zero l = 0.
Proof. intros H. split; apply sum_over_zero; (eapply Forall_impl; [exact H|]); by intros ? [-> | ->]. Qed.

(** C37. A latch used by any number of threads, in every interleaving: the mutex
    has at most one holder, and no wake-up is lost: when no call is in the
    middle and the counter is 0 (without ever having wrapped around), each
    thread asleep in cnt_sync_wait_zero can take its three steps (wake, test,
    unlock) and leave. *)
Theorem cnt_sync_no_lost_wakeup v n c :
  in_u 64 v → reachable tstep (start v n) c →
  sum_over w_lock c.2 ≤ 1 ∧
  (Forall at_rest c.2 → value c.1 = 0 → wrapped c.1 = false →
   ∀ i, c.2 !! i = Some WSleep →
   ∃ c', crun tstep [(i, ARun); (i, ARun); (i, ARun)] c = Some c' ∧
     c'.2 = <[i := Idle]> c.2 ∧ value c'.1 = 0 ∧ locked c'.1 = false).
Proof.
  intros Hv Hr. assert (Hc : latch_inv c).
  { revert c Hr. apply reachable_inv; [by apply latch_start|apply latch_step]. }
  destruct Hc as [_ Hl Hs _ Hd], c as [s l]. cbn [fst snd] in *. split; [destruct (locked s); lia|].
  intros [H0 H1]%rest_weights Hz Hw i Hi.
  assert (Hlk : locked s = false) by (destruct (locked s); [lia|done]).
  assert (1 ≤ sum_over w_sleep l).
  { exact (sum_over_ge w_sleep _ _ _ (λ p, proj1 (proj2 (latch_weights p))) Hi). }
  assert (Hk : (wakes s =? 0) = false).
  { apply Z.eqb_neq. intros E. specialize (Hd Hw ltac:(lia) Hz). lia. }
  pose proof (lookup_lt_Some _ _ _ Hi) as Hlt.
  eexists. split.
  - cbn [crun]. unfold cstep; cbn [fst snd]. rewrite Hi. cbn. rewrite Hlk, Hk. cbn.
    rewrite list_lookup_insert_eq by done. cbn. rewrite Hz. cbn.
    rewrite list_lookup_insert_eq by (by rewrite length_insert). cbn. reflexivity.
  - cbn. by rewrite !list_insert_insert_eq.
Qed.

(** One operation pending, one waiter: it sleeps, the last decrement wakes it. *)
Definition sample_schedule : list (nat * act) :=
  [(0%nat, AWaitZero); (0%nat, ARun); (1%nat, ADec); (1%nat, ARun); (1%nat, ARun); (1%nat, ARun)].
Definition sample_conf : conf shared pc := (Shared 0 false 1 1 false, [WSleep; Idle]).

Lemma cnt_sync_no_lost_wakeup_witness :
  reachable tstep (start 1 2) sample_conf ∧ sum_over w_lock sample_conf.2 ≤ 1 ∧
  ∃ c', crun tstep [(0%nat, ARun); (0%nat, ARun); (0%nat, ARun)] sample_conf = Some c' ∧
    c'.2 = <[0%nat := Idle]> sample_conf.2 ∧ value c'.1 = 0 ∧ locked c'.1 = false.
Proof.
  assert (Hr : reachable tstep (start 1 2) sample_conf) by (exists sample_schedule; reflexivity).
  split; [exact Hr|]. destruct (cnt_sync_no_lost_wakeup 1 2 sample_conf) as [H1 H2]; [done|exact Hr|].
  split; [exact H1|]. apply H2; [|done..].
  apply Forall_cons_2; [by right|apply Forall_cons_2; [by left|done]].
Defined.
End Latch.

(** ** The one-shot signal and its threads *)
Module Flag.

Inductive pc :=
| Idle
| WCheck               (* cond_sync_wait: the mutex is held, before the test *)
| WSleep               (* in pthread_cond_wait *)
| WUnlock              (* the flag has been cleared *)
| SSet (all : bool)    (* cond_sync_signal / cond_sync_broadcast: before the store *)
| SWake (all : bool)   (* before pthread_cond_signal / pthread_cond_broadcast *)
| SUnlock.

Inductive act := AWait | ASignal (all : bool) | ARun | ASpurious.

(** [raised], [passed]: the completed stores of true, the waits that went through. *)
Record shared := Shared {
  signaled : bool; locked : bool; waiters : Z; wakes : Z; raised : Z; passed : Z
}.

Definition set_locked (b : bool) (s : shared) : shared :=
  Shared (signaled s) b (waiters s) (wakes s) (raised s) (passed s).
Definition woken (w : Z) (s : shared) : shared :=
  Shared (signaled s) true (waiters s - 1) w (raised s) (passed s).

Definition tstep (a : act) (_ : nat) (s : shared) (p : pc) : option (shared * pc) :=
  match a, p with
  | AWait, Idle => if locked s then None else Some (set_locked true s, WCheck)
  | ASignal all, Idle => if locked s then None else Some (set_locked true s, SSet all)
  | ARun, WCheck =>
      if signaled s
      then Some (Shared false (locked s) (waiters s) (wakes s) (raised s) (passed s + 1), WUnlock)
      else Some (Shared false false (waiters s + 1) (wakes s) (raised s) (passed s), WSleep)
  | ARun, WSleep => if locked s || (wakes s =? 0) then None else Some (woken (wakes s - 1) s, WCheck)
  | ASpurious, WSleep =>
      if locked s || (waiters s <=? wakes s) then None else Some (woken (wakes s) s, WCheck)
  | ARun, SSet all =>
      Some (Shared true (locked s) (waiters s) (wakes s) (raised s + 1) (passed s), SWake all)
  | ARun, SWake all =>
      let w := if all then waiters s else Z.min (wakes s + 1) (waiters s) in
      Some (Shared (signaled s) (locked s) (waiters s) w (raised s) (passed s), SUnlock)
  | ARun, WUnlock | ARun, SUnlock => Some (set_locked false s, Idle)
  | _, _ => None
  end.

Definition start (n : nat) : conf shared pc := (Shared false false 0 0 0 0, replicate n Idle).

Definition w_lock (p : pc) : Z := match p with Idle | WSleep => 0 | _ => 1 end.
Definition w_sleep (p : pc) : Z := match p with WSleep => 1 | _ => 0 end.
(* the holder will test the flag, or wake a sleeper *)
Definition w_due (p : pc) : Z := match p with WCheck | SWake _ => 1 | _ => 0 end.

Record flag_inv (c : conf shared pc) : Prop := {
  fl_lock : sum_over w_lock c.2 = if locked c.1 then 1 else 0;
  fl_sleep : waiters c.1 = sum_over w_sleep c.2;
  fl_wakes : 0 ≤ wakes c.1 ≤ waiters c.1;
  fl_passed : 0 ≤ passed c.1 ∧ passed c.1 + (if signaled c.1 then 1 else 0) ≤ raised c.1;
  (* a raised flag that sleepers have not seen: one has been woken, or it is due *)
  fl_due : signaled c.1 = true → 0 < waiters c.1 → 0 < wakes c.1 + sum_over w_due c.2
}.

Lemma flag_weights p : 0 ≤ w_lock p ∧ 0 ≤ w_sleep p ∧ 0 ≤ w_due p ≤ w_lock p.
Proof. by destruct p. Qed.
Lemma due_le_lock l : sum_over w_due l ≤ sum_over w_lock l.
Proof.
  unfold sum_over. induction l as [|p l IH]; cbn; [lia|]. pose proof (flag_weights p). lia.
Qed.

Lemma flag_step e c c' : flag_inv c → cstep tstep e c = Some c' → flag_inv c'.
Proof.
  intros [Hl Hs Hw Hp Hd] (p & s' & p' & Hi & E & ->)%cstep_Some.
  pose proof (sum_over_ge w_lock _ _ _ (λ p, proj1 (flag_weights p)) Hi) as G1.
  pose proof (sum_over_ge w_sleep _ _ _ (λ p, proj1 (proj2 (flag_weights p))) Hi) as G2.
  pose proof (due_le_lock c.2) as G3.
  assert (G4 : w_due p ≤ sum_over w_due c.2).
  { apply (sum_over_ge w_due _ _ _ (λ p, proj1 (proj2 (proj2 (flag_weights p)))) Hi). }
  assert (Hz : sum_over w_due (<[e.1 := p']> c.2) = sum_over w_due c.2 - w_due p + w_due p')
    by by apply sum_over_insert.
  assert (Hk : sum_over w_lock (<[e.1 := p']> c.2) = sum_over w_lock c.2 - w_lock p + w_lock p')
    by by apply sum_over_insert.
  assert (Hq : sum_over w_sleep (<[e.1 := p']> c.2) = sum_over w_sleep c.2 - w_sleep p + w_sleep p')
    by by apply sum_over_insert.
  split; cbn [fst snd]; rewrite ?Hz, ?Hk, ?Hq; clear Hz Hk Hq Hi;
    destruct e as [t a], c as [s l]; cbn [fst snd] in *; destruct (locked s) eqn:Elock;
    destruct (signaled s) eqn:Es; destruct a as [|[]| |], p as [| | | |[]|[]|]; cbn in E;
    rewrite ?Elock, ?Es in E; cbn [orb] in E; try discriminate E;
    repeat match type of E with context [if ?b then _ else _] => destruct b eqn:?; cbn in E end;
    try discriminate E; injection E as <- <-; cbn -[sum_over Z.min] in *; rewrite ?Elock, ?Es in *; try lia;
    (intros W1 W2; try specialize (Hd eq_refl); lia).
Qed.

Lemma flag_start n : flag_inv (start n).
Proof.
  assert (Hz : ∀ w : pc → Z, w Idle = 0 → sum_over w (replicate n Idle) = 0).
  { intros w H. apply sum_over_zero. by apply Forall_replicate. }
  split; cbn -[sum_over]; rewrite ?Hz by done; try done; lia.
Qed.

Definition at_rest (p : pc) : Prop := p = Idle ∨ p = WSleep.

Lemma flag_rest_weights l : Forall at_rest l → sum_over w_lock l = 0 ∧ sum_over w_due l = 0.
Proof. intros H. split; apply sum_over_zero; (eapply Forall_impl; [exact H|]); by intros ? [-> | ->]. Qed.

(** cond_sync.h with any number of threads, in every interleaving: the
    waits that have gone through are at most the signals and broadcasts (a
    broadcast wakes every sleeper, but the first to run resets the flag and
    the others sleep again); and when no call is in the middle and the flag is
    raised, a sleeper can wake, go through and lower the flag. *)
Theorem cond_sync_one_each n c :
  reachable tstep (start n) c →
  passed c.1 + (if signaled c.1 then 1 else 0) ≤ raised c.1 ∧
  (Forall at_rest c.2 → signaled c.1 = true → ∀ i, c.2 !! i = Some WSleep →
   ∃ c', crun tstep [(i, ARun); (i, ARun); (i, ARun)] c = Some c' ∧
     c'.2 = <[i := Idle]> c.2 ∧ signaled c'.1 = false ∧ passed c'.1 = passed c.1 + 1).
Proof.
  intros Hr. assert (Hc : flag_inv c).
  { revert c Hr. apply reachable_inv; [by apply flag_start|apply flag_step]. }
  destruct Hc as [Hl Hs _ Hp Hd], c as [s l]. cbn [fst snd] in *. split; [lia|].
  intros [H0 H1]%flag_rest_weights Hz i Hi.
  assert (Hlk : locked s = false) by (destruct (locked s); [lia|done]).
  assert (1 ≤ sum_over w_sleep l).
  { exact (sum_over_ge w_sleep _ _ _ (λ p, proj1 (proj2 (flag_weights p))) Hi). }
  assert (Hk : (wakes s =? 0) = false) by (apply Z.eqb_neq; specialize (Hd Hz); lia).
  pose proof (lookup_lt_Some _ _ _ Hi) as Hlt.
  eexists. split.
  - cbn [crun]. unfold cstep; cbn [fst snd]. rewrite Hi. cbn. rewrite Hlk, Hk. cbn.
    rewrite list_lookup_insert_eq by done. cbn. rewrite Hz. cbn.
    rewrite list_lookup_insert_eq by (by rewrite length_insert). cbn. reflexivity.
  - cbn. by rewrite !list_insert_insert_eq.
Qed.

(** Two sleepers, one broadcast. *)
Definition sample_schedule : list (nat * act) :=
  [(0%nat, AWait); (0%nat, ARun); (1%nat, AWait); (1%nat, ARun);
   (2%nat, ASignal true); (2%nat, ARun); (2%nat, ARun); (2%nat, ARun)].
Definition sample_conf : conf shared pc := (Shared true false 2 2 1 0, [WSleep; WSleep; Idle]).

Lemma cond_sync_one_each_witness :
  reachable tstep (start 3) sample_conf ∧
  ∃ c', crun tstep [(0%nat, ARun); (0%nat, ARun); (0%nat, ARun)] sample_conf = Some c' ∧
    c'.2 = <[0%nat := Idle]> sample_conf.2 ∧ signaled c'.1 = false ∧ passed c'.1 = 1.
Proof.
  assert (Hr : reachable tstep (start 3) sample_conf) by (exists sample_schedule; reflexivity).
  split; [exact Hr|]. destruct (cond_sync_one_each 3 sample_conf Hr) as [_ H2].
  apply H2; [|done..].
  apply Forall_cons_2; [by right|apply Forall_cons_2; [by right|apply Forall_cons_2; [by left|done]]].
Defined.
End Flag.
