(* ===== verification/NetLink.v ===== *)
(** * The netlink message format: the macros of linux/netlink.h and
    linux/rtnetlink.h as net_iface.c uses them

    A buffer is a list of bytes and a position in it a number; a load outside
    the buffer is [Fatal].  [nlmsg_loop] and [rta_loop] are the two for-loops
    that every function of net_iface.c writes over messages and attributes,
    with the loop's body as a parameter.  The second half gives messages and
    attributes as data, their bytes, and shows that the loops visit exactly
    the messages of a datagram. *)
From stdpp Require Import prelude strings.
From Stdlib Require Import ZArith Lia.
From S2P Require Import Prelude.

Definition sizeof_nlmsghdr : Z := 16.
Definition sizeof_rtattr : Z := 4.
Definition NLMSG_HDRLEN : Z := 16.

Definition NLMSG_DONE : Z := 3.
Definition NLMSG_ERROR : Z := 2.

(** [((len)+4U-1) & ~(4U-1)] on a 32-bit length; RTA_ALIGN is the same. *)
Definition NLMSG_ALIGN (len : Z) : Z := Z.land (u32 (len + 3)) (u32 (Z.lnot 3)).

(** Whether the loop goes on after its body, or is left with [break]. *)
Inductive ctl (T : Type) :=
| Next (st : T)
| Stop (st : T).
Arguments Next {T}.
Arguments Stop {T}.

Section loops.
Context {W T : Type}.

Definition ld (n : nat) (buf : list Z) (off : Z) : M W Z :=
  if (0 <=? off) && (off + Z.of_nat n <=? Z.of_nat (length buf)) then
    mret (rd (Z.to_nat off) n buf)
  else fatal.

Definition nlmsg_len (buf : list Z) (nlh : Z) : M W Z := ld 4 buf nlh.
Definition nlmsg_type (buf : list Z) (nlh : Z) : M W Z := ld 2 buf (nlh + 4).
Definition NLMSG_DATA (nlh : Z) : Z := nlh + NLMSG_HDRLEN.

(** [NLMSG_OK(nlh, (size_t)len)]: [len] is a ssize_t, compared unsigned. *)
Definition NLMSG_OK (buf : list Z) (nlh len : Z) : M W bool :=
  if sizeof_nlmsghdr <=? u64 len then
    l ← nlmsg_len buf nlh;
    mret ((sizeof_nlmsghdr <=? l) && (l <=? u64 len))
  else mret false.

(** [for (; NLMSG_OK(nlh, (size_t)len); nlh = NLMSG_NEXT(nlh, len)) body] *)
Fixpoint nlmsg_loop (fuel : nat) (buf : list Z) (body : Z → T → M W (ctl T)) (nlh len : Z) (st : T)
    : M W T :=
  match fuel with
  | O => block
  | S fuel =>
      ok ← NLMSG_OK buf nlh len;
      if ok : bool then
        r ← body nlh st;
        match r with
        | Stop st => mret st
        | Next st =>
            l ← nlmsg_len buf nlh;
            nlmsg_loop fuel buf body (nlh + NLMSG_ALIGN l) (len - NLMSG_ALIGN l) st
        end
      else mret st
  end.

(** The payload length of the message at [nlh] after a header of [hdr] bytes,
    as the int that RTM_PAYLOAD, IFA_PAYLOAD and IFLA_PAYLOAD are stored in. *)
Definition NLMSG_PAYLOAD (buf : list Z) (nlh hdr : Z) : M W Z :=
  l ← nlmsg_len buf nlh;
  mret (i32 (l - NLMSG_ALIGN (NLMSG_HDRLEN + hdr))).

Definition rta_len (buf : list Z) (rta : Z) : M W Z := ld 2 buf rta.
Definition rta_type_at (buf : list Z) (rta : Z) : M W Z := ld 2 buf (rta + 2).
Definition RTA_DATA (rta : Z) : Z := rta + sizeof_rtattr.

Definition RTA_OK (buf : list Z) (rta len : Z) : M W bool :=
  if sizeof_rtattr <=? len then
    l ← rta_len buf rta;
    mret ((sizeof_rtattr <=? l) && (l <=? len))
  else mret false.

(** [for (; RTA_OK(rta, rta_len); rta = RTA_NEXT(rta, rta_len)) body]; the
    body gets the attribute's position. *)
Fixpoint rta_loop (fuel : nat) (buf : list Z) (body : Z → T → M W (ctl T)) (rta len : Z) (st : T)
    : M W T :=
  match fuel with
  | O => block
  | S fuel =>
      ok ← RTA_OK buf rta len;
      if ok : bool then
        r ← body rta st;
        match r with
        | Stop st => mret st
        | Next st =>
            l ← rta_len buf rta;
            rta_loop fuel buf body (rta + NLMSG_ALIGN l) (len - NLMSG_ALIGN l) st
        end
      else mret st
  end.

(** ** Messages and attributes as data *)

Record attr := Attr { rta_type : Z; payload : list Z }.
Record nlmsg := Nlmsg {
  nl_type : Z; nl_flags : Z; nl_seq : Z; nl_pid : Z;
  header : list Z;              (* rtmsg, ifaddrmsg or ifinfomsg *)
  attrs : list attr
}.

Fixpoint walk {A} (f : A → T → M W (ctl T)) (l : list A) (st : T) : M W T :=
  match l with
  | [] => mret st
  | a :: l =>
      r ← f a st;
      match r with
      | Stop st => mret st
      | Next st => walk f l st
      end
  end.
End loops.

(** The bytes up to the next multiple of four. *)
Definition padding (n : nat) : list Z := replicate (Z.to_nat ((- Z.of_nat n) mod 4)) 0.

Definition attr_len (a : attr) : nat := 4 + length (payload a).
Definition attr_bytes (a : attr) : list Z :=
  le_bytes 2 (Z.of_nat (attr_len a)) ++ le_bytes 2 (rta_type a) ++ payload a ++
  padding (length (payload a)).

Definition attrs_bytes (l : list attr) : list Z := concat (attr_bytes <$> l).

Definition nlmsg_bytes (m : nlmsg) : list Z :=
  let body := header m ++ attrs_bytes (attrs m) in
  le_bytes 4 (16 + Z.of_nat (length body)) ++ le_bytes 2 (nl_type m) ++ le_bytes 2 (nl_flags m) ++
  le_bytes 4 (nl_seq m) ++ le_bytes 4 (nl_pid m) ++ body.

Definition datagram (ms : list nlmsg) : list Z := concat (nlmsg_bytes <$> ms).

Definition attr_ok (a : attr) : Prop :=
  in_u 16 (rta_type a) ∧ Z.of_nat (attr_len a) < 65536 ∧ bytes_ok (payload a).

(** [m] is what the kernel sends: the lengths fit, the header is a multiple of
    four bytes. *)
Record nlmsg_ok (m : nlmsg) : Prop := {
  ok_type : in_u 16 (nl_type m);
  ok_header : ∃ k, length (header m) = (4 * k)%nat;
  ok_header_bytes : bytes_ok (header m);
  ok_attrs : Forall attr_ok (attrs m);
  ok_len : Z.of_nat (length (nlmsg_bytes m)) ≤ 8192
}.

(** ** Lemmas *)

Lemma NLMSG_ALIGN_eq x : 0 ≤ x < 4294967293 → NLMSG_ALIGN x = 4 * ((x + 3) / 4).
Proof.
  intros Hx. unfold NLMSG_ALIGN. rewrite u32_small by lia.
  change (u32 (Z.lnot 3)) with (Z.ldiff (Z.ones 32) (Z.ones 2)).
  set (y := x + 3). assert (Hy : Z.land y (Z.ones 32) = y).
  { rewrite Z.land_ones by lia. apply Z.mod_small. unfold y. change (2 ^ 32) with 4294967296. lia. }
  replace (Z.land y (Z.ldiff (Z.ones 32) (Z.ones 2))) with (Z.ldiff y (Z.ones 2)).
  - rewrite Z.ldiff_ones_r, Z.shiftl_mul_pow2, Z.shiftr_div_pow2 by lia.
    change (2 ^ 2) with 4. lia.
  - rewrite <- Hy at 1. apply Z.bits_inj'. intros i _.
    rewrite !Z.ldiff_spec, !Z.land_spec, Z.ldiff_spec. by destruct (Z.testbit y i), (Z.testbit (Z.ones 32) i).
Qed.

Lemma NLMSG_ALIGN_bounds x : 0 ≤ x < 4294967293 → x ≤ NLMSG_ALIGN x < x + 4.
Proof. intros. rewrite NLMSG_ALIGN_eq by done. Z.div_mod_to_equations. lia. Qed.

Lemma padded_length n : Z.of_nat (n + length (padding n)) = 4 * ((Z.of_nat n + 3) / 4).
Proof.
  unfold padding. rewrite length_replicate. pose proof (Z.mod_pos_bound (- Z.of_nat n) 4).
  rewrite Nat2Z.inj_add, Z2Nat.id by lia. Z.div_mod_to_equations. lia.
Qed.

Lemma length_attr_bytes a : attr_ok a →
  Z.of_nat (length (attr_bytes a)) = NLMSG_ALIGN (Z.of_nat (attr_len a)).
Proof.
  intros (_ & Hl & _). unfold attr_bytes. rewrite !length_app, !length_le_bytes.
  pose proof (padded_length (length (payload a))) as H. unfold attr_len in *.
  rewrite NLMSG_ALIGN_eq by lia. replace (Z.of_nat (4 + length (payload a)) + 3)
    with (Z.of_nat (length (payload a)) + 3 + 1 * 4) by lia. rewrite Z.div_add by lia. lia.
Qed.

Section visits.
Context {W T : Type}.
Implicit Types (s : W) (st : T).

(** Loads from the piece [x] of a buffer. *)
Lemma ld_app n (pre x post : list Z) (o : nat) s :
  (o + n ≤ length x)%nat →
  ld n (pre ++ x ++ post) (Z.of_nat (length pre) + Z.of_nat o) s = Ret (rd o n x) s.
Proof.
  intros Ho. unfold ld. rewrite !length_app.
  destruct (Z.leb_spec 0 (Z.of_nat (length pre) + Z.of_nat o)) as [_|]; [|lia].
  destruct (Z.leb_spec (Z.of_nat (length pre) + Z.of_nat o + Z.of_nat n)
    (Z.of_nat (length pre + (length x + length post)))) as [_|]; [|lia]. simpl.
  unfold rd. rewrite sub_app_skip by lia. rewrite sub_app_l by lia.
  unfold mret, M_ret. repeat f_equal. lia.
Qed.

Lemma rd_app_r n (a b : list Z) o : (length a ≤ o)%nat → rd o n (a ++ b) = rd (o - length a) n b.
Proof. intros. unfold rd. by rewrite sub_app_skip. Qed.
Lemma rd_app_here n z (b : list Z) :
  0 ≤ z < 256 ^ Z.of_nat n → rd 0 n (le_bytes n z ++ b) = z.
Proof.
  intros Hz. apply rd_le_bytes; [done|]. apply sub_app_here. by rewrite length_le_bytes.
Qed.

Lemma rta_len_at pre a post s : attr_ok a →
  rta_len (pre ++ attr_bytes a ++ post) (Z.of_nat (length pre)) s = Ret (Z.of_nat (attr_len a)) s.
Proof.
  intros (? & ? & ?). unfold rta_len. rewrite <- (Z.add_0_r (Z.of_nat (length pre))).
  rewrite (ld_app 2 pre _ post 0) by (unfold attr_bytes; rewrite length_app, length_le_bytes; lia).
  unfold attr_bytes. rewrite rd_app_here; [done|]. simpl. lia.
Qed.

Lemma rta_type_at_attr pre a post s : attr_ok a →
  rta_type_at (pre ++ attr_bytes a ++ post) (Z.of_nat (length pre)) s = Ret (rta_type a) s.
Proof.
  intros (? & ? & ?). unfold rta_type_at. change 2 with (Z.of_nat 2).
  rewrite (ld_app 2 pre _ post 2)
    by (unfold attr_bytes; rewrite !length_app, !length_le_bytes; lia).
  unfold attr_bytes. rewrite rd_app_r by (by rewrite length_le_bytes). rewrite length_le_bytes.
  by rewrite rd_app_here.
Qed.

(** A load of the first four bytes of an attribute's payload. *)
Lemma rta_data_at pre a post s : attr_ok a → (4 ≤ length (payload a))%nat →
  ld 4 (pre ++ attr_bytes a ++ post) (RTA_DATA (Z.of_nat (length pre))) s = Ret (rd 0 4 (payload a)) s.
Proof.
  intros _ Hl. unfold RTA_DATA. change sizeof_rtattr with (Z.of_nat 4).
  rewrite (ld_app 4 pre _ post 4)
    by (unfold attr_bytes; rewrite !length_app, !length_le_bytes; lia).
  unfold attr_bytes. rewrite !rd_app_r by (rewrite !length_le_bytes; lia).
  rewrite !length_le_bytes. unfold rd. by rewrite sub_app_l.
Qed.

Lemma rta_loop_walk (P : attr → Prop) buf (body : Z → T → M W (ctl T)) f :
  (∀ a, P a → attr_ok a) →
  (∀ pre a post st s, buf = pre ++ attr_bytes a ++ post → P a →
    body (Z.of_nat (length pre)) st s = f a st s) →
  ∀ l pre post fuel st s, buf = pre ++ attrs_bytes l ++ post → Forall P l →
    (length l < fuel)%nat →
    rta_loop fuel buf body (Z.of_nat (length pre)) (Z.of_nat (length (attrs_bytes l))) st s =
    walk f l st s.
Proof.
  intros HP Hbody. induction l as [|a l IH]; intros pre post [|fuel] st s Hbuf Hl Hf;
    [simpl in Hf; lia|done|simpl in Hf; lia|].
  apply Forall_cons in Hl as [Ha Hl]. pose proof (HP _ Ha) as Hok.
  assert (Hbuf' : buf = pre ++ attr_bytes a ++ (attrs_bytes l ++ post)).
  { rewrite Hbuf. unfold attrs_bytes. cbn [fmap list_fmap concat]. by rewrite <- (assoc_L (++)). }
  assert (Hlen : Z.of_nat (length (attrs_bytes (a :: l))) =
    NLMSG_ALIGN (Z.of_nat (attr_len a)) + Z.of_nat (length (attrs_bytes l))).
  { unfold attrs_bytes. cbn [fmap list_fmap concat]. rewrite length_app, Nat2Z.inj_add.
    by rewrite length_attr_bytes. }
  destruct (NLMSG_ALIGN_bounds (Z.of_nat (attr_len a))) as [Hge _];
    [split; [lia|]; destruct Hok as (_ & ? & _); lia|].
  assert (4 ≤ Z.of_nat (attr_len a)) by (unfold attr_len; lia).
  cbn [rta_loop walk]. unfold RTA_OK. rewrite Hlen.
  destruct (Z.leb_spec sizeof_rtattr (NLMSG_ALIGN (Z.of_nat (attr_len a)) +
    Z.of_nat (length (attrs_bytes l)))) as [_|?]; [|unfold sizeof_rtattr in *; lia].
  rewrite (bind_run _ _ s true s).
  2:{ rewrite (bind_run _ _ s (Z.of_nat (attr_len a)) s)
        by (rewrite Hbuf'; by apply rta_len_at). unfold mret, M_ret.
      f_equal. apply andb_true_intro. split; apply Z.leb_le; unfold sizeof_rtattr; lia. }
  cbv iota. unfold mbind at 1 3, M_bind at 1 3. rewrite (Hbody pre a _ st s Hbuf' Ha).
  destruct (f a st s) as [[st'|st'] s'|s'|s']; try done.
  rewrite (bind_run _ _ s' (Z.of_nat (attr_len a)) s') by (rewrite Hbuf'; by apply rta_len_at).
  rewrite <- length_attr_bytes by done. rewrite Z.add_simpl_l, <- Nat2Z.inj_add, <- length_app.
  apply (IH _ post); [|done|simpl in Hf; lia].
  by rewrite Hbuf', <- (assoc_L (++)).
Qed.

Lemma length_attrs_bytes l : Forall attr_ok l → ∃ k, length (attrs_bytes l) = (4 * k)%nat.
Proof.
  induction 1 as [|a l Ha _ [k IH]]; [by exists 0%nat|].
  unfold attrs_bytes. cbn [fmap list_fmap concat]. rewrite length_app.
  fold (attrs_bytes l). rewrite IH. pose proof (length_attr_bytes _ Ha) as E.
  rewrite NLMSG_ALIGN_eq in E by (destruct Ha as (_ & ? & _); lia).
  exists (Z.to_nat ((Z.of_nat (attr_len a) + 3) / 4) + k)%nat. Z.div_mod_to_equations. lia.
Qed.

Definition nlmsg_body (m : nlmsg) : list Z := header m ++ attrs_bytes (attrs m).

Lemma length_nlmsg_bytes m : length (nlmsg_bytes m) = (16 + length (nlmsg_body m))%nat.
Proof. unfold nlmsg_bytes. rewrite !length_app, !length_le_bytes. unfold nlmsg_body. rewrite length_app. lia. Qed.

Lemma nlmsg_len_at pre m post s : nlmsg_ok m →
  nlmsg_len (pre ++ nlmsg_bytes m ++ post) (Z.of_nat (length pre)) s =
  Ret (Z.of_nat (length (nlmsg_bytes m))) s.
Proof.
  intros Hm. pose proof (ok_len _ Hm) as Hl. rewrite length_nlmsg_bytes in Hl.
  unfold nlmsg_len. rewrite <- (Z.add_0_r (Z.of_nat (length pre))).
  rewrite (ld_app 4 pre _ post 0) by (rewrite length_nlmsg_bytes; lia).
  unfold nlmsg_bytes. cbv zeta. fold (nlmsg_body m).
  rewrite rd_app_here by (change (256 ^ Z.of_nat 4) with 4294967296; lia).
  rewrite !length_app, !length_le_bytes. do 2 f_equal. lia.
Qed.

Lemma nlmsg_type_at pre m post s : nlmsg_ok m →
  nlmsg_type (pre ++ nlmsg_bytes m ++ post) (Z.of_nat (length pre)) s = Ret (nl_type m) s.
Proof.
  intros Hm. unfold nlmsg_type. change 4 with (Z.of_nat 4).
  rewrite (ld_app 2 pre _ post 4) by (rewrite length_nlmsg_bytes; lia).
  unfold nlmsg_bytes. rewrite rd_app_r by (by rewrite length_le_bytes). rewrite length_le_bytes.
  rewrite rd_app_here; [done|]. apply (ok_type _ Hm).
Qed.

(** A load of [n] bytes at offset [o] of the message's payload. *)
Lemma nlmsg_data_at n o pre m post s :
  (o + n ≤ length (header m))%nat →
  ld n (pre ++ nlmsg_bytes m ++ post) (NLMSG_DATA (Z.of_nat (length pre)) + Z.of_nat o) s =
  Ret (rd o n (header m)) s.
Proof.
  intros Ho. unfold NLMSG_DATA, NLMSG_HDRLEN.
  replace (Z.of_nat (length pre) + 16 + Z.of_nat o) with
    (Z.of_nat (length pre) + Z.of_nat (16 + o)) by lia.
  rewrite ld_app by (rewrite length_nlmsg_bytes; unfold nlmsg_body; rewrite length_app; lia).
  unfold nlmsg_bytes. rewrite !rd_app_r by (rewrite !length_le_bytes; lia).
  rewrite !length_le_bytes. unfold rd. rewrite sub_app_l by lia. repeat f_equal. lia.
Qed.

(** The attributes of a message whose header is [hdr] bytes long. *)
Lemma nlmsg_payload_at hdr pre m post s : nlmsg_ok m → length (header m) = Z.to_nat hdr →
  0 ≤ hdr → NLMSG_PAYLOAD (pre ++ nlmsg_bytes m ++ post) (Z.of_nat (length pre)) hdr s =
  Ret (Z.of_nat (length (attrs_bytes (attrs m)))) s.
Proof.
  intros Hm Hh H0. unfold NLMSG_PAYLOAD. pose proof (ok_len _ Hm) as Hl.
  rewrite (bind_run _ _ s (Z.of_nat (length (nlmsg_bytes m))) s) by by apply nlmsg_len_at.
  destruct (ok_header _ Hm) as [k Hk]. rewrite length_nlmsg_bytes in *. unfold nlmsg_body in *.
  rewrite length_app in *. unfold NLMSG_HDRLEN, mret, M_ret. rewrite NLMSG_ALIGN_eq by lia.
  f_equal. rewrite i32_small; Z.div_mod_to_equations; lia.
Qed.

Lemma nlmsg_attrs_eq pre m post : nlmsg_ok m →
  pre ++ nlmsg_bytes m ++ post =
  (pre ++ take (16 + length (header m)) (nlmsg_bytes m)) ++ attrs_bytes (attrs m) ++ post.
Proof.
  intros _. rewrite <- (assoc_L (++) pre). f_equal. rewrite (assoc_L (++)). f_equal.
  unfold nlmsg_bytes. cbv zeta. rewrite !(assoc_L (++)).
  rewrite take_app_length'; [done|]. rewrite !length_app, !length_le_bytes. lia.
Qed.

Lemma length_nlmsg_hdr pre m : 
  Z.of_nat (length (pre ++ take (16 + length (header m)) (nlmsg_bytes m))) =
  NLMSG_DATA (Z.of_nat (length pre)) + Z.of_nat (length (header m)).
Proof.
  rewrite length_app, length_take, length_nlmsg_bytes. unfold nlmsg_body, NLMSG_DATA, NLMSG_HDRLEN.
  rewrite length_app. lia.
Qed.

Lemma nlmsg_loop_walk (P : nlmsg → Prop) buf (body : Z → T → M W (ctl T)) f :
  (∀ m, P m → nlmsg_ok m) →
  (∀ pre m post st s, buf = pre ++ nlmsg_bytes m ++ post → P m →
    body (Z.of_nat (length pre)) st s = f m st s) →
  ∀ ms pre post fuel st s, buf = pre ++ datagram ms ++ post → Forall P ms →
    Z.of_nat (length (datagram ms)) ≤ 8192 → (length ms < fuel)%nat →
    nlmsg_loop fuel buf body (Z.of_nat (length pre)) (Z.of_nat (length (datagram ms))) st s =
    walk f ms st s.
Proof.
  intros HP Hbody. induction ms as [|m ms IH]; intros pre post [|fuel] st s Hbuf Hms Hd Hf;
    [simpl in Hf; lia|done|simpl in Hf; lia|].
  apply Forall_cons in Hms as [Hm Hms]. pose proof (HP _ Hm) as Hok.
  assert (Hbuf' : buf = pre ++ nlmsg_bytes m ++ (datagram ms ++ post)).
  { rewrite Hbuf. unfold datagram. cbn [fmap list_fmap concat]. by rewrite <- (assoc_L (++)). }
  assert (Hlen : length (datagram (m :: ms)) =
    (length (nlmsg_bytes m) + length (datagram ms))%nat).
  { unfold datagram. cbn [fmap list_fmap concat]. by rewrite length_app. }
  assert (Hal : NLMSG_ALIGN (Z.of_nat (length (nlmsg_bytes m))) = Z.of_nat (length (nlmsg_bytes m))).
  { pose proof (ok_len _ Hok). destruct (ok_header _ Hok) as [k Hk].
    destruct (length_attrs_bytes _ (ok_attrs _ Hok)) as [k' Hk'].
    rewrite NLMSG_ALIGN_eq by lia. rewrite length_nlmsg_bytes. unfold nlmsg_body.
    rewrite length_app. Z.div_mod_to_equations. lia. }
  assert (16 ≤ Z.of_nat (length (nlmsg_bytes m))) by (rewrite length_nlmsg_bytes; lia).
  cbn [nlmsg_loop walk]. unfold NLMSG_OK. rewrite Hlen in *. rewrite u64_small by lia.
  destruct (Z.leb_spec sizeof_nlmsghdr (Z.of_nat (length (nlmsg_bytes m) + length (datagram ms))))
    as [_|?]; [|unfold sizeof_nlmsghdr in *; lia].
  rewrite (bind_run _ _ s true s).
  2:{ rewrite (bind_run _ _ s (Z.of_nat (length (nlmsg_bytes m))) s)
        by (rewrite Hbuf'; by apply nlmsg_len_at). unfold mret, M_ret.
      f_equal. apply andb_true_intro. split; apply Z.leb_le; unfold sizeof_nlmsghdr; lia. }
  cbv iota. unfold mbind at 1 3, M_bind at 1 3. rewrite (Hbody pre m _ st s Hbuf' Hm).
  destruct (f m st s) as [[st'|st'] s'|s'|s']; try done.
  rewrite (bind_run _ _ s' (Z.of_nat (length (nlmsg_bytes m))) s')
    by (rewrite Hbuf'; by apply nlmsg_len_at).
  rewrite Hal, Nat2Z.inj_add, Z.add_simpl_l, <- Nat2Z.inj_add, <- length_app.
  apply (IH _ post); [|done|lia|simpl in Hf; lia].
  by rewrite Hbuf', <- (assoc_L (++)).
Qed.

(** ** The loops end

    Every attribute advances the attribute loop by four bytes, so it never
    runs out of fuel.  Every message advances the message loop by its aligned
    length, at least 16 bytes, unless that wraps: the length of a message is
    compared with a [size_t], so when the aligned length exceeds what was left
    the loop goes on over the bytes behind the datagram. *)
Definition noblock {X} (m : M W X) : Prop := ∀ s, match m s with Block _ => False | _ => True end.

Lemma noblock_bind {X Y} (m : M W X) (k : X → M W Y) :
  noblock m → (∀ x, noblock (k x)) → noblock (x ← m; k x).
Proof.
  intros Hm Hk s. unfold mbind, M_bind. specialize (Hm s). destruct (m s); [apply Hk|done|done].
Qed.
Lemma noblock_ret {X} (x : X) : noblock (mret x).
Proof. done. Qed.
Lemma noblock_ld n buf off : noblock (ld n buf off).
Proof. intros s. unfold ld. by destruct (_ && _). Qed.

Lemma rta_loop_noblock buf (body : Z → T → M W (ctl T)) :
  (∀ rta st, noblock (body rta st)) → bytes_ok buf →
  ∀ fuel rta len st, (0 < fuel)%nat → len + 4 < 4 * Z.of_nat fuel → noblock (rta_loop fuel buf body rta len st).
Proof.
  intros Hbody Hb. induction fuel as [|fuel IH]; intros rta len st H0 Hf s; [lia|].
  cbn [rta_loop]. unfold RTA_OK. destruct (Z.leb_spec sizeof_rtattr len) as [Hl|Hl]; [|done].
  unfold sizeof_rtattr in *. unfold mbind, M_bind, rta_len, ld.
  destruct ((0 <=? rta) && (rta + Z.of_nat 2 <=? Z.of_nat (length buf))) eqn:E; [|done].
  unfold mret, M_ret. cbv beta iota.
  destruct ((4 <=? rd (Z.to_nat rta) 2 buf) && (rd (Z.to_nat rta) 2 buf <=? len)) eqn:E2; [|done]. specialize (Hbody rta st s).
  destruct (body rta st s) as [[st'|st'] s'|s'|s']; try done.
  apply andb_true_iff in E2 as [H1%Z.leb_le H2%Z.leb_le].
  pose proof (rd_range (Z.to_nat rta) 2 buf Hb) as Hr. change (256 ^ Z.of_nat 2) with 65536 in Hr.
  destruct (NLMSG_ALIGN_bounds (rd (Z.to_nat rta) 2 buf)); [lia|]. apply IH; lia.
Qed.

(** No four bytes of the buffer are a length whose alignment wraps. *)
Definition no_wrap (buf : list Z) : Prop :=
  ∀ off, (off + 4 ≤ length buf)%nat → rd off 4 buf < 4294967293.

Lemma nlmsg_loop_noblock buf (body : Z → T → M W (ctl T)) :
  (∀ nlh st, noblock (body nlh st)) → bytes_ok buf → no_wrap buf →
  ∀ fuel nlh len st, (0 < fuel)%nat → 0 ≤ nlh →
    Z.of_nat (length buf) - nlh + 16 < 16 * Z.of_nat fuel →
    noblock (nlmsg_loop fuel buf body nlh len st).
Proof.
  intros Hbody Hb Hw. induction fuel as [|fuel IH]; intros nlh len st H0 Hn Hf s; [lia|].
  cbn [nlmsg_loop]. unfold NLMSG_OK. destruct (sizeof_nlmsghdr <=? u64 len) eqn:E0; [|done].
  unfold mbind, M_bind, nlmsg_len, ld.
  destruct ((0 <=? nlh) && (nlh + Z.of_nat 4 <=? Z.of_nat (length buf))) eqn:E; [|done].
  unfold mret, M_ret. cbv beta iota.
  destruct ((sizeof_nlmsghdr <=? rd (Z.to_nat nlh) 4 buf) && (rd (Z.to_nat nlh) 4 buf <=? u64 len))
    eqn:E2; [|done]. specialize (Hbody nlh st s).
  destruct (body nlh st s) as [[st'|st'] s'|s'|s']; try done.
  apply andb_true_iff in E as [_ Hle%Z.leb_le].
  apply andb_true_iff in E2 as [H1%Z.leb_le _]. unfold sizeof_nlmsghdr in H1.
  specialize (Hw (Z.to_nat nlh)). pose proof (rd_range (Z.to_nat nlh) 4 buf Hb) as Hr.
  destruct (NLMSG_ALIGN_bounds (rd (Z.to_nat nlh) 4 buf)); [lia|]. apply IH; lia.
Qed.
End visits.
#[export] Hint Resolve noblock_ret noblock_ld : vpn.
