(* ===== verification/NetIface.v ===== *)
(** * net_iface.c: the interface, address and route queries over netlink

    The kernel is a parameter: [env h r] is its answer to the system call [r]
    after the calls and answers [h]; a negative [ret] is a failure, [err] its
    errno.  The trace of the calls is the state, with errno.  A receive buffer
    is an uninitialised array of 8192 bytes, [uninit h], overwritten from its
    start by each recv.  [Block] is a receive loop that is still running after
    the number of recv calls given by [polls]. *)
From stdpp Require Import prelude strings.
From Stdlib Require Import ZArith Lia.
From S2P Require Import Prelude Utils PktCtrl NetLink.

Definition NETLINK_BUF_SIZE : Z := 8192.
Definition AF_UNSPEC : Z := 0.
Definition AF_NETLINK : Z := 16.
Definition SOCK_RAW : Z := 3.
Definition SOCK_DGRAM : Z := 2.
Definition NETLINK_ROUTE : Z := 0.

Definition RTM_NEWLINK : Z := 16.
Definition RTM_DELLINK : Z := 17.
Definition RTM_GETLINK : Z := 18.
Definition RTM_NEWADDR : Z := 20.
Definition RTM_GETADDR : Z := 22.
Definition RTM_NEWROUTE : Z := 24.
Definition RTM_DELROUTE : Z := 25.
Definition RTM_GETROUTE : Z := 26.
Definition NLM_F_REQUEST : Z := 1.
Definition NLM_F_DUMP : Z := 0x300.
Definition RTMGRP_GROUPS : Z := Z.lor 1 (Z.lor 0x10 0x40).   (* LINK, IPV4_IFADDR, IPV4_ROUTE *)

Definition RT_TABLE_MAIN : Z := 254.
Definition RTN_UNICAST : Z := 1.
Definition RT_SCOPE_HOST : Z := 254.
Definition RT_SCOPE_LINK : Z := 253.
Definition RTA_OIF : Z := 4.
Definition RTA_GATEWAY : Z := 5.
Definition RTA_PRIORITY : Z := 6.
Definition IFA_ADDRESS : Z := 1.
Definition IFA_LOCAL : Z := 2.
Definition IFA_BROADCAST : Z := 4.
Definition IFLA_ADDRESS : Z := 1.
Definition IFLA_MTU : Z := 4.
Definition IFF_UP : Z := 1.
Definition IFF_LOOPBACK : Z := 8.
Definition IFF_POINTOPOINT : Z := 0x10.
Definition IFF_RUNNING : Z := 0x40.
Definition IFF_NOARP : Z := 0x80.

Definition sizeof_rtmsg : Z := 12.
Definition sizeof_ifaddrmsg : Z := 8.
Definition sizeof_ifinfomsg : Z := 16.

Record netlink_route_info_t := RouteInfo {
  ri_ifindex : Z; ri_ifname : string; ri_gateway : Z; ri_metric : Z
}.
Record netlink_addr_info_t := AddrInfo {
  ai_ip : Z; ai_ip_str : string; ai_mask : Z; ai_bcast : Z; ai_prefixlen : Z
}.
Record netlink_link_info_t := LinkInfo { li_mtu : Z; li_mac : list Z }.

Inductive sysreq :=
| SysSocket (domain type protocol : Z)
| SysSend (fd : Z) (bytes : list Z)
| SysRecv (fd size : Z)
| SysClose (fd : Z)
| SysBind (fd groups : Z)
| SysGetIfFlags (fd : Z) (name : string)        (* SIOCGIFFLAGS *)
| SysIfIndexToName (ifindex : Z)
| SysGetpid.
#[global] Instance sysreq_eq_dec : EqDecision sysreq.
Proof. solve_decision. Defined.

Record answer := Answer { ret : Z; err : Z; data : list Z; name : string; flags : Z }.
Abbreviation history := (list (sysreq * answer)).
Record os_state := Os { errno : Z; trace : history }.

Section net_iface.
Context (env : history → sysreq → answer) (uninit : history → list Z).

Abbreviation M := (M os_state).

Definition sys (r : sysreq) : M answer := λ s,
  let a := env (trace s) r in
  Ret a (Os (if ret a <? 0 then err a else errno s) (trace s ++ [(r, a)])).

(** recv into [buffer]: the length and the buffer after it. *)
Definition recv (fd : Z) (buffer : list Z) : M (Z * list Z) :=
  a ← sys (SysRecv fd NETLINK_BUF_SIZE);
  if ret a <? 0 then mret (ret a, buffer)
  else
    let bytes := take (Z.to_nat NETLINK_BUF_SIZE) (data a) in
    mret (Z.of_nat (length bytes), wr 0 bytes buffer).

Definition new_buffer : M (list Z) := gets (λ s, uninit (trace s)).

(** The bytes of a request: [nlmsghdr] and the family header. *)
Definition request (type fl pid : Z) (hdr : list Z) : list Z :=
  le_bytes 4 (16 + Z.of_nat (length hdr)) ++ le_bytes 2 type ++ le_bytes 2 fl ++ le_bytes 4 1 ++
  le_bytes 4 pid ++ hdr.
Definition link_request (ifindex : Z) : list Z :=
  request RTM_GETLINK NLM_F_REQUEST 0
    (le_bytes 1 AF_UNSPEC ++ replicate 3 0 ++ le_bytes 4 (u32 ifindex) ++ replicate 8 0).
Definition route_request (pid af : Z) : list Z :=
  request RTM_GETROUTE (Z.lor NLM_F_REQUEST NLM_F_DUMP) pid
    (le_bytes 1 af ++ replicate 3 0 ++ le_bytes 1 RT_TABLE_MAIN ++ replicate 7 0).
Definition addr_request (pid af ifindex : Z) : list Z :=
  request RTM_GETADDR (Z.lor NLM_F_REQUEST NLM_F_DUMP) pid
    (le_bytes 1 (u8 af) ++ replicate 3 0 ++ le_bytes 4 (u32 ifindex)).

(** ** is_link_online *)

Definition is_link_online (ifname : option string) : M bool :=
  match ifname with
  | None | Some EmptyString => mret false
  | Some ifname =>
      sock ← sys (SysSocket AF_INET SOCK_DGRAM 0);
      if ret sock <? 0 then mret false
      else
        r ← sys (SysGetIfFlags (ret sock) (snprintf 16 ifname ""));
        if ret r <? 0 then
          sys (SysClose (ret sock));;
          mret false
        else
          sys (SysClose (ret sock));;
          let up := Z.lor IFF_UP IFF_RUNNING in
          mret (Z.land (flags r) up =? up)
  end.

(** ** netlink_is_loopback, netlink_is_pointtopoint *)

(** The common part of both: the flags of the link, if the kernel tells. *)
Definition link_flags (ifindex : Z) : M (option Z) :=
  nl_fd ← sys (SysSocket AF_NETLINK SOCK_RAW NETLINK_ROUTE);
  if ret nl_fd <? 0 then mret None
  else
    r ← sys (SysSend (ret nl_fd) (link_request ifindex));
    if ret r <? 0 then
      sys (SysClose (ret nl_fd));;
      mret None
    else
      buf ← new_buffer;
      '(len, buf) ← recv (ret nl_fd) buf;
      sys (SysClose (ret nl_fd));;
      if len <? 0 then mret None
      else
        ok ← NLMSG_OK buf 0 len;
        if ok : bool then
          t ← nlmsg_type buf 0;
          if t =? RTM_NEWLINK then
            f ← ld 4 buf (NLMSG_DATA 0 + 8);
            mret (Some f)
          else mret None
        else mret None.

Definition netlink_is_loopback (ifindex : Z) : M bool :=
  if ifindex <=? 0 then mret true
  else
    f ← link_flags ifindex;
    mret (match f with Some f => negb (Z.land f IFF_LOOPBACK =? 0) | None => false end).

Definition netlink_is_pointtopoint (ifindex : Z) : M bool :=
  if ifindex <=? 0 then mret true
  else
    f ← link_flags ifindex;
    mret (match f with
          | Some f => negb (Z.land f (Z.lor IFF_POINTOPOINT IFF_NOARP) =? 0)
          | None => false
          end).

(** Fuel of the loops: 514 messages of at least 16 bytes pass the end of the
    buffer, and an attribute takes at least four bytes. *)
Definition NLFUEL : nat := 514.
Definition rta_fuel (len : Z) : nat := S (S (Z.to_nat (len / 4))).

(** ** get_netlink_route_info *)

Record route_acc := RouteAcc {
  ra_ifname : string; ra_ifindex : Z; ra_metric : Z;
  ra_has_gateway : bool; ra_skip_interface : bool; ra_gateway : Z
}.
Definition route_acc0 : route_acc := RouteAcc "" 0 0 false false 0.

(** The switch over the attributes of a route. *)
Definition route_attr (buffer : list Z) (rta : Z) (a : route_acc) : M (ctl route_acc) :=
  t ← rta_type_at buffer rta;
  if t =? RTA_OIF then
    v ← ld 4 buffer (RTA_DATA rta);
    let ifindex := i32 v in
    lo ← netlink_is_loopback ifindex;
    skip ← (if lo : bool then mret true else netlink_is_pointtopoint ifindex);
    if skip : bool then
      mret (Stop (RouteAcc (ra_ifname a) ifindex (ra_metric a) (ra_has_gateway a) true (ra_gateway a)))
    else
      n ← sys (SysIfIndexToName (u32 ifindex));
      let ifname := if ret n <? 0 then "" else name n in
      mret (Next (RouteAcc ifname ifindex (ra_metric a) (ra_has_gateway a) false (ra_gateway a)))
  else if t =? RTA_GATEWAY then
    v ← ld 4 buffer (RTA_DATA rta);
    mret (Next (RouteAcc (ra_ifname a) (ra_ifindex a) (ra_metric a) true (ra_skip_interface a) v))
  else if t =? RTA_PRIORITY then
    v ← ld 4 buffer (RTA_DATA rta);
    mret (Next (RouteAcc (ra_ifname a) (ra_ifindex a) v (ra_has_gateway a) (ra_skip_interface a)
                  (ra_gateway a)))
  else mret (Next a).

Record route_state := RouteState {
  rs_done : bool; rs_found : bool; rs_best_metric : Z; rs_info : netlink_route_info_t
}.
Definition route_done (st : route_state) : route_state :=
  RouteState true (rs_found st) (rs_best_metric st) (rs_info st).

(** What follows the attribute loop. *)
Definition route_select (acc : route_acc) (st : route_state) : M (ctl route_state) :=
  if ra_skip_interface acc then mret (Next st)
  else if (0 <? ra_ifindex acc) && ra_has_gateway acc && (ra_metric acc <=? rs_best_metric st) then
    online ← is_link_online (Some (ra_ifname acc));
    if negb online then mret (Next st)
    else
      mret (Next (RouteState (rs_done st) true (ra_metric acc)
             (RouteInfo (ra_ifindex acc) (String.substring 0 15 (ra_ifname acc))
                (ra_gateway acc) (ra_metric acc))))
  else mret (Next st).

(** The rest of the loop's body for a message of type RTM_NEWROUTE. *)
Definition route_newroute (af : Z) (buffer : list Z) (nlh : Z) (st : route_state)
    : M (ctl route_state) :=
  let rt := NLMSG_DATA nlh in
  family ← ld 1 buffer rt;
  if negb (family =? af) then mret (Next st)
  else
    table ← ld 1 buffer (rt + 4);
    if negb (table =? RT_TABLE_MAIN) then mret (Next st)
    else
      dst_len ← ld 1 buffer (rt + 1);
      if negb (dst_len =? 0) then mret (Next st)
      else
        type ← ld 1 buffer (rt + 7);
        scope ← ld 1 buffer (rt + 6);
        if negb (type =? RTN_UNICAST) || (scope =? RT_SCOPE_HOST) || (scope =? RT_SCOPE_LINK) then
          mret (Next st)
        else
          len ← NLMSG_PAYLOAD buffer nlh sizeof_rtmsg;
          acc ← rta_loop (rta_fuel len) buffer (route_attr buffer) (rt + sizeof_rtmsg) len route_acc0;
          route_select acc st.

Definition route_msg (af : Z) (buffer : list Z) (nlh : Z) (st : route_state) : M (ctl route_state) :=
  t ← nlmsg_type buffer nlh;
  if t =? NLMSG_DONE then mret (Stop (route_done st))
  else if t =? NLMSG_ERROR then mret (Stop (route_done st))
  else if negb (t =? RTM_NEWROUTE) then mret (Next st)
  else route_newroute af buffer nlh st.

(** [while (!done)]; [inl]: recv failed, with its errno. *)
Fixpoint route_recv (polls : nat) (af nl_fd : Z) (buffer : list Z) (st : route_state)
    : M ((Z * route_state) + route_state) :=
  match polls with
  | O => block
  | S polls =>
      if rs_done st then mret (inr st)
      else
        '(len, buffer) ← recv nl_fd buffer;
        if len <? 0 then
          e ← gets errno;
          sys (SysClose nl_fd);;
          mret (inl (e, st))
        else
          st ← nlmsg_loop NLFUEL buffer (route_msg af buffer) 0 len st;
          route_recv polls af nl_fd buffer st
  end.

Definition get_netlink_route_info (polls : nat) (af : Z) (route_info : option netlink_route_info_t)
    : M (Z * option netlink_route_info_t) :=
  match route_info with
  | None => mret (EINVAL, None)
  | Some info =>
      if negb (af =? AF_INET) then mret (EAFNOSUPPORT, Some info)
      else
        nl_fd ← sys (SysSocket AF_NETLINK SOCK_RAW NETLINK_ROUTE);
        if ret nl_fd <? 0 then
          e ← gets errno;
          mret (e, Some info)
        else
          pid ← sys SysGetpid;
          r ← sys (SysSend (ret nl_fd) (route_request (ret pid) af));
          if ret r <? 0 then
            e ← gets errno;
            sys (SysClose (ret nl_fd));;
            mret (e, Some info)
          else
            buffer ← new_buffer;
            x ← route_recv polls af (ret nl_fd) buffer (RouteState false false UINT32_MAX info);
            match x with
            | inl (e, st) => mret (e, Some (rs_info st))
            | inr st =>
                sys (SysClose (ret nl_fd));;
                mret (if rs_found st then 0 else ENODEV, Some (rs_info st))
            end
  end.

(** ** get_netlink_addr_info *)

Record addr_acc := AddrAcc { local_ip : Z; bcast_ip : Z }.

Definition addr_attr (buffer : list Z) (rta : Z) (a : addr_acc) : M (ctl addr_acc) :=
  t ← rta_type_at buffer rta;
  if t =? IFA_LOCAL then
    v ← ld 4 buffer (RTA_DATA rta);
    mret (Next (AddrAcc v (bcast_ip a)))
  else if t =? IFA_ADDRESS then
    if local_ip a =? 0 then
      v ← ld 4 buffer (RTA_DATA rta);
      mret (Next (AddrAcc v (bcast_ip a)))
    else mret (Next a)
  else if t =? IFA_BROADCAST then
    v ← ld 4 buffer (RTA_DATA rta);
    mret (Next (AddrAcc (local_ip a) v))
  else mret (Next a).

Record addr_state := AddrState { as_done : bool; as_found : bool; as_info : netlink_addr_info_t }.

(** The fields filled in from an address with its prefix length. *)
Definition fill_addr (acc : addr_acc) (prefixlen : Z) (info : netlink_addr_info_t)
    : netlink_addr_info_t :=
  let ip := local_ip acc in
  let ip_str := default (ai_ip_str info) (inet_ntop ip INET_ADDRSTRLEN) in
  let mask :=
    if (0 <? prefixlen) && (prefixlen <=? 32) then
      htonl (Z.land (u32 (Z.shiftl 0xFFFFFFFF (32 - prefixlen))) 0xFFFFFFFF)
    else if prefixlen =? 0 then 0 else ai_mask info in
  let bcast :=
    if negb (bcast_ip acc =? 0) then bcast_ip acc
    else if negb (mask =? 0) then Z.lor ip (not32 mask) else ai_bcast info in
  AddrInfo ip ip_str mask bcast prefixlen.

Definition addr_newaddr (af ifindex : Z) (buffer : list Z) (nlh : Z) (st : addr_state)
    : M (ctl addr_state) :=
  let ifa := NLMSG_DATA nlh in
  index ← ld 4 buffer (ifa + 4);
  family ← ld 1 buffer ifa;
  scope ← ld 1 buffer (ifa + 3);
  if negb (index =? u32 ifindex) || negb (family =? af) || (scope =? RT_SCOPE_HOST) then
    mret (Next st)
  else
    len ← NLMSG_PAYLOAD buffer nlh sizeof_ifaddrmsg;
    acc ← rta_loop (rta_fuel len) buffer (addr_attr buffer) (ifa + sizeof_ifaddrmsg) len (AddrAcc 0 0);
    if negb (local_ip acc =? 0) then
      prefixlen ← ld 1 buffer (ifa + 1);
      mret (Stop (AddrState true true (fill_addr acc prefixlen (as_info st))))
    else mret (Next st).

Definition addr_msg (af ifindex : Z) (buffer : list Z) (nlh : Z) (st : addr_state)
    : M (ctl addr_state) :=
  t ← nlmsg_type buffer nlh;
  if (t =? NLMSG_DONE) || (t =? NLMSG_ERROR) then
    mret (Stop (AddrState true (as_found st) (as_info st)))
  else if negb (t =? RTM_NEWADDR) then mret (Next st)
  else addr_newaddr af ifindex buffer nlh st.

Fixpoint addr_recv (polls : nat) (af ifindex nl_fd : Z) (buffer : list Z) (st : addr_state)
    : M ((Z * addr_state) + addr_state) :=
  match polls with
  | O => block
  | S polls =>
      if as_done st then mret (inr st)
      else
        '(len, buffer) ← recv nl_fd buffer;
        if len <? 0 then
          e ← gets errno;
          sys (SysClose nl_fd);;
          mret (inl (e, st))
        else
          st ← nlmsg_loop NLFUEL buffer (addr_msg af ifindex buffer) 0 len st;
          addr_recv polls af ifindex nl_fd buffer st
  end.

Definition addr_info0 : netlink_addr_info_t := AddrInfo 0 "" 0 0 0.

Definition get_netlink_addr_info (polls : nat) (af ifindex : Z)
    (addr_info : option netlink_addr_info_t) : M (Z * option netlink_addr_info_t) :=
  match addr_info with
  | None => mret (EINVAL, None)
  | Some old =>
      if ifindex <=? 0 then mret (EINVAL, Some old)
      else if negb (af =? AF_INET) then mret (EAFNOSUPPORT, Some old)
      else
        nl_fd ← sys (SysSocket AF_NETLINK SOCK_RAW NETLINK_ROUTE);
        if ret nl_fd <? 0 then
          e ← gets errno;
          mret (e, Some addr_info0)
        else
          pid ← sys SysGetpid;
          r ← sys (SysSend (ret nl_fd) (addr_request (ret pid) af ifindex));
          if ret r <? 0 then
            e ← gets errno;
            sys (SysClose (ret nl_fd));;
            mret (e, Some addr_info0)
          else
            buffer ← new_buffer;
            x ← addr_recv polls af ifindex (ret nl_fd) buffer (AddrState false false addr_info0);
            match x with
            | inl (e, st) => mret (e, Some (as_info st))
            | inr st =>
                sys (SysClose (ret nl_fd));;
                mret (if as_found st then 0 else ENODEV, Some (as_info st))
            end
  end.

(** ** get_netlink_link_info *)

Definition ldb (n : nat) (buf : list Z) (off : Z) : M (list Z) :=
  if (0 <=? off) && (off + Z.of_nat n <=? Z.of_nat (length buf)) then
    mret (sub (Z.to_nat off) n buf)
  else fatal.

Definition link_attr (buffer : list Z) (rta : Z) (i : netlink_link_info_t)
    : M (ctl netlink_link_info_t) :=
  t ← rta_type_at buffer rta;
  if t =? IFLA_MTU then
    v ← ld 4 buffer (RTA_DATA rta);
    mret (Next (LinkInfo v (li_mac i)))
  else if t =? IFLA_ADDRESS then
    l ← rta_len buffer rta;
    if 6 <=? u64 (l - sizeof_rtattr) then
      mac ← ldb 6 buffer (RTA_DATA rta);
      mret (Next (LinkInfo (li_mtu i) mac))
    else mret (Next i)
  else mret (Next i).

Definition link_info0 : netlink_link_info_t := LinkInfo 0 (replicate 6 0).

Definition get_netlink_link_info (ifindex : Z) (link_info : option netlink_link_info_t)
    : M (Z * option netlink_link_info_t) :=
  match link_info with
  | None => mret (EINVAL, None)
  | Some old =>
      if ifindex <=? 0 then mret (EINVAL, Some old)
      else
        nl_fd ← sys (SysSocket AF_NETLINK SOCK_RAW NETLINK_ROUTE);
        if ret nl_fd <? 0 then
          e ← gets errno;
          mret (e, Some link_info0)
        else
          r ← sys (SysSend (ret nl_fd) (link_request ifindex));
          if ret r <? 0 then
            e ← gets errno;
            sys (SysClose (ret nl_fd));;
            mret (e, Some link_info0)
          else
            buffer ← new_buffer;
            '(len, buffer) ← recv (ret nl_fd) buffer;
            sys (SysClose (ret nl_fd));;
            if len <? 0 then
              e ← gets errno;                       (* errno after close *)
              mret (e, Some link_info0)
            else
              ok ← NLMSG_OK buffer 0 len;
              if negb ok then mret (ENODEV, Some link_info0)
              else
                t ← nlmsg_type buffer 0;
                if (t =? NLMSG_ERROR) || negb (t =? RTM_NEWLINK) then mret (ENODEV, Some link_info0)
                else
                  plen ← NLMSG_PAYLOAD buffer 0 sizeof_ifinfomsg;
                  i ← rta_loop (rta_fuel plen) buffer (link_attr buffer)
                        (NLMSG_DATA 0 + sizeof_ifinfomsg) plen link_info0;
                  mret (0, Some i)
  end.

(** ** Events: open_netlink_event_listener, process_netlink_event *)

Definition open_netlink_event_listener : M Z :=
  nl_fd ← sys (SysSocket AF_NETLINK SOCK_RAW NETLINK_ROUTE);
  if ret nl_fd <? 0 then mret (-1)
  else
    r ← sys (SysBind (ret nl_fd) RTMGRP_GROUPS);
    if ret r <? 0 then
      sys (SysClose (ret nl_fd));;
      mret (-1)
    else mret (ret nl_fd).

Definition event_msg (current_wan_ifindex : Z) (buffer : list Z) (nlh : Z) (wan_changed : bool)
    : M (ctl bool) :=
  t ← nlmsg_type buffer nlh;
  if (t =? RTM_NEWROUTE) || (t =? RTM_DELROUTE) then
    let rt := NLMSG_DATA nlh in
    family ← ld 1 buffer rt;
    if negb (family =? AF_INET) then mret (Next wan_changed)
    else
      table ← ld 1 buffer (rt + 4);
      if negb (table =? RT_TABLE_MAIN) then mret (Next wan_changed)
      else
        dst_len ← ld 1 buffer (rt + 1);
        mret (Next (wan_changed || (dst_len =? 0)))
  else if (t =? RTM_NEWLINK) || (t =? RTM_DELLINK) then
    let ifi := NLMSG_DATA nlh in
    index ← ld 4 buffer (ifi + 4);
    if i32 index =? current_wan_ifindex then
      fl ← ld 4 buffer (ifi + 8);
      mret (Next (wan_changed || (Z.land fl IFF_UP =? 0) || (Z.land fl IFF_RUNNING =? 0)))
    else mret (Next wan_changed)
  else mret (Next wan_changed).

Definition process_netlink_event (nl_fd current_wan_ifindex : Z) : M bool :=
  buffer ← new_buffer;
  '(len, buffer) ← recv nl_fd buffer;
  if len <? 0 then mret false
  else nlmsg_loop NLFUEL buffer (event_msg current_wan_ifindex buffer) 0 len false.

(** One turn of the loop of monitor_wan_changes: the route it tracks. *)
Definition route_info0 : netlink_route_info_t := RouteInfo 0 "" 0 0.

Definition monitor_turn (polls : nat) (nl_fd : Z) (current_route : netlink_route_info_t)
    : M netlink_route_info_t :=
  changed ← process_netlink_event nl_fd (ri_ifindex current_route);
  if changed : bool then
    '(rc, new_route) ← get_netlink_route_info polls AF_INET (Some route_info0);
    let new_route := default route_info0 new_route in
    if rc =? 0 then
      if negb (ri_ifindex new_route =? ri_ifindex current_route) ||
         negb (ri_gateway new_route =? ri_gateway current_route) then
        get_netlink_addr_info polls AF_INET (ri_ifindex new_route) (Some addr_info0);;
        get_netlink_link_info (ri_ifindex new_route) (Some link_info0);;
        mret new_route
      else mret current_route
    else if negb (ri_ifindex current_route =? 0) then mret route_info0
    else mret current_route
  else mret current_route.
End net_iface.

(** ** The loops end *)
Create HintDb noblock.

Section termination.
Context (env : history → sysreq → answer) (uninit : history → list Z).
Abbreviation M := (M os_state).

Lemma noblock_sys r : noblock (sys env r).
Proof. done. Qed.
Lemma noblock_recv fd buf : noblock (recv env fd buf).
Proof. intros s. unfold recv, mbind, M_bind, sys. by destruct (ret _ <? 0). Qed.
Lemma noblock_gets {A} (f : os_state → A) : noblock (gets f).
Proof. done. Qed.
Lemma noblock_if {A} (b : bool) (m1 m2 : M A) : noblock m1 → noblock m2 → noblock (if b then m1 else m2).
Proof. by destruct b. Qed.

Lemma noblock_ldb n buf off : noblock (ldb n buf off).
Proof. intros s. unfold ldb. by destruct (_ && _). Qed.
Hint Resolve noblock_ldb : noblock.

Lemma noblock_nlmsg_len buf nlh : noblock (W := os_state) (nlmsg_len buf nlh).
Proof. apply noblock_ld. Qed.
Lemma noblock_nlmsg_type buf nlh : noblock (W := os_state) (nlmsg_type buf nlh).
Proof. apply noblock_ld. Qed.
Lemma noblock_rta_type buf rta : noblock (W := os_state) (rta_type_at buf rta).
Proof. apply noblock_ld. Qed.
Lemma noblock_rta_len buf rta : noblock (W := os_state) (rta_len buf rta).
Proof. apply noblock_ld. Qed.
(** One statement after the other. *)
Ltac noblock :=
  repeat first
    [ simple apply noblock_ret | simple apply noblock_ld | simple apply noblock_sys
    | simple apply noblock_recv | simple apply noblock_gets | simple apply noblock_nlmsg_len
    | simple apply noblock_nlmsg_type | simple apply noblock_rta_type
    | simple apply noblock_rta_len | simple apply noblock_if | progress (eauto 2 with noblock)
    | (simple apply noblock_bind; [|intros ?])
    | match goal with |- noblock (let '(_, _) := ?x in _) => destruct x end
    | match goal with |- noblock (match ?x with _ => _ end) => destruct x end ].

Lemma noblock_NLMSG_OK buf nlh len : noblock (W := os_state) (NLMSG_OK buf nlh len).
Proof. unfold NLMSG_OK. noblock. Qed.
Hint Resolve noblock_NLMSG_OK : noblock.
Lemma noblock_payload buf nlh hdr : noblock (W := os_state) (NLMSG_PAYLOAD buf nlh hdr).
Proof. unfold NLMSG_PAYLOAD. noblock. Qed.
Hint Resolve noblock_payload : noblock.

Lemma noblock_link_flags i : noblock (link_flags env uninit i).
Proof. unfold link_flags, new_buffer. noblock. Qed.
Hint Resolve noblock_link_flags : noblock.
Lemma noblock_loopback i : noblock (netlink_is_loopback env uninit i).
Proof. unfold netlink_is_loopback. noblock. Qed.
Hint Resolve noblock_loopback : noblock.
Lemma noblock_pointtopoint i : noblock (netlink_is_pointtopoint env uninit i).
Proof. unfold netlink_is_pointtopoint. noblock. Qed.
Hint Resolve noblock_pointtopoint : noblock.
Lemma noblock_online n : noblock (is_link_online env n).
Proof. unfold is_link_online. noblock. Qed.
Hint Resolve noblock_online : noblock.

Lemma rta_fuel_enough len : len + 4 < 4 * Z.of_nat (rta_fuel len) ∧ (0 < rta_fuel len)%nat.
Proof.
  unfold rta_fuel. split; [|lia]. rewrite !Nat2Z.inj_succ. destruct (Z.le_gt_cases 0 len).
  - rewrite Z2Nat.id by (apply Z.div_pos; lia). Z.div_mod_to_equations. lia.
  - lia.
Qed.

Lemma noblock_rta_loop {T} buf (body : Z → T → M (ctl T)) rta len st :
  bytes_ok buf → (∀ rta st, noblock (body rta st)) →
  noblock (rta_loop (rta_fuel len) buf body rta len st).
Proof. intros Hb H. destruct (rta_fuel_enough len). by apply rta_loop_noblock. Qed.

Lemma noblock_route_msg af buf nlh st : bytes_ok buf → noblock (route_msg env uninit af buf nlh st).
Proof.
  intros Hb. unfold route_msg, route_newroute, route_select. noblock.
  apply noblock_rta_loop; [done|]. intros rta a. unfold route_attr. noblock.
Qed.

Lemma noblock_addr_msg af i buf nlh st : bytes_ok buf → noblock (addr_msg af i buf nlh st).
Proof.
  intros Hb. unfold addr_msg, addr_newaddr. noblock.
  apply noblock_rta_loop; [done|]. intros rta a. unfold addr_attr. noblock.
Qed.

Lemma noblock_event_msg i buf nlh st : noblock (event_msg i buf nlh st).
Proof. unfold event_msg. noblock. Qed.

Lemma noblock_link_info i info : (∀ h, bytes_ok (uninit h)) → (∀ h r, bytes_ok (data (env h r))) →
  noblock (get_netlink_link_info env uninit i info).
Proof.
  intros Hu Hd. assert (Hrecv : ∀ fd, ∀ s, match (buffer ← new_buffer uninit; recv env fd buffer) s with
    | Ret x _ => bytes_ok x.2 | _ => True end).
  { intros fd s. unfold new_buffer, recv, mbind, M_bind, gets, sys.
    destruct (ret _ <? 0); cbn; [apply Hu|]. apply bytes_ok_wr; [|apply Hu]. apply Forall_take, Hd. }
  unfold get_netlink_link_info. destruct info; [|done]. apply noblock_if; [done|].
  apply noblock_bind; [done|]. intros a. apply noblock_if; [noblock|].
  apply noblock_bind; [done|]. intros r. apply noblock_if; [noblock|]. intros s.
  specialize (Hrecv (ret a) s). pose proof (noblock_recv (ret a) (uninit (trace s)) s) as Hn.
  revert Hrecv Hn. unfold mbind at 1 2 3, M_bind at 1 2 3, new_buffer, gets.
  destruct (recv env (ret a) (uninit (trace s)) s) as [[len b1] s2| |]; [|done..].
  cbn [snd]. intros Hb _.
  match goal with |- match ?m ?s with _ => _ end => enough (noblock m) as H by apply H end.
  noblock; [done|]. apply noblock_rta_loop; [done|]. intros rta i'. unfold link_attr. noblock.
Qed.
End termination.
