(* ===== verification/NetQuery.v ===== *)
(** * What the netlink queries of net_iface.c answer

    First the bodies of the loops on decoded messages, and that they agree
    with the code's bodies on the bytes; then the default route and the
    address that the dumps of the kernel lead to, and the sockets. *)
From stdpp Require Import prelude strings.
From Stdlib Require Import ZArith Lia.
From S2P Require Import Prelude Utils PktCtrl NetLink NetIface.

(** ** The decoded bodies *)

Definition val (a : attr) : Z := rd 0 4 (payload a).
Definition hbyte (o : nat) (m : nlmsg) : Z := rd o 1 (header m).

(** An attribute whose type is in [ts] holds a 32-bit value. *)
Definition word_attrs (ts : list Z) (a : attr) : Prop :=
  attr_ok a ∧ (rta_type a ∈ ts → (4 ≤ length (payload a))%nat).

Section decoded.
Context (env : history → sysreq → answer) (uninit : history → list Z).
Abbreviation M := (M os_state).
Implicit Types s : os_state.

Definition route_attr_dec (x : attr) (a : route_acc) : M (ctl route_acc) :=
  if rta_type x =? RTA_OIF then
    let ifindex := i32 (val x) in
    lo ← netlink_is_loopback env uninit ifindex;
    skip ← (if lo : bool then mret true else netlink_is_pointtopoint env uninit ifindex);
    if skip : bool then
      mret (Stop (RouteAcc (ra_ifname a) ifindex (ra_metric a) (ra_has_gateway a) true (ra_gateway a)))
    else
      n ← sys env (SysIfIndexToName (u32 ifindex));
      let ifname := if ret n <? 0 then "" else name n in
      mret (Next (RouteAcc ifname ifindex (ra_metric a) (ra_has_gateway a) false (ra_gateway a)))
  else if rta_type x =? RTA_GATEWAY then
    mret (Next (RouteAcc (ra_ifname a) (ra_ifindex a) (ra_metric a) true (ra_skip_interface a) (val x)))
  else if rta_type x =? RTA_PRIORITY then
    mret (Next (RouteAcc (ra_ifname a) (ra_ifindex a) (val x) (ra_has_gateway a)
                  (ra_skip_interface a) (ra_gateway a)))
  else mret (Next a).

(** The tests on the rtmsg of a message. *)
Definition default_route (af : Z) (m : nlmsg) : bool :=
  (hbyte 0 m =? af) && (hbyte 4 m =? RT_TABLE_MAIN) && (hbyte 1 m =? 0) &&
  (hbyte 7 m =? RTN_UNICAST) && negb (hbyte 6 m =? RT_SCOPE_HOST) &&
  negb (hbyte 6 m =? RT_SCOPE_LINK).

Definition is_end (m : nlmsg) : bool := (nl_type m =? NLMSG_DONE) || (nl_type m =? NLMSG_ERROR).

Definition route_msg_dec (af : Z) (m : nlmsg) (st : route_state) : M (ctl route_state) :=
  if is_end m then mret (Stop (route_done st))
  else if (nl_type m =? RTM_NEWROUTE) && default_route af m then
    acc ← walk route_attr_dec (attrs m) route_acc0;
    route_select env acc st
  else mret (Next st).

Definition route_words : list Z := [RTA_OIF; RTA_GATEWAY; RTA_PRIORITY].

(** A message the kernel sends in a dump of routes. *)
Definition route_ok (m : nlmsg) : Prop :=
  nlmsg_ok m ∧
  (nl_type m = RTM_NEWROUTE → length (header m) = 12%nat ∧ Forall (word_attrs route_words) (attrs m)).

Lemma word_attr_ld ts pre x post s :
  word_attrs ts x → rta_type x ∈ ts →
  ld 4 (pre ++ attr_bytes x ++ post) (RTA_DATA (Z.of_nat (length pre))) s = Ret (val x) s.
Proof. intros [Hok Hw] Ht. apply rta_data_at; auto. Qed.

Lemma route_attr_at pre x post a s :
  word_attrs route_words x →
  route_attr env uninit (pre ++ attr_bytes x ++ post) (Z.of_nat (length pre)) a s =
  route_attr_dec x a s.
Proof.
  intros Hx. unfold route_attr, route_attr_dec.
  rewrite (bind_run _ _ s (rta_type x) s) by (apply rta_type_at_attr, Hx).
  destruct (Z.eqb_spec (rta_type x) RTA_OIF) as [E|_].
  { rewrite (bind_run _ _ s (val x) s); [done|].
    apply (word_attr_ld _ _ _ _ _ Hx). rewrite E. set_solver. }
  destruct (Z.eqb_spec (rta_type x) RTA_GATEWAY) as [E|_].
  { rewrite (bind_run _ _ s (val x) s); [done|].
    apply (word_attr_ld _ _ _ _ _ Hx). rewrite E. set_solver. }
  destruct (Z.eqb_spec (rta_type x) RTA_PRIORITY) as [E|_]; [|done].
  rewrite (bind_run _ _ s (val x) s); [done|].
  apply (word_attr_ld _ _ _ _ _ Hx). rewrite E. set_solver.
Qed.

Lemma hbyte_at o pre m post s : (o < length (header m))%nat →
  ld 1 (pre ++ nlmsg_bytes m ++ post) (NLMSG_DATA (Z.of_nat (length pre)) + Z.of_nat o) s =
  Ret (hbyte o m) s.
Proof. intros. apply nlmsg_data_at. lia. Qed.

Lemma length_attrs_le l : Forall attr_ok l → (4 * length l ≤ length (attrs_bytes l))%nat.
Proof.
  induction 1 as [|a l Ha _ IH]; [done|]. unfold attrs_bytes in *. cbn [fmap list_fmap concat length].
  rewrite length_app. pose proof (length_attr_bytes _ Ha) as E.
  destruct (NLMSG_ALIGN_bounds (Z.of_nat (attr_len a))); [destruct Ha as (_ & ? & _); lia|].
  unfold attr_len in *. lia.
Qed.

Lemma rta_fuel_walk l : Forall attr_ok l →
  (length l < rta_fuel (Z.of_nat (length (attrs_bytes l))))%nat.
Proof.
  intros Hl. pose proof (length_attrs_le l Hl). unfold rta_fuel.
  assert (Z.of_nat (length l) ≤ Z.of_nat (length (attrs_bytes l)) / 4)
    by (apply Z.div_le_lower_bound; lia). lia.
Qed.

(** The attribute loop of a message, started behind its header. *)
Lemma attrs_at {T} ts hdr (body : list Z → Z → T → M (ctl T)) f pre m post st s :
  (∀ pre x post st s, word_attrs ts x →
    body (pre ++ attr_bytes x ++ post) (Z.of_nat (length pre)) st s = f x st s) →
  nlmsg_ok m → length (header m) = Z.to_nat hdr → 0 ≤ hdr → Forall (word_attrs ts) (attrs m) →
  let buf := pre ++ nlmsg_bytes m ++ post in
  let len := Z.of_nat (length (attrs_bytes (attrs m))) in
  rta_loop (rta_fuel len) buf (body buf) (NLMSG_DATA (Z.of_nat (length pre)) + hdr) len st s =
  walk f (attrs m) st s.
Proof.
  intros Hbody Hm Hh H0 Hattrs buf len.
  pose proof (nlmsg_attrs_eq pre m post Hm) as Eb. fold buf in Eb.
  replace (NLMSG_DATA (Z.of_nat (length pre)) + hdr) with
    (Z.of_nat (length (pre ++ take (16 + length (header m)) (nlmsg_bytes m))))
    by (rewrite length_nlmsg_hdr, Hh; lia).
  apply (rta_loop_walk (word_attrs ts) buf (body buf) f) with (post := post); [|
    |done|done|].
  - by intros a [? _].
  - intros pre' a post' st' s' -> Ha. by apply Hbody.
  - apply rta_fuel_walk. eapply Forall_impl; [exact Hattrs|]. by intros a [? _].
Qed.

Lemma route_msg_at af pre m post st s : route_ok m →
  route_msg env uninit af (pre ++ nlmsg_bytes m ++ post) (Z.of_nat (length pre)) st s =
  route_msg_dec af m st s.
Proof.
  intros [Hok Hroute]. unfold route_msg, route_msg_dec, is_end.
  rewrite (bind_run _ _ s (nl_type m) s) by by apply nlmsg_type_at.
  destruct (nl_type m =? NLMSG_DONE); [done|]. destruct (nl_type m =? NLMSG_ERROR); [done|].
  destruct (Z.eqb_spec (nl_type m) RTM_NEWROUTE) as [Et|]; [|done]. cbn [negb andb orb].
  destruct (Hroute Et) as [Hh Hattrs].
  assert (Hld : ∀ o, (o < 12)%nat → ld 1 (pre ++ nlmsg_bytes m ++ post)
    (NLMSG_DATA (Z.of_nat (length pre)) + Z.of_nat o) s = Ret (hbyte o m) s).
  { intros o Ho. apply hbyte_at. lia. }
  unfold route_newroute, default_route.
  rewrite (bind_run _ _ s (hbyte 0 m) s)
    by (specialize (Hld 0%nat); rewrite Z.add_0_r in Hld; apply Hld; lia).
  destruct (hbyte 0 m =? af); [|done]. cbn [negb andb].
  rewrite (bind_run _ _ s (hbyte 4 m) s) by (apply (Hld 4%nat); lia).
  destruct (hbyte 4 m =? RT_TABLE_MAIN); [|done]. cbn [negb andb].
  rewrite (bind_run _ _ s (hbyte 1 m) s) by (apply (Hld 1%nat); lia).
  destruct (hbyte 1 m =? 0); [|done]. cbn [negb andb].
  rewrite (bind_run _ _ s (hbyte 7 m) s) by (apply (Hld 7%nat); lia).
  rewrite (bind_run _ _ s (hbyte 6 m) s) by (apply (Hld 6%nat); lia).
  destruct (hbyte 7 m =? RTN_UNICAST); [|done].
  destruct (hbyte 6 m =? RT_SCOPE_HOST); [done|].
  destruct (hbyte 6 m =? RT_SCOPE_LINK); [done|]. cbn [negb andb orb].
  rewrite (bind_run _ _ s _ s) by (apply (nlmsg_payload_at 12); [done|exact Hh|lia]).
  unfold mbind, M_bind, sizeof_rtmsg. f_equal.
  rewrite (attrs_at route_words 12 (route_attr env uninit) route_attr_dec pre m post route_acc0 s);
    [done|intros; by apply route_attr_at|done|exact Hh|lia|done].
Qed.
End decoded.

(** ** The default route

    What the kernel says about its links: the same at every question. *)
Record link_view := LinkView {
  loopback : Z → bool;
  pointtopoint : Z → bool;
  link_name : Z → string;
  online : string → bool
}.

(** The datagrams received on [fd] so far. *)
Definition is_recv (fd : Z) (e : sysreq * answer) : bool :=
  match e.1 with SysRecv fd' _ => fd' =? fd | _ => false end.
Definition recvs (fd : Z) (h : history) : nat := length (filter (λ e, is_recv fd e = true) h).

Lemma recvs_app fd h1 h2 : recvs fd (h1 ++ h2) = (recvs fd h1 + recvs fd h2)%nat.
Proof. unfold recvs. by rewrite filter_app, length_app. Qed.

(** [s'] comes after [s], with nothing received on [fd] in between. *)
Definition after (fd : Z) (s s' : os_state) : Prop :=
  trace s `prefix_of` trace s' ∧ recvs fd (trace s') = recvs fd (trace s).
#[global] Instance after_preorder fd : PreOrder (after fd).
Proof.
  split; [by intros s|]. intros s1 s2 s3 [H1 E1] [H2 E2]. split; [by trans (trace s2)|]. by rewrite E2.
Qed.

Section best_route.
Context (env : history → sysreq → answer) (uninit : history → list Z).
Context (v : link_view) (fd : Z) (h0 : history).
Implicit Types s : os_state.

(** The questions about links are answered by [v] and leave [fd] alone. *)
Record steady : Prop := {
  steady_loopback i s : h0 `prefix_of` trace s →
    runs (netlink_is_loopback env uninit i) s (λ b s', b = loopback v i ∧ after fd s s');
  steady_pointtopoint i s : h0 `prefix_of` trace s →
    runs (netlink_is_pointtopoint env uninit i) s (λ b s', b = pointtopoint v i ∧ after fd s s');
  steady_name i s : h0 `prefix_of` trace s →
    runs (sys env (SysIfIndexToName (u32 i))) s (λ n s',
      (if ret n <? 0 then "" else name n) = link_name v i ∧ after fd s s');
  steady_online n s : h0 `prefix_of` trace s →
    runs (is_link_online env (Some n)) s (λ b s', b = online v n ∧ after fd s s')
}.
Context (Hv : steady).

Lemma after_since s s' : h0 `prefix_of` trace s → after fd s s' → h0 `prefix_of` trace s'.
Proof. intros ? [? _]. by trans (trace s). Qed.

(** What the attributes of a route say. *)
Fixpoint acc_of (l : list attr) (a : route_acc) : route_acc :=
  match l with
  | [] => a
  | x :: l =>
      if rta_type x =? RTA_OIF then
        let i := i32 (val x) in
        if loopback v i || pointtopoint v i then
          RouteAcc (ra_ifname a) i (ra_metric a) (ra_has_gateway a) true (ra_gateway a)
        else acc_of l (RouteAcc (link_name v i) i (ra_metric a) (ra_has_gateway a) false (ra_gateway a))
      else if rta_type x =? RTA_GATEWAY then
        acc_of l (RouteAcc (ra_ifname a) (ra_ifindex a) (ra_metric a) true (ra_skip_interface a) (val x))
      else if rta_type x =? RTA_PRIORITY then
        acc_of l (RouteAcc (ra_ifname a) (ra_ifindex a) (val x) (ra_has_gateway a)
                    (ra_skip_interface a) (ra_gateway a))
      else acc_of l a
  end.

(** A usable default route: over a link that is up and neither loopback nor
    point-to-point, with a gateway. *)
Definition route_of (af : Z) (m : nlmsg) : option netlink_route_info_t :=
  if (nl_type m =? RTM_NEWROUTE) && default_route af m then
    let a := acc_of (attrs m) route_acc0 in
    if negb (ra_skip_interface a) && (0 <? ra_ifindex a) && ra_has_gateway a &&
       online v (ra_ifname a) then
      Some (RouteInfo (ra_ifindex a) (String.substring 0 15 (ra_ifname a)) (ra_gateway a) (ra_metric a))
    else None
  else None.

Definition select (st : route_state) (r : netlink_route_info_t) : route_state :=
  if ri_metric r <=? rs_best_metric st then RouteState (rs_done st) true (ri_metric r) r else st.

Fixpoint scan (af : Z) (ms : list nlmsg) (st : route_state) : route_state :=
  match ms with
  | [] => st
  | m :: ms =>
      if is_end m then route_done st
      else scan af ms (match route_of af m with Some r => select st r | None => st end)
  end.

Lemma acc_walk l a s : h0 `prefix_of` trace s →
  runs (walk (route_attr_dec env uninit) l a) s (λ a' s', a' = acc_of l a ∧ after fd s s').
Proof.
  revert a s. induction l as [|x l IH]; intros a s Hs; [by split|]. cbn [walk acc_of].
  apply runs_bind. unfold route_attr_dec. destruct (rta_type x =? RTA_OIF).
  - apply runs_bind. eapply runs_mono; [by apply steady_loopback|]. intros lo s1 [-> H1].
    pose proof (after_since _ _ Hs H1) as Hs1. apply runs_bind.
    apply runs_mono with (Q := λ skip s2,
      skip = loopback v (i32 (val x)) || pointtopoint v (i32 (val x)) ∧ after fd s1 s2).
    { destruct (loopback v _); [by split|]. by apply steady_pointtopoint. }
    intros skip s2 [-> H2]. pose proof (after_since _ _ Hs1 H2) as Hs2.
    destruct (loopback v _ || pointtopoint v _); [split; [done|by trans s1]|].
    apply runs_bind. eapply runs_mono; [by apply steady_name|]. intros n s3 [-> H3].
    pose proof (after_since _ _ Hs2 H3) as Hs3. cbn. eapply runs_mono; [by apply IH|].
    intros a' s4 [-> H4]. split; [done|]. trans s3; [|done]. trans s2; [|done]. by trans s1.
  - destruct (rta_type x =? RTA_GATEWAY); [by apply IH|].
    destruct (rta_type x =? RTA_PRIORITY); by apply IH.
Qed.

Lemma scan_walk af ms st s : h0 `prefix_of` trace s →
  runs (walk (route_msg_dec env uninit af) ms st) s (λ st' s', st' = scan af ms st ∧ after fd s s').
Proof.
  revert st s. induction ms as [|m ms IH]; intros st s Hs; [by split|]. cbn [walk scan].
  apply runs_bind. unfold route_msg_dec, route_of. destruct (is_end m); [by split|].
  destruct ((nl_type m =? RTM_NEWROUTE) && default_route af m); [|by apply IH].
  apply runs_bind. eapply runs_mono; [by apply acc_walk|]. intros a s1 [-> H1].
  pose proof (after_since _ _ Hs H1) as Hs1. set (a := acc_of (attrs m) route_acc0).
  assert (HIH : ∀ st', runs (walk (route_msg_dec env uninit af) ms st') s1
    (λ st2 s', st2 = scan af ms st' ∧ after fd s s')).
  { intros st'. eapply runs_mono; [by apply IH|]. intros st2 s2 [-> H2]. split; [done|]. by trans s1. }
  unfold route_select. destruct (ra_skip_interface a); [apply HIH|]. cbn [negb andb].
  destruct (0 <? ra_ifindex a); [|apply HIH]. destruct (ra_has_gateway a); [|apply HIH]. cbn [andb].
  destruct (ra_metric a <=? rs_best_metric st) eqn:Em.
  - apply runs_bind. eapply runs_mono; [by apply steady_online|]. intros b s2 [-> H2].
    pose proof (after_since _ _ Hs1 H2) as Hs2.
    assert (HIH2 : ∀ st', runs (walk (route_msg_dec env uninit af) ms st') s2
      (λ st2 s', st2 = scan af ms st' ∧ after fd s s')).
    { intros st'. eapply runs_mono; [by apply IH|]. intros st2 s3 [-> H3]. split; [done|].
      trans s2; [|done]. by trans s1. }
    destruct (online v (ra_ifname a)); [|apply HIH2]. unfold select at 1. cbn [ri_metric].
    rewrite Em. apply HIH2.
  - destruct (online v (ra_ifname a)); [|apply HIH]. unfold select. cbn [ri_metric]. rewrite Em.
    apply HIH.
Qed.

(** ** Which route is chosen *)

Fixpoint before_end (ms : list nlmsg) : list nlmsg :=
  match ms with
  | [] => []
  | m :: ms => if is_end m then [] else m :: before_end ms
  end.

(** The usable default routes of a dump, in its order. *)
Definition candidates (af : Z) (ms : list nlmsg) : list netlink_route_info_t :=
  omap (route_of af) (before_end ms).

(** [r] has the least metric, and is the last of those. *)
Definition is_best (cs : list netlink_route_info_t) (r : netlink_route_info_t) : Prop :=
  ∃ k, cs !! k = Some r ∧
    (∀ j r', cs !! j = Some r' → ri_metric r ≤ ri_metric r') ∧
    (∀ j r', (k < j)%nat → cs !! j = Some r' → ri_metric r < ri_metric r').

Lemma scan_select af ms st : Exists is_end ms →
  scan af ms st = route_done (foldl select st (candidates af ms)).
Proof.
  unfold candidates. revert st. induction ms as [|m ms IH]; intros st He; [by apply Exists_nil in He|].
  cbn [scan before_end]. destruct (is_end m) eqn:E; [done|].
  apply Exists_cons in He as [He|He]; [by rewrite E in He|]. rewrite IH by done.
  cbn [omap list_omap]. by destruct (route_of af m).
Qed.

Lemma scan_not_end af ms1 ms2 st : Forall (λ m, is_end m = false) ms1 →
  scan af (ms1 ++ ms2) st = scan af ms2 (scan af ms1 st).
Proof.
  revert st. induction ms1 as [|m ms1 IH]; intros st Hf; [done|].
  apply Forall_cons in Hf as [Em Hf]. cbn [app scan]. rewrite Em. by apply IH.
Qed.

Lemma select_not_done st r : rs_done (select st r) = rs_done st.
Proof. unfold select. by destruct (_ <=? _). Qed.

Lemma scan_open af ms st : Forall (λ m, is_end m = false) ms → rs_done (scan af ms st) = rs_done st.
Proof.
  revert st. induction ms as [|m ms IH]; intros st Hf; [done|].
  apply Forall_cons in Hf as [Em Hf]. cbn [scan]. rewrite Em, IH by done.
  destruct (route_of af m); [apply select_not_done|done].
Qed.

Lemma select_best info cs :
  Forall (λ r, ri_metric r ≤ UINT32_MAX) cs →
  (cs = [] ∧ foldl select (RouteState false false UINT32_MAX info) cs =
             RouteState false false UINT32_MAX info) ∨
  ∃ r, is_best cs r ∧ foldl select (RouteState false false UINT32_MAX info) cs =
                      RouteState false true (ri_metric r) r.
Proof.
  induction cs as [|r cs IH] using rev_ind; intros Hcs; [by left|].
  apply Forall_app in Hcs as [Hcs [Hr _]%Forall_cons]. right. rewrite foldl_snoc.
  assert (Hlast : (cs ++ [r]) !! length cs = Some r) by by rewrite list_lookup_middle.
  destruct (IH Hcs) as [[-> ->]|(b & (k & Hk & Hmin & Hafter) & ->)]; unfold select; cbn [rs_best_metric rs_done].
  - exists r. destruct (Z.leb_spec (ri_metric r) UINT32_MAX); [|lia]. split; [|done].
    exists 0%nat. split; [done|]. split; intros [|j] r'; simpl; intros; simplify_eq; try lia; done.
  - pose proof (lookup_lt_Some _ _ _ Hk) as Hlt.
    assert (Hsplit : ∀ j r', (cs ++ [r]) !! j = Some r' → cs !! j = Some r' ∨ (j = length cs ∧ r' = r)).
    { intros j r' [H|[Hj H]]%lookup_app_Some; [by left|]. right.
      apply list_lookup_singleton_Some in H as [H ->]. split; [lia|done]. }
    destruct (Z.leb_spec (ri_metric r) (ri_metric b)) as [Hle|Hgt].
    + exists r. split; [|done]. exists (length cs). split; [done|]. split.
      * intros j r' [H|[_ ->]]%Hsplit; [|lia]. specialize (Hmin _ _ H). lia.
      * intros j r' Hj [H%lookup_lt_Some|[-> _]]%Hsplit; lia.
    + exists b. split; [|done]. exists k. split; [by rewrite lookup_app_l|]. split.
      * intros j r' [H|[_ ->]]%Hsplit; [by apply (Hmin j)|lia].
      * intros j r' Hj [H|[_ ->]]%Hsplit; [by apply (Hafter j)|lia].
Qed.

Lemma acc_metric l a : Forall attr_ok l → 0 ≤ ra_metric a ≤ UINT32_MAX →
  0 ≤ ra_metric (acc_of l a) ≤ UINT32_MAX.
Proof.
  intros Hl. revert a. induction Hl as [|x l Hx _ IH]; intros a Ha; [done|]. cbn [acc_of].
  destruct (rta_type x =? RTA_OIF); [destruct (_ || _); [done|by apply IH]|].
  destruct (rta_type x =? RTA_GATEWAY); [by apply IH|].
  destruct (rta_type x =? RTA_PRIORITY); [|by apply IH]. apply IH. cbn [ra_metric].
  destruct Hx as (_ & _ & Hx). pose proof (rd_range 0 4 _ Hx) as Hr. unfold val, UINT32_MAX.
  change (256 ^ Z.of_nat 4) with 4294967296 in Hr. lia.
Qed.

Lemma candidates_metric af ms : Forall route_ok ms →
  Forall (λ r, ri_metric r ≤ UINT32_MAX) (candidates af ms).
Proof.
  intros Hms. unfold candidates. induction Hms as [|m ms [Hm _] _ IH]; [done|]. cbn [before_end].
  destruct (is_end m); [done|]. cbn [omap list_omap].
  destruct (route_of af m) as [r|] eqn:E; [|done]. apply Forall_cons. split; [|done].
  unfold route_of in E. destruct (_ && default_route af m); [|done].
  destruct (_ && online v _); [|done]. injection E as <-. cbn [ri_metric].
  apply acc_metric; [apply (ok_attrs _ Hm)|by vm_compute].
Qed.
End best_route.

(** ** Addresses *)
Section addresses.
Abbreviation M := (M os_state).
Implicit Types s : os_state.

Definition addr_attr_dec (x : attr) (a : addr_acc) : addr_acc :=
  if rta_type x =? IFA_LOCAL then AddrAcc (val x) (bcast_ip a)
  else if rta_type x =? IFA_ADDRESS then
    if local_ip a =? 0 then AddrAcc (val x) (bcast_ip a) else a
  else if rta_type x =? IFA_BROADCAST then AddrAcc (local_ip a) (val x)
  else a.

(** The address and the broadcast address among the attributes. *)
Definition addrs_of (m : nlmsg) : addr_acc := foldl (λ a x, addr_attr_dec x a) (AddrAcc 0 0) (attrs m).

Definition ifa_index (m : nlmsg) : Z := rd 4 4 (header m).
Definition ifa_prefixlen (m : nlmsg) : Z := hbyte 1 m.

(** An address of the interface that is not of host scope. *)
Definition is_addr (af ifindex : Z) (m : nlmsg) : bool :=
  (nl_type m =? RTM_NEWADDR) && (ifa_index m =? u32 ifindex) && (hbyte 0 m =? af) &&
  negb (hbyte 3 m =? RT_SCOPE_HOST) && negb (local_ip (addrs_of m) =? 0).

Definition addr_of (af ifindex : Z) (m : nlmsg) : option netlink_addr_info_t :=
  if is_addr af ifindex m then Some (fill_addr (addrs_of m) (ifa_prefixlen m) addr_info0) else None.

Fixpoint addr_scan (af ifindex : Z) (ms : list nlmsg) (st : addr_state) : addr_state :=
  match ms with
  | [] => st
  | m :: ms =>
      if is_end m then AddrState true (as_found st) (as_info st)
      else match addr_of af ifindex m with
           | Some i => AddrState true true i
           | None => addr_scan af ifindex ms st
           end
  end.

Definition addr_words : list Z := [IFA_LOCAL; IFA_ADDRESS; IFA_BROADCAST].
Definition addr_ok (m : nlmsg) : Prop :=
  nlmsg_ok m ∧
  (nl_type m = RTM_NEWADDR → length (header m) = 8%nat ∧ Forall (word_attrs addr_words) (attrs m)).

Lemma addr_attr_at pre x post a s :
  word_attrs addr_words x →
  addr_attr (pre ++ attr_bytes x ++ post) (Z.of_nat (length pre)) a s =
  Ret (Next (addr_attr_dec x a)) s.
Proof.
  intros Hx. unfold addr_attr, addr_attr_dec.
  rewrite (bind_run _ _ s (rta_type x) s) by (apply rta_type_at_attr, Hx).
  destruct (Z.eqb_spec (rta_type x) IFA_LOCAL) as [E|_].
  { rewrite (bind_run _ _ s (val x) s); [done|].
    apply (word_attr_ld _ _ _ _ _ Hx). rewrite E. set_solver. }
  destruct (Z.eqb_spec (rta_type x) IFA_ADDRESS) as [E|_].
  { destruct (local_ip a =? 0); [|done]. rewrite (bind_run _ _ s (val x) s); [done|].
    apply (word_attr_ld _ _ _ _ _ Hx). rewrite E. set_solver. }
  destruct (Z.eqb_spec (rta_type x) IFA_BROADCAST) as [E|_]; [|done].
  rewrite (bind_run _ _ s (val x) s); [done|].
  apply (word_attr_ld _ _ _ _ _ Hx). rewrite E. set_solver.
Qed.

Lemma walk_pure {A T} (f : A → T → T) l st s :
  walk (W := os_state) (λ x st, mret (Next (f x st))) l st s = Ret (foldl (λ st x, f x st) st l) s.
Proof. revert st. induction l as [|x l IH]; intros st; [done|]. cbn [walk foldl]. by rewrite bind_ret. Qed.

Definition addr_msg_dec (af ifindex : Z) (m : nlmsg) (st : addr_state) : M (ctl addr_state) :=
  if is_end m then mret (Stop (AddrState true (as_found st) (as_info st)))
  else if is_addr af ifindex m then
    mret (Stop (AddrState true true (fill_addr (addrs_of m) (ifa_prefixlen m) (as_info st))))
  else mret (Next st).

Lemma addr_msg_at af ifindex pre m post st s : addr_ok m →
  addr_msg af ifindex (pre ++ nlmsg_bytes m ++ post) (Z.of_nat (length pre)) st s =
  addr_msg_dec af ifindex m st s.
Proof.
  intros [Hok Haddr]. unfold addr_msg, addr_msg_dec.
  rewrite (bind_run _ _ s (nl_type m) s) by by apply nlmsg_type_at.
  fold (is_end m). destruct (is_end m); [done|]. unfold is_addr.
  destruct (Z.eqb_spec (nl_type m) RTM_NEWADDR) as [Et|]; [|done]. cbn [negb andb].
  destruct (Haddr Et) as [Hh Hattrs]. unfold addr_newaddr.
  rewrite (bind_run _ _ s (ifa_index m) s) by (apply (nlmsg_data_at 4 4); lia).
  rewrite (bind_run _ _ s (hbyte 0 m) s)
    by (rewrite <- (Z.add_0_r (NLMSG_DATA _)); apply (nlmsg_data_at 1 0); lia).
  rewrite (bind_run _ _ s (hbyte 3 m) s) by (apply (nlmsg_data_at 1 3); lia).
  destruct (ifa_index m =? u32 ifindex); [|done]. destruct (hbyte 0 m =? af); [|done].
  destruct (hbyte 3 m =? RT_SCOPE_HOST); [done|]. cbn [negb andb orb].
  rewrite (bind_run _ _ s _ s) by (apply (nlmsg_payload_at 8); [done|exact Hh|lia]).
  rewrite (bind_run _ _ s (addrs_of m) s).
  - destruct (local_ip (addrs_of m) =? 0); [done|]. cbn [negb].
    by rewrite (bind_run _ _ s (ifa_prefixlen m) s) by (apply (nlmsg_data_at 1 1); lia).
  - unfold sizeof_ifaddrmsg.
    rewrite (attrs_at addr_words 8 addr_attr (λ x a, (mret (Next (addr_attr_dec x a)) : M (ctl addr_acc))));
      [|intros; by apply addr_attr_at|done|exact Hh|lia|done].
    apply walk_pure.
Qed.

Lemma addr_walk af ifindex ms st s : as_info st = addr_info0 →
  walk (addr_msg_dec af ifindex) ms st s = Ret (addr_scan af ifindex ms st) s.
Proof.
  intros Hi. induction ms as [|m ms IH]; [done|]. cbn [walk addr_scan].
  unfold mbind, M_bind, addr_msg_dec, addr_of. destruct (is_end m); [done|].
  destruct (is_addr af ifindex m); [|exact IH]. by rewrite Hi.
Qed.

Lemma addr_scan_app af ifindex ms1 ms2 st : as_done st = false →
  Forall (λ m, is_end m = false) ms1 →
  (as_done (addr_scan af ifindex ms1 st) = true ∧
   addr_scan af ifindex (ms1 ++ ms2) st = addr_scan af ifindex ms1 st) ∨
  (addr_scan af ifindex ms1 st = st ∧
   addr_scan af ifindex (ms1 ++ ms2) st = addr_scan af ifindex ms2 st).
Proof.
  intros Hd. induction ms1 as [|m ms1 IH]; intros Hf; [by right|].
  apply Forall_cons in Hf as [Em Hf]. cbn [app addr_scan]. rewrite Em.
  destruct (addr_of af ifindex m); [by left|]. by apply IH.
Qed.

Lemma addr_scan_end af ifindex ms st : Exists is_end ms → as_done (addr_scan af ifindex ms st) = true.
Proof.
  induction ms as [|m ms IH]; intros He; [by apply Exists_nil in He|]. cbn [addr_scan].
  destruct (is_end m) eqn:E; [done|]. apply Exists_cons in He as [He|He]; [by rewrite E in He|].
  destruct (addr_of af ifindex m); [done|]. by apply IH.
Qed.

(** The first address before the end decides. *)
Lemma addr_scan_head af ifindex ms : Exists is_end ms →
  addr_scan af ifindex ms (AddrState false false addr_info0) =
  match head (omap (addr_of af ifindex) (before_end ms)) with
  | Some i => AddrState true true i
  | None => AddrState true false addr_info0
  end.
Proof.
  induction ms as [|m ms IH]; intros He; [by apply Exists_nil in He|]. cbn [addr_scan before_end].
  destruct (is_end m) eqn:E; [done|]. apply Exists_cons in He as [He|He]; [by rewrite E in He|].
  cbn [omap list_omap]. destruct (addr_of af ifindex m); [done|]. by apply IH.
Qed.

Lemma head_addr af ifindex l :
  head (omap (addr_of af ifindex) l) =
  (λ m, fill_addr (addrs_of m) (ifa_prefixlen m) addr_info0) <$>
    head (filter (λ m, is_addr af ifindex m = true) l).
Proof.
  induction l as [|m l IH]; [done|]. cbn [omap list_omap]. unfold addr_of at 1.
  destruct (is_addr af ifindex m) eqn:E; [by rewrite filter_cons_True|].
  by rewrite filter_cons_False by (by rewrite E).
Qed.

Lemma before_end_elem m ms : m ∈ before_end ms → m ∈ ms.
Proof.
  induction ms as [|m' ms IH]; [done|]. cbn [before_end]. destruct (is_end m'); [set_solver|].
  rewrite !elem_of_cons. tauto.
Qed.

Lemma mask_shift p : 0 < p ≤ 32 →
  htonl (Z.land (u32 (Z.shiftl 0xFFFFFFFF (32 - p))) 0xFFFFFFFF) = mask_of_prefix p.
Proof.
  intros Hp. unfold mask_of_prefix. f_equal.
  assert (H : forallb (λ k, let q := Z.of_nat k in
    Z.land (u32 (Z.shiftl 0xFFFFFFFF (32 - q))) 0xFFFFFFFF =? 2 ^ 32 - 2 ^ (32 - q)) (seq 1 32) = true)
    by by vm_compute.
  rewrite forallb_forall in H. specialize (H (Z.to_nat p)). rewrite Z2Nat.id in H by lia.
  apply Z.eqb_eq, H. apply List.in_seq. lia.
Qed.

Lemma fill_addr_spec acc p info : 0 ≤ p ≤ 32 →
  ai_ip (fill_addr acc p info) = local_ip acc ∧
  ai_mask (fill_addr acc p info) = mask_of_prefix p ∧
  ai_bcast (fill_addr acc p info) =
    (if negb (bcast_ip acc =? 0) then bcast_ip acc
     else if p =? 0 then ai_bcast info else Z.lor (local_ip acc) (not32 (mask_of_prefix p))).
Proof.
  intros Hp. assert (Hnz : 0 < p → mask_of_prefix p ≠ 0).
  { intros H0 E. pose proof (ntohl_mask_of_prefix p Hp) as H. rewrite E in H.
    change (ntohl 0) with 0 in H. pose proof (Z.pow_lt_mono_r 2 (32 - p) 32). lia. }
  unfold fill_addr. cbn [ai_ip ai_mask ai_bcast].
  destruct (Z.ltb_spec 0 p); destruct (Z.leb_spec p 32); try lia; cbn [andb].
  - rewrite mask_shift by lia. destruct (Z.eqb_spec p 0); [lia|].
    destruct (Z.eqb_spec (mask_of_prefix p) 0); [by destruct Hnz|]. done.
  - assert (p = 0) as -> by lia. done.
Qed.
End addresses.

(** ** Dumps

    A dump on [fd] since [h0]: the datagrams of [mss], one for each recv. *)
Definition dumps (env : history → sysreq → answer) (fd : Z) (h0 : history)
    (mss : list (list nlmsg)) : Prop :=
  ∀ h k ms, h0 `prefix_of` h → recvs fd h = (recvs fd h0 + k)%nat → mss !! k = Some ms →
    let a := env h (SysRecv fd NETLINK_BUF_SIZE) in 0 ≤ ret a ∧ data a = datagram ms.

(** The last datagram, and no other, ends the dump. *)
Inductive complete : list (list nlmsg) → Prop :=
| complete_last ms : Exists is_end ms → complete [ms]
| complete_more ms mss : Forall (λ m, is_end m = false) ms → complete mss → complete (ms :: mss).

Definition fits (ms : list nlmsg) : Prop := Z.of_nat (length (datagram ms)) ≤ NETLINK_BUF_SIZE.

Lemma complete_end mss : complete mss → Exists is_end (concat mss).
Proof.
  induction 1 as [ms H|ms mss _ _ IH]; cbn [concat]; [by rewrite app_nil_r|].
  apply Exists_app. by right.
Qed.

Lemma length_datagram ms : Forall nlmsg_ok ms → (16 * length ms ≤ length (datagram ms))%nat.
Proof.
  induction 1 as [|m ms Hm _ IH]; [done|]. unfold datagram in *. cbn [fmap list_fmap concat length].
  rewrite length_app, length_nlmsg_bytes. lia.
Qed.

Lemma wr_prefix (a b : list Z) : (length a ≤ length b)%nat → wr 0 a b = a ++ drop (length a) b.
Proof.
  intros Hl. rewrite <- (take_drop (length a) b) at 1.
  rewrite <- (app_nil_l (take _ _ ++ _)). rewrite (wr_app [] _ _ a); [done|].
  by rewrite length_take_le.
Qed.

Section dump.
Context (env : history → sysreq → answer) (uninit : history → list Z).
Context (Huninit : ∀ h, Z.of_nat (length (uninit h)) = NETLINK_BUF_SIZE).
Context (fd : Z) (h0 : history) (mss : list (list nlmsg)).
Context (Hdump : dumps env fd h0 mss) (Hfits : Forall fits mss).
Implicit Types s : os_state.

(** The buffer of a receive loop. *)
Definition full (buffer : list Z) : Prop := Z.of_nat (length buffer) = NETLINK_BUF_SIZE.

Lemma recv_dump buffer k ms s :
  full buffer → h0 `prefix_of` trace s → recvs fd (trace s) = (recvs fd h0 + k)%nat →
  mss !! k = Some ms →
  runs (recv env fd buffer) s (λ x s',
    x.1 = Z.of_nat (length (datagram ms)) ∧ full x.2 ∧ (∃ rest, x.2 = datagram ms ++ rest) ∧
    trace s `prefix_of` trace s' ∧ recvs fd (trace s') = (recvs fd h0 + S k)%nat).
Proof.
  intros Hb Hh Hk Hms. destruct (Hdump _ _ _ Hh Hk Hms) as [Hret Hdata].
  pose proof (Forall_lookup_1 _ _ _ _ Hfits Hms) as Hf. unfold fits in Hf. unfold full in *.
  unfold recv. apply runs_bind. unfold sys, runs.
  destruct (Z.ltb_spec (ret (env (trace s) (SysRecv fd NETLINK_BUF_SIZE))) 0) as [?|_]; [lia|].
  rewrite Hdata. rewrite take_ge by lia. cbn [fst snd trace].
  unfold mret, M_ret. cbn [fst snd trace].
  split; [done|]. split; [by rewrite length_wr|].
  split; [|split].
  - exists (drop (length (datagram ms)) buffer). apply wr_prefix. lia.
  - by apply prefix_app_r.
  - rewrite recvs_app, Hk. unfold recvs at 2. rewrite filter_cons_True
      by (unfold is_recv; cbn; by rewrite Z.eqb_refl). simpl. lia.
Qed.

(** A receive loop's body on a whole datagram. *)
Lemma loop_dump {T} (P : nlmsg → Prop) (body : list Z → Z → T → M os_state (ctl T)) f ms rest st s :
  (∀ m, P m → nlmsg_ok m) → Forall P ms → fits ms →
  (∀ pre m post st s, P m →
    body (pre ++ nlmsg_bytes m ++ post) (Z.of_nat (length pre)) st s = f m st s) →
  let buffer := datagram ms ++ rest in
  nlmsg_loop NLFUEL buffer (body buffer) 0 (Z.of_nat (length (datagram ms))) st s = walk f ms st s.
Proof.
  intros HP Hms Hf Hbody buffer. unfold fits, NETLINK_BUF_SIZE in Hf.
  apply (nlmsg_loop_walk P buffer (body buffer) f) with (pre := []) (post := rest); try done.
  - intros pre m post st' s' -> Hm. by apply Hbody.
  - assert (Hok : Forall nlmsg_ok ms) by (eapply Forall_impl; [exact Hms|exact HP]).
    pose proof (length_datagram _ Hok). unfold NLFUEL. lia.
Qed.
End dump.

Section route_dump.
Context (env : history → sysreq → answer) (uninit : history → list Z).
Context (v : link_view) (fd : Z) (h0 : history) (mss : list (list nlmsg)).
Context (Hv : steady env uninit v fd h0) (Hdump : dumps env fd h0 mss) (Hfits : Forall fits mss).
Context (Hok : Forall (Forall route_ok) mss).

Lemma route_recv_dump af rest : ∀ k polls buffer st s,
  drop k mss = rest → complete rest → (length rest < polls)%nat → full buffer →
  h0 `prefix_of` trace s → recvs fd (trace s) = (recvs fd h0 + k)%nat → rs_done st = false →
  runs (route_recv env uninit polls af fd buffer st) s (λ x s', x = inr (scan v af (concat rest) st)).
Proof.
  induction rest as [|ms rest IH]; intros k polls buffer st s Hdrop Hc Hp Hb Hh Hk Hd; [by inversion Hc|].
  destruct polls as [|polls]; [simpl in Hp; lia|]. cbn [route_recv]. rewrite Hd.
  assert (Hms : mss !! k = Some ms).
  { rewrite <- (Nat.add_0_r k), <- lookup_drop, Hdrop. done. }
  pose proof (Forall_lookup_1 _ _ _ _ Hfits Hms) as Hf.
  pose proof (Forall_lookup_1 _ _ _ _ Hok Hms) as Hmok.
  apply runs_bind. eapply runs_mono; [by eapply recv_dump|].
  intros [len buffer1] s1 (Hlen & Hb1 & [tail Htail] & Hpre & Hk1). cbn [fst snd] in *. subst len.
  destruct (Z.ltb_spec (Z.of_nat (length (datagram ms))) 0) as [?|_]; [lia|].
  apply runs_bind. subst buffer1. unfold runs at 1.
  rewrite (loop_dump route_ok (route_msg env uninit af) (route_msg_dec env uninit af) ms tail st s1);
    [|by intros m [? _]|done|done|intros; by apply route_msg_at].
  assert (Hh1 : h0 `prefix_of` trace s1) by by trans (trace s).
  assert (Hscan := scan_walk env uninit v fd h0 Hv af ms st s1 Hh1). unfold runs in Hscan.
  destruct (walk _ _ _ _) as [st' s2| |]; try done. destruct Hscan as [-> [Hpre2 Hk2]].
  inversion Hc as [ms' He|ms' mss' Hne Hc']; subst.
  - destruct polls as [|polls]; [simpl in Hp; lia|]. cbn [route_recv concat]. rewrite app_nil_r.
    rewrite (scan_select v af ms st He). done.
  - cbn [concat]. rewrite (scan_not_end v af ms _ st Hne).
    apply (IH (S k)); try done.
    + by rewrite <- Nat.add_1_r, <- drop_drop, Hdrop.
    + simpl in Hp. lia.
    + by trans (trace s1).
    + by rewrite Hk2.
    + by rewrite scan_open.
Qed.
End route_dump.

Section addr_dump.
Context (env : history → sysreq → answer) (uninit : history → list Z).
Context (fd : Z) (h0 : history) (mss : list (list nlmsg)).
Context (Hdump : dumps env fd h0 mss) (Hfits : Forall fits mss).
Context (Hok : Forall (Forall addr_ok) mss).

Lemma addr_recv_dump af ifindex rest : ∀ k polls buffer st s,
  drop k mss = rest → complete rest → (length rest < polls)%nat → full buffer →
  h0 `prefix_of` trace s → recvs fd (trace s) = (recvs fd h0 + k)%nat →
  as_done st = false → as_info st = addr_info0 →
  runs (addr_recv env polls af ifindex fd buffer st) s
    (λ x s', x = inr (addr_scan af ifindex (concat rest) st)).
Proof.
  induction rest as [|ms rest IH]; intros k polls buffer st s Hdrop Hc Hp Hb Hh Hk Hd Hi; [by inversion Hc|].
  destruct polls as [|polls]; [simpl in Hp; lia|]. cbn [addr_recv]. rewrite Hd.
  assert (Hms : mss !! k = Some ms).
  { rewrite <- (Nat.add_0_r k), <- lookup_drop, Hdrop. done. }
  pose proof (Forall_lookup_1 _ _ _ _ Hfits Hms) as Hf.
  pose proof (Forall_lookup_1 _ _ _ _ Hok Hms) as Hmok.
  apply runs_bind. eapply runs_mono; [by eapply recv_dump|].
  intros [len buffer1] s1 (Hlen & Hb1 & [tail Htail] & Hpre & Hk1). cbn [fst snd] in *. subst len.
  destruct (Z.ltb_spec (Z.of_nat (length (datagram ms))) 0) as [?|_]; [lia|].
  apply runs_bind. subst buffer1. unfold runs at 1.
  rewrite (loop_dump addr_ok (addr_msg af ifindex) (addr_msg_dec af ifindex) ms tail st s1);
    [|by intros m [? _]|done|done|intros; by apply addr_msg_at].
  rewrite addr_walk by done. set (st' := addr_scan af ifindex ms st).
  assert (Hstop : as_done st' = true → runs (addr_recv env polls af ifindex fd (datagram ms ++ tail) st') s1
    (λ x _, x = inr st')).
  { intros Hd'. destruct polls as [|polls]; [simpl in Hp; inversion Hc; subst; simpl in *; lia|].
    cbn [addr_recv]. by rewrite Hd'. }
  inversion Hc as [ms' He|ms' mss' Hne Hc']; subst.
  - cbn [concat]. rewrite app_nil_r. apply Hstop. by apply addr_scan_end.
  - cbn [concat]. destruct (addr_scan_app af ifindex ms (concat rest) st Hd Hne) as [[Hd' ->]|[E ->]].
    + by apply Hstop.
    + unfold st'. rewrite E. apply (IH (S k)); try done.
      * by rewrite <- Nat.add_1_r, <- drop_drop, Hdrop.
      * simpl in Hp. lia.
      * by trans (trace s).
Qed.
End addr_dump.

Section queries.
Context (env : history → sysreq → answer) (uninit : history → list Z).
Context (Huninit : ∀ h, Z.of_nat (length (uninit h)) = NETLINK_BUF_SIZE).
Implicit Types s : os_state.

(** The socket a query opens first, and the history from then on. *)
Definition rtnl_socket : sysreq := SysSocket AF_NETLINK SOCK_RAW NETLINK_ROUTE.
Definition opened s : history := trace s ++ [(rtnl_socket, env (trace s) rtnl_socket)].

(** A query up to its receive loop [k]. *)
Lemma query_dump {X} (A : answer → M os_state X) (B : answer → M os_state X)
    (k : answer → list Z → M os_state X) (req : Z → list Z) s (Q : X → os_state → Prop) :
  let fd := ret (env (trace s) rtnl_socket) in
  0 ≤ fd → (∀ h, opened s `prefix_of` h → ∀ b, 0 ≤ ret (env h (SysSend fd b))) →
  (∀ s1 buffer, opened s `prefix_of` trace s1 → recvs fd (trace s1) = (recvs fd (opened s) + 0)%nat →
    full buffer → runs (k (env (trace s) rtnl_socket) buffer) s1 Q) →
  runs (nl_fd ← sys env rtnl_socket;
        if ret nl_fd <? 0 then A nl_fd
        else
          pid ← sys env SysGetpid;
          r ← sys env (SysSend (ret nl_fd) (req (ret pid)));
          if ret r <? 0 then B nl_fd
          else buffer ← new_buffer uninit; k nl_fd buffer) s Q.
Proof.
  intros fd Hfd Hsend Hk. apply runs_bind. unfold sys at 1, runs at 1. fold fd.
  destruct (Z.ltb_spec fd 0) as [?|_]; [lia|]. fold (opened s).
  apply runs_bind. unfold sys at 1, runs at 1. cbn [trace].
  apply runs_bind. unfold sys at 1, runs at 1. cbn [trace].
  set (h := opened s ++ _). set (b := req _).
  pose proof (Hsend h (prefix_app_r _ _ _ (reflexivity _)) b) as Hs.
  destruct (Z.ltb_spec (ret (env h (SysSend fd b))) 0) as [?|_]; [lia|].
  apply runs_bind. unfold new_buffer, gets, runs at 1. cbn [trace]. apply Hk.
  - cbn [trace]. unfold h. rewrite <- (assoc_L (++)). by apply prefix_app_r.
  - cbn [trace]. unfold h. rewrite !recvs_app. change (recvs fd [(SysGetpid, _)]) with 0%nat.
    change (recvs fd [(SysSend _ _, _)]) with 0%nat. lia.
  - apply Huninit.
Qed.

(** C31. The route query returns the best default route: when the kernel dumps
    its routes in any number of datagrams that fit the buffer, the query
    returns, after reading them all, the usable default route of least metric,
    the last one listed if several have it; if there is none it returns ENODEV
    and leaves the output alone. *)
Theorem get_netlink_route_info_best v polls info s mss :
  let fd := ret (env (trace s) rtnl_socket) in
  0 ≤ fd → (∀ h, opened s `prefix_of` h → ∀ b, 0 ≤ ret (env h (SysSend fd b))) →
  steady env uninit v fd (opened s) → dumps env fd (opened s) mss →
  Forall fits mss → Forall (Forall route_ok) mss → complete mss → (length mss < polls)%nat →
  let cs := candidates v AF_INET (concat mss) in
  ∃ r s', get_netlink_route_info env uninit polls AF_INET (Some info) s = Ret r s' ∧
    ((cs = [] ∧ r = (ENODEV, Some info)) ∨ ∃ best, is_best cs best ∧ r = (0, Some best)).
Proof.
  intros fd Hfd Hsend Hv Hd Hfits Hok Hc Hp cs. apply runs_exists.
  unfold get_netlink_route_info. change (negb (AF_INET =? AF_INET)) with false. cbv iota.
  apply (query_dump _ _ _ (λ pid, route_request pid AF_INET)); [done|done|].
  intros s1 buffer Hh Hr Hb. fold fd. apply runs_bind.
  eapply runs_mono.
  { by apply (route_recv_dump env uninit v fd (opened s) mss Hv Hd Hfits Hok AF_INET mss 0 polls). }
  intros x s2 ->. apply runs_bind. unfold sys, runs. cbn [mret M_ret].
  rewrite scan_select by by apply complete_end.
  assert (Hm : Forall (λ r, ri_metric r ≤ UINT32_MAX) cs).
  { apply candidates_metric. clear -Hok. induction Hok; cbn [concat]; [constructor|by apply Forall_app]. }
  destruct (select_best info cs Hm) as [[E Es]|(best & Hbest & Es)]; fold cs; rewrite Es.
  - left. split; [exact E|reflexivity].
  - right. exists best. split; [exact Hbest|reflexivity].
Qed.

Lemma prefixlen_nonneg ifindex mss m : Forall (Forall addr_ok) mss →
  head (filter (λ m, is_addr AF_INET ifindex m = true) (before_end (concat mss))) = Some m →
  0 ≤ ifa_prefixlen m.
Proof.
  intros Hok Em. assert (Hin : m ∈ concat mss).
  { apply before_end_elem. apply head_Some_elem_of in Em. by apply list_elem_of_filter in Em as [_ ?]. }
  assert (Hm : addr_ok m).
  { clear -Hok Hin. induction Hok as [|ms mss Hms _ IH]; cbn [concat] in Hin; [by apply not_elem_of_nil in Hin|].
    apply elem_of_app in Hin as [Hin|Hin]; [|by apply IH]. by eapply Forall_forall. }
  destruct Hm as [Hm _]. unfold ifa_prefixlen, hbyte. apply rd_range, (ok_header_bytes _ Hm).
Qed.

(** The address query returns the first address of the interface: when the
    kernel dumps its addresses, in any number of datagrams, the query returns
    the first one of that interface whose scope is not host, with the netmask
    of its prefix length and the broadcast address given or, without one, the
    last of the subnet; if there is none it returns ENODEV and zeros. *)
Theorem get_netlink_addr_info_first polls ifindex old s mss :
  let fd := ret (env (trace s) rtnl_socket) in
  0 < ifindex → 0 ≤ fd → (∀ h, opened s `prefix_of` h → ∀ b, 0 ≤ ret (env h (SysSend fd b))) →
  dumps env fd (opened s) mss → Forall fits mss → Forall (Forall addr_ok) mss → complete mss →
  (length mss < polls)%nat →
  let ms := filter (λ m, is_addr AF_INET ifindex m = true) (before_end (concat mss)) in
  ∃ rc i s', get_netlink_addr_info env uninit polls AF_INET ifindex (Some old) s = Ret (rc, Some i) s' ∧
    match head ms with
    | None => rc = ENODEV ∧ i = addr_info0
    | Some m =>
        rc = 0 ∧ ai_ip i = local_ip (addrs_of m) ∧ ai_prefixlen i = ifa_prefixlen m ∧
        (ifa_prefixlen m ≤ 32 → ai_mask i = mask_of_prefix (ifa_prefixlen m) ∧
          ai_bcast i = if negb (bcast_ip (addrs_of m) =? 0) then bcast_ip (addrs_of m)
                       else if ifa_prefixlen m =? 0 then 0
                       else Z.lor (local_ip (addrs_of m)) (not32 (mask_of_prefix (ifa_prefixlen m))))
    end.
Proof.
  intros fd Hi Hfd Hsend Hd Hfits Hok Hc Hp ms.
  assert (Hrun : runs (get_netlink_addr_info env uninit polls AF_INET ifindex (Some old)) s (λ r _,
    r = let st := addr_scan AF_INET ifindex (concat mss) (AddrState false false addr_info0) in
        (if as_found st then 0 else ENODEV, Some (as_info st)))).
  { unfold get_netlink_addr_info. destruct (Z.leb_spec ifindex 0) as [?|_]; [lia|].
    change (negb (AF_INET =? AF_INET)) with false. cbv iota.
    apply (query_dump _ _ _ (λ pid, addr_request pid AF_INET ifindex)); [done|done|].
    intros s1 buffer Hh Hr Hb. fold fd.
    apply runs_bind. eapply runs_mono.
    { by apply (addr_recv_dump env fd (opened s) mss Hd Hfits Hok AF_INET ifindex mss 0 polls). }
    intros x s2 ->. done. }
  apply runs_exists in Hrun as (r & s' & E & ->). rewrite addr_scan_head in E by by apply complete_end.
  cbv zeta in E. revert E. unfold ms. rewrite head_addr.
  destruct (head (filter _ _)) as [m|] eqn:Em; cbn [fmap option_fmap option_map as_found as_info]; intros E.
  2:{ by eexists _, _, _. }
  eexists _, _, _. split; [exact E|]. split; [done|]. split; [done|]. split; [done|]. intros Hp32.
  assert (0 ≤ ifa_prefixlen m) by (eapply prefixlen_nonneg; [exact Hok|exact Em]).
  destruct (fill_addr_spec (addrs_of m) (ifa_prefixlen m) addr_info0) as (_ & Hmask & Hb); [lia|].
  by rewrite Hmask, Hb.
Qed.
End queries.

(** ** The loops end *)
Section termination.
Context (env : history → sysreq → answer) (uninit : history → list Z).

(** C32. Parsing ends whatever arrives: on every buffer of 8192 bytes the three
    loops over messages, with the loops over attributes inside them, finish
    (or read outside the buffer) within their fuel, as long as no four bytes
    of the buffer are 2^32 - 3 or more, a length that NLMSG_ALIGN wraps to 0;
    the query of a link, which reads one message, always finishes. *)
Theorem netlink_loops_terminate buf len :
  bytes_ok buf → Z.of_nat (length buf) ≤ NETLINK_BUF_SIZE → no_wrap buf →
  (∀ h, bytes_ok (uninit h)) → (∀ h r, bytes_ok (data (env h r))) →
  (∀ af st, noblock (nlmsg_loop NLFUEL buf (route_msg env uninit af buf) 0 len st)) ∧
  (∀ af i st, noblock (nlmsg_loop NLFUEL buf (addr_msg af i buf) 0 len st)) ∧
  (∀ i st, noblock (nlmsg_loop NLFUEL buf (event_msg i buf) 0 len st)) ∧
  (∀ i info, noblock (get_netlink_link_info env uninit i info)).
Proof.
  intros Hb Hl Hw Hu Hd. unfold NETLINK_BUF_SIZE in Hl. split; [|split; [|split]].
  - intros af st. apply nlmsg_loop_noblock; [|done..|unfold NLFUEL; lia|done|unfold NLFUEL; lia].
    intros. by apply noblock_route_msg.
  - intros af i st. apply nlmsg_loop_noblock; [|done..|unfold NLFUEL; lia|done|unfold NLFUEL; lia].
    intros. by apply noblock_addr_msg.
  - intros i st. apply nlmsg_loop_noblock; [|done..|unfold NLFUEL; lia|done|unfold NLFUEL; lia].
    intros. apply noblock_event_msg.
  - intros i info. by apply noblock_link_info.
Qed.
End termination.

(** A message of 17 bytes, not a multiple of four, and then what an earlier
    datagram left in the buffer. *)
Definition unaligned_buffer : list Z :=
  le_bytes 4 17 ++ replicate 16 0 ++ replicate 4 255 ++ replicate 100 0.

(** Without the condition on the lengths parsing may not end: the 17 bytes of
    an event make the code go on behind them, and a stale length of 2^32 - 1
    there keeps it at the same place for ever. *)
Lemma unaligned_message_loops fuel s :
  nlmsg_loop (W := os_state) fuel unaligned_buffer (event_msg 0 unaligned_buffer) 0 17 false s = Block s.
Proof.
  assert (H : ∀ fuel, nlmsg_loop (W := os_state) fuel unaligned_buffer (event_msg 0 unaligned_buffer)
    20 (-3) false s = Block s).
  { clear fuel. induction fuel as [|fuel IH]; [done|]. cbn [nlmsg_loop].
    rewrite (bind_run _ _ s true s) by by vm_compute.
    rewrite (bind_run _ _ s (Next false) s) by by vm_compute.
    rewrite (bind_run _ _ s 4294967295 s) by by vm_compute. exact IH. }
  destruct fuel as [|fuel]; [done|]. cbn [nlmsg_loop].
  rewrite (bind_run _ _ s true s) by by vm_compute.
  rewrite (bind_run _ _ s (Next false) s) by by vm_compute.
  rewrite (bind_run _ _ s 17 s) by by vm_compute. apply H.
Qed.

(** ** The sockets are closed *)

(** How many times [fd] was opened more often than closed. *)
Definition fd_delta (fd : Z) (e : sysreq * answer) : Z :=
  match e.1 with
  | SysSocket _ _ _ => if (ret e.2 =? fd) && (0 <=? ret e.2) then 1 else 0
  | SysClose fd' => if fd' =? fd then -1 else 0
  | _ => 0
  end.
Definition open_count (fd : Z) (h : history) : Z := foldr (λ e z, fd_delta fd e + z) 0 h.

Definition one (d fd : Z) : Z := if d =? fd then 1 else 0.

Lemma open_count_app fd h1 h2 : open_count fd (h1 ++ h2) = open_count fd h1 + open_count fd h2.
Proof. unfold open_count. induction h1 as [|e h1 IH]; simpl; [done|]. rewrite IH. lia. Qed.

(** [m] changes the count of every descriptor by what [g] says of its result. *)
Definition shifts {X} (g : X → Z → Z) (m : M os_state X) : Prop := ∀ s,
  ends m s (λ x s', ∀ fd, open_count fd (trace s') = open_count fd (trace s) + g x fd).
Abbreviation neutral := (shifts (λ _ _, 0)).

Create HintDb neutral.

Section sockets.
Context (env : history → sysreq → answer) (uninit : history → list Z).

Lemma shifts_ret {X} (x : X) (g : X → Z → Z) : (∀ fd, g x fd = 0) → shifts g (mret x).
Proof. intros Hg s fd. rewrite Hg. lia. Qed.

Lemma shifts_bind {X Y} (m : M os_state X) (k : X → M os_state Y) g :
  neutral m → (∀ x, shifts g (k x)) → shifts g (x ← m; k x).
Proof.
  intros Hm Hk s. apply ends_bind. eapply ends_mono; [apply Hm|]. intros x s1 H1.
  eapply ends_mono; [apply Hk|]. intros y s2 H2 fd. rewrite H2, H1. lia.
Qed.

Lemma shifts_if {X} (b : bool) (m1 m2 : M os_state X) g :
  shifts g m1 → shifts g m2 → shifts g (if b then m1 else m2).
Proof. by destruct b. Qed.

Lemma neutral_fixed {X} (m : M os_state X) : (∀ s, ends m s (λ _ s', s' = s)) → neutral m.
Proof. intros H s. eapply ends_mono; [apply H|]. intros x s' -> fd. lia. Qed.
Lemma neutral_gets {X} (f : os_state → X) : neutral (gets f).
Proof. by apply neutral_fixed. Qed.
Lemma neutral_block {X} : neutral (block : M os_state X).
Proof. by apply neutral_fixed. Qed.
Lemma neutral_ret {X} (x : X) : neutral (mret x).
Proof. by apply shifts_ret. Qed.
Lemma neutral_ld n buf off : neutral (ld n buf off).
Proof. apply neutral_fixed. intros s. unfold ld. by destruct (_ && _). Qed.
Lemma neutral_ldb n buf off : neutral (ldb n buf off).
Proof. apply neutral_fixed. intros s. unfold ldb. by destruct (_ && _). Qed.

(** A call that is neither socket nor close. *)
Lemma neutral_sys r : (∀ fd a, fd_delta fd (r, a) = 0) → neutral (sys env r).
Proof.
  intros H s fd. cbn [sys trace]. rewrite open_count_app. cbn [open_count foldr]. rewrite H. lia.
Qed.

Lemma shifts_close {Y} d (k : answer → M os_state Y) g :
  (∀ a, shifts (λ y fd, g y fd + one d fd) (k a)) → shifts g (a ← sys env (SysClose d); k a).
Proof.
  intros Hk s. apply ends_bind. unfold sys, ends at 1.
  eapply ends_mono; [apply Hk|]. intros y s2 H2 fd. rewrite H2. cbn [trace].
  rewrite open_count_app. cbn [open_count foldr fd_delta fst]. unfold one. destruct (d =? fd); lia.
Qed.

Lemma shifts_socket {Y} p q t (k : answer → M os_state Y) g :
  (∀ a, ret a < 0 → shifts g (k a)) →
  (∀ a, 0 ≤ ret a → shifts (λ y fd, g y fd - one (ret a) fd) (k a)) →
  shifts g (a ← sys env (SysSocket p q t); k a).
Proof.
  intros Hk1 Hk2 s. apply ends_bind. unfold sys, ends at 1. set (a := env _ _).
  assert (Hc : ∀ fd, open_count fd (trace s ++ [(SysSocket p q t, a)]) =
    open_count fd (trace s) + if (0 <=? ret a) then one (ret a) fd else 0).
  { intros fd. rewrite open_count_app. cbn [open_count foldr fd_delta fst snd]. unfold one.
    destruct (ret a =? fd), (0 <=? ret a); simpl; lia. }
  destruct (Z.leb_spec 0 (ret a)) as [Ha|Ha].
  - eapply ends_mono; [by apply Hk2|]. intros y s2 H2 fd. rewrite H2. cbn [trace]. rewrite Hc. lia.
  - eapply ends_mono; [by apply Hk1|]. intros y s2 H2 fd. rewrite H2. cbn [trace]. rewrite Hc. lia.
Qed.

Lemma neutral_nlmsg_loop {T} fuel buf (body : Z → T → M os_state (ctl T)) nlh len st :
  (∀ nlh st, neutral (body nlh st)) → neutral (nlmsg_loop fuel buf body nlh len st).
Proof.
  intros Hb. revert nlh len st. induction fuel as [|fuel IH]; intros nlh len st; [apply neutral_block|].
  cbn [nlmsg_loop]. apply shifts_bind.
  { unfold NLMSG_OK, nlmsg_len. apply shifts_if; [|apply neutral_ret].
    apply shifts_bind; [apply neutral_ld|]. intros; apply neutral_ret. }
  intros ok. apply shifts_if; [|apply neutral_ret]. apply shifts_bind; [apply Hb|].
  intros [st'|st']; [|apply neutral_ret]. apply shifts_bind; [apply neutral_ld|]. intros; apply IH.
Qed.

Lemma neutral_rta_loop {T} fuel buf (body : Z → T → M os_state (ctl T)) rta len st :
  (∀ rta st, neutral (body rta st)) → neutral (rta_loop fuel buf body rta len st).
Proof.
  intros Hb. revert rta len st. induction fuel as [|fuel IH]; intros rta len st; [apply neutral_block|].
  cbn [rta_loop]. apply shifts_bind.
  { unfold RTA_OK, rta_len. apply shifts_if; [|apply neutral_ret].
    apply shifts_bind; [apply neutral_ld|]. intros; apply neutral_ret. }
  intros ok. apply shifts_if; [|apply neutral_ret]. apply shifts_bind; [apply Hb|].
  intros [st'|st']; [|apply neutral_ret]. apply shifts_bind; [apply neutral_ld|]. intros; apply IH.
Qed.

Ltac neutral :=
  repeat first
    [ simple apply neutral_ret | simple apply neutral_ld | simple apply neutral_ldb
    | simple apply neutral_gets | (simple apply neutral_sys; done)
    | simple apply neutral_nlmsg_loop; intros ? ? | simple apply neutral_rta_loop; intros ? ?
    | assumption | (progress eauto 2 with neutral)
    | simple apply shifts_if
    | (simple apply shifts_bind; [|intros ?])
    | match goal with |- shifts _ (let '(_, _) := ?x in _) => destruct x end
    | match goal with |- shifts _ (match ?x with _ => _ end) => destruct x end ].

(** The shape of every query: a socket, and what follows when there is one. *)
Lemma neutral_query {X} p q t (k1 : answer → M os_state X) (k2 : answer → M os_state X) :
  (∀ a, neutral (k1 a)) → (∀ a, shifts (λ _ fd, 0 - one (ret a) fd) (k2 a)) →
  neutral (a ← sys env (SysSocket p q t); if ret a <? 0 then k1 a else k2 a).
Proof.
  intros H1 H2. apply shifts_socket; intros a Ha; destruct (Z.ltb_spec (ret a) 0); try lia;
    [apply H1|apply H2].
Qed.

Lemma shifts_end {X} d (k : answer → M os_state X) :
  (∀ a, neutral (k a)) → shifts (λ _ fd, 0 - one d fd) (a ← sys env (SysClose d); k a).
Proof.
  intros Hk. apply shifts_close. intros a s. eapply ends_mono; [apply Hk|]. intros y s' H fd.
  rewrite H. lia.
Qed.

Lemma neutral_recv fd buf : neutral (recv env fd buf).
Proof. unfold recv. neutral. Qed.
Lemma neutral_new_buffer : neutral (new_buffer uninit).
Proof. apply neutral_gets. Qed.
Lemma neutral_type buf nlh : neutral (nlmsg_type buf nlh).
Proof. apply neutral_ld. Qed.
Lemma neutral_rta_type buf rta : neutral (rta_type_at buf rta).
Proof. apply neutral_ld. Qed.
Lemma neutral_rta_len buf rta : neutral (rta_len buf rta).
Proof. apply neutral_ld. Qed.
Lemma neutral_payload buf nlh hdr : neutral (NLMSG_PAYLOAD buf nlh hdr).
Proof. unfold NLMSG_PAYLOAD, nlmsg_len. neutral. Qed.
Lemma neutral_ok buf nlh len : neutral (NLMSG_OK buf nlh len).
Proof. unfold NLMSG_OK, nlmsg_len. neutral. Qed.
Hint Resolve neutral_recv neutral_new_buffer neutral_type neutral_rta_type neutral_rta_len
  neutral_payload neutral_ok : neutral.

Lemma neutral_online n : neutral (is_link_online env n).
Proof.
  unfold is_link_online. destruct n as [[|c n]|]; [neutral| |neutral].
  apply neutral_query; intros a; [neutral|]. apply shifts_bind; [neutral|]. intros r.
  apply shifts_if; apply shifts_end; intros; neutral.
Qed.

Lemma neutral_link_flags i : neutral (link_flags env uninit i).
Proof.
  unfold link_flags. apply neutral_query; intros a; [neutral|].
  apply shifts_bind; [neutral|]. intros r. apply shifts_if; [apply shifts_end; intros; neutral|].
  apply shifts_bind; [neutral|]. intros b. apply shifts_bind; [neutral|]. intros [len b'].
  apply shifts_end. intros. neutral.
Qed.
Hint Resolve neutral_online neutral_link_flags : neutral.

Lemma neutral_loopback i : neutral (netlink_is_loopback env uninit i).
Proof. unfold netlink_is_loopback. neutral. Qed.
Lemma neutral_pointtopoint i : neutral (netlink_is_pointtopoint env uninit i).
Proof. unfold netlink_is_pointtopoint. neutral. Qed.
Hint Resolve neutral_loopback neutral_pointtopoint : neutral.

Lemma neutral_route_msg af buf nlh st : neutral (route_msg env uninit af buf nlh st).
Proof. unfold route_msg, route_newroute, route_select, route_attr. neutral. Qed.
Lemma neutral_addr_msg af i buf nlh st : neutral (addr_msg af i buf nlh st).
Proof. unfold addr_msg, addr_newaddr, addr_attr. neutral. Qed.

(** A receive loop closes its socket exactly when it fails. *)
Definition closes_on_error {E X} (fd : Z) (m : M os_state (E + X)) : Prop :=
  shifts (λ x fd', match x with inl _ => 0 - one fd fd' | inr _ => 0 end) m.

Lemma route_recv_closes polls af fd buf st : closes_on_error fd (route_recv env uninit polls af fd buf st).
Proof.
  revert buf st. induction polls as [|polls IH]; intros buf st; [by intros s|]. cbn [route_recv].
  apply shifts_if; [by apply shifts_ret|]. apply shifts_bind; [neutral|]. intros [len b].
  apply shifts_if.
  - apply shifts_bind; [neutral|]. intros e. apply shifts_close. intros a. apply shifts_ret. lia.
  - apply shifts_bind; [apply neutral_nlmsg_loop; intros; apply neutral_route_msg|]. intros. apply IH.
Qed.
Lemma addr_recv_closes polls af i fd buf st : closes_on_error fd (addr_recv env polls af i fd buf st).
Proof.
  revert buf st. induction polls as [|polls IH]; intros buf st; [by intros s|]. cbn [addr_recv].
  apply shifts_if; [by apply shifts_ret|]. apply shifts_bind; [neutral|]. intros [len b].
  apply shifts_if.
  - apply shifts_bind; [neutral|]. intros e. apply shifts_close. intros a. apply shifts_ret. lia.
  - apply shifts_bind; [apply neutral_nlmsg_loop; intros; apply neutral_addr_msg|]. intros. apply IH.
Qed.

Lemma shifts_recv_end {E X Y} d (m : M os_state (E + X)) (k1 : E → M os_state Y)
    (k2 : X → answer → M os_state Y) :
  closes_on_error d m → (∀ e, neutral (k1 e)) → (∀ x a, neutral (k2 x a)) →
  shifts (λ _ fd, 0 - one d fd)
    (r ← m; match r with inl e => k1 e | inr x => a ← sys env (SysClose d); k2 x a end).
Proof.
  intros Hm H1 H2 s. apply ends_bind. eapply ends_mono; [apply Hm|]. intros [e|x] s1 Hs1.
  - eapply ends_mono; [apply H1|]. intros y s2 Hs2 fd. rewrite Hs2, Hs1. lia.
  - eapply ends_mono; [apply shifts_end, (H2 x)|]. intros y s2 Hs2 fd. rewrite Hs2, Hs1. lia.
Qed.

Lemma neutral_link_info i info : neutral (get_netlink_link_info env uninit i info).
Proof.
  destruct info as [info|]; unfold get_netlink_link_info; [|neutral].
  apply shifts_if; [neutral|]. apply neutral_query; intros a; [neutral|].
  apply shifts_bind; [neutral|]. intros r.
  apply shifts_if; [apply shifts_bind; [neutral|]; intros e; apply shifts_end; intros; neutral|].
  apply shifts_bind; [neutral|]. intros b. apply shifts_bind; [neutral|]. intros [len b'].
  apply shifts_end. intros c. unfold link_attr. neutral.
Qed.

Lemma listener_shifts :
  shifts (λ r fd, if 0 <=? r then one r fd else 0) (open_netlink_event_listener env).
Proof.
  unfold open_netlink_event_listener. apply shifts_socket; intros a Ha;
    destruct (Z.ltb_spec (ret a) 0); try lia; [by apply shifts_ret|].
  apply shifts_bind; [neutral|]. intros r. apply shifts_if.
  - apply shifts_close. intros c. apply shifts_ret. intros fd. change (0 <=? -1) with false. lia.
  - apply shifts_ret. intros fd. destruct (Z.leb_spec 0 (ret a)); lia.
Qed.

(** C33. No query leaks a socket or closes another's: whatever the kernel
    answers, failures included, every query that returns has closed exactly
    the sockets it opened; the event listener keeps one exactly when it
    returns it. *)
Theorem netlink_queries_close_sockets :
  (∀ polls af info, neutral (get_netlink_route_info env uninit polls af info)) ∧
  (∀ polls af i info, neutral (get_netlink_addr_info env uninit polls af i info)) ∧
  (∀ i info, neutral (get_netlink_link_info env uninit i info)) ∧
  (∀ n, neutral (is_link_online env n)) ∧
  (∀ i, neutral (netlink_is_loopback env uninit i)) ∧
  (∀ i, neutral (netlink_is_pointtopoint env uninit i)) ∧
  shifts (λ r fd, if 0 <=? r then one r fd else 0) (open_netlink_event_listener env).
Proof.
  split; [|split; [|split; [|split; [|split; [|split]]]]].
  - intros polls af [info|]; unfold get_netlink_route_info; [|neutral].
    apply shifts_if; [neutral|]. apply neutral_query; intros a; [neutral|].
    apply shifts_bind; [neutral|]. intros pid. apply shifts_bind; [neutral|]. intros r.
    apply shifts_if; [apply shifts_bind; [neutral|]; intros e; apply shifts_end; intros; neutral|].
    apply shifts_bind; [neutral|]. intros b.
    apply (shifts_recv_end _ _ (λ x, let '(e, st) := x in mret (e, Some (rs_info st)))
      (λ st _, mret (if rs_found st then 0 else ENODEV, Some (rs_info st))));
      [apply route_recv_closes|intros []; neutral|intros; neutral].
  - intros polls af i [info|]; unfold get_netlink_addr_info; [|neutral].
    apply shifts_if; [neutral|]. apply shifts_if; [neutral|]. apply neutral_query; intros a; [neutral|].
    apply shifts_bind; [neutral|]. intros pid. apply shifts_bind; [neutral|]. intros r.
    apply shifts_if; [apply shifts_bind; [neutral|]; intros e; apply shifts_end; intros; neutral|].
    apply shifts_bind; [neutral|]. intros b.
    apply (shifts_recv_end _ _ (λ x, let '(e, st) := x in mret (e, Some (as_info st)))
      (λ st _, mret (if as_found st then 0 else ENODEV, Some (as_info st))));
      [apply addr_recv_closes|intros []; neutral|intros; neutral].
  - apply neutral_link_info.
  - apply neutral_online.
  - apply neutral_loopback.
  - apply neutral_pointtopoint.
  - apply listener_shifts.
Qed.
End sockets.

(** ** Samples: a kernel with two default routes and one address *)
Module Sample.

Definition ipv4 (a b c d : Z) : list Z := [a; b; c; d].
Definition rtmsg (dst_len : Z) : list Z := [AF_INET; dst_len; 0; 0; RT_TABLE_MAIN; 3; 0; RTN_UNICAST; 0; 0; 0; 0].
Definition route (dst_len oif metric : Z) : nlmsg :=
  Nlmsg RTM_NEWROUTE 2 1 77 (rtmsg dst_len)
    [Attr RTA_GATEWAY (ipv4 10 0 0 oif); Attr RTA_OIF (le_bytes 4 oif);
     Attr RTA_PRIORITY (le_bytes 4 metric); Attr 7 [1; 2; 3]].
Definition done_msg : nlmsg := Nlmsg NLMSG_DONE 2 1 77 (replicate 4 0) [].
Definition route_dump : list (list nlmsg) :=
  [[route 0 2 600; route 24 3 5]; [route 0 3 100; done_msg; route 0 2 1]].

Definition ifaddrmsg (scope ifindex : Z) : list Z := [AF_INET; 24; 0; scope] ++ le_bytes 4 ifindex.
Definition address (scope ifindex d : Z) : nlmsg :=
  Nlmsg RTM_NEWADDR 2 1 77 (ifaddrmsg scope ifindex)
    [Attr IFA_ADDRESS (ipv4 10 0 0 d); Attr IFA_LOCAL (ipv4 10 0 0 d); Attr 3 [101; 116; 104; 48; 0]].
Definition addr_dump : list (list nlmsg) :=
  [[address RT_SCOPE_HOST 2 1; address 0 1 9]; [address 0 2 23; address 0 2 24; done_msg]].

Definition link_reply : list Z :=
  nlmsg_bytes (Nlmsg RTM_NEWLINK 0 1 77 (replicate 8 0 ++ le_bytes 4 0x41 ++ replicate 4 0) []).

Definition answer_of (r : Z) (d : list Z) (n : string) (f : Z) : answer := Answer r 0 d n f.
Definition env (dump : list (list nlmsg)) (h : history) (r : sysreq) : answer :=
  match r with
  | SysSocket _ _ _ => answer_of (match h with [] => 3 | _ => 4 end) [] "" 0
  | SysRecv fd _ =>
      answer_of 0 (if fd =? 3 then datagram (default [] (dump !! recvs 3 h)) else link_reply) "" 0
  | SysGetIfFlags _ _ => answer_of 0 [] "" 0x41
  | SysIfIndexToName i => answer_of 0 [] (if i =? 2 then "eth0" else "wlan0") 0
  | _ => answer_of 0 [] "" 0
  end.
Definition uninit_buffer : list Z := replicate (Z.to_nat 8192) 204.
Definition uninit (_ : history) : list Z := uninit_buffer.
Definition s0 : os_state := Os 0 [].

Definition view : link_view :=
  LinkView (λ i, i <=? 0) (λ i, i <=? 0) (λ i, if u32 i =? 2 then "eth0" else "wlan0")
    (λ n, match n with EmptyString => false | _ => true end).

Lemma uninit_full h : Z.of_nat (length (uninit h)) = NETLINK_BUF_SIZE.
Proof. unfold uninit, uninit_buffer. by rewrite length_replicate. Qed.

Lemma runs_sys env r {X} (k : answer → M os_state X) s (Q : X → os_state → Prop) :
  let a := env (trace s) r in
  runs (k a) (Os (if ret a <? 0 then err a else errno s) (trace s ++ [(r, a)])) Q →
  runs (a ← sys env r; k a) s Q.
Proof. done. Qed.

Lemma after_app fd s e h : recvs fd h = 0%nat → after fd s (Os e (trace s ++ h)).
Proof. intros H. split; [by apply prefix_app_r|]. cbn [trace]. rewrite recvs_app, H. lia. Qed.

Lemma take_reply : take (Z.to_nat NETLINK_BUF_SIZE) link_reply = link_reply.
Proof. by vm_compute. Qed.

Lemma recv_link dump buf s :
  runs (recv (env dump) 4 buf) s (λ x s', x = (Z.of_nat (length link_reply), wr 0 link_reply buf) ∧
                                          after 3 s s').
Proof.
  unfold recv. apply runs_sys. cbn [env answer_of ret data]. change (4 =? 3) with false. cbv iota.
  change (0 <? 0) with false. cbv iota. rewrite take_reply. unfold runs. split; [done|].
  by apply after_app.
Qed.

Definition link_buffer : list Z := wr 0 link_reply uninit_buffer.
Lemma link_ok s : NLMSG_OK (W := os_state) link_buffer 0 (Z.of_nat (length link_reply)) s = Ret true s.
Proof. by vm_compute. Qed.
Lemma link_type s : nlmsg_type (W := os_state) link_buffer 0 s = Ret RTM_NEWLINK s.
Proof. by vm_compute. Qed.
Lemma link_word s : ld (W := os_state) 4 link_buffer (NLMSG_DATA 0 + 8) s = Ret 0x41 s.
Proof. by vm_compute. Qed.
Lemma link_len : (Z.of_nat (length link_reply) <? 0) = false.
Proof. by vm_compute. Qed.

Lemma link_flags_run dump i s : trace s ≠ [] →
  runs (link_flags (env dump) uninit i) s (λ f s', f = Some 0x41 ∧ after 3 s s').
Proof.
  intros Hs. unfold link_flags. apply runs_sys.
  assert (E : env dump (trace s) (SysSocket AF_NETLINK SOCK_RAW NETLINK_ROUTE) = answer_of 4 [] "" 0)
    by (cbn; by destruct (trace s)).
  rewrite E. cbn [ret answer_of]. change (4 <? 0) with false. cbv iota.
  apply runs_sys. cbn [env ret answer_of]. change (0 <? 0) with false. cbv iota.
  apply runs_bind. unfold new_buffer, gets, runs at 1, uninit. set (s1 := Os _ _).
  apply runs_bind. eapply runs_mono; [apply recv_link|]. intros x s2 [-> H2]. fold link_buffer.
  apply runs_sys. rewrite link_len. set (s3 := Os _ _).
  assert (H3 : after 3 s s3).
  { trans s2; [trans s1; [|done]|by apply after_app]. unfold s1. cbn [trace].
    rewrite <- (assoc_L (++)). by apply after_app. }
  clearbody s3. clear s1 s2 H2. unfold runs.
  rewrite (bind_run _ _ s3 _ s3 (link_ok s3)). cbv iota.
  rewrite (bind_run _ _ s3 _ s3 (link_type s3)), Z.eqb_refl.
  rewrite (bind_run _ _ s3 _ s3 (link_word s3)). by split.
Qed.

Lemma opened_nonempty d s h : opened (env d) s `prefix_of` h → h ≠ [].
Proof. intros [k ->]. unfold opened. by destruct (trace s). Qed.

Lemma view_steady dump : steady (env dump) uninit view 3 (opened (env dump) s0).
Proof.
  split.
  - intros i s Hs%opened_nonempty. unfold netlink_is_loopback, view; simpl.
    destruct (i <=? 0); [by split|]. apply runs_bind. eapply runs_mono; [by apply link_flags_run|].
    intros f s' [-> H]. by split.
  - intros i s Hs%opened_nonempty. unfold netlink_is_pointtopoint, view; simpl.
    destruct (i <=? 0); [by split|]. apply runs_bind. eapply runs_mono; [by apply link_flags_run|].
    intros f s' [-> H]. by split.
  - intros i s Hs%opened_nonempty. unfold sys, runs. split; [done|]. by apply after_app.
  - intros [|c n] s Hs%opened_nonempty; [by split|]. unfold is_link_online. apply runs_sys.
    assert (E : env dump (trace s) (SysSocket AF_INET SOCK_DGRAM 0) = answer_of 4 [] "" 0)
      by (cbn; by destruct (trace s)).
    rewrite E. apply runs_sys. apply runs_sys. cbn [trace]. split; [done|].
    rewrite <- !(assoc_L (++)). by apply after_app.
Qed.

Lemma dump_recv dump : dumps (env dump) 3 (opened (env dump) s0) dump.
Proof.
  intros h k ms _ Hk Hms. cbn [env]. change (3 =? 3) with true. cbv iota. split; [done|].
  rewrite Hk. change (recvs 3 (opened _ _)) with 0%nat. cbn [data answer_of Nat.add]. by rewrite Hms.
Qed.

Definition nlmsg_okb (m : nlmsg) : bool :=
  bool_decide (in_u 16 (nl_type m)) && (Z.of_nat (length (header m)) mod 4 =? 0) &&
  bool_decide (bytes_ok (header m)) &&
  forallb (λ a, bool_decide (in_u 16 (rta_type a)) && (Z.of_nat (attr_len a) <? 65536) &&
                bool_decide (bytes_ok (payload a))) (attrs m) &&
  (Z.of_nat (length (nlmsg_bytes m)) <=? 8192).

Lemma nlmsg_okb_ok m : nlmsg_okb m = true → nlmsg_ok m.
Proof.
  unfold nlmsg_okb. rewrite !andb_true_iff, !bool_decide_eq_true, Z.leb_le, Z.eqb_eq.
  intros [[[[? Hh] ?] Ha] ?]. split; try done.
  - exists (Z.to_nat (Z.of_nat (length (header m)) / 4)). Z.div_mod_to_equations. lia.
  - rewrite forallb_forall in Ha. apply Forall_forall. intros a Hin%list_elem_of_In.
    specialize (Ha a Hin). rewrite !andb_true_iff, !bool_decide_eq_true, Z.ltb_lt in Ha.
    unfold attr_ok. tauto.
Qed.

Definition words_okb (ts : list Z) (a : attr) : bool :=
  negb (bool_decide (rta_type a ∈ ts)) || (4 <=? length (payload a))%nat.
Definition kernel_okb (type hdr : Z) (ts : list Z) (m : nlmsg) : bool :=
  nlmsg_okb m && (negb (nl_type m =? type) ||
    ((Z.of_nat (length (header m)) =? hdr) && forallb (words_okb ts) (attrs m))).

Lemma kernel_okb_ok type hdr ts m : kernel_okb type hdr ts m = true →
  nlmsg_ok m ∧ (nl_type m = type → length (header m) = Z.to_nat hdr ∧ Forall (word_attrs ts) (attrs m)).
Proof.
  intros [Hm%nlmsg_okb_ok H]%andb_true_iff. split; [done|]. intros Ht.
  rewrite Ht, Z.eqb_refl in H. simpl in H. apply andb_true_iff in H as [Hh Ha].
  split; [lia|]. rewrite forallb_forall in Ha. pose proof (ok_attrs _ Hm) as Hok.
  rewrite Forall_forall in *. intros a Hin. split; [by apply Hok|]. intros Hts.
  specialize (Ha a (proj1 (list_elem_of_In _ _) Hin)). unfold words_okb in Ha.
  rewrite bool_decide_true in Ha by done. simpl in Ha. by apply Nat.leb_le.
Qed.

Lemma kernel_dump_ok type hdr ts mss :
  forallb (forallb (kernel_okb type hdr ts)) mss = true →
  Forall (Forall (λ m, nlmsg_ok m ∧
    (nl_type m = type → length (header m) = Z.to_nat hdr ∧ Forall (word_attrs ts) (attrs m)))) mss.
Proof.
  rewrite forallb_forall. intros H. apply Forall_forall. intros ms Hms%list_elem_of_In.
  specialize (H ms Hms). rewrite forallb_forall in H. apply Forall_forall.
  intros m Hm%list_elem_of_In. by apply kernel_okb_ok, H.
Qed.

Lemma route_dump_ok : Forall (Forall route_ok) route_dump.
Proof. apply (kernel_dump_ok RTM_NEWROUTE 12 route_words). by vm_compute. Qed.
Lemma addr_dump_ok : Forall (Forall addr_ok) addr_dump.
Proof. apply (kernel_dump_ok RTM_NEWADDR 8 addr_words). by vm_compute. Qed.

Lemma dump_fits mss : forallb (λ ms, Z.of_nat (length (datagram ms)) <=? NETLINK_BUF_SIZE) mss = true →
  Forall fits mss.
Proof.
  rewrite forallb_forall. intros H. apply Forall_forall. intros ms Hms%list_elem_of_In.
  by apply Z.leb_le, H.
Qed.
Lemma route_dump_fits : Forall fits route_dump.
Proof. apply dump_fits. by vm_compute. Qed.
Lemma first_address :
  head (filter (λ m, is_addr AF_INET 2 m = true) (before_end (concat addr_dump))) =
  Some (address 0 2 23).
Proof. by vm_compute. Qed.
Lemma addr_dump_fits : Forall fits addr_dump.
Proof. apply dump_fits. by vm_compute. Qed.

Lemma route_dump_complete : complete route_dump.
Proof.
  apply complete_more; [by repeat constructor|]. apply complete_last. apply Exists_cons. right.
  by apply Exists_cons; left.
Qed.
Lemma addr_dump_complete : complete addr_dump.
Proof.
  apply complete_more; [by repeat constructor|]. apply complete_last. do 2 (apply Exists_cons; right).
  by apply Exists_cons; left.
Qed.

(** A buffer with a DONE message: every four bytes are a small number. *)
Definition done_buffer : list Z := nlmsg_bytes done_msg ++ replicate 20 0.
Lemma done_buffer_no_wrap : no_wrap done_buffer.
Proof.
  assert (H : forallb (λ off, rd off 4 done_buffer <? 4294967293) (seq 0 40) = true) by by vm_compute.
  rewrite forallb_forall in H. intros off Hoff. change (length done_buffer) with 40%nat in Hoff.
  apply Z.ltb_lt, H, List.in_seq. lia.
Qed.
Lemma zeros_ok n : bytes_ok (replicate n 0).
Proof. apply Forall_replicate. by vm_compute. Qed.
End Sample.

Lemma get_netlink_route_info_best_witness :
  ∃ r s', get_netlink_route_info (Sample.env Sample.route_dump) Sample.uninit 3 AF_INET
            (Some route_info0) Sample.s0 = Ret r s'.
Proof.
  assert (Hp : (length Sample.route_dump < 3)%nat) by (simpl; lia).
  assert (Hsend : ∀ h, opened (Sample.env Sample.route_dump) Sample.s0 `prefix_of` h →
    ∀ b, 0 ≤ ret (Sample.env Sample.route_dump h (SysSend 3 b))) by (intros h _ b; simpl; lia).
  assert (Hfd : 0 ≤ ret (Sample.env Sample.route_dump (trace Sample.s0) rtnl_socket)) by (simpl; lia).
  destruct (get_netlink_route_info_best (Sample.env Sample.route_dump) Sample.uninit Sample.uninit_full
    Sample.view 3 route_info0 Sample.s0 Sample.route_dump Hfd Hsend (Sample.view_steady _)
    (Sample.dump_recv _) Sample.route_dump_fits Sample.route_dump_ok Sample.route_dump_complete Hp)
    as (r & s' & E & _). exists r, s'. exact E.
Defined.

(** Of the sample's default routes the one of metric 100 is chosen; the route
    after the DONE message is not read. *)
Example sample_best :
  candidates Sample.view AF_INET (concat Sample.route_dump) =
  [RouteInfo 2 "eth0" 33554442 600; RouteInfo 3 "wlan0" 50331658 100].
Proof. by vm_compute. Qed.

Lemma get_netlink_addr_info_first_witness :
  ∃ i s', get_netlink_addr_info (Sample.env Sample.addr_dump) Sample.uninit 3 AF_INET 2
            (Some addr_info0) Sample.s0 = Ret (0, Some i) s' ∧ ai_mask i = mask_of_prefix 24.
Proof.
  assert (Hp : (length Sample.addr_dump < 3)%nat) by (simpl; lia).
  assert (Hsend : ∀ h, opened (Sample.env Sample.addr_dump) Sample.s0 `prefix_of` h →
    ∀ b, 0 ≤ ret (Sample.env Sample.addr_dump h (SysSend 3 b))) by (intros h _ b; simpl; lia).
  assert (Hfd : 0 ≤ ret (Sample.env Sample.addr_dump (trace Sample.s0) rtnl_socket)) by (simpl; lia).
  assert (Hi : 0 < 2) by lia.
  pose proof (get_netlink_addr_info_first (Sample.env Sample.addr_dump) Sample.uninit Sample.uninit_full
    3 2 addr_info0 Sample.s0 Sample.addr_dump Hi Hfd Hsend
    (Sample.dump_recv _) Sample.addr_dump_fits Sample.addr_dump_ok Sample.addr_dump_complete Hp) as H.
  cbv zeta in H. rewrite Sample.first_address in H.
  destruct H as (rc & i & s' & E & -> & _ & _ & H). exists i, s'. split; [exact E|].
  apply H. by vm_compute.
Defined.

Lemma netlink_loops_terminate_witness :
  noblock (nlmsg_loop NLFUEL Sample.done_buffer (event_msg 1 Sample.done_buffer) 0 20 false).
Proof.
  assert (Hb : bytes_ok Sample.done_buffer) by (apply (bool_decide_unpack _); by vm_compute).
  assert (Hl : Z.of_nat (length Sample.done_buffer) ≤ NETLINK_BUF_SIZE) by by vm_compute.
  assert (Hd : ∀ (h : history) (r : sysreq), bytes_ok (data (Answer 0 0 [] "" 0))) by (intros; constructor).
  destruct (netlink_loops_terminate (λ _ _, Answer 0 0 [] "" 0) (λ _, replicate 8 0) Sample.done_buffer 20
    Hb Hl Sample.done_buffer_no_wrap (λ _, Sample.zeros_ok 8) Hd) as (_ & _ & H & _).
  apply H.
Defined.
