(* ===== verification/DefaultWan.v ===== *)
(** * detect_default_wan of both engines: the interface the tunnel leaves by

    The queries are those of NetIface.v; [polls] bounds what each of the two
    dumps receives, [mem] is whether malloc finds memory, the parameters named
    [garbage] are what the locals hold before the queries fill them. *)
From stdpp Require Import prelude strings.
From Stdlib Require Import ZArith Lia.
From S2P Require Import Prelude Utils PktCtrl NetLink NetIface.

Record net_iface_t := NetIfaceT {
  ifindex : Z; ifname : string; wan_ip : Z; ip_str : string; wan_mask : Z; gateway : Z
}.

Section wan.
Context (env : history → sysreq → answer) (uninit : history → list Z).
Context (route_garbage : netlink_route_info_t) (addr_garbage : netlink_addr_info_t)
        (link_garbage : netlink_link_info_t).

(** The code, and the object [session->wan] is set to. *)
Definition detect_default_wan (polls : nat) (mem : bool) : M os_state (Z * option net_iface_t) :=
  '(rc, route) ← get_netlink_route_info env uninit polls AF_INET (Some route_garbage);
  let route_info := default route_garbage route in
  if rc =? 0 then
    '(rc, addr) ← get_netlink_addr_info env uninit polls AF_INET (ri_ifindex route_info) (Some addr_garbage);
    let addr_info := default addr_garbage addr in
    if rc =? 0 then
      '(rc, link) ← get_netlink_link_info env uninit (ri_ifindex route_info) (Some link_garbage);
      if rc =? 0 then
        if negb mem then mret (- ENOMEM, None)
        else
          mret (0, Some (NetIfaceT (ri_ifindex route_info) (ri_ifname route_info) (ai_ip addr_info)
                           (String.substring 0 (Z.to_nat (INET_ADDRSTRLEN - 1)) (ai_ip_str addr_info))
                           (ai_mask addr_info) (ri_gateway route_info)))
      else mret (- ECANCELED, None)
    else mret (- ECANCELED, None)
  else mret (- ECANCELED, None).
End wan.

Lemma ends_true {S A} (m : M S A) (s : S) (Q : A → S → Prop) : (∀ a s', Q a s') → ends m s Q.
Proof. intros H. unfold ends. destruct (m s); auto. Qed.

(** An interface is found exactly when the code is 0. *)
Lemma detect_default_wan_result env uninit rg ag lg polls mem s :
  ends (detect_default_wan env uninit rg ag lg polls mem) s
    (λ x _, (x.1 = 0 ∧ ∃ w, x.2 = Some w) ∨ (x.1 ≠ 0 ∧ x.2 = None)).
Proof.
  unfold detect_default_wan. apply ends_bind, ends_true. intros [rc route] s1.
  destruct (rc =? 0); [|by right]. apply ends_bind, ends_true. intros [rc2 addr] s2.
  destruct (rc2 =? 0); [|by right]. apply ends_bind, ends_true. intros [rc3 link] s3.
  destruct (rc3 =? 0); [|by right]. destruct mem; [left; eauto|by right].
Qed.

(** ** A kernel with one default route, through eth0 at 10.0.0.9 *)
Module Sample.
Definition sent_on (fd : Z) (h : history) : list Z :=
  default [] (last (omap (λ x, match x.1 with SysSend fd' b => if fd' =? fd then Some b else None | _ => None end) h)).
Definition route_dump : list nlmsg :=
  [Nlmsg RTM_NEWROUTE 2 1 77 ([AF_INET; 0; 0; 0; RT_TABLE_MAIN; 3; 0; RTN_UNICAST] ++ replicate 4 0)
     [Attr RTA_GATEWAY [10; 0; 0; 1]; Attr RTA_OIF (le_bytes 4 2); Attr RTA_PRIORITY (le_bytes 4 100)];
   Nlmsg NLMSG_DONE 2 1 77 (replicate 4 0) []].
Definition addr_dump : list nlmsg :=
  [Nlmsg RTM_NEWADDR 2 1 77 ([AF_INET; 24; 0; 0] ++ le_bytes 4 2)
     [Attr IFA_ADDRESS [10; 0; 0; 9]; Attr IFA_LOCAL [10; 0; 0; 9]];
   Nlmsg NLMSG_DONE 2 1 77 (replicate 4 0) []].
Definition link_reply : list nlmsg :=
  [Nlmsg RTM_NEWLINK 0 1 77 (replicate 4 0 ++ le_bytes 4 2 ++ le_bytes 4 0x41 ++ replicate 4 0)
     [Attr IFLA_MTU (le_bytes 4 1500); Attr IFLA_ADDRESS [2; 0; 0; 0; 0; 1]]].

Definition kernel (h : history) (r : sysreq) : answer :=
  match r with
  | SysSocket _ _ _ => Answer (3 + Z.of_nat (length h)) 0 [] "" 0
  | SysRecv fd _ =>
      let t := rd 4 2 (sent_on fd h) in
      Answer 0 0 (datagram (if t =? RTM_GETROUTE then route_dump
                            else if t =? RTM_GETADDR then addr_dump else link_reply)) "" 0
  | SysGetIfFlags _ _ => Answer 0 0 [] "" 0x41
  | SysIfIndexToName i => Answer 0 0 [] "eth0" 0
  | _ => Answer 0 0 [] "" 0
  end.
Definition uninit (_ : history) : list Z := replicate (Z.to_nat 8192) 204.
Definition route_garbage := RouteInfo 7 "garbage" 7 7.
Definition addr_garbage := AddrInfo 7 "garbage" 7 7 7.
Definition link_garbage := LinkInfo 7 [].
Definition wan : net_iface_t := NetIfaceT 2 "eth0" 150994954 "10.0.0.9" 16777215 16777226.
Definition detect := detect_default_wan kernel uninit route_garbage addr_garbage link_garbage 8 true.

Lemma detect_run : ∃ n, detect (Os 0 []) = Ret (0, Some wan) n.
Proof.
  assert (H : match detect (Os 0 []) with Ret x _ => Some x | _ => None end = Some (0, Some wan)) by by vm_compute.
  destruct (detect (Os 0 [])) as [x n| |]; [|done..]. injection H as ->. by exists n.
Qed.
Lemma detect_safe : safe detect (Os 0 []) (λ _ _, True).
Proof. destruct detect_run as [n E]. unfold safe. rewrite E. exact I. Qed.
End Sample.
