(* ===== verification/Tun.v ===== *)
(** * tun.c, tun_api.h, tun.h: the TUN interface handle

    The driver table is a record of optional functions, as the struct of
    function pointers; which table a handle points to is its [api].  The
    operations run on the handle and the trace of the system calls made.
    [null] is the test of the handle pointer, [option] strings are pointers. *)
From stdpp Require Import prelude strings.
From Stdlib Require Import ZArith Lia.
From S2P Require Import Prelude Utils.

Definition TUN_STATE_NONE : Z := 0.
Definition TUN_STATE_OPEN : Z := 1.
Definition TUN_STATE_IP_SET : Z := 2.
Definition TUN_STATE_MASK_SET : Z := 4.
Definition TUN_STATE_MTU_SET : Z := 8.
Definition TUN_STATE_UP : Z := 16.
Definition TUN_STATE_DNS_SET : Z := 32.
Definition TUN_STATE_READY : Z :=
  Z.lor TUN_STATE_OPEN (Z.lor TUN_STATE_IP_SET (Z.lor TUN_STATE_MASK_SET
    (Z.lor TUN_STATE_MTU_SET (Z.lor TUN_STATE_UP TUN_STATE_DNS_SET)))).

Inductive tun_api_table_type_t :=
| TUN_BACKEND_NETLINK_CLIENT
| TUN_BACKEND_NETLINK_SERVER
| TUN_BACKEND_IOCTL
| VPN_CUSTOM.

(** The two driver tables. *)
Inductive api_id := api_table_netlink_client | api_table_netlink_server.

(** sys_priv_data_t: the binaries found when the device was opened. *)
Record sys_priv_data_t := SysPriv {
  bin_sysctl : option string;
  bin_ip : option string;
  bin_resolvectl : option string;
  bin_iptables : option string;
  bin_iptables_restore : option string;
  bin_nft : option string
}.

Record tun_iface_t := TunIface {
  tun_fd : Z;
  sts_flags : Z;
  ifname : string;
  ip : Z;
  mask : Z;
  prefix : Z;
  net : Z;
  dns1 : Z;
  dns2 : Z;
  mtu : Z;
  api_type : tun_api_table_type_t;
  api : option api_id;
  priv_data : option sys_priv_data_t
}.

(** The requests made of the kernel and of helper programs. *)
Inductive sys :=
| SysOpenTun
| SysTunSetIff (fd : Z)
| SysSocket
| SysClose (fd : Z)
| SysSetAddr (sock : Z) (name : string) (addr : Z)
| SysSetNetmask (sock : Z) (name : string) (addr : Z)
| SysSetMtu (sock : Z) (name : string) (mtu : Z)
| SysGetFlags (sock : Z) (name : string)
| SysSetFlags (sock : Z) (name : string) (flags : Z)
| SysCommand (argv : list string)
| SysNft (bin : string) (script : string).

Record world := World { tun : tun_iface_t; trace : list sys }.

Definition upd_tun (f : tun_iface_t → tun_iface_t) (w : world) : world :=
  World (f (tun w)) (trace w).
Definition set_flags (f : Z) (t : tun_iface_t) : tun_iface_t :=
  TunIface (tun_fd t) f (ifname t) (ip t) (mask t) (prefix t) (net t) (dns1 t) (dns2 t) (mtu t)
    (api_type t) (api t) (priv_data t).

(** [sts_flags |= m] and [sts_flags &= ~m] on a uint64_t. *)
Definition flags_or (m : Z) : M world () :=
  modify (upd_tun (λ t, set_flags (Z.lor (sts_flags t) m) t)).
Definition flags_clear (m : Z) : M world () :=
  modify (upd_tun (λ t, set_flags (Z.land (sts_flags t) (u64 (Z.lnot m))) t)).

Record tun_api_table_t := ApiTable {
  t_open : option (M world Z);
  t_set_address : option (option string → option string → M world Z);
  t_set_mtu : option (Z → M world Z);
  t_set_up : option (M world Z);
  t_set_down : option (M world Z);
  t_add_route : option (option string → M world Z);
  t_flush_routes : option (M world Z);
  t_set_dns : option (option string → option string → M world Z);
  t_clear_dns : option (M world Z);
  t_ip_forwarding : option (bool → M world Z);
  t_server_rules_add : option (option string → M world Z);
  t_client_rules_add : option (option string → option string → Z → M world Z);
  t_rules_clear : option (M world Z);
  t_iptables_reset : option (M world Z);
  t_cleanup : option (M world Z)
}.

Definition get_sys_api (api_type : tun_api_table_type_t) : option api_id :=
  match api_type with
  | TUN_BACKEND_NETLINK_CLIENT => Some api_table_netlink_client
  | TUN_BACKEND_NETLINK_SERVER => Some api_table_netlink_server
  | TUN_BACKEND_IOCTL => None
  | VPN_CUSTOM => None
  end.

(** [strnlen] and the copy into a buffer of [dest_len] bytes; [src_max_len] is
    the size of the source array. *)
Definition safe_strcpy (dest : option string) (dest_len : Z) (src : option string)
    (src_max_len : Z) : Z * option string :=
  match dest, src with
  | Some d, Some s =>
      if dest_len =? 0 then (- EINVAL, Some d)
      else
        let actual_len := Z.min (Z.of_nat (String.length s)) src_max_len in
        if dest_len <=? actual_len then (- ENOBUFS, Some d)
        else (0, Some (String.substring 0 (Z.to_nat actual_len) s))
  | _, _ => (- EINVAL, dest)
  end.

Definition IFNAMSIZ : Z := 16.

(** ** Lifecycle *)

Definition tun_create (mem : bool) (t : tun_api_table_type_t) : option tun_iface_t :=
  if negb mem then None
  else
    match get_sys_api t with
    | None => None
    | Some api => Some (TunIface (-1) TUN_STATE_NONE "" 0 0 0 0 0 0 0 t (Some api) None)
    end.

Definition tun_start (null : bool) : M world Z :=
  if null then mret (- EINVAL)
  else
    w ← gets tun;
    match api w with
    | None => mret (- ENODEV)
    | Some _ =>
        if negb (Z.land (sts_flags w) TUN_STATE_READY =? TUN_STATE_READY)
        then mret (- ENODEV)
        else mret 0
    end.

(** The getters: the code and what is stored through a non-NULL out pointer. *)
Definition getter {A} (f : tun_iface_t → A) (tun : option tun_iface_t) (out : option A)
    : Z * option A :=
  match tun, out with
  | Some t, Some _ => (0, Some (f t))
  | _, _ => (- EINVAL, out)
  end.

Definition tun_get_flags := getter sts_flags.
Definition tun_get_fd := getter tun_fd.
Definition tun_get_mtu := getter mtu.
Definition tun_get_ip := getter ip.
Definition tun_get_dns1 := getter dns1.
Definition tun_get_dns2 := getter dns2.
Definition tun_get_mask := getter mask.
Definition net_of (t : tun_iface_t) : Z := Z.land (ip t) (mask t).
Definition tun_get_net := getter net_of.

Definition tun_get_ifname (tun : option tun_iface_t) (buf : option string) (buf_len : Z)
    : Z * option string :=
  match tun with
  | None => (- EINVAL, buf)
  | Some t => safe_strcpy buf buf_len (Some (ifname t)) IFNAMSIZ
  end.

Definition tun_get_ip_str (tun : option tun_iface_t) (buf : option string) (buf_len : Z) :=
  match tun with
  | None => (- EINVAL, buf)
  | Some t => in_addr_to_str (Some (ip t)) buf buf_len
  end.
Definition tun_get_mask_str (tun : option tun_iface_t) (buf : option string) (buf_len : Z) :=
  match tun with
  | None => (- EINVAL, buf)
  | Some t => in_addr_to_str (Some (mask t)) buf buf_len
  end.
Definition tun_get_net_str (tun : option tun_iface_t) (buf : option string) (buf_len : Z) :=
  match tun with
  | None => (- EINVAL, buf)
  | Some t => in_addr_to_str (Some (net_of t)) buf buf_len
  end.
Definition tun_get_ip_cidr (tun : option tun_iface_t) (buf : option string) (buf_len : Z) :=
  match tun with
  | None => (- EINVAL, buf)
  | Some t =>
      let p := mask_to_prefix (mask t) in
      if p <? 0 then (p, buf) else in_addr_to_cidr (Some (ip t)) (Some (mask t)) buf buf_len
  end.
Definition tun_get_net_cidr (tun : option tun_iface_t) (buf : option string) (buf_len : Z) :=
  match tun with
  | None => (- EINVAL, buf)
  | Some t => in_addr_to_cidr (Some (net_of t)) (Some (mask t)) buf buf_len
  end.

(** ** The wrappers over the driver

    [table] gives the contents of the driver tables. *)
Section wrappers.
Context (table : api_id → tun_api_table_t).

(** The DISPATCH_SYS_API macro followed by the call [k]. *)
Definition dispatch {A} (null : bool) (func_name : tun_api_table_t → option A)
    (k : A → M world Z) : M world Z :=
  if null then mret (- EINVAL)
  else
    t ← gets tun;
    match api t with
    | None => mret (- ENODEV)
    | Some a =>
        match func_name (table a) with
        | None => mret (- ENOSYS)
        | Some f => k f
        end
    end.

(** [int ret = call; if (ret == 0) { eff } return ret;] *)
Definition on_success (call : M world Z) (eff : M world ()) : M world Z :=
  ret ← call;
  (if ret =? 0 then eff else mret ());;
  mret ret.

Definition tun_destroy (null : bool) : M world Z :=
  if null then mret (- EINVAL)
  else
    t ← gets tun;
    match api t with
    | None => mret 0
    | Some a =>
        match t_cleanup (table a) with
        | None => fatal                       (* call through a NULL pointer *)
        | Some f => f;; mret 0
        end
    end.

Definition tun_open (null : bool) : M world Z :=
  dispatch null t_open (λ f, on_success f (flags_or TUN_STATE_OPEN)).
Definition tun_set_addr (null : bool) (ip mask : option string) : M world Z :=
  dispatch null t_set_address
    (λ f, on_success (f ip mask) (flags_or (Z.lor TUN_STATE_IP_SET TUN_STATE_MASK_SET))).
Definition tun_set_mtu (null : bool) (mtu : Z) : M world Z :=
  dispatch null t_set_mtu (λ f, on_success (f mtu) (flags_or TUN_STATE_MTU_SET)).
Definition tun_set_up (null : bool) : M world Z :=
  dispatch null t_set_up (λ f, on_success f (flags_or TUN_STATE_UP)).
Definition tun_set_down (null : bool) : M world Z :=
  dispatch null t_set_down (λ f, on_success f (flags_clear TUN_STATE_UP)).
Definition tun_set_dns (null : bool) (dns1 dns2 : option string) : M world Z :=
  dispatch null t_set_dns (λ f, on_success (f dns1 dns2) (flags_or TUN_STATE_DNS_SET)).
Definition tun_clear_dns (null : bool) : M world Z :=
  dispatch null t_clear_dns (λ f, on_success f (flags_clear TUN_STATE_DNS_SET)).
Definition tun_add_route (null : bool) (cidr : option string) : M world Z :=
  dispatch null t_add_route (λ f, f cidr).
Definition tun_flush_routes (null : bool) : M world Z :=
  dispatch null t_flush_routes (λ f, f).
Definition tun_ip_forwarding (null : bool) (enable : bool) : M world Z :=
  dispatch null t_ip_forwarding (λ f, f enable).
Definition tun_server_rules_add (null : bool) (wan_if : option string) : M world Z :=
  dispatch null t_server_rules_add (λ f, f wan_if).
Definition tun_client_rules_add (null : bool) (wan_if server_ip : option string) (port : Z)
    : M world Z :=
  dispatch null t_client_rules_add (λ f, f wan_if server_ip port).
Definition tun_rules_clear (null : bool) : M world Z :=
  dispatch null t_rules_clear (λ f, f).
Definition iptables_reset (null : bool) : M world Z :=
  dispatch null t_iptables_reset (λ f, f).

(** ** Sequences of operations on one handle *)

Inductive tun_op :=
| OpOpen
| OpSetAddr (ip mask : option string)
| OpSetMtu (mtu : Z)
| OpSetUp
| OpSetDown
| OpSetDns (dns1 dns2 : option string)
| OpClearDns
| OpAddRoute (cidr : option string)
| OpFlushRoutes
| OpIpForwarding (enable : bool)
| OpServerRules (wan : option string)
| OpClientRules (wan srv : option string) (port : Z)
| OpRulesClear
| OpReset.

Definition run_op (op : tun_op) : M world Z :=
  match op with
  | OpOpen => tun_open false
  | OpSetAddr ip mask => tun_set_addr false ip mask
  | OpSetMtu m => tun_set_mtu false m
  | OpSetUp => tun_set_up false
  | OpSetDown => tun_set_down false
  | OpSetDns d1 d2 => tun_set_dns false d1 d2
  | OpClearDns => tun_clear_dns false
  | OpAddRoute c => tun_add_route false c
  | OpFlushRoutes => tun_flush_routes false
  | OpIpForwarding b => tun_ip_forwarding false b
  | OpServerRules w => tun_server_rules_add false w
  | OpClientRules w s p => tun_client_rules_add false w s p
  | OpRulesClear => tun_rules_clear false
  | OpReset => iptables_reset false
  end.

(** The log of the operations and the codes they returned, latest last. *)
Fixpoint run_ops (ops : list tun_op) (log : list (tun_op * Z)) : M world (list (tun_op * Z)) :=
  match ops with
  | [] => mret log
  | op :: ops => r ← run_op op; run_ops ops (log ++ [(op, r)])
  end.
End wrappers.

(** What the wrappers rely on in a driver: its functions return, and leave the
    status flags and the table pointer of the handle alone. *)
Definition keeps (m : M world Z) : Prop :=
  ∀ w, ∃ r w', m w = Ret r w' ∧ sts_flags (tun w') = sts_flags (tun w) ∧ api (tun w') = api (tun w).

Class DriverOk (table : api_id → tun_api_table_t) : Prop := {
  keeps_open a f : t_open (table a) = Some f → keeps f;
  keeps_set_address a f ip mask : t_set_address (table a) = Some f → keeps (f ip mask);
  keeps_set_mtu a f m : t_set_mtu (table a) = Some f → keeps (f m);
  keeps_set_up a f : t_set_up (table a) = Some f → keeps f;
  keeps_set_down a f : t_set_down (table a) = Some f → keeps f;
  keeps_add_route a f c : t_add_route (table a) = Some f → keeps (f c);
  keeps_flush_routes a f : t_flush_routes (table a) = Some f → keeps f;
  keeps_set_dns a f d1 d2 : t_set_dns (table a) = Some f → keeps (f d1 d2);
  keeps_clear_dns a f : t_clear_dns (table a) = Some f → keeps f;
  keeps_ip_forwarding a f b : t_ip_forwarding (table a) = Some f → keeps (f b);
  keeps_server_rules a f w : t_server_rules_add (table a) = Some f → keeps (f w);
  keeps_client_rules a f w s p : t_client_rules_add (table a) = Some f → keeps (f w s p);
  keeps_rules_clear a f : t_rules_clear (table a) = Some f → keeps f;
  keeps_reset a f : t_iptables_reset (table a) = Some f → keeps f
}.

(** ** Lemmas *)

(** The status bits an operation sets and clears when it succeeds. *)
Definition sets (op : tun_op) : Z :=
  match op with
  | OpOpen => TUN_STATE_OPEN
  | OpSetAddr _ _ => Z.lor TUN_STATE_IP_SET TUN_STATE_MASK_SET
  | OpSetMtu _ => TUN_STATE_MTU_SET
  | OpSetUp => TUN_STATE_UP
  | OpSetDns _ _ => TUN_STATE_DNS_SET
  | _ => 0
  end.
Definition clears (op : tun_op) : Z :=
  match op with
  | OpSetDown => TUN_STATE_UP
  | OpClearDns => TUN_STATE_DNS_SET
  | _ => 0
  end.

Definition bits_after (op : tun_op) (r f : Z) (k : Z) : bool :=
  if r =? 0 then (Z.testbit f k && negb (Z.testbit (clears op) k)) || Z.testbit (sets op) k
  else Z.testbit f k.

Lemma testbit_clear m f k :
  0 ≤ k < 64 → Z.testbit (Z.land f (u64 (Z.lnot m))) k = Z.testbit f k && negb (Z.testbit m k).
Proof.
  intros Hk. rewrite Z.land_spec. f_equal. unfold u64, wrap.
  rewrite Z.mod_pow2_bits_low by lia. by rewrite Z.lnot_spec by lia.
Qed.

(** A driver call followed by the update of the flags. *)
Lemma on_success_run (call : M world Z) eff w :
  keeps call →
  ∃ r w1, call w = Ret r w1 ∧ sts_flags (tun w1) = sts_flags (tun w) ∧ api (tun w1) = api (tun w) ∧
    on_success call eff w = (if r =? 0 then eff;; mret r else mret r) w1.
Proof.
  intros Hc. destruct (Hc w) as (r & w1 & E & Hf & Ha). exists r, w1.
  do 3 (split; [done|]). unfold on_success, mbind, M_bind. rewrite E. by destruct (r =? 0).
Qed.

Section flags.
Context (table : api_id → tun_api_table_t) `{!DriverOk table}.

(** One operation: it returns, keeps the table pointer, and moves the bits. *)
Definition moves (op : tun_op) (m : M world Z) (w : world) : Prop :=
  ∃ r w', m w = Ret r w' ∧ api (tun w') = api (tun w) ∧
    ∀ k, 0 ≤ k < 64 →
      Z.testbit (sts_flags (tun w')) k = bits_after op r (sts_flags (tun w)) k.

Lemma moves_ext op m m' w : m w = m' w → moves op m' w → moves op m w.
Proof. unfold moves. by intros ->. Qed.

Lemma moves_none op w e : e ≠ 0 → moves op (mret e) w.
Proof.
  intros He. exists e, w. do 2 (split; [done|]). intros k Hk. unfold bits_after.
  by destruct (Z.eqb_spec e 0).
Qed.

Lemma moves_or op m call w :
  keeps call → sets op = m → clears op = 0 → moves op (on_success call (flags_or m)) w.
Proof.
  intros Hc <- Hcl. unfold moves, bits_after.
  destruct (on_success_run call (flags_or (sets op)) w Hc) as (r & w1 & E & Hf & Ha & ->).
  destruct (Z.eqb_spec r 0).
  - eexists _, _. split; [reflexivity|]. split; [done|]. intros k Hk. simpl.
    rewrite Z.lor_spec, Hf, Hcl, Z.bits_0. subst r. simpl. by rewrite andb_true_r.
  - eexists _, _. split; [reflexivity|]. split; [done|]. intros k Hk. rewrite Hf.
    by destruct (Z.eqb_spec r 0).
Qed.

Lemma moves_clear op m call w :
  keeps call → clears op = m → sets op = 0 → moves op (on_success call (flags_clear m)) w.
Proof.
  intros Hc <- Hs. unfold moves, bits_after.
  destruct (on_success_run call (flags_clear (clears op)) w Hc)
    as (r & w1 & E & Hf & Ha & ->).
  destruct (Z.eqb_spec r 0).
  - eexists _, _. split; [reflexivity|]. split; [done|]. intros k Hk. simpl.
    rewrite testbit_clear, Hf, Hs, Z.bits_0 by done. subst r. simpl. by rewrite orb_false_r.
  - eexists _, _. split; [reflexivity|]. split; [done|]. intros k Hk. rewrite Hf.
    by destruct (Z.eqb_spec r 0).
Qed.

Lemma moves_plain op call w :
  keeps call → sets op = 0 → clears op = 0 → moves op call w.
Proof.
  intros Hc Hs Hcl. destruct (Hc w) as (r & w1 & E & Hf & Ha). exists r, w1.
  do 2 (split; [done|]). intros k Hk. unfold bits_after.
  rewrite Hs, Hcl, Z.bits_0, Hf, andb_true_r, orb_false_r. by destruct (r =? 0).
Qed.

Lemma run_op_moves op a w : api (tun w) = Some a → moves op (run_op table op) w.
Proof.
  intros Ha.
  assert (Hd : ∀ {A} (fn : tun_api_table_t → option A) k,
    (∀ f, fn (table a) = Some f → moves op (k f) w) → moves op (dispatch table false fn k) w).
  { intros A fn k Hk.
    apply (moves_ext _ _ (match fn (table a) with Some f => k f | None => (mret (- ENOSYS) : M world Z) end)).
    - unfold dispatch, mbind, M_bind, gets. rewrite Ha. by destruct (fn (table a)).
    - destruct (fn (table a)) as [f|] eqn:E; [by apply Hk|]. by apply moves_none. }
  destruct op; apply Hd; intros f Hf.
  - apply moves_or; eauto using keeps_open.
  - apply moves_or; eauto using keeps_set_address.
  - apply moves_or; eauto using keeps_set_mtu.
  - apply moves_or; eauto using keeps_set_up.
  - apply moves_clear; eauto using keeps_set_down.
  - apply moves_or; eauto using keeps_set_dns.
  - apply moves_clear; eauto using keeps_clear_dns.
  - apply moves_plain; eauto using keeps_add_route.
  - apply moves_plain; eauto using keeps_flush_routes.
  - apply moves_plain; eauto using keeps_ip_forwarding.
  - apply moves_plain; eauto using keeps_server_rules.
  - apply moves_plain; eauto using keeps_client_rules.
  - apply moves_plain; eauto using keeps_rules_clear.
  - apply moves_plain; eauto using keeps_reset.
Qed.

(** [done_op k log]: the latest successful operation of [log] on bit [k] set it. *)
Definition done_op (k : Z) (log : list (tun_op * Z)) : Prop :=
  ∃ l1 op l2, log = l1 ++ (op, 0) :: l2 ∧ Z.testbit (sets op) k = true ∧
    Forall (λ x, x.2 = 0 → Z.testbit (clears x.1) k = false) l2.

Lemma done_op_snoc k log op r :
  done_op k (log ++ [(op, r)]) ↔
  (r = 0 ∧ Z.testbit (sets op) k = true) ∨
  (done_op k log ∧ (r = 0 → Z.testbit (clears op) k = false)).
Proof.
  split.
  - intros (l1 & o & l2 & E & Hs & Hc). destruct l2 as [|x l2] using rev_ind.
    + apply app_inj_tail in E as [_ E]. simplify_eq. by left.
    + clear IHl2. rewrite app_comm_cons, (assoc_L (++)) in E.
      apply app_inj_tail in E as [-> <-]. apply Forall_app in Hc as [Hc Hx].
      right. split; [by exists l1, o, l2|]. exact (proj1 (Forall_singleton _ _) Hx).
  - intros [[-> Hs]|[(l1 & o & l2 & -> & Hs & Hc) Hr]].
    + exists log, op, []. split; [done|]. by split.
    + exists l1, o, (l2 ++ [(op, r)]). rewrite <- (assoc_L (++)). split; [done|].
      split; [done|]. apply Forall_app. split; [done|]. by apply Forall_singleton.
Qed.

Lemma run_ops_bits ops a w log :
  api (tun w) = Some a →
  (∀ k, 0 ≤ k < 64 → Z.testbit (sts_flags (tun w)) k = true ↔ done_op k log) →
  ∃ log' w', run_ops table ops log w = Ret (log ++ log') w' ∧ api (tun w') = Some a ∧
    log'.*1 = ops ∧
    ∀ k, 0 ≤ k < 64 → Z.testbit (sts_flags (tun w')) k = true ↔ done_op k (log ++ log').
Proof.
  revert w log. induction ops as [|op ops IH]; intros w log Ha Hb.
  { exists [], w. rewrite app_nil_r. done. }
  destruct (run_op_moves op a w Ha) as (r & w1 & E & Ha1 & Hm).
  destruct (IH w1 (log ++ [(op, r)])) as (log' & w' & E' & Ha' & Hops & Hb').
  - congruence.
  - intros k Hk. rewrite Hm, done_op_snoc by done. unfold bits_after. specialize (Hb k Hk).
    destruct (Z.eqb_spec r 0) as [->|Hr].
    + rewrite orb_true_iff, andb_true_iff, negb_true_iff. naive_solver.
    + naive_solver.
  - exists ((op, r) :: log'), w'. rewrite <- (assoc_L (++)) in E', Hb'. split.
    { simpl. unfold mbind, M_bind. by rewrite E. }
    split; [done|]. split; [|done]. by rewrite fmap_cons, Hops.
Qed.

Lemma ready_bits f : Z.land f TUN_STATE_READY = TUN_STATE_READY ↔
  ∀ k, 0 ≤ k < 6 → Z.testbit f k = true.
Proof.
  change TUN_STATE_READY with (Z.ones 6). split.
  - intros E k Hk. assert (H : Z.testbit (Z.land f (Z.ones 6)) k = true).
    { rewrite E. apply Z.ones_spec_low. lia. }
    rewrite Z.land_spec in H. by apply andb_true_iff in H as [? _].
  - intros H. apply Z.bits_inj'. intros k Hk. rewrite Z.land_spec.
    destruct (decide (k < 6)).
    + rewrite H, Z.ones_spec_low by lia. done.
    + rewrite Z.ones_spec_high by lia. apply andb_false_r.
Qed.

(** The handle is ready exactly when it has been configured: after any
    sequence of operations on a new handle, whatever the kernel answered, all
    calls returned, and [tun_start] succeeds if and only if each of opening,
    addressing, MTU, link up and DNS had a successful call that no later
    successful tun_set_down or tun_clear_dns undid. *)
Theorem tun_start_iff_configured t tn tr ops :
  tun_create true t = Some tn →
  ∃ log w', run_ops table ops [] (World tn tr) = Ret log w' ∧ log.*1 = ops ∧
    (tun_start false w' = Ret 0 w' ↔ ∀ k, 0 ≤ k < 6 → done_op k log) ∧
    (tun_start false w' ≠ Ret 0 w' → tun_start false w' = Ret (- ENODEV) w').
Proof.
  intros Ht. unfold tun_create in Ht. simpl in Ht.
  destruct (get_sys_api t) as [a|] eqn:Ea; [|done]. injection Ht as <-.
  destruct (run_ops_bits ops a (World (TunIface (-1) TUN_STATE_NONE "" 0 0 0 0 0 0 0 t (Some a) None) tr) [])
    as (log & w' & E & Ha & Hops & Hb); [done| |].
  { intros k Hk. simpl. rewrite Z.bits_0. split; [done|]. intros (l1 & o & l2 & E & _).
    by destruct l1. }
  exists log, w'. split; [done|]. split; [done|]. simpl in Hb.
  unfold tun_start, mbind, M_bind, gets. rewrite Ha.
  destruct (Z.eqb_spec (Z.land (sts_flags (tun w')) TUN_STATE_READY) TUN_STATE_READY) as [Er|Er];
    simpl; (split; [|done]).
  - split; [|done]. intros _ k Hk. apply Hb; [lia|]. by apply ready_bits.
  - split; [done|]. intros H. exfalso. apply Er, ready_bits. intros k Hk. apply Hb; [lia|]. auto.
Qed.
End flags.
