(* ===== verification/TunDriver.v ===== *)
(** * tun_driver.c: the driver over ioctl, resolvectl, ip and nft

    What the kernel and the helper programs answer is a parameter: a request
    is answered as a function of the request and of the number of requests
    made before it, so a call may fail at one time and succeed at another.  A
    negative answer is minus the errno.  Every request is recorded in the
    trace of the handle's world. *)
From stdpp Require Import prelude strings pretty.
From Stdlib Require Import ZArith Lia Ascii.
From S2P Require Import Prelude Utils Tun.

(** ** inet_pton(AF_INET, ..), as the C library does it *)

Definition digit (c : ascii) : option Z :=
  let n := Z.of_nat (nat_of_ascii c) in
  if (48 <=? n) && (n <=? 57) then Some (n - 48) else None.

(** [octets] are the finished octets, latest first, [cur] the one being read. *)
Fixpoint pton_loop (s : string) (octets : list Z) (cur : option Z) : option (list Z) :=
  match s with
  | EmptyString => c ← cur; Some (c :: octets)
  | String ch s =>
      match digit ch with
      | Some d =>
          match cur with
          | None => pton_loop s octets (Some d)
          | Some 0 => None
          | Some c => let n := c * 10 + d in if 255 <? n then None else pton_loop s octets (Some n)
          end
      | None =>
          if Ascii.eqb ch (ascii_of_nat 46) && (Z.of_nat (length octets) <? 3) then
            c ← cur; pton_loop s (c :: octets) None
          else None
      end
  end.

(** The address in network byte order, or [None] for a malformed string. *)
Definition inet_pton (s : string) : option Z :=
  l ← pton_loop s [] None;
  match l with
  | [d; c; b; a] => Some (le_word [a; b; c; d])
  | _ => None
  end.

(** ** Setters of the handle's fields *)

Definition with_fd (v : Z) (t : tun_iface_t) : tun_iface_t :=
  TunIface v (sts_flags t) (ifname t) (ip t) (mask t) (prefix t) (net t) (dns1 t) (dns2 t) (mtu t)
    (api_type t) (api t) (priv_data t).
Definition with_ifname (v : string) (t : tun_iface_t) : tun_iface_t :=
  TunIface (tun_fd t) (sts_flags t) v (ip t) (mask t) (prefix t) (net t) (dns1 t) (dns2 t) (mtu t)
    (api_type t) (api t) (priv_data t).
Definition with_ip (v : Z) (t : tun_iface_t) : tun_iface_t :=
  TunIface (tun_fd t) (sts_flags t) (ifname t) v (mask t) (prefix t) (net t) (dns1 t) (dns2 t)
    (mtu t) (api_type t) (api t) (priv_data t).
Definition with_mask (v : Z) (t : tun_iface_t) : tun_iface_t :=
  TunIface (tun_fd t) (sts_flags t) (ifname t) (ip t) v (prefix t) (net t) (dns1 t) (dns2 t)
    (mtu t) (api_type t) (api t) (priv_data t).
Definition with_prefix (v : Z) (t : tun_iface_t) : tun_iface_t :=
  TunIface (tun_fd t) (sts_flags t) (ifname t) (ip t) (mask t) v (net t) (dns1 t) (dns2 t)
    (mtu t) (api_type t) (api t) (priv_data t).
Definition with_net (v : Z) (t : tun_iface_t) : tun_iface_t :=
  TunIface (tun_fd t) (sts_flags t) (ifname t) (ip t) (mask t) (prefix t) v (dns1 t) (dns2 t)
    (mtu t) (api_type t) (api t) (priv_data t).
Definition with_dns1 (v : Z) (t : tun_iface_t) : tun_iface_t :=
  TunIface (tun_fd t) (sts_flags t) (ifname t) (ip t) (mask t) (prefix t) (net t) v (dns2 t)
    (mtu t) (api_type t) (api t) (priv_data t).
Definition with_dns2 (v : Z) (t : tun_iface_t) : tun_iface_t :=
  TunIface (tun_fd t) (sts_flags t) (ifname t) (ip t) (mask t) (prefix t) (net t) (dns1 t) v
    (mtu t) (api_type t) (api t) (priv_data t).
Definition with_mtu (v : Z) (t : tun_iface_t) : tun_iface_t :=
  TunIface (tun_fd t) (sts_flags t) (ifname t) (ip t) (mask t) (prefix t) (net t) (dns1 t) (dns2 t)
    v (api_type t) (api t) (priv_data t).
Definition with_priv (v : option sys_priv_data_t) (t : tun_iface_t) : tun_iface_t :=
  TunIface (tun_fd t) (sts_flags t) (ifname t) (ip t) (mask t) (prefix t) (net t) (dns1 t) (dns2 t)
    (mtu t) (api_type t) (api t) v.

Definition put (f : tun_iface_t → tun_iface_t) : M world () := modify (upd_tun f).

(** ** run_nft_script *)

Inductive pipe_end := InRead | InWrite | ErrRead | ErrWrite.

#[export] Instance pipe_end_eq_dec : EqDecision pipe_end.
Proof. solve_decision. Defined.

(** What the kernel answers along one run: the errno of each pipe call, of
    the file actions, of the spawn (0 for none), the text the child writes to
    its standard error, and how the wait ends. *)
Record nft_run := NftRun {
  pipe1 : Z;
  pipe2 : Z;
  actions_init : Z;
  nft_spawn : Z;
  nft_stderr : string;
  nft_wait : Z + wait_status
}.

(** The code, and the descriptors opened and closed in the calling process.
    The text read from the child goes to [err_buf], cut to its size. *)
Definition run_nft_script (r : nft_run) (nft_bin ruleset : option string) (err_len : Z)
    : Z * string * list pipe_end * list pipe_end :=
  match nft_bin, ruleset with
  | Some _, Some _ =>
      if negb (pipe1 r =? 0) then (- pipe1 r, EmptyString, [], [])
      else if negb (pipe2 r =? 0) then
        (- pipe2 r, EmptyString, [InRead; InWrite], [InRead; InWrite])
      else
        let all := [InRead; InWrite; ErrRead; ErrWrite] in
        if negb (actions_init r =? 0) then (- actions_init r, EmptyString, all, all)
        else if negb (nft_spawn r =? 0) then (- nft_spawn r, EmptyString, all, all)
        else
          let err := if 0 <? err_len
                     then String.substring 0 (Z.to_nat (err_len - 1)) (nft_stderr r)
                     else EmptyString in
          let closed := [InRead; ErrWrite; InWrite; ErrRead] in
          match nft_wait r with
          | inl e => (- e, err, all, closed)
          | inr (Exited code) => ((if code =? 0 then 0 else - ECHILD), err, all, closed)
          | inr (Signaled _) => (- ECHILD, err, all, closed)
          | inr OtherStatus => (- ECHILD, err, all, closed)
          end
  | _, _ => (- EINVAL, EmptyString, [], [])
  end.

(** ** Rulesets *)

Definition nl : string := String (ascii_of_nat 10) EmptyString.
Definition quoted (s : string) : string :=
  String (ascii_of_nat 34) (s +:+ String (ascii_of_nat 34) EmptyString).

Definition server_ruleset (tun_if wan_if cidr : string) : string :=
  "table inet vpn_" +:+ tun_if +:+ " {" +:+ nl
  +:+ "    chain forward {" +:+ nl
  +:+ "        type filter hook forward priority filter; policy accept;" +:+ nl
  +:+ "        iifname " +:+ quoted tun_if +:+ " oifname " +:+ quoted wan_if +:+ " accept" +:+ nl
  +:+ "        iifname " +:+ quoted wan_if +:+ " oifname " +:+ quoted tun_if
      +:+ " ct state established,related accept" +:+ nl
  +:+ "    }" +:+ nl
  +:+ "    chain postrouting {" +:+ nl
  +:+ "        type nat hook postrouting priority srcnat; policy accept;" +:+ nl
  +:+ "        ip saddr " +:+ cidr +:+ " oifname " +:+ quoted wan_if +:+ " masquerade" +:+ nl
  +:+ "    }" +:+ nl
  +:+ "}" +:+ nl.

Definition client_ruleset (tun_if wan_if server_ip : string) (port : Z) : string :=
  "table inet vpn_ks_" +:+ tun_if +:+ " {" +:+ nl
  +:+ "    chain output {" +:+ nl
  +:+ "        type filter hook output priority filter; policy drop;" +:+ nl
  +:+ "        oifname " +:+ quoted "lo" +:+ " accept" +:+ nl
  +:+ "        oifname " +:+ quoted tun_if +:+ " accept" +:+ nl
  +:+ "        oifname " +:+ quoted wan_if +:+ " ip daddr " +:+ server_ip +:+ " udp dport "
      +:+ dec port +:+ " accept" +:+ nl
  +:+ "    }" +:+ nl
  +:+ "    chain input {" +:+ nl
  +:+ "        type filter hook input priority filter; policy drop;" +:+ nl
  +:+ "        iifname " +:+ quoted "lo" +:+ " accept" +:+ nl
  +:+ "        iifname " +:+ quoted tun_if +:+ " accept" +:+ nl
  +:+ "        ct state established,related accept" +:+ nl
  +:+ "    }" +:+ nl
  +:+ "}" +:+ nl.

(** ** The driver *)

Definition SIX_BINARIES : list (list string) := [
  ["/sbin/sysctl"; "/usr/sbin/sysctl"; "/bin/sysctl"; "/usr/bin/sysctl"];
  ["/sbin/ip"; "/usr/sbin/ip"; "/bin/ip"; "/usr/bin/ip"];
  ["/sbin/iptables"; "/usr/sbin/iptables"; "/bin/iptables"; "/usr/bin/iptables"];
  ["/sbin/iptables-restore"; "/usr/sbin/iptables-restore"; "/bin/iptables-restore";
   "/usr/bin/iptables-restore"];
  ["/usr/bin/resolvectl"; "/bin/resolvectl"];
  ["/usr/sbin/nft"; "/sbin/nft"; "/usr/bin/nft"; "/usr/local/sbin/nft"]
]%string.

Definition IFF_UP_RUNNING : Z := Z.lor 1 64.

Section driver.
Context (kern : sys → nat → Z).              (* answers of system calls *)
Context (kname : nat → string).              (* the name TUNSETIFF assigns *)
Context (proc : sys → nat → proc_run).       (* runs of helper programs *)
Context (nft : sys → nat → nft_run).         (* runs of nft *)
Context (access : string → bool) (mem : bool).

Definition now (w : world) : nat := length (trace w).
Definition record (c : sys) : M world () := modify (λ w, World (tun w) (trace w ++ [c])).

Definition syscall (c : sys) : M world Z :=
  n ← gets now;
  record c;;
  mret (kern c n).

(** [run_command] with the argument vector [argv], whose first element is the
    path. *)
Definition command (argv : list string) : M world Z :=
  n ← gets now;
  record (SysCommand argv);;
  mret (run_command (list.head argv) (proc (SysCommand argv) n)).

(** run_nft_script with a 256-byte error buffer; only its code matters to the
    callers. *)
Definition nft_script (bin : option string) (ruleset : string) : M world Z :=
  n ← gets now;
  let c := SysNft (default EmptyString bin) ruleset in
  record c;;
  mret (run_nft_script (nft c n) bin (Some ruleset) 256).1.1.1.

Definition init_priv_data (p : sys_priv_data_t) : Z * sys_priv_data_t :=
  match find_binary access (nth 0 SIX_BINARIES []) with
  | None => (- ENOENT, p)
  | Some b =>
  let p := SysPriv (Some b) (bin_ip p) (bin_resolvectl p) (bin_iptables p)
             (bin_iptables_restore p) (bin_nft p) in
  match find_binary access (nth 1 SIX_BINARIES []) with
  | None => (- ENOENT, p)
  | Some b =>
  let p := SysPriv (bin_sysctl p) (Some b) (bin_resolvectl p) (bin_iptables p)
             (bin_iptables_restore p) (bin_nft p) in
  match find_binary access (nth 2 SIX_BINARIES []) with
  | None => (- ENOENT, p)
  | Some b =>
  let p := SysPriv (bin_sysctl p) (bin_ip p) (bin_resolvectl p) (Some b)
             (bin_iptables_restore p) (bin_nft p) in
  match find_binary access (nth 3 SIX_BINARIES []) with
  | None => (- ENOENT, p)
  | Some b =>
  let p := SysPriv (bin_sysctl p) (bin_ip p) (bin_resolvectl p) (bin_iptables p)
             (Some b) (bin_nft p) in
  match find_binary access (nth 4 SIX_BINARIES []) with
  | None => (- ENOENT, p)
  | Some b =>
  let p := SysPriv (bin_sysctl p) (bin_ip p) (Some b) (bin_iptables p)
             (bin_iptables_restore p) (bin_nft p) in
  match find_binary access (nth 5 SIX_BINARIES []) with
  | None => (- ENOENT, p)
  | Some b =>
  (0, SysPriv (bin_sysctl p) (bin_ip p) (bin_resolvectl p) (bin_iptables p)
        (bin_iptables_restore p) (Some b))
  end end end end end end.

Definition sys_tun_open : M world Z :=
  fd ← syscall SysOpenTun;
  put (with_fd (if fd <? 0 then -1 else fd));;
  if fd <? 0 then mret fd
  else
    n ← gets now;
    r ← syscall (SysTunSetIff fd);
    if r <? 0 then
      syscall (SysClose fd);;                  (* tun_fd keeps the closed descriptor *)
      mret r
    else
      put (with_ifname (kname n));;
      if negb mem then mret (- ENOMEM)
      else
        let '(ret, priv) := init_priv_data (SysPriv None None None None None None) in
        if negb (ret =? 0) then mret ret
        else
          put (with_priv (Some priv));;
          mret 0.

Definition no_name (t : tun_iface_t) : bool := String.eqb (ifname t) EmptyString.

Definition sys_tun_set_address (ip_s mask_s : option string) : M world Z :=
  match ip_s, mask_s with
  | Some ip_s, Some mask_s =>
      match inet_pton ip_s with
      | None => mret (- EINVAL)
      | Some a =>
          put (with_ip a);;
          match inet_pton mask_s with
          | None => mret (- EINVAL)
          | Some m =>
              put (with_mask m);;
              if negb (validate_mask m) then mret (- EINVAL)
              else
                (* the field is a uint8_t, so the test [prefix < 0] never holds *)
                put (with_prefix (u8 (mask_to_prefix m)));;
                put (λ t, with_net (Z.land (ip t) (mask t)) t);;
                sock ← syscall SysSocket;
                if sock <? 0 then mret sock
                else
                  t ← gets tun;
                  if no_name t then
                    syscall (SysClose sock);;
                    mret (- EINVAL)
                  else
                    r ← syscall (SysSetAddr sock (ifname t) (ip t));
                    if r <? 0 then
                      syscall (SysClose sock);;
                      mret r
                    else
                      r ← syscall (SysSetNetmask sock (ifname t) (mask t));
                      if r <? 0 then
                        syscall (SysClose sock);;
                        mret 0                   (* [return err] with err still 0 *)
                      else
                        syscall (SysClose sock);;
                        mret 0
          end
      end
  | _, _ => mret (- EINVAL)
  end.

Definition sys_tun_set_mtu (m : Z) : M world Z :=
  t ← gets tun;
  if no_name t || (m <? 256) || (1380 <? m) then mret (- EINVAL)
  else
    sock ← syscall SysSocket;
    if sock <? 0 then mret sock
    else
      put (with_mtu m);;
      r ← syscall (SysSetMtu sock (ifname t) m);
      syscall (SysClose sock);;
      mret (if r <? 0 then r else 0).

(** SIOCGIFFLAGS then SIOCSIFFLAGS, with [f] applied to the flags. *)
Definition change_flags (f : Z → Z) : M world Z :=
  t ← gets tun;
  if no_name t then mret (- EINVAL)
  else
    sock ← syscall SysSocket;
    if sock <? 0 then mret sock
    else
      flags ← syscall (SysGetFlags sock (ifname t));
      if flags <? 0 then
        syscall (SysClose sock);;
        mret flags
      else
        r ← syscall (SysSetFlags sock (ifname t) (f flags));
        syscall (SysClose sock);;
        mret (if r <? 0 then r else 0).

Definition sys_tun_set_up : M world Z := change_flags (λ fl, Z.lor fl IFF_UP_RUNNING).
Definition sys_tun_set_down : M world Z := change_flags (λ fl, Z.land fl (Z.lnot IFF_UP_RUNNING)).

Definition empty_str (s : string) : bool := String.eqb s EmptyString.

Definition sys_tun_set_dns (dns1_str dns2_str : option string) : M world Z :=
  t ← gets tun;
  match dns1_str, dns2_str with
  | Some d1, Some d2 =>
      if no_name t || empty_str d1 || empty_str d2 then mret (- EINVAL)
      else
        match priv_data t ≫= bin_resolvectl with
        | None => mret (- EINVAL)
        | Some bin =>
            match inet_pton d1 with
            | None => mret (- EINVAL)
            | Some a1 =>
                put (with_dns1 a1);;
                match inet_pton d2 with
                | None => mret (- EINVAL)
                | Some a2 =>
                    put (with_dns2 a2);;
                    ret ← command [bin; "dns"; ifname t; d1; d2]%string;
                    if negb (ret =? 0) then mret ret
                    else
                      ret ← command [bin; "domain"; ifname t; "~"]%string;
                      if negb (ret =? 0) then mret ret else mret 0
                end
            end
        end
  | _, _ => mret (- EINVAL)
  end.

Definition sys_tun_add_route (cidr : option string) : M world Z :=
  t ← gets tun;
  match cidr with
  | None => mret (- EINVAL)
  | Some c =>
      if no_name t || empty_str c then mret (- EINVAL)
      else
        match priv_data t ≫= bin_ip with
        | None => mret (- EINVAL)
        | Some bin =>
            ret ← command [bin; "route"; "replace"; c; "dev"; ifname t]%string;
            if negb (ret =? 0) then mret ret else mret 0
        end
  end.

Definition sys_tun_flush_routes : M world Z :=
  t ← gets tun;
  if no_name t then mret (- EINVAL)
  else
    match priv_data t ≫= bin_ip with
    | None => mret (- EINVAL)
    | Some bin =>
        command [bin; "route"; "flush"; "dev"; ifname t; "table"; "all"]%string;;
        mret 0
    end.

Definition sys_tun_clear_dns : M world Z :=
  t ← gets tun;
  if no_name t then mret (- EINVAL)
  else
    match priv_data t ≫= bin_resolvectl with
    | None => mret (- EINVAL)
    | Some bin =>
        command [bin; "domain"%string; ifname t; EmptyString];;
        command [bin; "dns"%string; ifname t; EmptyString];;
        mret 0
    end.

(** The link is taken down by name; errors are remembered and do not stop the
    release of the descriptor and the private data. *)
Definition cleanup_link : M world Z :=
  t ← gets tun;
  if no_name t then mret 0
  else
    sock ← syscall SysSocket;
    if sock <? 0 then mret sock
    else
      flags ← syscall (SysGetFlags sock (ifname t));
      r ← (if flags <? 0 then mret flags
           else syscall (SysSetFlags sock (ifname t) (Z.land flags (Z.lnot IFF_UP_RUNNING))));
      syscall (SysClose sock);;
      mret (if r <? 0 then r else 0).

Definition sys_tun_cleanup : M world Z :=
  ret ← cleanup_link;
  t ← gets tun;
  ret ← (if 0 <=? tun_fd t then
           r ← syscall (SysClose (tun_fd t));
           put (with_fd (-1));;
           mret (if r <? 0 then r else ret)
         else mret ret);
  put (with_priv None);;
  mret ret.

Definition server_sys_tun_ip_forwarding (enable : bool) : M world Z :=
  t ← gets tun;
  match priv_data t ≫= bin_sysctl with
  | None => mret (- EINVAL)
  | Some bin =>
      ret ← command [bin; "-w"; (if enable then "net.ipv4.ip_forward=1"
                                 else "net.ipv4.ip_forward=0")]%string;
      if negb (ret =? 0) then mret ret else mret 0
  end.

(** [priv->bin_path.nft] is read without a check, and run_nft_script refuses
    NULL. *)
Definition run_nft (ruleset : string) : M world Z :=
  t ← gets tun;
  match priv_data t with
  | None => mret (- ECANCELED)
  | Some p => nft_script (bin_nft p) ruleset
  end.

(** [wan_if] is passed to printf unchecked; glibc prints a NULL string as
    "(null)". *)
Definition printf_str (s : option string) : string := default "(null)"%string s.

Definition syt_server_rules_add_nft (wan_if : option string) : M world Z :=
  t ← gets tun;
  match in_addr_to_cidr (Some (ip t)) (Some (mask t)) (Some EmptyString) INET_CIDRSTRLEN with
  | (rc, cidr) =>
      if negb (rc =? 0) then mret (- EINVAL)
      else
        run_nft (snprintf 1024 (server_ruleset (ifname t) (printf_str wan_if)
                                  (default EmptyString cidr)) EmptyString)
  end.

Definition sys_server_rules_del_nft : M world Z :=
  t ← gets tun;
  if no_name t then mret (- EINVAL)
  else run_nft (snprintf 256 ("destroy table inet vpn_" +:+ ifname t +:+ nl) EmptyString).

Definition syt_client_rules_add_nft (wan_if server_ip : option string) (port : Z) : M world Z :=
  t ← gets tun;
  match wan_if, server_ip with
  | Some wan, Some srv =>
      if port =? 0 then mret (- EINVAL)
      else run_nft (snprintf 1024 (client_ruleset (ifname t) wan srv port) EmptyString)
  | _, _ => mret (- EINVAL)
  end.

Definition syt_client_rules_del_nft : M world Z :=
  t ← gets tun;
  if no_name t then mret (- EINVAL)
  else run_nft (snprintf 256 ("destroy table inet vpn_ks_" +:+ ifname t +:+ nl) EmptyString).

Definition sys_iptables_reset_nft : M world Z := run_nft ("flush ruleset" +:+ nl).

Definition table_netlink_server : tun_api_table_t := {|
  t_open := Some sys_tun_open;
  t_set_address := Some sys_tun_set_address;
  t_set_mtu := Some sys_tun_set_mtu;
  t_set_up := Some sys_tun_set_up;
  t_set_down := Some sys_tun_set_down;
  t_add_route := Some sys_tun_add_route;
  t_flush_routes := Some sys_tun_flush_routes;
  t_set_dns := Some sys_tun_set_dns;
  t_clear_dns := Some sys_tun_clear_dns;
  t_ip_forwarding := Some server_sys_tun_ip_forwarding;
  t_server_rules_add := Some syt_server_rules_add_nft;
  t_client_rules_add := None;
  t_rules_clear := Some sys_server_rules_del_nft;
  t_cleanup := Some sys_tun_cleanup;
  t_iptables_reset := Some sys_iptables_reset_nft
|}.

Definition table_netlink_client : tun_api_table_t := {|
  t_open := Some sys_tun_open;
  t_set_address := Some sys_tun_set_address;
  t_set_mtu := Some sys_tun_set_mtu;
  t_set_up := Some sys_tun_set_up;
  t_set_down := Some sys_tun_set_down;
  t_add_route := Some sys_tun_add_route;
  t_flush_routes := Some sys_tun_flush_routes;
  t_set_dns := Some sys_tun_set_dns;
  t_clear_dns := Some sys_tun_clear_dns;
  t_ip_forwarding := None;
  t_server_rules_add := None;
  t_client_rules_add := Some syt_client_rules_add_nft;
  t_rules_clear := Some syt_client_rules_del_nft;
  t_cleanup := Some sys_tun_cleanup;
  t_iptables_reset := None
|}.

Definition driver_table (a : api_id) : tun_api_table_t :=
  match a with
  | api_table_netlink_client => table_netlink_client
  | api_table_netlink_server => table_netlink_server
  end.
End driver.

(** ** What every driver operation leaves alone *)

(** [pres I m]: the computation [m] returns, and what [I] observes of the
    state is unchanged. *)
Definition pres {A B} (I : world → B) (m : M world A) : Prop :=
  ∀ w, ∃ a w', m w = Ret a w' ∧ I w' = I w.

Lemma pres_ret {A B} (I : world → B) (a : A) : pres I (mret a).
Proof. intros w. by exists a, w. Qed.

Lemma pres_bind {A B C} (I : world → C) (m : M world A) (k : A → M world B) :
  pres I m → (∀ a, pres I (k a)) → pres I (m ≫= k).
Proof.
  intros Hm Hk w. destruct (Hm w) as (a & w1 & E & HI).
  destruct (Hk a w1) as (b & w2 & E2 & HI2). exists b, w2.
  unfold mbind, M_bind. rewrite E. split; [done|congruence].
Qed.

Lemma pres_gets {A B} (I : world → B) (f : world → A) : pres I (gets f).
Proof. intros w. by exists (f w), w. Qed.

Lemma pres_put {B} (I : world → B) f :
  (∀ w, I (upd_tun f w) = I w) → pres I (put f).
Proof. intros H w. exists (), (upd_tun f w). split; [done|apply H]. Qed.

Lemma pres_if {A B} (I : world → B) (b : bool) (m1 m2 : M world A) :
  pres I m1 → pres I m2 → pres I (if b then m1 else m2).
Proof. by destruct b. Qed.

Definition fixed (w : world) : Z * option api_id := (sts_flags (tun w), api (tun w)).

Lemma pres_fixed_keeps m : pres fixed m → keeps m.
Proof. intros H w. destruct (H w) as (r & w' & E & [= ? ?]). by exists r, w'. Qed.

Section driver_ok.
Context (kern : sys → nat → Z) (kname : nat → string) (proc : sys → nat → proc_run).
Context (nft : sys → nat → nft_run) (access : string → bool) (mem : bool).

Lemma pres_syscall {B} (I : world → B) c :
  (∀ w, I (World (tun w) (trace w ++ [c])) = I w) → pres I (syscall kern c).
Proof. intros H w. by exists (kern c (now w)), (World (tun w) (trace w ++ [c])). Qed.
Lemma pres_command {B} (I : world → B) argv :
  (∀ w, I (World (tun w) (trace w ++ [SysCommand argv])) = I w) → pres I (command proc argv).
Proof. intros H w. eexists _, _. split; [reflexivity|apply H]. Qed.
Lemma pres_nft_script {B} (I : world → B) bin s :
  (∀ w, I (World (tun w) (trace w ++ [SysNft (default EmptyString bin) s])) = I w) →
  pres I (nft_script nft bin s).
Proof.
  intros H w. eexists. exists (World (tun w) (trace w ++ [SysNft (default EmptyString bin) s])).
  split; [|apply H]. unfold nft_script, mbind, M_bind, gets. simpl. reflexivity.
Qed.
End driver_ok.

(** Follows the shape of a driver function down to its requests. *)
Ltac pres_step :=
  match goal with
  | |- pres _ (mret _) => apply pres_ret
  | |- pres _ (gets _) => apply pres_gets
  | |- pres _ (put _) => apply pres_put; by intros []
  | |- pres _ (syscall _ _) => apply pres_syscall; by intros []
  | |- pres _ (command _ _) => apply pres_command; by intros []
  | |- pres _ (nft_script _ _ _) => apply pres_nft_script; by intros []
  | |- pres _ (_ ≫= _) => apply pres_bind; [|intros ?]
  | |- pres _ (if _ then _ else _) => apply pres_if
  | |- pres _ (match ?x with _ => _ end) => destruct x
  | |- pres _ (let '(_, _) := ?x in _) => destruct x
  end.
Ltac pres := repeat pres_step.

#[export] Instance driver_ok kern kname proc nft access mem :
  DriverOk (driver_table kern kname proc nft access mem).
Proof.
  split; intros []; simpl; intros; simplify_eq; apply pres_fixed_keeps;
  unfold sys_tun_open, sys_tun_set_address, sys_tun_set_mtu, sys_tun_set_up, sys_tun_set_down,
    change_flags, sys_tun_set_dns, sys_tun_add_route, sys_tun_flush_routes, sys_tun_clear_dns,
    server_sys_tun_ip_forwarding, syt_server_rules_add_nft, sys_server_rules_del_nft,
    syt_client_rules_add_nft, syt_client_rules_del_nft, sys_iptables_reset_nft, run_nft; pres.
Qed.

(** ** Descriptors

    [held] are the descriptors open after a trace, the latest first; [None]
    once a descriptor that is not open has been closed. *)
Section descriptors.
Context (kern : sys → nat → Z) (kname : nat → string) (proc : sys → nat → proc_run).
Context (nft : sys → nat → nft_run) (access : string → bool) (mem : bool).

(** The first occurrence of [x] is taken out. *)
Fixpoint take_out (x : Z) (l : list Z) : option (list Z) :=
  match l with
  | [] => None
  | y :: l => if x =? y then Some l else cons y <$> take_out x l
  end.

Definition fd_step (st : option (list Z) * nat) (c : sys) : option (list Z) * nat :=
  let '(h, n) := st in
  (match c with
   | SysOpenTun | SysSocket =>
       let r := kern c n in if r <? 0 then h else cons r <$> h
   | SysClose fd => h ≫= take_out fd
   | _ => h
   end, S n).

Definition fd_run (tr : list sys) : option (list Z) * nat := foldl fd_step (Some [], O) tr.
Definition held (w : world) : option (list Z) := (fd_run (trace w)).1.

Lemma fd_run_length tr : (fd_run tr).2 = length tr.
Proof.
  induction tr as [|c tr IH] using rev_ind; [done|].
  unfold fd_run in *. rewrite foldl_snoc. destruct (foldl _ _ tr). simpl in *.
  rewrite length_app, IH. simpl. lia.
Qed.

Lemma held_snoc t tr c :
  held (World t (tr ++ [c])) = (fd_step (held (World t tr), length tr) c).1.
Proof.
  unfold held. simpl. unfold fd_run. rewrite foldl_snoc. fold (fd_run tr).
  rewrite <- fd_run_length. by destruct (fd_run tr).
Qed.

(** What an operation that opens no descriptor for good leaves alone. *)
Definition fds (w : world) : option (list Z) * Z := (held w, tun_fd (tun w)).

Definition quiet (c : sys) : bool :=
  match c with SysOpenTun | SysSocket | SysClose _ => false | _ => true end.

Lemma fds_record c w : quiet c = true → fds (World (tun w) (trace w ++ [c])) = fds w.
Proof. intros Hc. unfold fds. rewrite held_snoc. destruct w. by destruct c. Qed.

(** [m] closes [fd], the descriptor opened last, and leaves the rest alone. *)
Definition releases {A} (fd : Z) (m : M world A) : Prop :=
  ∀ w h, held w = cons fd <$> h →
    ∃ a w', m w = Ret a w' ∧ held w' = h ∧ tun_fd (tun w') = tun_fd (tun w).

Lemma releases_bind {A B} fd (m : M world A) (k : A → M world B) :
  pres fds m → (∀ a, releases fd (k a)) → releases fd (m ≫= k).
Proof.
  intros Hm Hk w h Hw. destruct (Hm w) as (a & w1 & E & [= Hh Ht]).
  destruct (Hk a w1 h) as (b & w2 & E2 & Hh2 & Ht2); [congruence|].
  exists b, w2. unfold mbind, M_bind. rewrite E. split; [done|]. split; [done|congruence].
Qed.

Lemma releases_close {A} fd (m : M world A) :
  pres fds m → releases fd (syscall kern (SysClose fd);; m).
Proof.
  intros Hm w h Hw. set (w1 := World (tun w) (trace w ++ [SysClose fd])).
  assert (Hw1 : held w1 = h).
  { unfold w1. rewrite held_snoc. simpl. change (held (World (tun w) (trace w))) with (held w).
    rewrite Hw. destruct h as [h|]; simpl; [|done]. by rewrite Z.eqb_refl. }
  destruct (Hm w1) as (a & w2 & E & [= Hh Ht]). exists a, w2.
  split; [exact E|]. split; [congruence|exact Ht].
Qed.

Lemma releases_if {A} fd (b : bool) (m1 m2 : M world A) :
  releases fd m1 → releases fd m2 → releases fd (if b then m1 else m2).
Proof. by destruct b. Qed.

Lemma pres_socket {A} (e : Z → M world A) (k : Z → M world A) :
  (∀ s, pres fds (e s)) → (∀ s, releases s (k s)) →
  pres fds (sock ← syscall kern SysSocket; if sock <? 0 then e sock else k sock).
Proof.
  intros He Hk w. set (r := kern SysSocket (now w)).
  set (w1 := World (tun w) (trace w ++ [SysSocket])).
  change ((sock ← syscall kern SysSocket; if sock <? 0 then e sock else k sock) w)
    with ((if r <? 0 then e r else k r) w1).
  assert (Hw1 : held w1 = if r <? 0 then held w else cons r <$> held w).
  { unfold w1. by rewrite held_snoc. }
  destruct (r <? 0) eqn:Er.
  - destruct (He r w1) as (a & w2 & E & [= Hh Ht]). exists a, w2. split; [done|].
    unfold fds. by rewrite Hh, Ht, Hw1.
  - destruct (Hk r w1 _ Hw1) as (a & w2 & E & Hh & Ht). exists a, w2. split; [done|].
    unfold fds. by rewrite Hh, Ht.
Qed.
End descriptors.

Ltac fds_step :=
  match goal with
  | |- pres _ (mret _) => apply pres_ret
  | |- pres _ (gets _) => apply pres_gets
  | |- pres _ (put _) => apply pres_put; by intros []
  | |- pres _ (flags_or _) => apply pres_put; by intros []
  | |- pres _ (flags_clear _) => apply pres_put; by intros []
  | |- pres _ (syscall _ _) => apply pres_syscall; intros; by apply fds_record
  | |- pres _ (command _ _) => apply pres_command; intros; by apply fds_record
  | |- pres _ (nft_script _ _ _) => apply pres_nft_script; intros; by apply fds_record
  | |- pres _ (syscall _ SysSocket ≫= _) => apply pres_socket; intros
  | |- pres _ (_ ≫= _) => apply pres_bind; [|intros ?]
  | |- pres _ (if _ then _ else _) => apply pres_if
  | |- pres _ (match ?x with _ => _ end) => destruct x
  | |- pres _ (let '(_, _) := ?x in _) => destruct x
  | |- releases _ _ (syscall _ (SysClose _) ≫= _) => apply releases_close
  | |- releases _ _ (_ ≫= _) => apply releases_bind; [|intros ?]
  | |- releases _ _ (if _ then _ else _) => apply releases_if
  end.
Ltac fds := repeat fds_step.

Section lifecycle.
Context (kern : sys → nat → Z) (kname : nat → string) (proc : sys → nat → proc_run).
Context (nft : sys → nat → nft_run) (access : string → bool) (mem : bool).
Abbreviation table := (driver_table kern kname proc nft access mem).

Lemma run_op_fds op :
  op ≠ OpOpen → pres (fds kern) (run_op table op).
Proof.
  intros Hop. destruct op; [done|..];
  unfold run_op, tun_set_addr, tun_set_mtu, tun_set_up, tun_set_down, tun_set_dns, tun_clear_dns,
    tun_add_route, tun_flush_routes, tun_ip_forwarding, tun_server_rules_add,
    tun_client_rules_add, tun_rules_clear, iptables_reset, dispatch, on_success;
  (apply pres_bind; [apply pres_gets|intros t; destruct (api t) as [[]|]; simpl]);
  unfold sys_tun_set_address, sys_tun_set_mtu, sys_tun_set_up, sys_tun_set_down,
    change_flags, sys_tun_set_dns, sys_tun_add_route, sys_tun_flush_routes, sys_tun_clear_dns,
    server_sys_tun_ip_forwarding, syt_server_rules_add_nft, sys_server_rules_del_nft,
    syt_client_rules_add_nft, syt_client_rules_del_nft, sys_iptables_reset_nft, run_nft; fds.
Qed.

Lemma run_ops_fds ops log :
  Forall (λ op, op ≠ OpOpen) ops → pres (fds kern) (run_ops table ops log).
Proof.
  intros H. revert log. induction H as [|op ops Hop _ IH]; intros log; [apply pres_ret|].
  apply pres_bind; [by apply run_op_fds|auto].
Qed.

Lemma run_ops_api ops log w a :
  api (tun w) = Some a → Forall (λ op, op ≠ OpOpen) ops →
  ∃ log' w', run_ops table ops log w = Ret log' w' ∧ api (tun w') = Some a ∧
    fds kern w' = fds kern w.
Proof.
  intros Ha Hops. revert w log Ha. induction Hops as [|op ops Hop _ IH]; intros w log Ha.
  { by exists log, w. }
  destruct (run_op_moves table op a w Ha) as (r & w1 & E & Ha1 & _).
  destruct (run_op_fds op Hop w) as (r' & w1' & E' & Hf). assert (r' = r ∧ w1' = w1) as [-> ->] by (rewrite E in E'; by injection E').
  destruct (IH w1 (log ++ [(op, r)])) as (log' & w' & E2 & Ha2 & Hf2); [congruence|].
  exists log', w'. split; [|split; [done|congruence]].
  simpl. unfold mbind, M_bind. by rewrite E.
Qed.

Lemma syscall_bind {A} c (k : Z → M world A) w :
  (x ← syscall kern c; k x) w = k (kern c (now w)) (World (tun w) (trace w ++ [c])).
Proof. done. Qed.
Lemma put_bind {A} f (m : M world A) w : (put f;; m) w = m (upd_tun f w).
Proof. done. Qed.
Lemma gets_bind {A B} (f : world → A) (k : A → M world B) w : (x ← gets f; k x) w = k (f w) w.
Proof. done. Qed.
Lemma now_record t tr c : now (World t (tr ++ [c])) = S (now (World t tr)).
Proof. unfold now. simpl. rewrite length_app. simpl. lia. Qed.

(** What opening does to the descriptors, on each of its branches. *)
Lemma sys_tun_open_fds w :
  let fd := kern SysOpenTun (now w) in
  let r := kern (SysTunSetIff fd) (S (now w)) in
  ∃ e w', sys_tun_open kern kname access mem w = Ret e w' ∧ fixed w' = fixed w ∧
    fds kern w' = (if fd <? 0 then (held kern w, -1)
                   else (if r <? 0 then held kern w else cons fd <$> held kern w, fd)) ∧
    (fd < 0 → e = fd) ∧ (0 ≤ fd → r < 0 → e = r).
Proof.
  intros fd r. unfold sys_tun_open.
  set (f := if fd <? 0 then -1 else fd).
  set (w1 := World (with_fd f (tun w)) (trace w ++ [SysOpenTun])).
  assert (H1 : held kern w1 = if fd <? 0 then held kern w else cons fd <$> held kern w).
  { unfold w1. rewrite held_snoc. by destruct w. }
  assert (Hn : now w1 = S (now w)).
  { unfold w1. rewrite now_record. by destruct w. }
  assert (Hf : fixed w1 = fixed w) by by destruct w.
  rewrite syscall_bind, put_bind. fold fd. fold f.
  change (upd_tun _ _) with w1.
  destruct (Z.ltb_spec fd 0) as [Hneg|Hpos].
  { exists fd, w1. unfold fds. rewrite H1. unfold w1, f. simpl.
    split; [done|]. split; [by destruct w|]. split; [by destruct (Z.ltb_spec fd 0); [|lia]|]. lia. }
  set (w2 := World (tun w1) (trace w1 ++ [SysTunSetIff fd])).
  assert (H2 : fds kern w2 = (cons fd <$> held kern w, fd)).
  { unfold w2. rewrite fds_record by done. unfold fds. rewrite H1. unfold w1, f. simpl.
    by destruct (Z.ltb_spec fd 0); [lia|]. }
  rewrite gets_bind, syscall_bind, Hn. fold r w2. destruct (Z.ltb_spec r 0) as [Hr|Hr].
  - assert (Hrel : releases kern fd (syscall kern (SysClose fd);; mret r : M world Z))
      by (apply releases_close, pres_ret).
    apply pair_eq in H2 as [Hh Ht]. destruct (Hrel w2 _ Hh) as (e & w' & E & Hh' & Ht').
    exists e, w'. split; [exact E|]. injection E as <- <-.
    split; [exact Hf|]. split; [|split; [lia|done]]. unfold fds. by rewrite Hh', Ht', Ht.
  - match goal with |- ∃ e w', ?m w2 = _ ∧ _ => set (rest := m) end.
    assert (Hrest : pres (λ w, (fds kern w, fixed w)) rest).
    { unfold rest. pres. }
    destruct (Hrest w2) as (e & w' & E & Hp). apply pair_eq in Hp as [Hfds Hfix]. exists e, w'.
    split; [exact E|]. split; [by rewrite Hfix|]. split; [by rewrite Hfds|]. lia.
Qed.

Lemma tun_open_fds w a :
  api (tun w) = Some a →
  let fd := kern SysOpenTun (now w) in
  let r := kern (SysTunSetIff fd) (S (now w)) in
  ∃ e w', tun_open table false w = Ret e w' ∧ api (tun w') = Some a ∧
    fds kern w' = (if fd <? 0 then (held kern w, -1)
                   else (if r <? 0 then held kern w else cons fd <$> held kern w, fd)) ∧
    (fd < 0 → e = fd) ∧ (0 ≤ fd → r < 0 → e = r).
Proof.
  intros Ha fd r. destruct (sys_tun_open_fds w) as (e & w1 & E & Hfix & Hfds & He).
  assert (Hopen : t_open (table a) = Some (sys_tun_open kern kname access mem)) by by destruct a.
  assert (Ha1 : api (tun w1) = Some a) by (apply pair_eq in Hfix as [_ H]; congruence).
  exists e. unfold tun_open, dispatch. rewrite gets_bind, Ha, Hopen. unfold on_success.
  unfold mbind, M_bind. rewrite E. destruct (e =? 0); eexists; (split; [reflexivity|]); by split.
Qed.

(** Cleaning up closes the descriptor the handle holds, and no other. *)
Lemma tun_destroy_fds w a :
  api (tun w) = Some a →
  ∃ w', tun_destroy table false w = Ret 0 w' ∧ tun_fd (tun w') = Z.min (-1) (tun_fd (tun w)) ∧
    priv_data (tun w') = None ∧
    held kern w' = (if 0 <=? tun_fd (tun w) then held kern w ≫= take_out (tun_fd (tun w))
                    else held kern w).
Proof.
  intros Ha. unfold tun_destroy. rewrite gets_bind, Ha.
  assert (Hc : t_cleanup (table a) = Some (sys_tun_cleanup kern)) by by destruct a.
  rewrite Hc. assert (Hl : pres (fds kern) (cleanup_link kern)) by (unfold cleanup_link; fds).
  destruct (Hl w) as (ret & w1 & E & Hp). apply pair_eq in Hp as [Hh Ht].
  unfold sys_tun_cleanup. unfold mbind, M_bind. rewrite E. simpl. rewrite Ht.
  destruct (Z.leb_spec 0 (tun_fd (tun w))) as [H0|H0].
  - eexists. split; [reflexivity|]. simpl. split; [lia|]. split; [done|].
    etransitivity; [apply held_snoc|].
    exact (f_equal (λ h, h ≫= take_out (tun_fd (tun w))) Hh).
  - eexists. split; [reflexivity|]. simpl. split; [lia|]. split; [done|].
    exact Hh.
Qed.


(** A failed TUNSETIFF closes the device but keeps its number in the
    handle, so destroying the handle closes the descriptor a second time: the
    close fails, or hits whatever the process opened in between. *)
Theorem tun_open_failure_closes_twice w a l :
  let fd := kern SysOpenTun (now w) in
  let r := kern (SysTunSetIff fd) (S (now w)) in
  api (tun w) = Some a → held kern w = Some l → fd ∉ l → 0 ≤ fd → r < 0 →
  ∃ w1 w2, tun_open table false w = Ret r w1 ∧ held kern w1 = Some l ∧ tun_fd (tun w1) = fd ∧
    tun_destroy table false w1 = Ret 0 w2 ∧ held kern w2 = None.
Proof.
  intros fd r Ha Hl Hnot Hfd Hr. destruct (tun_open_fds w a Ha) as (e & w1 & E & Ha1 & Hf & _ & He).
  fold fd r in Hf, He. rewrite (He Hfd Hr) in E.
  destruct (Z.ltb_spec fd 0); [lia|]. destruct (Z.ltb_spec r 0); [|lia].
  apply pair_eq in Hf as [Hh Ht]. destruct (tun_destroy_fds w1 a Ha1) as (w2 & E2 & _ & _ & Hh2).
  exists w1, w2. split; [done|]. split; [congruence|]. split; [done|]. split; [done|].
  rewrite Hh2, Ht, Hh, Hl. destruct (Z.leb_spec 0 fd); [|lia]. simpl.
  clear -Hnot. induction l as [|x l IH]; [done|]. simpl.
  apply not_elem_of_cons in Hnot as [Hne Hnot]. destruct (Z.eqb_spec fd x); [done|].
  by rewrite IH.
Qed.
End lifecycle.

(** ** Addresses *)

Definition byte_ok (n : nat) : Prop :=
  ∀ rest oct, pton_loop (pretty (N.of_nat n) +:+ rest) oct None
              = pton_loop rest oct (Some (Z.of_nat n)).

Lemma pton_bytes : Forall byte_ok (seq 0 256).
Proof. repeat constructor; intros rest oct; reflexivity. Qed.

Lemma pton_dec b rest oct :
  0 ≤ b < 256 → pton_loop (dec b +:+ rest) oct None = pton_loop rest oct (Some b).
Proof.
  intros Hb. pose proof pton_bytes as H. rewrite Forall_seq in H.
  specialize (H (Z.to_nat b) ltac:(lia) rest oct). unfold dec.
  by rewrite Z_nat_N, Z2Nat.id in H by lia.
Qed.

Lemma pton_dot oct c rest :
  (length oct < 3)%nat →
  pton_loop ("." +:+ rest) oct (Some c) = pton_loop rest (c :: oct) None.
Proof. intros H. simpl. by destruct (Z.ltb_spec (Z.of_nat (length oct)) 3); [|lia]. Qed.

Lemma string_app_nil s : s +:+ EmptyString = s.
Proof. induction s as [|c s IH]; [done|]. exact (f_equal (String c) IH). Qed.

Lemma inet_pton_dotted addr : 0 ≤ addr < 2 ^ 32 → inet_pton (dotted addr) = Some addr.
Proof.
  intros Ha. unfold inet_pton, dotted.
  pose proof (le_bytes_ok 4 addr) as Hok. pose proof (le_word_bytes 4 addr) as Hw.
  rewrite Z.mod_small in Hw by exact Ha.
  destruct (le_bytes 4 addr) as [|a [|b [|c [|d [|]]]]] eqn:E;
    try (apply (f_equal length) in E; by rewrite length_le_bytes in E).
  unfold bytes_ok in Hok. rewrite !Forall_cons in Hok. unfold in_u in Hok.
  destruct Hok as (? & ? & ? & ? & _).
  rewrite pton_dec, pton_dot, pton_dec, pton_dot, pton_dec, pton_dot by (simpl; lia).
  rewrite <- (string_app_nil (dec d)), pton_dec by lia.
  exact (f_equal Some Hw).
Qed.

(** The text written for an address reads back as that address: what
    in_addr_to_str and the handle's getters print is what the driver's
    inet_pton turns into the same network-order word. *)
Theorem in_addr_to_str_roundtrip addr buf len :
  0 ≤ addr < 2 ^ 32 → INET_ADDRSTRLEN ≤ len →
  ∃ s, in_addr_to_str (Some addr) (Some buf) len = (0, Some s) ∧ inet_pton s = Some addr.
Proof.
  intros Ha Hl. exists (dotted addr). split; [|by apply inet_pton_dotted].
  unfold in_addr_to_str. destruct (Z.eqb_spec len 0); [unfold INET_ADDRSTRLEN in Hl; lia|].
  by rewrite inet_ntop_fits.
Qed.

Lemma in_addr_to_str_roundtrip_witness :
  ∃ s, in_addr_to_str (Some 16777226) (Some EmptyString) 16 = (0, Some s) ∧
       inet_pton s = Some 16777226.
Proof. apply (in_addr_to_str_roundtrip 16777226 EmptyString 16); by vm_compute. Defined.

(** ** sys_tun_set_address *)
Section set_address.
Context (kern : sys → nat → Z).

Definition address_ok (w : world) (ip_s mask_s : string) (a m : Z) : Prop :=
  let sock := kern SysSocket (now w) in
  inet_pton ip_s = Some a ∧ inet_pton mask_s = Some m ∧ validate_mask m = true ∧
  ifname (tun w) ≠ EmptyString ∧ 0 ≤ sock ∧
  0 ≤ kern (SysSetAddr sock (ifname (tun w)) a) (S (now w)).

(** Closes the branches that return an error. *)
Ltac refused :=
  eexists _, _; split; [reflexivity|];
  split; [split; [unfold EINVAL in *; lia|]|];
  [intros (? & ? & ? & ? & ? & ? & ? & ?)|intros ? ? (? & ? & ? & ? & ? & ?)];
  exfalso; simplify_eq; try lia; congruence.

(** sys_tun_set_address succeeds exactly when both strings are addresses,
    the mask is contiguous, the interface is open and the kernel took the
    address: then address, mask and network are in the handle and were sent
    to the kernel.  The kernel's answer to the netmask request decides
    nothing: the call succeeds even if it was refused. *)
Theorem sys_tun_set_address_spec w ip_s mask_s :
  ∃ r w', sys_tun_set_address kern (Some ip_s) (Some mask_s) w = Ret r w' ∧
    (r = 0 ↔ ∃ a m, address_ok w ip_s mask_s a m) ∧
    ∀ a m, address_ok w ip_s mask_s a m →
      ip (tun w') = a ∧ mask (tun w') = m ∧ net (tun w') = Z.land a m ∧
      trace w' = trace w ++
        let sock := kern SysSocket (now w) in
        [SysSocket; SysSetAddr sock (ifname (tun w)) a; SysSetNetmask sock (ifname (tun w)) m;
         SysClose sock].
Proof.
  unfold sys_tun_set_address, address_ok.
  destruct (inet_pton ip_s) as [a|] eqn:Ea; [|refused].
  rewrite put_bind. destruct (inet_pton mask_s) as [m|] eqn:Em; [|refused].
  rewrite put_bind. destruct (validate_mask m) eqn:Ev; cbv [negb]; [|refused].
  rewrite !put_bind. set (w1 := upd_tun _ _).
  assert (H1 : ifname (tun w1) = ifname (tun w) ∧ trace w1 = trace w ∧ now w1 = now w ∧
    ip (tun w1) = a ∧ mask (tun w1) = m ∧ net (tun w1) = Z.land a m) by done.
  clearbody w1. destruct H1 as (En & Et & Enow & Hip & Hmask & Hnet).
  rewrite syscall_bind, Enow. set (sock := kern SysSocket (now w)).
  destruct (Z.ltb_spec sock 0) as [Hs|Hs]; [refused|].
  rewrite gets_bind. unfold no_name. cbn [tun]. rewrite En, Hip, Hmask.
  destruct (String.eqb_spec (ifname (tun w)) EmptyString) as [Hn|Hn]; [refused|].
  rewrite syscall_bind, now_record. cbn [tun trace].
  change (now (World (tun w1) (trace w1))) with (now w1). rewrite Enow.
  set (r := kern (SysSetAddr _ _ _) _).
  destruct (Z.ltb_spec r 0) as [Hr|Hr]; [refused|].
  rewrite syscall_bind. set (r2 := kern (SysSetNetmask _ _ _) _).
  exists 0. eexists. split; [destruct (r2 <? 0); reflexivity|].
  split; [naive_solver|]. intros a' m' (Ha' & Hm' & _). simplify_eq. simpl.
  by rewrite Et, <- !(assoc_L (++)).
Qed.
End set_address.

(** ** run_nft_script *)

Definition nft_errnos_ok (r : nft_run) : Prop := ∀ e, nft_wait r = inl e → e ≠ 0.

Definition nft_ran (r : nft_run) : Prop :=
  pipe1 r = 0 ∧ pipe2 r = 0 ∧ actions_init r = 0 ∧ nft_spawn r = 0 ∧
  nft_wait r = inr (Exited 0).

Lemma substring_le n s : (String.length (String.substring 0 n s) ≤ n)%nat.
Proof.
  revert n. induction s as [|c s IH]; intros [|n]; simpl; try lia. specialize (IH n). lia.
Qed.

(** run_nft_script reports success exactly when the child was started and
    exited with 0, closes every pipe end it opened exactly once whatever
    fails, and never stores more than the error buffer holds. *)
Theorem run_nft_script_spec r bin ruleset err_len :
  nft_errnos_ok r →
  let '(rc, err, opened, closed) := run_nft_script r (Some bin) (Some ruleset) err_len in
  (rc = 0 ↔ nft_ran r) ∧ closed ≡ₚ opened ∧ NoDup opened ∧
  (0 < err_len → Z.of_nat (String.length err) < err_len).
Proof.
  intros Hok. unfold run_nft_script, nft_errnos_ok, nft_ran in *.
  assert (Hsub : ∀ s, 0 < err_len →
    Z.of_nat (String.length (if 0 <? err_len then String.substring 0 (Z.to_nat (err_len - 1)) s
                             else EmptyString)) < err_len).
  { intros s Hpos. destruct (0 <? err_len); [|done].
    pose proof (substring_le (Z.to_nat (err_len - 1)) s). lia. }
  assert (Hall : NoDup [InRead; InWrite; ErrRead; ErrWrite]) by (by apply (bool_decide_unpack _)).
  assert (Htwo : NoDup [InRead; InWrite]) by (by apply (bool_decide_unpack _)).
  assert (Hcl : [InRead; ErrWrite; InWrite; ErrRead] ≡ₚ [InRead; InWrite; ErrRead; ErrWrite])
    by solve_Permutation.
  assert (Hnil : NoDup (@nil pipe_end)) by constructor.
  destruct (Z.eqb_spec (pipe1 r) 0); simpl; [|naive_solver lia].
  destruct (Z.eqb_spec (pipe2 r) 0); simpl; [|naive_solver lia].
  destruct (Z.eqb_spec (actions_init r) 0); simpl; [|naive_solver lia].
  destruct (Z.eqb_spec (nft_spawn r) 0); simpl; [|naive_solver lia].
  destruct (nft_wait r) as [er|[code| |]] eqn:E;
    (split; [|split; [exact Hcl|split; [exact Hall|apply Hsub]]]); unfold ECHILD.
  - specialize (Hok er eq_refl). naive_solver lia.
  - destruct (Z.eqb_spec code 0); naive_solver lia.
  - naive_solver lia.
  - naive_solver lia.
Qed.

Lemma run_nft_script_spec_witness :
  let r := NftRun 0 0 0 0 "error" (inr (Exited 1)) in
  let '(rc, err, opened, closed) := run_nft_script r (Some "nft"%string) (Some "x"%string) 3 in
  (rc = 0 ↔ nft_ran r) ∧ closed ≡ₚ opened ∧ NoDup opened ∧
  (0 < 3 → Z.of_nat (String.length err) < 3).
Proof. by apply (run_nft_script_spec (NftRun 0 0 0 0 "error" (inr (Exited 1))) "nft" "x" 3). Defined.

(** ** The kernel answering every request *)

Definition kern_ok (c : sys) (n : nat) : Z :=
  match c with SysOpenTun | SysSocket => Z.of_nat n + 3 | _ => 0 end.
Definition kern_no_tun (c : sys) (n : nat) : Z :=
  match c with SysTunSetIff _ => - EINVAL | _ => kern_ok c n end.
Definition table_ok (kern : sys → nat → Z) : api_id → tun_api_table_t :=
  driver_table kern (λ _, "tun0"%string) (λ _ _, ProcRun 0 (inr (Exited 0)))
    (λ _ _, NftRun 0 0 0 0 EmptyString (inr (Exited 0))) (λ _, true) true.
Definition world0 : world :=
  World (TunIface (-1) TUN_STATE_NONE "" 0 0 0 0 0 0 0 TUN_BACKEND_NETLINK_CLIENT
           (Some api_table_netlink_client) None) [].
Definition client_ops : list tun_op :=
  [OpSetAddr (Some "10.8.0.2"%string) (Some "255.255.255.0"%string); OpSetMtu 1280; OpSetUp;
   OpSetDns (Some "1.1.1.1"%string) (Some "8.8.8.8"%string)].

Lemma tun_start_iff_configured_witness :
  ∃ log w', run_ops (table_ok kern_ok) (OpOpen :: client_ops) [] world0 = Ret log w' ∧
    log.*1 = OpOpen :: client_ops ∧
    (tun_start false w' = Ret 0 w' ↔ ∀ k, 0 ≤ k < 6 → done_op k log) ∧
    (tun_start false w' ≠ Ret 0 w' → tun_start false w' = Ret (- ENODEV) w').
Proof.
  exact (tun_start_iff_configured (table_ok kern_ok) TUN_BACKEND_NETLINK_CLIENT (tun world0) []
           (OpOpen :: client_ops) eq_refl).
Defined.

Definition opened (kern : sys → nat → Z) : world :=
  match tun_open (table_ok kern) false world0 with Ret _ w => w | _ => world0 end.


Lemma tun_open_failure_closes_twice_witness :
  ∃ w1 w2, tun_open (table_ok kern_no_tun) false world0 = Ret (- EINVAL) w1 ∧
    held kern_no_tun w1 = Some [] ∧ tun_fd (tun w1) = 3 ∧
    tun_destroy (table_ok kern_no_tun) false w1 = Ret 0 w2 ∧ held kern_no_tun w2 = None.
Proof.
  assert (Hin : 3 ∉ @nil Z) by (by apply not_elem_of_nil).
  assert (Hfd : 0 ≤ 3) by lia. assert (Hr : - EINVAL < 0) by done.
  exact (tun_open_failure_closes_twice kern_no_tun _ _ _ _ _ world0 api_table_netlink_client []
           eq_refl eq_refl Hin Hfd Hr).
Defined.
