(* ===== verification/TunTotal.v ===== *)
(** * What the engines rely on of the TUN layer

    Every call on a handle returns, for a driver whose functions return; a
    handle that starts is READY; and with the driver of TunDriver.v the
    setters store what they were given and the other calls leave it alone. *)
From stdpp Require Import prelude strings.
From Stdlib Require Import ZArith Lia.
From S2P Require Import Prelude Utils.
From S2P Require Tun TunDriver.

Section total.
Context (table : Tun.api_id → Tun.tun_api_table_t).
Implicit Types w : Tun.world.

(** A driver whose functions return, and with a function for tun_destroy. *)
Definition returns {A} (m : M Tun.world A) : Prop := ∀ w, ∃ a w', m w = Ret a w'.
Record driver_total : Prop := {
  total_open a f : Tun.t_open (table a) = Some f → returns f;
  total_addr a f x y : Tun.t_set_address (table a) = Some f → returns (f x y);
  total_mtu a f x : Tun.t_set_mtu (table a) = Some f → returns (f x);
  total_up a f : Tun.t_set_up (table a) = Some f → returns f;
  total_down a f : Tun.t_set_down (table a) = Some f → returns f;
  total_route a f x : Tun.t_add_route (table a) = Some f → returns (f x);
  total_flush a f : Tun.t_flush_routes (table a) = Some f → returns f;
  total_dns a f x y : Tun.t_set_dns (table a) = Some f → returns (f x y);
  total_clear a f : Tun.t_clear_dns (table a) = Some f → returns f;
  total_rules a f x y z : Tun.t_client_rules_add (table a) = Some f → returns (f x y z);
  total_rclear a f : Tun.t_rules_clear (table a) = Some f → returns f;
  total_fwd a f x : Tun.t_ip_forwarding (table a) = Some f → returns (f x);
  total_srules a f x : Tun.t_server_rules_add (table a) = Some f → returns (f x);
  total_reset a f : Tun.t_iptables_reset (table a) = Some f → returns f;
  total_cleanup a : ∃ f, Tun.t_cleanup (table a) = Some f ∧ returns f
}.
Context (Hd : driver_total).

Lemma returns_ret {A} (a : A) : returns (mret a).
Proof. intros w. by eexists _, _. Qed.
Lemma returns_gets {A} (f : Tun.world → A) : returns (gets f).
Proof. intros w. by eexists _, _. Qed.
Lemma returns_modify f : returns (modify f : M Tun.world ()).
Proof. intros w. by eexists _, _. Qed.
Lemma returns_bind {A B} (m : M Tun.world A) (k : A → M Tun.world B) :
  returns m → (∀ a, returns (k a)) → returns (a ← m; k a).
Proof.
  intros Hm Hk w. destruct (Hm w) as (a & w1 & E). rewrite (bind_run _ _ w a w1 E). apply Hk.
Qed.
Lemma returns_if {A} (b : bool) (m1 m2 : M Tun.world A) :
  returns m1 → returns m2 → returns (if b then m1 else m2).
Proof. by destruct b. Qed.

Lemma returns_dispatch {A} null (f : Tun.tun_api_table_t → option A) (k : A → M Tun.world Z) :
  (∀ a x, f (table a) = Some x → returns (k x)) → returns (Tun.dispatch table null f k).
Proof.
  intros H. unfold Tun.dispatch. apply returns_if; [apply returns_ret|].
  apply returns_bind; [apply returns_gets|]. intros t. destruct (Tun.api t); [|apply returns_ret].
  destruct (f (table _)) eqn:E; [by eapply H|apply returns_ret].
Qed.
Lemma returns_on_success (m : M Tun.world Z) (e : M Tun.world ()) :
  returns m → returns e → returns (Tun.on_success m e).
Proof.
  intros Hm He. apply returns_bind; [done|]. intros r. apply returns_bind.
  - apply returns_if; [done|apply returns_ret].
  - intros; apply returns_ret.
Qed.

(** A wrapper around the entry of the table that [H] describes. *)
Ltac wrapper H :=
  apply returns_dispatch; intros i g E; try (apply returns_on_success; [|apply returns_modify]);
  by apply (H Hd i).

Lemma returns_open n : returns (Tun.tun_open table n).
Proof. wrapper total_open. Qed.
Lemma returns_set_addr n x y : returns (Tun.tun_set_addr table n x y).
Proof. wrapper total_addr. Qed.
Lemma returns_set_mtu n x : returns (Tun.tun_set_mtu table n x).
Proof. wrapper total_mtu. Qed.
Lemma returns_set_up n : returns (Tun.tun_set_up table n).
Proof. wrapper total_up. Qed.
Lemma returns_set_down n : returns (Tun.tun_set_down table n).
Proof. wrapper total_down. Qed.
Lemma returns_add_route n x : returns (Tun.tun_add_route table n x).
Proof. wrapper total_route. Qed.
Lemma returns_flush n : returns (Tun.tun_flush_routes table n).
Proof. wrapper total_flush. Qed.
Lemma returns_set_dns n x y : returns (Tun.tun_set_dns table n x y).
Proof. wrapper total_dns. Qed.
Lemma returns_clear_dns n : returns (Tun.tun_clear_dns table n).
Proof. wrapper total_clear. Qed.
Lemma returns_rules n x y z : returns (Tun.tun_client_rules_add table n x y z).
Proof. wrapper total_rules. Qed.
Lemma returns_fwd n x : returns (Tun.tun_ip_forwarding table n x).
Proof. wrapper total_fwd. Qed.
Lemma returns_srules n x : returns (Tun.tun_server_rules_add table n x).
Proof. wrapper total_srules. Qed.
Lemma returns_reset n : returns (Tun.iptables_reset table n).
Proof. wrapper total_reset. Qed.
Lemma returns_rules_clear n : returns (Tun.tun_rules_clear table n).
Proof. wrapper total_rclear. Qed.
Lemma returns_destroy n : returns (Tun.tun_destroy table n).
Proof.
  apply returns_if; [apply returns_ret|]. apply returns_bind; [apply returns_gets|]. intros t.
  destruct (Tun.api t) as [a|]; [|apply returns_ret].
  destruct (total_cleanup Hd a) as (f & -> & Hf). apply returns_bind; [done|]. intros; apply returns_ret.
Qed.
Lemma returns_start n : returns (Tun.tun_start n).
Proof.
  apply returns_if; [apply returns_ret|]. apply returns_bind; [apply returns_gets|]. intros t.
  destruct (Tun.api t); [|apply returns_ret]. apply returns_if; apply returns_ret.
Qed.

End total.

Definition ready (t : Tun.tun_iface_t) : Prop :=
  Z.land (Tun.sts_flags t) Tun.TUN_STATE_READY = Tun.TUN_STATE_READY.

Lemma start_ready w w' : Tun.tun_start false w = Ret 0 w' → w' = w ∧ ready (Tun.tun w).
Proof.
  unfold Tun.tun_start, mbind, M_bind, gets, mret, M_ret. cbn.
  destruct (Tun.api (Tun.tun w)); [|done]. unfold ready.
  destruct (Z.eqb_spec (Z.land (Tun.sts_flags (Tun.tun w)) Tun.TUN_STATE_READY) Tun.TUN_STATE_READY);
    cbn; [|done]. by intros [= ->].
Qed.


(** ** The driver of TunDriver.v *)
Section driver.
Context (kern : Tun.sys → nat → Z) (kname : nat → string) (proc : Tun.sys → nat → Utils.proc_run).
Context (nft : Tun.sys → nat → TunDriver.nft_run) (access : string → bool) (mem : bool).
Abbreviation rtable := (TunDriver.driver_table kern kname proc nft access mem).
Import Tun TunDriver.

Lemma pres_returns {A B} (I : world → B) (m : M world A) : pres I m → returns m.
Proof. intros H w. destruct (H w) as (a & w' & E & _). by exists a, w'. Qed.

Ltac unfold_driver :=
  unfold sys_tun_open, sys_tun_set_address, sys_tun_set_mtu, sys_tun_set_up, sys_tun_set_down,
    change_flags, sys_tun_set_dns, sys_tun_add_route, sys_tun_flush_routes, sys_tun_clear_dns,
    server_sys_tun_ip_forwarding, syt_server_rules_add_nft, sys_server_rules_del_nft,
    syt_client_rules_add_nft, syt_client_rules_del_nft, sys_iptables_reset_nft, run_nft,
    sys_tun_cleanup, cleanup_link.

Lemma driver_table_total : driver_total rtable.
Proof.
  split; intros []; simpl; intros; simplify_eq;
    try (apply (pres_returns (λ _, ())); unfold_driver; pres).
  all: eexists; split; [reflexivity|]; apply (pres_returns (λ _, ())); unfold_driver; pres.
Qed.

(** The configuration in a handle. *)
Definition conf (w : world) : Z * Z * Z * Z * Z * Z :=
  let t := tun w in (ip t, mask t, net t, mtu t, dns1 t, dns2 t).

Lemma pres_modify {B} (I : world → B) f : (∀ w, I (f w) = I w) → pres I (modify f).
Proof. intros H w. by exists (), (f w). Qed.
Lemma pres_ends {A B} (I : world → B) (m : M world A) w : pres I m → ends m w (λ _ w', I w' = I w).
Proof. intros H. destruct (H w) as (a & w' & E & HI). unfold ends. by rewrite E. Qed.

(** The calls that leave the configuration alone. *)
Definition leaves (m : M world Z) : Prop := pres conf m.
Lemma leaves_dispatch {A} null (f : tun_api_table_t → option A) (k : A → M world Z) :
  (∀ a x, f (rtable a) = Some x → leaves (k x)) → leaves (dispatch rtable null f k).
Proof.
  intros H. unfold leaves, dispatch. apply pres_if; [apply pres_ret|].
  apply pres_bind; [apply pres_gets|]. intros t. destruct (api t); [|apply pres_ret].
  destruct (f (rtable _)) eqn:E; [by eapply H|apply pres_ret].
Qed.
Lemma leaves_on_success m x : leaves m → leaves (on_success m (flags_or x)).
Proof.
  intros H. apply pres_bind; [done|]. intros r. apply pres_bind; [|intros; apply pres_ret].
  apply pres_if; [|apply pres_ret]. apply pres_modify. by intros [].
Qed.
Lemma leaves_on_clear m x : leaves m → leaves (on_success m (flags_clear x)).
Proof.
  intros H. apply pres_bind; [done|]. intros r. apply pres_bind; [|intros; apply pres_ret].
  apply pres_if; [|apply pres_ret]. apply pres_modify. by intros [].
Qed.

Ltac leaves :=
  apply leaves_dispatch; intros [] f E; simpl in E; simplify_eq;
  try (apply leaves_on_success || apply leaves_on_clear); unfold leaves; unfold_driver; pres.

Lemma leaves_open n : leaves (tun_open rtable n).
Proof. leaves. Qed.
Lemma leaves_set_up n : leaves (tun_set_up rtable n).
Proof. leaves. Qed.
Lemma leaves_add_route n c : leaves (tun_add_route rtable n c).
Proof. leaves. Qed.
Lemma leaves_clear_dns n : leaves (tun_clear_dns rtable n).
Proof. leaves. Qed.
Lemma leaves_rules_clear n : leaves (tun_rules_clear rtable n).
Proof. leaves. Qed.
Lemma leaves_fwd n b : leaves (tun_ip_forwarding rtable n b).
Proof. leaves. Qed.
Lemma leaves_srules n x : leaves (tun_server_rules_add rtable n x).
Proof. leaves. Qed.
Lemma leaves_crules n x y z : leaves (tun_client_rules_add rtable n x y z).
Proof. leaves. Qed.
Lemma leaves_start n : leaves (tun_start n).
Proof. unfold leaves, tun_start. pres. Qed.

(** A wrapper that stores: what holds when the driver's function succeeds. *)
Lemma ends_dispatch {A} (f : tun_api_table_t → option A) (k : A → M world Z) x w (Q : world → Prop) :
  (∀ w w', conf w' = conf w → Q w → Q w') →
  (∀ a g, f (rtable a) = Some g → ends (k g) w (λ r w', r = 0 → Q w')) →
  ends (dispatch rtable false f (λ g, on_success (k g) (flags_or x))) w (λ r w', r = 0 → Q w').
Proof.
  intros HQ H. unfold dispatch. apply ends_bind. unfold gets, ends at 1.
  destruct (api (tun w)) as [a|]; [|by intros ?].
  destruct (f (rtable a)) as [g|] eqn:E; [|by intros ?].
  unfold on_success. apply ends_bind. eapply ends_mono; [by apply (H a)|]. intros r w1 H1.
  apply ends_bind. destruct (Z.eqb_spec r 0) as [->|Hr].
  - unfold flags_or, modify, ends at 1, ends at 1, mret, M_ret. intros _. eapply HQ; [|by apply H1]. by destruct w1 as [[] ?].
  - unfold mret at 1, M_ret at 1, ends at 1. by intros ?.
Qed.

Definition conf_like (c : Z * Z * Z * Z * Z * Z → Prop) (w : world) : Prop := c (conf w).
Lemma conf_like_conf c w w' : conf w' = conf w → conf_like c w → conf_like c w'.
Proof. unfold conf_like. by intros ->. Qed.

Lemma pres_conf_ends (m : M world Z) w c :
  pres conf m → conf_like c w → ends m w (λ r w', r = 0 → conf_like c w').
Proof.
  intros H Hc. eapply ends_mono; [by apply (pres_ends conf)|]. cbv beta. intros r w' E _.
  by eapply conf_like_conf.
Qed.

Lemma set_addr_conf s1 s2 w :
  ends (tun_set_addr rtable false (Some s1) (Some s2)) w (λ r w', r = 0 →
    conf_like (λ c, ∃ a m, inet_pton s1 = Some a ∧ inet_pton s2 = Some m ∧ validate_mask m = true ∧
      c = (a, m, Z.land a m, mtu (tun w), dns1 (tun w), dns2 (tun w))) w').
Proof.
  unfold tun_set_addr. apply ends_dispatch; [apply conf_like_conf|]. intros i g Hg.
  assert (g = sys_tun_set_address kern) as -> by (destruct i; simpl in Hg; by injection Hg).
  unfold sys_tun_set_address. destruct (inet_pton s1) as [a|]; [|by intros ?].
  apply ends_bind. unfold put, modify, ends at 1. destruct (inet_pton s2) as [m|]; [|by intros ?].
  apply ends_bind. unfold put, modify, ends at 1. destruct (validate_mask m) eqn:Em; cbn [negb]; [|by intros ?].
  apply ends_bind. unfold put, modify, ends at 1. apply ends_bind. unfold put, modify, ends at 1.
  apply pres_conf_ends; [pres|]. exists a, m. by destruct w as [[] ?].
Qed.

Lemma set_mtu_conf m w :
  ends (tun_set_mtu rtable false m) w (λ r w', r = 0 →
    conf_like (λ c, 256 ≤ m ≤ 1380 ∧
      c = (ip (tun w), mask (tun w), net (tun w), m, dns1 (tun w), dns2 (tun w))) w').
Proof.
  unfold tun_set_mtu. apply ends_dispatch; [apply conf_like_conf|]. intros i g Hg.
  assert (g = sys_tun_set_mtu kern) as -> by (destruct i; simpl in Hg; by injection Hg).
  unfold sys_tun_set_mtu. apply ends_bind. unfold gets, ends at 1.
  destruct (no_name _); [by intros ?|]. destruct (Z.ltb_spec m 256); [by intros ?|].
  destruct (Z.ltb_spec 1380 m); [by intros ?|]. cbn [orb].
  apply ends_bind. eapply ends_mono; [apply (pres_ends conf); pres|]. cbv beta. intros r w1 E.
  destruct (Z.ltb_spec r 0).
  - unfold ends, mret, M_ret. lia.
  - apply ends_bind. unfold put, modify, ends at 1.
    apply pres_conf_ends; [pres|]. split; [lia|]. destruct w as [[] ?], w1 as [[] ?].
    unfold conf in E. cbn in E. by simplify_eq.
Qed.

Lemma set_dns_conf s1 s2 w :
  ends (tun_set_dns rtable false (Some s1) (Some s2)) w (λ r w', r = 0 →
    conf_like (λ c, ∃ a1 a2, inet_pton s1 = Some a1 ∧ inet_pton s2 = Some a2 ∧
      c = (ip (tun w), mask (tun w), net (tun w), mtu (tun w), a1, a2)) w').
Proof.
  unfold tun_set_dns. apply ends_dispatch; [apply conf_like_conf|]. intros i g Hg.
  assert (g = sys_tun_set_dns proc) as -> by (destruct i; simpl in Hg; by injection Hg).
  unfold sys_tun_set_dns. apply ends_bind. unfold gets, ends at 1.
  destruct (_ || _); [by intros ?|]. destruct (_ ≫= bin_resolvectl) as [bin|]; [|by intros ?].
  destruct (inet_pton s1) as [a1|]; [|by intros ?].
  apply ends_bind. unfold put, modify, ends at 1. destruct (inet_pton s2) as [a2|]; [|by intros ?].
  apply ends_bind. unfold put, modify, ends at 1.
  apply pres_conf_ends; [pres|]. exists a1, a2. by destruct w as [[] ?].
Qed.
End driver.
