(* ===== verification/SockAddr.v ===== *)
(** * Addresses for MsQuic: the header's parsers and their use in quic.c

    QuicAddr4FromString, QuicAddr6FromString and QuicAddrFromString of the
    MsQuic header, and the code both programs wrap around them to turn a
    configured string and port into an IPv4 socket address. *)
From stdpp Require Import prelude strings.
From Stdlib Require Import ZArith Lia Ascii.
From S2P Require Import Prelude Utils PktCtrl.
From S2P Require Import TunDriver.

Definition QUIC_FAILED (Status : Z) : bool := 0 <? Status.

(** The QUIC_ADDR the code fills in: family, address, port (host order). *)
Record quic_addr := QuicAddr { family : Z; addr4 : Z; port : Z }.
Definition quic_addr0 : quic_addr := QuicAddr 0 0 0.

(** atoi, the cast of strtol: white space, a sign, digits. *)
Fixpoint atoi_digits (s : string) (acc : Z) : Z :=
  match s with
  | String c s' =>
      let d := Z.of_nat (nat_of_ascii c) - 48 in
      if (0 <=? d) && (d <=? 9) then atoi_digits s' (10 * acc + d) else acc
  | EmptyString => acc
  end.
Fixpoint skip_space (s : string) : string :=
  match s with
  | String c s' =>
      let n := Z.of_nat (nat_of_ascii c) in
      if (n =? 32) || ((9 <=? n) && (n <=? 13)) then skip_space s' else s
  | EmptyString => s
  end.
Definition atoi (s : string) : Z :=
  i32 (match skip_space s with
       | String "-" s' => Z.max (- INT64_MAX - 1) (- atoi_digits s' 0)
       | String "+" s' => Z.min INT64_MAX (atoi_digits s' 0)
       | s' => Z.min INT64_MAX (atoi_digits s' 0)
       end).

(** The MsQuic header's functions.  The bytes of an IPv6 address are not kept:
    sin6_addr lies behind sin_addr in the union, and its only reader rejects
    the family. *)
Definition bracketed (AddrStr : string) : bool :=
  match AddrStr with String c _ => Ascii.eqb c "[" | EmptyString => false end.
Definition from (i : nat) (s : string) : string := String.substring i (String.length s - i) s.

Definition QuicAddr4FromString (AddrStr : string) (a : quic_addr) : option quic_addr :=
  if bracketed AddrStr then None
  else
    match String.index 0 ":" AddrStr with
    | Some i =>
        match String.index (S i) ":" AddrStr with
        | Some _ => None
        | None =>
            if 16 <=? Z.of_nat i then None
            else
              a4 ← inet_pton (String.substring 0 i AddrStr);
              Some (QuicAddr AF_INET a4 (u16 (atoi (from (S i) AddrStr))))
        end
    | None => a4 ← inet_pton AddrStr; Some (QuicAddr AF_INET a4 (port a))
    end.

Section addr.
Context (inet_pton6 : string → bool).                  (* inet_pton of AF_INET6: accepted or not *)

Definition QuicAddr6FromString (AddrStr : string) (a : quic_addr) : option quic_addr :=
  if bracketed AddrStr then
    match String.index 0 "]" AddrStr with
    | None => None
    | Some i =>
        if negb (match String.get (S i) AddrStr with Some c => Ascii.eqb c ":" | None => false end) then None
        else if 64 <=? Z.of_nat i - 1 then None
        else if inet_pton6 (String.substring 1 (i - 1) AddrStr)
             then Some (QuicAddr AF_INET6 (addr4 a) (u16 (atoi (from (i + 2) AddrStr))))
             else None
    end
  else if inet_pton6 AddrStr then Some (QuicAddr AF_INET6 (addr4 a) (port a))
  else None.

(** [inl]: not an address, and what is left in [Addr]. *)
Definition QuicAddrFromString (AddrStr : string) (p : Z) (a : quic_addr) : quic_addr + quic_addr :=
  let a := QuicAddr (family a) (addr4 a) (u16 p) in
  match QuicAddr4FromString AddrStr a with
  | Some a => inr a
  | None => match QuicAddr6FromString AddrStr a with Some a => inr a | None => inl a end
  end.

(** The two halves of MsQuicConfigAddr: the code and the address. *)
Definition config_addr (s : string) (p : Z) : Z * quic_addr :=
  match QuicAddrFromString s p quic_addr0 with
  | inl a => (- EINVAL, a)
  | inr a => if negb (family a =? AF_INET) then (- EINVAL, a)
             else (0, QuicAddr (family a) (addr4 a) (u16 p))
  end.

End addr.

(** ** What the parsers accept *)

(** A parse makes octets. *)
Definition octets_ok (l : list Z) (cur : option Z) : Prop :=
  Forall (λ b, 0 ≤ b < 256) l ∧ ∀ c, cur = Some c → 0 ≤ c < 256.

Lemma digit_range c d : digit c = Some d → 0 ≤ d ≤ 9.
Proof. unfold digit. destruct (_ && _) eqn:E; [|done]. intros [= <-]. lia. Qed.

Lemma pton_loop_bytes s oct cur l :
  octets_ok oct cur → pton_loop s oct cur = Some l → Forall (λ b, 0 ≤ b < 256) l.
Proof.
  revert oct cur. induction s as [|ch s IH]; intros oct cur [Ho Hc]; cbn [pton_loop].
  - destruct cur as [c|]; [|done]. intros [= <-]. constructor; [by apply Hc|done].
  - destruct (digit ch) as [d|] eqn:Ed.
    + apply digit_range in Ed. destruct cur as [c|].
      * specialize (Hc c eq_refl). destruct c as [|c|c]; [done| |lia].
        destruct (Z.ltb_spec 255 (Z.pos c * 10 + d)); [done|].
        apply IH. split; [done|]. intros ? [= <-]. lia.
      * apply IH. split; [done|]. intros ? [= <-]. lia.
    + destruct (_ && _); [|done]. destruct cur as [c|]; [|done]. apply IH. split; [|done].
      constructor; [by apply Hc|done].
Qed.

Lemma inet_pton_u32 s a : inet_pton s = Some a → in_u 32 a.
Proof.
  unfold inet_pton. destruct (pton_loop s [] None) as [l|] eqn:E; [|done].
  apply pton_loop_bytes in E; [|by split].
  destruct l as [|d [|c [|b [|a' [|]]]]]; try done. cbn. intros [= <-].
  rewrite !Forall_cons in E. unfold in_u, le_word. cbn. lia.
Qed.

(** The characters of an address: no colon, no bracket. *)
Fixpoint chars_in (p : ascii → bool) (s : string) : bool :=
  match s with String c s' => p c && chars_in p s' | EmptyString => true end.
Definition addr_char (c : ascii) : bool :=
  match digit c with Some _ => true | None => Ascii.eqb c "." end.

Lemma pton_loop_chars s oct cur l : pton_loop s oct cur = Some l → chars_in addr_char s = true.
Proof.
  revert oct cur. induction s as [|ch s IH]; intros oct cur; [done|].
  cbn [pton_loop chars_in]. unfold addr_char at 1. destruct (digit ch) as [d|].
  - destruct cur as [[|c|c]|]; [done| | |]; try (destruct (255 <? _); [done|]); cbn [andb]; apply IH.
  - change (ascii_of_nat 46) with "."%char. destruct (Ascii.eqb ch "."); [|done].
    destruct (_ <? _); [|done]. destruct cur; [|done]. cbn. apply IH.
Qed.

Lemma inet_pton_chars s a : inet_pton s = Some a → chars_in addr_char s = true.
Proof.
  unfold inet_pton. destruct (pton_loop s [] None) eqn:E; [|done]. by intros _; apply pton_loop_chars in E.
Qed.

Lemma index_none p c s : chars_in p s = true → p c = false → String.index 0 (String c "") s = None.
Proof.
  intros Hs Hp. induction s as [|ch s IH]; [done|].
  cbn [chars_in] in Hs. apply andb_true_iff in Hs as [Hch Hs].
  cbn [String.index String.prefix]. destruct (ascii_dec c ch) as [->|]; [congruence|].
  by rewrite (IH Hs).
Qed.

Lemma addr_not_bracketed s : chars_in addr_char s = true → bracketed s = false.
Proof.
  destruct s as [|c s]; [done|]. cbn. destruct (Ascii.eqb_spec c "["); [subst c; done|done].
Qed.

Lemma parse4_plain s a q : inet_pton s = Some a →
  QuicAddr4FromString s q = Some (QuicAddr AF_INET a (port q)).
Proof.
  intros E. pose proof (inet_pton_chars s a E) as Hc. unfold QuicAddr4FromString.
  rewrite addr_not_bracketed by done. rewrite (index_none addr_char) by done. by rewrite E.
Qed.

(** An IPv4 socket address with the port asked for. *)
Definition inet_addr (p : Z) (a : quic_addr) : Prop :=
  family a = AF_INET ∧ in_u 32 (addr4 a) ∧ port a = p ∧ in_u 16 p.

Lemma parse4_typed s q a : QuicAddr4FromString s q = Some a → family a = AF_INET ∧ in_u 32 (addr4 a).
Proof.
  unfold QuicAddr4FromString. destruct (bracketed s); [done|].
  destruct (String.index 0 ":" s) as [i|].
  - destruct (String.index _ _ _); [done|]. destruct (_ <=? _); [done|].
    destruct (inet_pton _) eqn:E; [|done]. apply inet_pton_u32 in E. by intros [= <-].
  - destruct (inet_pton _) eqn:E; [|done]. apply inet_pton_u32 in E. by intros [= <-].
Qed.

Lemma parse6_family inet_pton6 s q a :
  QuicAddr6FromString inet_pton6 s q = Some a → family a = AF_INET6.
Proof.
  unfold QuicAddr6FromString.
  destruct (bracketed s).
  - destruct (String.index 0 "]" s) as [i|]; [|done]. destruct (negb _); [done|].
    destruct (64 <=? _); [done|]. destruct (inet_pton6 _); [|done]. by intros [= <-].
  - destruct (inet_pton6 s); [|done]. by intros [= <-].
Qed.

(** C34. The configured addresses are typed: whatever the strings and however
    the C library parses IPv6, an accepted string gives an IPv4 socket address
    with the configured port, every plain dotted address is accepted and gives
    its own word, an IPv6 address and anything else is refused with -EINVAL. *)
Theorem config_addr_typed inet_pton6 s p :
  let '(rc, a) := config_addr inet_pton6 s p in
  (rc = 0 ∧ inet_addr (u16 p) a ∨ rc = - EINVAL) ∧
  (∀ w, inet_pton s = Some w → rc = 0 ∧ a = QuicAddr AF_INET w (u16 p)) ∧
  (QuicAddr4FromString s (QuicAddr 0 0 (u16 p)) = None → rc = - EINVAL).
Proof.
  unfold config_addr, QuicAddrFromString. cbn [family addr4 quic_addr0].
  destruct (QuicAddr4FromString s _) as [a|] eqn:E4.
  - pose proof (parse4_typed _ _ _ E4) as [Hf Ha]. rewrite Hf. cbn. split; [left|split; [|done]].
    + split; [done|]. repeat split; try done; try apply Ha; unfold u16; apply Z.mod_pos_bound; lia.
    + intros w Ew. rewrite (parse4_plain s w _ Ew) in E4. injection E4 as <-. done.
  - destruct (QuicAddr6FromString inet_pton6 s _) as [a|] eqn:E6.
    + apply parse6_family in E6. rewrite E6. cbn. split; [by right|]. split; [|done].
      intros w Ew. by rewrite (parse4_plain s w _ Ew) in E4.
    + cbn. split; [by right|]. split; [|done]. intros w Ew. by rewrite (parse4_plain s w _ Ew) in E4.
Qed.

Lemma config_addr_typed_witness :
  (config_addr (λ _, true) "10.10.10.11" 443).1 = 0 ∧
  (config_addr (λ _, true) "::1" 443).1 = - EINVAL ∧
  config_addr (λ _, true) "10.10.10.11:99" 443 = config_addr (λ _, true) "10.10.10.11" 443.
Proof.
  split; [|split; [|by vm_compute]].
  - pose proof (config_addr_typed (λ _, true) "10.10.10.11" 443) as H.
    destruct (config_addr _ _ _) as [rc a]. destruct H as (_ & H & _). by eapply (H 185207306).
  - pose proof (config_addr_typed (λ _, true) "::1" 443) as H.
    destruct (config_addr _ _ _) as [rc a]. destruct H as (_ & _ & H). by apply H.
Defined.
