(* ===== verification/Domain.v ===== *)
(** * domain.c: resolving host names

    getaddrinfo is a parameter: what it answers for a name and a family, and
    the number of calls before it.  A socket address is its bytes.  The state
    is the trace of the calls; inet_ntop of IPv4 is that of Utils.v, of IPv6
    the C library's algorithm. *)
From stdpp Require Import prelude strings.
From Stdlib Require Import ZArith Lia Ascii.
From S2P Require Import Prelude Utils PktCtrl.

Definition AF_UNSPEC : Z := 0.
Definition INET6_ADDRSTRLEN : Z := 46.
Definition sizeof_sockaddr_in : nat := 16.
Definition sizeof_sockaddr_in6 : nat := 28.
Definition sizeof_sockaddr_storage : nat := 128.

(** ** inet_ntop(AF_INET6, ..), as the C library does it *)

Definition hex_digit (d : Z) : string :=
  String (ascii_of_nat (Z.to_nat (if d <? 10 then 48 + d else 87 + d))) "".
Definition hex (w : Z) : string :=                               (* %x of a 16-bit word *)
  (if w <? 4096 then "" else hex_digit (w / 4096)) +:+
  (if w <? 256 then "" else hex_digit (w / 256 mod 16)) +:+
  (if w <? 16 then "" else hex_digit (w / 16 mod 16)) +:+
  hex_digit (w mod 16).

(** The longest run of zero words, the first among equals: base and length. *)
Definition longer (cur best : option (nat * nat)) : option (nat * nat) :=
  match cur, best with
  | Some c, Some b => if (b.2 <? c.2)%nat then cur else best
  | Some _, None => cur
  | None, _ => best
  end.
Fixpoint best_run (ws : list Z) (i : nat) (cur best : option (nat * nat)) : option (nat * nat) :=
  match ws with
  | [] => match longer cur best with Some b => if (b.2 <? 2)%nat then None else Some b | None => None end
  | w :: ws =>
      if w =? 0 then
        best_run ws (S i) (Some (match cur with Some c => (c.1, S c.2) | None => (i, 1%nat) end)) best
      else best_run ws (S i) None (longer cur best)
  end.

(** The words from the [i]th on; [v4] is the address's last word in memory order. *)
Fixpoint ntop6_loop (ws : list Z) (i : nat) (best : option (nat * nat)) (w5 v4 : Z) : string :=
  match ws with
  | [] => ""
  | w :: ws =>
      let inside := match best with
                    | Some (b, n) => (b <=? i)%nat && (i <? b + n)%nat | None => false end in
      if inside then
        (if match best with Some (b, _) => (b =? i)%nat | None => false end then ":" else "") +:+
        ntop6_loop ws (S i) best w5 v4
      else
        (if (i =? 0)%nat then "" else ":") +:+
        (if (i =? 6)%nat && match best with
              | Some (b, n) => (b =? 0)%nat && ((n =? 6)%nat || (n =? 5)%nat && (w5 =? 65535))
              | None => false end
         then dotted v4
         else hex w +:+ ntop6_loop ws (S i) best w5 v4)
  end.

Definition words (a : list Z) : list Z :=
  (λ i, 256 * rd (2 * i) 1 a + rd (2 * i + 1) 1 a) <$> seq 0 8.

(** The text of the 16 bytes [a]. *)
Definition ntop6 (a : list Z) : string :=
  let ws := words a in
  let best := best_run ws 0 None None in
  ntop6_loop ws 0 best (nth 5 ws 0) (rd 12 4 a) +:+
  (if match best with Some (b, n) => (b + n =? 8)%nat | None => false end then ":" else "").
Definition inet_ntop6 (a : list Z) (len : Z) : option string :=
  let s := ntop6 a in
  if Z.of_nat (String.length s) + 1 <=? len then Some s else None.

(** ** The resolvers *)

Record addrinfo := Addrinfo { ai_family : Z; ai_addr : option (list Z) }.

Inductive gai_call :=
| GetAddrInfo (host : string) (family socktype : Z)
| FreeAddrInfo.
#[export] Instance gai_call_eq_dec : EqDecision gai_call.
Proof. solve_decision. Defined.

Definition SOCK_DGRAM : Z := 2.
Definition sin_addr (sa : list Z) : Z := rd 4 4 sa.
Definition sin6_addr (sa : list Z) : list Z := sub 8 16 sa.

Section domain.
Context (gai : string → Z → nat → Z * option addrinfo).

Abbreviation M := (M (list gai_call)).

(** [getaddrinfo(hostname, NULL, &hints, &result)]: the status and [result]. *)
Definition getaddrinfo (host : string) (fam : Z) : M (Z * option addrinfo) := λ tr,
  Ret (gai host fam (length tr)) (tr ++ [GetAddrInfo host fam SOCK_DGRAM]).
Definition freeaddrinfo : M () := modify (λ tr, tr ++ [FreeAddrInfo]).

(** The functions return their code and what is in the buffer of the caller. *)
Definition resolve_hostname_ipv4 (hostname : option string) (addr : option Z) : M (Z * option Z) :=
  match hostname, addr with
  | Some host, Some a =>
      '(status, result) ← getaddrinfo host AF_INET;
      if negb (status =? 0) then mret (-1, addr)
      else
        match result with
        | None => mret (-1, addr)
        | Some r =>
            match ai_addr r with
            | None => freeaddrinfo;; mret (-1, addr)
            | Some sa => freeaddrinfo;; mret (0, Some (sin_addr sa))
            end
        end
  | _, _ => mret (-1, addr)
  end.

Definition resolve_hostname_ipv6 (hostname : option string) (addr : option (list Z))
    : M (Z * option (list Z)) :=
  match hostname, addr with
  | Some host, Some a =>
      '(status, result) ← getaddrinfo host AF_INET6;
      if negb (status =? 0) then mret (-1, addr)
      else
        match result with
        | None => mret (-1, addr)
        | Some r =>
            match ai_addr r with
            | None => freeaddrinfo;; mret (-1, addr)
            | Some sa => freeaddrinfo;; mret (0, Some (sin6_addr sa))
            end
        end
  | _, _ => mret (-1, addr)
  end.

Definition resolve_hostname_ipv4_str (hostname ip_buf : option string) (ip_buf_len : Z)
    : M (Z * option string) :=
  match hostname, ip_buf with
  | Some host, Some b =>
      if ip_buf_len <? INET_ADDRSTRLEN then mret (-1, ip_buf)
      else
        '(status, result) ← getaddrinfo host AF_INET;
        if negb (status =? 0) then mret (-1, ip_buf)
        else
          match result with
          | None => mret (-1, ip_buf)
          | Some r =>
              match ai_addr r with
              | None => freeaddrinfo;; mret (-1, ip_buf)
              | Some sa =>
                  match inet_ntop (sin_addr sa) ip_buf_len with
                  | None => freeaddrinfo;; mret (-1, ip_buf)
                  | Some s => freeaddrinfo;; mret (0, Some s)
                  end
              end
          end
  | _, _ => mret (-1, ip_buf)
  end.

Definition resolve_hostname_ipv6_str (hostname ip_buf : option string) (ip_buf_len : Z)
    : M (Z * option string) :=
  match hostname, ip_buf with
  | Some host, Some b =>
      if ip_buf_len <? INET6_ADDRSTRLEN then mret (-1, ip_buf)
      else
        '(status, result) ← getaddrinfo host AF_INET6;
        if negb (status =? 0) then mret (-1, ip_buf)
        else
          match result with
          | None => mret (-1, ip_buf)
          | Some r =>
              match ai_addr r with
              | None => freeaddrinfo;; mret (-1, ip_buf)
              | Some sa =>
                  match inet_ntop6 (sin6_addr sa) ip_buf_len with
                  | None => freeaddrinfo;; mret (-1, ip_buf)
                  | Some s => freeaddrinfo;; mret (0, Some s)
                  end
              end
          end
  | _, _ => mret (-1, ip_buf)
  end.

(** [addr]: the bytes of the sockaddr_storage. *)
Definition resolve_hostname (hostname : option string) (addr : option (list Z))
    : M (Z * option (list Z)) :=
  match hostname, addr with
  | Some host, Some a =>
      '(status, result) ← getaddrinfo host AF_UNSPEC;
      match (if negb (status =? 0) then None else result ≫= ai_addr), result with
      | None, None => mret (-1, addr)
      | None, Some _ => freeaddrinfo;; mret (-1, addr)
      | Some sa, _ =>
          let zero := replicate sizeof_sockaddr_storage 0 in
          let fam := default 0 (ai_family <$> result) in
          if fam =? AF_INET then
            freeaddrinfo;; mret (0, Some (wr 0 (take sizeof_sockaddr_in sa) zero))
          else if fam =? AF_INET6 then
            freeaddrinfo;; mret (0, Some (wr 0 (take sizeof_sockaddr_in6 sa) zero))
          else freeaddrinfo;; mret (-1, Some zero)
      end
  | _, _ => mret (-1, addr)
  end.
End domain.

Definition ss_family (sa : list Z) : Z := rd 0 2 sa.

Definition sockaddr_to_str (addr : option (list Z)) (ip_buf : option string) (ip_buf_len : Z)
    : Z * option string :=
  match addr, ip_buf with
  | Some sa, Some b =>
      if ip_buf_len <? INET6_ADDRSTRLEN then (-1, ip_buf)
      else if ss_family sa =? AF_INET then
        match inet_ntop (sin_addr sa) ip_buf_len with None => (-1, ip_buf) | Some s => (0, Some s) end
      else if ss_family sa =? AF_INET6 then
        match inet_ntop6 (sin6_addr sa) ip_buf_len with None => (-1, ip_buf) | Some s => (0, Some s) end
      else (-1, ip_buf)
  | _, _ => (-1, ip_buf)
  end.

Example ntop6_loopback : ntop6 (replicate 15 0 ++ [1]) = "::1"%string.
Proof. reflexivity. Qed.
Example ntop6_mapped : ntop6 (replicate 10 0 ++ [255; 255; 192; 0; 2; 33]) = "::ffff:192.0.2.33"%string.
Proof. reflexivity. Qed.
Example ntop6_doc :
  ntop6 [32; 1; 13; 184; 0; 0; 0; 0; 0; 0; 0; 0; 0; 1; 0; 0] = "2001:db8::1:0"%string.
Proof. reflexivity. Qed.
Example ntop6_zero : ntop6 (replicate 16 0) = "::"%string.
Proof. reflexivity. Qed.

(** ** The text of an address fits the buffers *)

Lemma length_app_string a b : String.length (a +:+ b) = (String.length a + String.length b)%nat.
Proof. apply length_string_app. Qed.

Lemma longer_bounds cur best x i :
  (∀ c, cur = Some c → (c.1 + c.2 = i)%nat) → (∀ c, best = Some c → (c.1 + c.2 ≤ i)%nat) →
  longer cur best = Some x → (x.1 + x.2 ≤ i)%nat.
Proof.
  intros Hc He. unfold longer. destruct cur as [c|], best as [e|]; try done.
  - specialize (Hc _ eq_refl). specialize (He _ eq_refl). destruct (_ <? _)%nat; intros [= <-]; lia.
  - specialize (Hc _ eq_refl). intros [= <-]; lia.
  - specialize (He _ eq_refl). intros [= <-]; lia.
Qed.

Lemma best_run_bounds ws i cur best b n :
  (∀ c, cur = Some c → (c.1 + c.2 = i)%nat) → (∀ c, best = Some c → (c.1 + c.2 ≤ i)%nat) →
  best_run ws i cur best = Some (b, n) → (2 ≤ n)%nat ∧ (b + n ≤ i + length ws)%nat.
Proof.
  revert i cur best. induction ws as [|w ws IH]; intros i cur best Hc He; cbn [best_run].
  - destruct (longer cur best) as [x|] eqn:E; [|done]. apply (longer_bounds _ _ _ i Hc He) in E.
    destruct (Nat.ltb_spec x.2 2); [done|]. intros [= ->]. simpl in *. lia.
  - destruct (w =? 0).
    + intros H. apply IH in H; [simpl; lia|..].
      * intros c [= <-]. destruct cur as [c|]; [specialize (Hc _ eq_refl)|]; simpl; lia.
      * intros c ->. specialize (He _ eq_refl). lia.
    + intros H. apply IH in H; [simpl; lia|done|]. intros c E. apply (longer_bounds _ _ _ i Hc He) in E. lia.
Qed.

Lemma hex_length w : (String.length (hex w) ≤ 4)%nat.
Proof.
  unfold hex. rewrite !length_app_string.
  assert (H : ∀ d, String.length (hex_digit d) = 1%nat) by done.
  destruct (w <? 4096), (w <? 256), (w <? 16); rewrite ?H; simpl; lia.
Qed.

Lemma sep_length i : (String.length (if (i =? 0)%nat then "" else ":") ≤ 1)%nat.
Proof. destruct (i =? 0)%nat; simpl; lia. Qed.

(** The words inside the run, of those from the [i]th on. *)
Definition skipped (best : option (nat * nat)) (i : nat) : nat :=
  match best with Some (b, n) => b + n - (b `max` i) | None => 0 end.

Lemma ntop6_loop_length ws i best w5 v4 : (i + length ws = 8)%nat →
  (∀ b n, best = Some (b, n) → (b + n ≤ 8)%nat) →
  (String.length (ntop6_loop ws i best w5 v4) + 4 * skipped best i ≤
   5 * length ws + (match best with Some _ => 6 | None => 0 end))%nat.
Proof.
  intros Hi H. revert i Hi. induction ws as [|w ws IH]; intros i Hi; cbn [ntop6_loop length] in *.
  - destruct best as [[b n]|]; cbn [skipped String.length]; [specialize (H b n eq_refl); lia|lia].
  - specialize (IH (S i) ltac:(lia)). pose proof (hex_length w). pose proof (sep_length i).
    pose proof (dotted_length v4). destruct best as [[b n]|]; cbn [skipped] in *.
    + specialize (H b n eq_refl).
      destruct (Nat.leb_spec b i), (Nat.ltb_spec i (b + n)); cbn [andb];
        [rewrite length_app_string; destruct (Nat.eqb_spec b i); cbn [String.length]; lia
        |destruct (_ && _) eqn:E; rewrite !length_app_string..]; try lia.
      all: apply andb_true_iff in E as [E1 E2]; apply Nat.eqb_eq in E1;
        apply andb_true_iff in E2 as [E2 E3]; apply Nat.eqb_eq in E2;
        assert (n ≤ 6)%nat by (destruct (Nat.eqb_spec n 6), (Nat.eqb_spec n 5); cbn in E3; [lia..|done]); lia.
    + rewrite andb_false_r, !length_app_string. lia.
Qed.

(** No address takes more than 45 characters. *)
Lemma ntop6_fits a len : INET6_ADDRSTRLEN ≤ len → inet_ntop6 a len = Some (ntop6 a).
Proof.
  intros H. unfold inet_ntop6, INET6_ADDRSTRLEN in *.
  assert (Hl : (String.length (ntop6 a) ≤ 45)%nat).
  { unfold ntop6. rewrite length_app_string. set (best := best_run (words a) 0 None None).
    assert (Hb : ∀ b n, best = Some (b, n) → (2 ≤ n)%nat ∧ (b + n ≤ 8)%nat).
    { intros b n E. apply best_run_bounds in E; [|done..]. exact E. }
    pose proof (ntop6_loop_length (words a) 0 best (nth 5 (words a) 0) (rd 12 4 a) eq_refl
      (λ b n E, proj2 (Hb b n E))) as Hn.
    change (length (words a)) with 8%nat in Hn. destruct best as [[b n]|]; unfold skipped in Hn.
    - specialize (Hb b n eq_refl). destruct (_ =? 8)%nat; cbn [String.length]; lia.
    - cbn [String.length]. lia. }
  destruct (Z.leb_spec (Z.of_nat (String.length (ntop6 a)) + 1) len); [done|lia].
Qed.

(** ** The resolvers *)

(** What a resolver answers for a host: a socket address of its family. *)
Definition answer_ok (r : addrinfo) (sa : list Z) : Prop :=
  ai_addr r = Some sa ∧ ss_family sa = ai_family r ∧
  (ai_family r = AF_INET ∧ length sa = sizeof_sockaddr_in ∨
   ai_family r = AF_INET6 ∧ length sa = sizeof_sockaddr_in6).

(** The storage begins with the socket address. *)
Lemma storage_eq sa : (length sa ≤ sizeof_sockaddr_storage)%nat →
  wr 0 sa (replicate sizeof_sockaddr_storage 0) =
  sa ++ replicate (sizeof_sockaddr_storage - length sa) 0.
Proof.
  intros H. replace (replicate sizeof_sockaddr_storage 0) with
    ([] ++ replicate (length sa) 0 ++ replicate (sizeof_sockaddr_storage - length sa) 0).
  - apply (wr_app [] _ _ sa). by rewrite length_replicate.
  - cbn [app]. rewrite <- replicate_add. f_equal. unfold sizeof_sockaddr_storage in *. lia.
Qed.

Lemma storage_sub off n sa : (off + n ≤ length sa)%nat → (length sa ≤ sizeof_sockaddr_storage)%nat →
  sub off n (wr 0 sa (replicate sizeof_sockaddr_storage 0)) = sub off n sa.
Proof. intros. rewrite storage_eq by done. by apply sub_app_l. Qed.

(** Printing what was stored. *)
Lemma stored_text r sa buf len : answer_ok r sa → INET6_ADDRSTRLEN ≤ len →
  sockaddr_to_str (Some (wr 0 sa (replicate sizeof_sockaddr_storage 0))) (Some buf) len =
    (0, Some (if ai_family r =? AF_INET then dotted (sin_addr sa) else ntop6 (sin6_addr sa))).
Proof.
  intros (_ & Hss & Hf) Hl. unfold sockaddr_to_str.
  assert (Hlen : INET_ADDRSTRLEN ≤ len) by (unfold INET_ADDRSTRLEN, INET6_ADDRSTRLEN in *; lia).
  destruct (Z.ltb_spec len INET6_ADDRSTRLEN); [lia|].
  assert (Hn : (16 ≤ length sa ≤ 28)%nat)
    by (unfold sizeof_sockaddr_in, sizeof_sockaddr_in6 in Hf; lia).
  assert (E1 : ss_family (wr 0 sa (replicate sizeof_sockaddr_storage 0)) = ai_family r).
  { rewrite <- Hss. unfold ss_family, rd. rewrite storage_sub; [done|unfold sizeof_sockaddr_storage; lia..]. }
  assert (E2 : sin_addr (wr 0 sa (replicate sizeof_sockaddr_storage 0)) = sin_addr sa).
  { unfold sin_addr, rd. rewrite storage_sub; [done|unfold sizeof_sockaddr_storage; lia..]. }
  rewrite E1, E2. destruct Hf as [[-> _]|[-> Hf]].
  - change (AF_INET =? AF_INET) with true. cbv iota. by rewrite inet_ntop_fits.
  - change (AF_INET6 =? AF_INET) with false. change (AF_INET6 =? AF_INET6) with true. cbv iota.
    rewrite ntop6_fits by done. unfold sin6_addr. rewrite storage_sub; [done| |unfold sizeof_sockaddr_storage; lia].
    rewrite Hf. unfold sizeof_sockaddr_in6. lia.
Qed.

(** Resolving and printing: the address a resolver answers for a host is
    stored into the caller's storage, its list is freed once, and
    sockaddr_to_str prints that address: no IPv4 or IPv6 address overflows a
    buffer of INET6_ADDRSTRLEN bytes. *)
Theorem resolve_then_print gai host a buf len tr r sa :
  gai host AF_UNSPEC (length tr) = (0, Some r) → answer_ok r sa → INET6_ADDRSTRLEN ≤ len →
  runs (resolve_hostname gai (Some host) (Some a)) tr (λ x tr',
    x.1 = 0 ∧ tr' = tr ++ [GetAddrInfo host AF_UNSPEC SOCK_DGRAM; FreeAddrInfo] ∧
    sockaddr_to_str x.2 (Some buf) len =
      (0, Some (if ai_family r =? AF_INET then dotted (sin_addr sa) else ntop6 (sin6_addr sa)))).
Proof.
  intros Hg Hok Hl. unfold resolve_hostname. apply runs_bind.
  unfold getaddrinfo, runs at 1. rewrite Hg. change (negb (0 =? 0)) with false. cbv iota.
  pose proof Hok as (Ha & _ & Hf). cbn [mbind option_bind fmap option_fmap option_map from_option]. unfold id.
  rewrite Ha. cbv zeta. pose proof (stored_text r sa buf len Hok Hl) as E.
  unfold runs, freeaddrinfo, modify, mbind, M_bind, mret, M_ret.
  destruct Hf as [[Hf Hn]|[Hf Hn]]; rewrite Hf in *.
  - change (AF_INET =? AF_INET) with true in *. cbv iota in *. cbn [fst snd].
    rewrite (take_ge sa) by (rewrite Hn; apply Nat.le_refl). split; [done|]. by rewrite <- (assoc_L (++)).
  - change (AF_INET6 =? AF_INET) with false in *. change (AF_INET6 =? AF_INET6) with true. cbv iota in *.
    cbn [fst snd]. rewrite (take_ge sa) by (rewrite Hn; apply Nat.le_refl). split; [done|]. by rewrite <- (assoc_L (++)).
Qed.

(** The text of the first IPv4 address of a host is the text of the address
    resolve_hostname_ipv4 gives, for every resolver; the list is freed once
    when there is one. *)
Lemma resolve_ipv4_str_agrees gai host a buf len tr : INET_ADDRSTRLEN ≤ len →
  ∃ rc out, resolve_hostname_ipv4 gai (Some host) (Some a) tr = Ret (rc, Some out)
      (tr ++ GetAddrInfo host AF_INET SOCK_DGRAM ::
         match gai host AF_INET (length tr) with (0, Some _) => [FreeAddrInfo] | _ => [] end) ∧
    (rc = 0 ∨ rc = -1) ∧ (rc = -1 → out = a) ∧
    resolve_hostname_ipv4_str gai (Some host) (Some buf) len tr = Ret
      (rc, Some (if rc =? 0 then dotted out else buf))
      (tr ++ GetAddrInfo host AF_INET SOCK_DGRAM ::
         match gai host AF_INET (length tr) with (0, Some _) => [FreeAddrInfo] | _ => [] end).
Proof.
  intros Hl. unfold resolve_hostname_ipv4, resolve_hostname_ipv4_str, getaddrinfo, mbind, M_bind.
  destruct (Z.ltb_spec len INET_ADDRSTRLEN); [lia|].
  destruct (gai host AF_INET (length tr)) as [st res].
  destruct (Z.eqb_spec st 0) as [->|Hst]; cbn [negb].
  - destruct res as [r|]; [|by exists (-1), a; repeat split; auto].
    destruct (ai_addr r) as [sa|].
    + rewrite inet_ntop_fits by done. exists 0, (sin_addr sa).
      unfold freeaddrinfo, modify; cbn. rewrite <- !(assoc_L (++)). by repeat split; auto.
    + exists (-1), a. unfold freeaddrinfo, modify; cbn. rewrite <- !(assoc_L (++)). by repeat split; auto.
  - exists (-1), a. destruct st; [done|..]; by repeat split; auto.
Qed.

Definition sample_gai (host : string) (fam : Z) (n : nat) : Z * option addrinfo :=
  (0, Some (Addrinfo AF_INET (Some ([2; 0; 0; 0; 198; 51; 100; 7] ++ replicate 8 0)))).

Lemma resolve_then_print_witness :
  runs (resolve_hostname sample_gai (Some "vpn.example"%string) (Some [])) [] (λ x tr',
    x.1 = 0 ∧ (sockaddr_to_str x.2 (Some ""%string) 46).2 = Some "198.51.100.7"%string).
Proof.
  assert (Hok : answer_ok (Addrinfo AF_INET (Some ([2; 0; 0; 0; 198; 51; 100; 7] ++ replicate 8 0)))
    ([2; 0; 0; 0; 198; 51; 100; 7] ++ replicate 8 0)).
  { split; [done|]. split; [by vm_compute|]. by left. }
  eapply runs_mono; [eapply (resolve_then_print sample_gai "vpn.example" [] "" 46 [] _ _ eq_refl Hok);
    by vm_compute|].
  intros x tr' (-> & _ & E). split; [done|]. rewrite E. by vm_compute.
Defined.
