(* ===== verification/Frames.v ===== *)
(** * Control frames out of a QUIC stream (quic.c of the server and the client)

    The bytes of a receive event come in several buffers; both programs copy
    whole frames of [sizeof(pkt_ctrl_t)] bytes out of them and process each.
    A QUIC_BUFFER is the list of its bytes, its Length their number. *)
From stdpp Require Import prelude.
From Stdlib Require Import ZArith Lia.
From S2P Require Import Prelude PktCtrl.

Definition Length (b : list Z) : Z := Z.of_nat (length b).

(** The loop of copy_quic_buffers over the remaining buffers. *)
Fixpoint copy_loop (quic_buf : list (list Z)) (offset copied to_copy : Z) (dest : list Z)
    : list Z :=
  match quic_buf with
  | [] => dest
  | b :: quic_buf =>
      if negb (copied <? to_copy) then dest
      else if Length b <=? offset then
        copy_loop quic_buf (u64 (offset - Length b)) copied to_copy dest
      else
        let chunk := u32 (Length b - u32 offset) in
        let chunk := if u32 (to_copy - copied) <? chunk then u32 (to_copy - copied) else chunk in
        copy_loop quic_buf 0 (u32 (copied + chunk)) to_copy
          (wr (Z.to_nat copied) (sub (Z.to_nat offset) (Z.to_nat chunk) b) dest)
  end.

Definition copy_quic_buffers (quic_buf : list (list Z)) (offset : Z) (dest : list Z)
    (to_copy : Z) : list Z :=
  copy_loop quic_buf offset 0 to_copy dest.

Section receive.
Context {S : Type} (process_ctrl_pkt : list Z → M S Z) (on_error : Z → bool).

(** The loop of the RECEIVE event, at [consumed_bytes] bytes; [on_error] is
    whether a result of process_ctrl_pkt ends it.  [None]: ended so, [Some n]:
    [n] bytes were consumed.  [fuel] bounds the iterations. *)
Fixpoint receive_loop (fuel : nat) (bufs : list (list Z)) (recv_bytes consumed_bytes : Z)
    : M S (option Z) :=
  match fuel with
  | O => block
  | Datatypes.S fuel =>
      if PKTCTRLSIZ <=? u64 (recv_bytes - consumed_bytes) then
        let pkt_raw := copy_quic_buffers bufs consumed_bytes (replicate (Z.to_nat PKTCTRLSIZ) 0)
                         PKTCTRLSIZ in
        r ← process_ctrl_pkt pkt_raw;
        if on_error r then mret None
        else receive_loop fuel bufs recv_bytes (u64 (consumed_bytes + PKTCTRLSIZ))
      else mret (Some consumed_bytes)
  end.

Definition receive_fuel (recv_bytes : Z) : nat :=
  Datatypes.S (Z.to_nat (recv_bytes / PKTCTRLSIZ)).

(** ** The specification: the frames of a byte stream *)

Fixpoint cut (n : nat) (l : list Z) : list (list Z) :=
  match n with
  | O => []
  | Datatypes.S n => take (Z.to_nat PKTCTRLSIZ) l :: cut n (drop (Z.to_nat PKTCTRLSIZ) l)
  end.
Definition frames (l : list Z) : list (list Z) := cut (length l / Z.to_nat PKTCTRLSIZ) l.

Fixpoint run_frames (fs : list (list Z)) : M S bool :=
  match fs with
  | [] => mret true
  | f :: fs =>
      r ← process_ctrl_pkt f;
      if on_error r then mret false else run_frames fs
  end.

(** All frames are processed and [n] bytes consumed, or one of them ends it. *)
Definition frames_then (fs : list (list Z)) (n : Z) : M S (option Z) :=
  ok ← run_frames fs;
  mret (if ok : bool then Some n else None).

(** ** Lemmas *)

(** The loop writes, from [copied] on, the bytes that follow [offset]. *)
Lemma copy_loop_spec bufs offset done rest tail to_copy :
  Forall (λ b, Length b < 2 ^ 32) bufs →
  Z.of_nat (length (concat bufs)) < 2 ^ 64 → 0 ≤ offset →
  0 ≤ to_copy < 2 ^ 32 → Z.of_nat (length done) + Z.of_nat (length rest) = to_copy →
  offset + Z.of_nat (length rest) ≤ Z.of_nat (length (concat bufs)) →
  copy_loop bufs offset (Z.of_nat (length done)) to_copy (done ++ rest ++ tail)
  = done ++ sub (Z.to_nat offset) (length rest) (concat bufs) ++ tail.
Proof.
  revert offset done rest. induction bufs as [|b bufs IH]; intros offset dn rest Hlen Htot Ho Hc Hdr Hin.
  { simpl in *. destruct rest; simpl in *; [done|lia]. }
  apply Forall_cons in Hlen as [Hb Hlen]. unfold Length in Hb.
  cbn [copy_loop concat] in *. rewrite length_app in Hin, Htot.
  destruct (Z.ltb_spec (Z.of_nat (length dn)) to_copy) as [Hlt|Hge]; cbn [negb].
  2:{ destruct rest; simpl in *; [|lia]. unfold sub. done. }
  unfold Length. destruct (Z.leb_spec (Z.of_nat (length b)) offset) as [Hskip|Hin2].
  - rewrite u64_small by lia. rewrite IH by (done || lia). f_equal. f_equal.
    rewrite sub_app_skip by lia. f_equal. lia.
  - rewrite (u32_small offset), (u32_small (_ - offset)), (u32_small (to_copy - _)) by lia.
    set (chunk := if _ <? _ then _ else _).
    set (n := Z.to_nat chunk).
    assert (Hn : chunk = Z.of_nat n ∧ (0 < n ≤ length rest)%nat ∧
                 offset + chunk ≤ Z.of_nat (length b) ∧
                 (chunk = Z.of_nat (length b) - offset ∨ n = length rest)).
    { subst n chunk. destruct (Z.ltb_spec (to_copy - Z.of_nat (length dn))
                                 (Z.of_nat (length b) - offset)); lia. }
    destruct Hn as (Hchunk & Hn & Hfit & Hcase). clearbody chunk n.
    rewrite (u32_small (_ + chunk)) by lia. rewrite Nat2Z.id.
    set (new := sub (Z.to_nat offset) n b).
    assert (Hnew : length new = n) by (apply length_sub; lia).
    assert (Hd : length (drop n rest) = (length rest - n)%nat) by apply length_drop.
    rewrite <- (take_drop n rest) at 1. rewrite <- (assoc_L (++)).
    rewrite wr_app by (rewrite length_take; lia).
    rewrite (assoc_L (++) dn).
    replace (Z.of_nat (length dn) + chunk) with (Z.of_nat (length (dn ++ new)))
      by (rewrite length_app; lia).
    rewrite IH by (done || rewrite ?length_app; lia).
    rewrite <- (assoc_L (++)). f_equal. rewrite (assoc_L (++)). f_equal.
    replace (length rest) with (n + length (drop n rest))%nat by lia.
    rewrite <- sub_split. f_equal; [symmetry; apply sub_app_l; lia|].
    destruct Hcase as [Hall|Hlast].
    + rewrite sub_app_skip by lia. f_equal. lia.
    + rewrite Hd, Hlast, Nat.sub_diag. done.
Qed.

Lemma copy_quic_buffers_slice bufs offset dest to_copy :
  Forall (λ b, Length b < 2 ^ 32) bufs → Z.of_nat (length (concat bufs)) < 2 ^ 64 →
  0 ≤ offset → 0 ≤ to_copy < 2 ^ 32 → to_copy ≤ Z.of_nat (length dest) →
  offset + to_copy ≤ Z.of_nat (length (concat bufs)) →
  copy_quic_buffers bufs offset dest to_copy =
  sub (Z.to_nat offset) (Z.to_nat to_copy) (concat bufs) ++ drop (Z.to_nat to_copy) dest.
Proof.
  intros Hb Htot Ho Hc Hd Hin. unfold copy_quic_buffers.
  assert (Ht : length (take (Z.to_nat to_copy) dest) = Z.to_nat to_copy)
    by (rewrite length_take; lia).
  rewrite <- (take_drop (Z.to_nat to_copy) dest) at 1.
  pose proof (copy_loop_spec bufs offset [] (take (Z.to_nat to_copy) dest)
                (drop (Z.to_nat to_copy) dest) to_copy) as H.
  cbn [app length] in H. rewrite Ht in H. apply H; done || lia.
Qed.

Lemma receive_loop_frames n fuel bufs consumed s :
  Forall (λ b, Length b < 2 ^ 32) bufs → Z.of_nat (length (concat bufs)) < 2 ^ 64 →
  0 ≤ consumed → let total := Z.of_nat (length (concat bufs)) in
  consumed + PKTCTRLSIZ * Z.of_nat n ≤ total < consumed + PKTCTRLSIZ * (Z.of_nat n + 1) →
  (n < fuel)%nat →
  receive_loop fuel bufs total consumed s =
  frames_then (cut n (drop (Z.to_nat consumed) (concat bufs)))
    (consumed + PKTCTRLSIZ * Z.of_nat n) s.
Proof.
  intros Hb Htot H0 total. unfold frames_then, PKTCTRLSIZ. revert fuel consumed H0 s.
  induction n as [|n IH]; intros [|fuel] consumed H0 s Hn Hf; try lia;
    cbn [receive_loop cut]; unfold PKTCTRLSIZ; rewrite u64_small by lia.
  - destruct (Z.leb_spec 1024 (total - consumed)); [lia|].
    cbn [run_frames]. unfold mbind, M_bind, mret, M_ret. do 2 f_equal. lia.
  - destruct (Z.leb_spec 1024 (total - consumed)); [|lia].
    assert (Hcopy : copy_quic_buffers bufs consumed (replicate (Z.to_nat 1024) 0) 1024 =
      take (Z.to_nat 1024) (drop (Z.to_nat consumed) (concat bufs))).
    { rewrite copy_quic_buffers_slice; rewrite ?length_replicate; try done; try lia.
      rewrite drop_ge by (rewrite length_replicate; done). by rewrite app_nil_r. }
    rewrite Hcopy. cbn [run_frames]. set (f := take _ _).
    unfold mbind at 1 2 3, M_bind at 1 2 3. destruct (process_ctrl_pkt f s) as [r s'|s'|s']; [|done..].
    destruct (on_error r); [done|]. rewrite u64_small by lia. rewrite IH by lia.
    rewrite drop_drop. replace (Z.to_nat (consumed + 1024)) with (Z.to_nat consumed + Z.to_nat 1024)%nat by lia.
    unfold mbind, M_bind. destruct (run_frames _ _) as [ok s''|s''|s'']; try done.
    destruct ok; [|done]. unfold mret, M_ret. do 2 f_equal. lia.
Qed.

Lemma receive_loop_run bufs s :
  Forall (λ b, Length b < 2 ^ 32) bufs → Z.of_nat (length (concat bufs)) < 2 ^ 64 →
  let total := Z.of_nat (length (concat bufs)) in
  receive_loop (receive_fuel total) bufs total 0 s =
  frames_then (frames (concat bufs)) (total - total mod PKTCTRLSIZ) s.
Proof.
  intros Hb Htot total. rewrite (receive_loop_frames (length (concat bufs) / Z.to_nat PKTCTRLSIZ));
    try done; fold total.
  - rewrite drop_0. unfold frames. f_equal. rewrite Nat2Z.inj_div. unfold PKTCTRLSIZ. fold total.
    change (Z.of_nat (Z.to_nat 1024)) with 1024. pose proof (Z.div_mod total 1024). lia.
  - rewrite Nat2Z.inj_div. unfold PKTCTRLSIZ. fold total.
    change (Z.of_nat (Z.to_nat 1024)) with 1024.
    pose proof (Z.div_mod total 1024). pose proof (Z.mod_pos_bound total 1024). lia.
  - unfold receive_fuel, PKTCTRLSIZ.
    rewrite <- (Nat2Z.id (length (concat bufs) / _)), Nat2Z.inj_div. fold total.
    change (Z.of_nat (Z.to_nat 1024)) with 1024. lia.
Qed.

(** C10. The loop of the RECEIVE event, on any split of the received bytes into
    buffers, processes exactly the whole frames of the concatenated bytes, in
    order and each from a zeroed buffer filled completely; unless a frame ends
    it, it then reports all their bytes as consumed and leaves the incomplete
    rest, and it does so within the fuel. *)
Theorem receive_loop_spec bufs s :
  Forall (λ b, Length b < 2 ^ 32) bufs → Z.of_nat (length (concat bufs)) < 2 ^ 64 →
  let total := Z.of_nat (length (concat bufs)) in
  receive_loop (receive_fuel total) bufs total 0 s =
  frames_then (frames (concat bufs)) (total - total mod PKTCTRLSIZ) s.
Proof. apply receive_loop_run. Qed.

(** Frames are cut at the same places however the stream arrives: when the
    bytes left over are delivered again in front of the next ones, the frames
    processed are those of the whole stream. *)
Lemma frames_app l m :
  let n := (length l / Z.to_nat PKTCTRLSIZ)%nat in
  frames (l ++ m) = frames l ++ frames (drop (n * Z.to_nat PKTCTRLSIZ) l ++ m).
Proof.
  intros n. unfold frames. fold n. set (k := Z.to_nat PKTCTRLSIZ) in *.
  assert (Hk : (0 < k)%nat) by (unfold k, PKTCTRLSIZ; lia).
  pose proof (Nat.div_mod_eq (length l) k) as Hd.
  pose proof (Nat.mod_upper_bound (length l) k ltac:(lia)) as Hm. fold n in Hd.
  assert (Hlen : (length (l ++ m) / k = n + length (drop (n * k) l ++ m) / k)%nat).
  { rewrite !length_app, length_drop. rewrite <- Nat.div_add_l by lia. f_equal. lia. }
  rewrite Hlen. assert (Hnk : (n * k ≤ length l)%nat) by lia. clearbody n. clear Hd Hm Hlen.
  generalize (length (drop (n * k) l ++ m) / k)%nat as j. intros j.
  revert l Hnk. induction n as [|n IH]; intros l Hnk; [by rewrite drop_0|].
  cbn [cut Nat.add app]. fold k. rewrite take_app_le, drop_app_le by lia. f_equal.
  rewrite IH by (rewrite length_drop; lia). f_equal. rewrite drop_drop. reflexivity.
Qed.
End receive.

Definition log_frame (f : list Z) : M (list Z) Z := λ l, Ret 0 (l ++ [Z.of_nat (length f); hd 0 f]).
Definition sample_bufs : list (list Z) := [replicate 2 1; replicate 1500 2; []; replicate 600 3].

Lemma receive_loop_spec_witness :
  receive_loop log_frame (λ r, negb (r =? 0)) (receive_fuel 2102) sample_bufs 2102 0 [] =
  frames_then log_frame (λ r, negb (r =? 0)) (frames (concat sample_bufs)) 2048 [].
Proof.
  assert (Hb : Forall (λ b, Length b < 2 ^ 32) sample_bufs) by by repeat constructor.
  assert (Ht : Z.of_nat (length (concat sample_bufs)) < 2 ^ 64) by done.
  exact (receive_loop_spec log_frame (λ r, negb (r =? 0)) sample_bufs [] Hb Ht).
Defined.

Lemma sample_receive :
  receive_loop log_frame (λ _, false) (receive_fuel 2102) sample_bufs 2102 0 [] =
  Ret (Some 2048) [1024; 1; 1024; 2].
Proof. by vm_compute. Qed.
