(* ===== verification/DataPath.v ===== *)
(** * threads.c and the datagram callbacks: packets between the TUN device and QUIC

    Each program moves packets with two threads and two callbacks:
    - a datagram that arrives is copied into an object of the receive pool and
      queued; the receive thread writes it to the TUN device and returns the
      object (DATAGRAM_RECEIVED, [thread_pkt_data_recv]);
    - the send thread reads a packet from the TUN device into an object of the
      send pool and gives it to MsQuic, which returns it with the event
      DATAGRAM_SEND_STATE_CHANGED ([thread_pkt_data_send]).

    Pools and queue are any implementations of [ObjPool] and [Fifo]; their
    operations are atomic, as the concurrent models of pool and queue show, so
    an execution is a sequence of callback calls and loop iterations.  Both
    pools are made without a capacity limit, so that pool_wait_get, like
    pool_try_get, returns NULL only when memory is exhausted.  The state keeps
    the bytes of the objects in use, the objects MsQuic holds and the trace of
    what was written and sent. *)
From stdpp Require Import prelude gmap sets strings.
From Stdlib Require Import ZArith Lia.
From S2P Require Import Prelude Utils PktData ObjPool Fifo Tun.
From S2P Require IpPool ClientList Pool Queue.

Definition QUIC_STATUS_SUCCESS : Z := 0.

(** [QUIC_FAILED(Status)] with the status codes of POSIX systems. *)
Definition QUIC_FAILED (Status : Z) : bool := 0 <? Status.

Inductive QUIC_DATAGRAM_SEND_STATE :=
| QUIC_DATAGRAM_SEND_UNKNOWN
| QUIC_DATAGRAM_SEND_SENT
| QUIC_DATAGRAM_SEND_LOST_SUSPECT
| QUIC_DATAGRAM_SEND_LOST_DISCARDED
| QUIC_DATAGRAM_SEND_ACKNOWLEDGED
| QUIC_DATAGRAM_SEND_ACKNOWLEDGED_SPURIOUS
| QUIC_DATAGRAM_SEND_CANCELED.

(** What leaves the program: writes to the TUN descriptor, and datagrams with
    the connection, the packet object and its bytes. *)
Inductive io :=
| TunWrite (fd : Z) (bytes : list Z)
| DatagramSend (handle : option nat) (pkt : nat) (bytes : list Z).

Record path (P Q : Type) := Path {
  pool_send : P;
  pool_recv : P;
  queue : Q;
  data_recv : gmap nat (list Z);
  quic : gset nat;
  out : list io
}.
Arguments Path {P Q}.
Arguments pool_send {P Q}.
Arguments pool_recv {P Q}.
Arguments queue {P Q}.
Arguments data_recv {P Q}.
Arguments quic {P Q}.
Arguments out {P Q}.

(** What the poll of the send thread reports. *)
Inductive poll_result :=
| PollErr (errno : Z)
| PollReady (tun_in shutdown_in : bool).

(** The answers of the environment along one turn of the send loop: the
    running flag, the poll, the memory, the packet read or the errno, whether
    MsQuic and its table are there, and the status of DatagramSend. *)
Record send_in := SendIn {
  running : bool;
  polled : poll_result;
  alloc : Z → option nat;
  read_res : Z + list Z;
  api : bool;
  status : Z
}.

Section path.
Context {P Q : Type} `{!ObjPool P} `{!Fifo Q}.

Abbreviation M := (M (path P Q)).

Definition get_recv (alloc : Z → option nat) : M (option nat) := λ s,
  match op_get alloc (pool_recv s) with
  | None => Fatal s
  | Some (r, p) => Ret r (Path (pool_send s) p (queue s) (data_recv s) (quic s) (out s))
  end.
Definition put_recv (b : nat) : M () := λ s,
  match op_put b (pool_recv s) with
  | None => Fatal s
  | Some p => Ret () (Path (pool_send s) p (queue s) (data_recv s) (quic s) (out s))
  end.
Definition get_send (alloc : Z → option nat) : M (option nat) := λ s,
  match op_get alloc (pool_send s) with
  | None => Fatal s
  | Some (r, p) => Ret r (Path p (pool_recv s) (queue s) (data_recv s) (quic s) (out s))
  end.
Definition put_send (b : nat) : M () := λ s,
  match op_put b (pool_send s) with
  | None => Fatal s
  | Some p => Ret () (Path p (pool_recv s) (queue s) (data_recv s) (quic s) (out s))
  end.
Definition try_push (x : option nat) : M Z := λ s,
  match ff_try_push x (queue s) with
  | None => Fatal s
  | Some (r, q) => Ret r (Path (pool_send s) (pool_recv s) q (data_recv s) (quic s) (out s))
  end.

(** queue_wait_pop: asleep while the queue is empty. *)
Definition wait_pop : M (option nat) := λ s,
  match ff_items (queue s) with
  | [] => Block s
  | _ =>
      match ff_try_pop (queue s) with
      | None => Fatal s
      | Some (r, q) => Ret r (Path (pool_send s) (pool_recv s) q (data_recv s) (quic s) (out s))
      end
  end.

Definition set_data (b : nat) (bytes : list Z) : M () :=
  modify (λ s, Path (pool_send s) (pool_recv s) (queue s) (<[b := bytes]> (data_recv s)) (quic s)
                 (out s)).
Definition get_data (b : nat) : M (list Z) := gets (λ s, default [] (data_recv s !! b)).
Definition set_quic (f : gset nat → gset nat) : M () :=
  modify (λ s, Path (pool_send s) (pool_recv s) (queue s) (data_recv s) (f (quic s)) (out s)).
Definition emit (x : io) : M () :=
  modify (λ s, Path (pool_send s) (pool_recv s) (queue s) (data_recv s) (quic s) (out s ++ [x])).

(** memcpy into [pkt->data], which holds DATAPKTBUF bytes. *)
Definition memcpy_data (b : nat) (bytes : list Z) : M () :=
  if DATAPKTBUF <? Z.of_nat (length bytes) then fatal else set_data b bytes.

(** A read outside the packet is fatal. *)
Definition in_bounds {A} (x : option A) : M A :=
  match x with None => fatal | Some a => mret a end.

Definition len (bytes : list Z) : Z := Z.of_nat (length bytes).

(** ** The callbacks *)

Definition server_datagram_received (alloc : Z → option nat) (bytes : list Z) : M Z :=
  if len bytes =? 0 then mret QUIC_STATUS_SUCCESS
  else
    pkt ← get_recv alloc;
    match pkt with
    | None => mret QUIC_STATUS_SUCCESS
    | Some b =>
        memcpy_data b bytes;;
        try_push (Some b);;                     (* the result is not looked at *)
        mret QUIC_STATUS_SUCCESS
    end.

(** [None]: the event has no buffer. *)
Definition client_datagram_received (alloc : Z → option nat) (bytes : option (list Z)) : M Z :=
  match bytes with
  | None => mret QUIC_STATUS_SUCCESS
  | Some bytes =>
      if len bytes =? 0 then mret QUIC_STATUS_SUCCESS
      else
        pkt ← get_recv alloc;
        match pkt with
        | None => mret QUIC_STATUS_SUCCESS
        | Some b =>
            memcpy_data b bytes;;
            try_push (Some b);;
            mret QUIC_STATUS_SUCCESS
        end
  end.

Definition datagram_send_state_changed (pkt : option nat) (State : QUIC_DATAGRAM_SEND_STATE) : M Z :=
  match State with
  | QUIC_DATAGRAM_SEND_SENT | QUIC_DATAGRAM_SEND_CANCELED =>
      match pkt with
      | Some b => put_send b;; mret QUIC_STATUS_SUCCESS
      | None => mret QUIC_STATUS_SUCCESS
      end
  | _ => mret QUIC_STATUS_SUCCESS
  end.

(** ** The threads

    One turn of each loop; [true] when the loop goes on. *)
Section threads.
Context (tun : option tun_iface_t).

Definition fd_of : Z := default (-1) (tun_get_fd tun (Some (-1))).2.

Definition print (bytes : list Z) : M () := in_bounds (pkt_data_print (Some bytes) (len bytes));; mret ().

Definition iphdr (bytes : list Z) : M (Z * option Z * option Z) :=
  in_bounds (pkt_data_iphdr (Some bytes) (len bytes) (Some 0) (Some 0)).

(** The packet is given to MsQuic, and taken back when that fails. *)
Definition datagram_send (handle : option nat) (b : nat) (bytes : list Z) (status : Z) : M () :=
  if QUIC_FAILED status then put_send b
  else emit (DatagramSend handle b bytes);; set_quic (λ q, {[b]} ∪ q).

(** The common part of both send loops: [k] gets a packet that was read. *)
Definition send_turn (i : send_in) (on_error : option nat → M bool) (k : nat → list Z → M ())
    : M bool :=
  if negb (running i) then mret false
  else
    match polled i with
    | PollErr e => mret (e =? EINTR)
    | PollReady tun_in shutdown_in =>
        if shutdown_in then mret false
        else if negb tun_in then mret true
        else
          pkt ← get_send (alloc i);
          match pkt, read_res i with
          | Some b, inr bytes => k b bytes;; mret true
          | _, _ => on_error pkt                (* into a NULL buffer read fails too *)
          end
    end.

Context (ip_pool : option IpPool.ip_pool_t) (client_at : nat → ClientList.client_t).

Definition server_send_turn (i : send_in) : M bool :=
  send_turn i
    (λ pkt, (match pkt with Some b => put_send b | None => mret () end);; mret false)
    (λ b bytes,
      r ← iphdr bytes;
      let '(rc, _, dest_addr) := r in
      if negb (rc =? 0) then put_send b
      else
        client ← in_bounds (IpPool.ip_client_search ip_pool (default 0 dest_addr));
        match client with
        | None => put_send b
        | Some c =>
            print bytes;;
            if negb (api i) then mret ()          (* [continue] keeps the packet *)
            else datagram_send (ClientList.ConnectionHandle (client_at c)) b bytes (status i)
        end).

Definition server_recv_turn (running : bool) : M bool :=
  if negb running then mret false
  else
    pkt ← wait_pop;
    match pkt with
    | None => mret false                          (* the sentinel *)
    | Some b =>
        bytes ← get_data b;
        r ← iphdr bytes;
        let '(rc, src_addr, _) := r in
        if negb (rc =? 0) then put_recv b;; mret true
        else
          client ← in_bounds (IpPool.ip_client_search ip_pool (default 0 src_addr));
          (match client with Some _ => print bytes | None => mret () end);;
          emit (TunWrite fd_of bytes);;
          put_recv b;;
          mret true
    end.
End threads.

Definition client_send_turn (connected : bool) (handle : option nat) (i : send_in) : M bool :=
  send_turn i
    (λ _, mret true)                              (* [continue] keeps the packet *)
    (λ b bytes,
      print bytes;;
      if negb connected then put_send b
      else if negb (api i) then mret ()
      else datagram_send handle b bytes (status i)).

Definition client_recv_turn (tun : option tun_iface_t) (running : bool) : M bool :=
  if negb running then mret false
  else
    pkt ← wait_pop;
    match pkt with
    | None => mret false
    | Some b =>
        bytes ← get_data b;
        r ← iphdr bytes;
        let '(rc, _, _) := r in
        if negb (rc =? 0) then put_recv b;; mret true
        else
          print bytes;;
          emit (TunWrite (fd_of tun) bytes);;
          put_recv b;;
          mret true
    end.

(** ** Executions *)

(** A program's side of the data path. *)
Inductive side :=
| Server (tun : option tun_iface_t) (pool : IpPool.ip_pool_t) (client_at : nat → ClientList.client_t)
| Client (tun : option tun_iface_t) (connected : bool) (handle : option nat).

Inductive event :=
| Datagram (alloc : Z → option nat) (bytes : list Z)
| SendState (pkt : nat) (State : QUIC_DATAGRAM_SEND_STATE)
| RecvTurn (running : bool)
| SendTurn (i : send_in).

(** When MsQuic reports a packet sent or canceled it lets go of it. *)
Definition let_go (b : nat) (State : QUIC_DATAGRAM_SEND_STATE) : M () :=
  match State with
  | QUIC_DATAGRAM_SEND_SENT | QUIC_DATAGRAM_SEND_CANCELED => set_quic (λ q, q ∖ {[b]})
  | _ => mret ()
  end.

Definition handle_event (sd : side) (ev : event) : M () :=
  match ev with
  | Datagram alloc bytes =>
      match sd with
      | Server _ _ _ => server_datagram_received alloc bytes
      | Client _ _ _ => client_datagram_received alloc (Some bytes)
      end;; mret ()
  | SendState b st => let_go b st;; datagram_send_state_changed (Some b) st;; mret ()
  | RecvTurn running =>
      match sd with
      | Server tun pool _ => server_recv_turn tun (Some pool) running
      | Client tun _ _ => client_recv_turn tun running
      end;; mret ()
  | SendTurn i =>
      match sd with
      | Server _ pool client_at => server_send_turn (Some pool) client_at i
      | Client _ connected handle => client_send_turn connected handle i
      end;; mret ()
  end.

(** A thread that goes to sleep changes nothing; [None] is a crash. *)
Definition path_step (sd : side) (s : path P Q) (ev : event) : option (path P Q) :=
  match handle_event sd ev s with
  | Ret _ s' => Some s'
  | Block s' => Some s'
  | Fatal _ => None
  end.

(** What the environment does: memory handed out is free, packets fit the
    buffer, and MsQuic reports on packets it holds. *)
Definition packet_ok (bytes : list Z) : Prop := bytes_ok bytes ∧ len bytes ≤ DATAPKTBUF.

Definition event_ok (s : path P Q) (ev : event) : Prop :=
  match ev with
  | Datagram alloc bytes => op_fresh alloc (pool_recv s) ∧ packet_ok bytes
  | SendState b _ => b ∈ quic s
  | RecvTurn _ => True
  | SendTurn i => op_fresh (alloc i) (pool_send s) ∧
                  match read_res i with inl _ => True | inr bytes => packet_ok bytes end
  end.

(** Executions whose events satisfy [ok] in the state they happen in. *)
Inductive path_steps (ok : path P Q → event → Prop) (sd : side)
    : path P Q → list event → path P Q → Prop :=
| StepsNil s : path_steps ok sd s [] s
| StepsCons s ev s1 evs s2 :
    ok s ev → path_step sd s ev = Some s1 → path_steps ok sd s1 evs s2 →
    path_steps ok sd s (ev :: evs) s2.
End path.

(** ** Invariant and abstraction

    What is queued is checked out of the receive pool, what MsQuic holds is
    checked out of the send pool, and a packet is queued once.  The abstract
    state of the receive path is the list of the queued packets' bytes. *)
Section invariant.
Context {P Q : Type} `{!ObjPool P} `{!Fifo Q}.
Implicit Types s : path P Q.

Definition queued s : list nat := omap id (ff_items (queue s)).
Definition bytes_at s (b : nat) : list Z := default [] (data_recv s !! b).
Definition contents s : list (list Z) := bytes_at s <$> queued s.

Definition written s : list (list Z) :=
  omap (λ x, match x with TunWrite _ bytes => Some bytes | DatagramSend _ _ _ => None end) (out s).

(** The packets that are checked out and in nobody's hands. *)
Definition lost_recv s : gset nat := op_held (pool_recv s) ∖ list_to_set (queued s).
Definition lost_send s : gset nat := op_held (pool_send s) ∖ quic s.

Record path_inv s : Prop := {
  inv_send : op_ok (pool_send s);
  inv_recv : op_ok (pool_recv s);
  inv_queue : ff_ok (queue s);
  inv_quic : quic s ⊆ op_held (pool_send s);
  inv_queued : list_to_set (queued s) ⊆ op_held (pool_recv s);
  inv_nodup : NoDup (queued s);
  inv_data : Forall packet_ok (contents s)
}.

Definition valid (bytes : list Z) : bool := (20 <=? len bytes) && (ip_version bytes =? 4).

Inductive recv_effect (ev : event) s s' : Prop :=
| RecvStay : contents s' = contents s → written s' = written s → recv_effect ev s s'
| RecvAccept alloc bytes :
    ev = Datagram alloc bytes → contents s' = contents s ++ [bytes] →
    written s' = written s → recv_effect ev s s'
| RecvDeliver bytes rest :
    contents s = bytes :: rest → contents s' = rest →
    written s' = written s ++ (if valid bytes then [bytes] else []) → recv_effect ev s s'.

(** The ways a packet is lost. *)
Definition recv_loses s (ev : event) : Prop :=
  match ev with
  | Datagram _ _ => (ff_cap (queue s) ≤ length (ff_items (queue s)))%nat
  | _ => False
  end.
Definition send_loses (sd : side) (ev : event) : Prop :=
  match ev with
  | SendTurn i =>
      api i = false ∨
      match sd, read_res i with Client _ _ _, inl _ => True | _, _ => False end
  | _ => False
  end.

Record step_effect (sd : side) s (ev : event) s' : Prop := {
  eff_inv : path_inv s';
  eff_recv : recv_effect ev s s';
  eff_cap : ff_cap (queue s') = ff_cap (queue s);
  eff_lost_recv : lost_recv s' = lost_recv s ∨
    (recv_loses s ev ∧ ∃ b, lost_recv s' = {[b]} ∪ lost_recv s);
  eff_lost_send : lost_send s' = lost_send s ∨
    (send_loses sd ev ∧ ∃ b, lost_send s' = {[b]} ∪ lost_send s)
}.

(** *** Shared facts *)

Lemma packet_iphdr bytes s :
  iphdr bytes s = Ret (if valid bytes then (0, Some (le_word (sub 12 4 bytes)), Some (le_word (sub 16 4 bytes)))
                       else ((if len bytes <? 20 then - EINVAL else - ENOSPC), Some 0, Some 0)) s.
Proof.
  unfold iphdr, valid, len. rewrite (pkt_data_iphdr_run bytes 0 0).
  destruct (Z.ltb_spec (Z.of_nat (length bytes)) 20), (Z.leb_spec 20 (Z.of_nat (length bytes)));
    try lia; simpl; by destruct (ip_version bytes =? 4).
Qed.

Lemma packet_print bytes s : packet_ok bytes → print bytes s = Ret () s.
Proof. intros [Hb _]. unfold print, len. by rewrite (pkt_data_print_run bytes Hb). Qed.

Lemma word_at_in_u off bytes : bytes_ok bytes → in_u 32 (le_word (sub off 4 bytes)).
Proof. intros H. exact (rd_range off 4 bytes H). Qed.

Lemma search_total pool bytes off :
  IpPool.pool_wf pool → bytes_ok bytes →
  IpPool.ip_client_search (Some pool) (le_word (sub off 4 bytes)) =
  Some (IpPool.leases pool !! ntohl (le_word (sub off 4 bytes))).
Proof. intros Hwf Hb. apply IpPool.ip_client_search_spec; [done|]. by apply word_at_in_u. Qed.

(** Changing only the trace or the send side leaves the receive side alone. *)
Lemma inv_intro ps pr q d k o :
  op_ok ps → op_ok pr → ff_ok q → k ⊆ op_held ps →
  list_to_set (omap id (ff_items q)) ⊆ op_held pr → NoDup (omap id (ff_items q)) →
  Forall packet_ok ((λ b, default [] (d !! b)) <$> omap id (ff_items q)) →
  path_inv (Path ps pr q d k o).
Proof. intros. by split. Qed.

Lemma inv_data' s :
  path_inv s → Forall packet_ok ((λ b, default [] (data_recv s !! b)) <$> queued s).
Proof. intros H. exact (inv_data _ H). Qed.

Lemma effect_refl sd s ev : path_inv s → step_effect sd s ev s.
Proof. intros H. split; [done|by apply RecvStay|done|by left|by left]. Qed.

(** *** The receive thread *)

Lemma wait_pop_empty s : ff_items (queue s) = [] → wait_pop s = Block s.
Proof. unfold wait_pop. by intros ->. Qed.

Lemma recv_pop s b rest :
  path_inv s → ff_items (queue s) = Some b :: rest →
  ∃ q p,
    wait_pop s = Ret (Some b) (Path (pool_send s) (pool_recv s) q (data_recv s) (quic s) (out s)) ∧
    op_put b (pool_recv s) = Some p ∧ ff_cap q = ff_cap (queue s) ∧ packet_ok (bytes_at s b) ∧
    ∀ o, let s' := Path (pool_send s) p q (data_recv s) (quic s) o in
      path_inv s' ∧ contents s = bytes_at s b :: contents s' ∧ lost_recv s' = lost_recv s ∧
      lost_send s' = lost_send s.
Proof.
  intros H Hi. pose proof (inv_data' _ H) as Hd. pose proof (inv_queued _ H) as Hsub.
  pose proof (inv_nodup _ H) as Hnd. unfold queued in Hd, Hsub, Hnd.
  destruct (ff_try_pop_law (queue s) (inv_queue _ H)) as (q & E & Hok & Hcap & Hitems).
  rewrite Hi in Hd, Hsub, Hnd, E, Hitems. simpl in *.
  apply Forall_cons in Hd as [Hb Hd]. apply NoDup_cons in Hnd as [Hnb Hnd].
  destruct (op_put_law (pool_recv s) b (inv_recv _ H)) as (p & Ep & Hokp & Hheld); [set_solver|].
  exists q, p. split. { unfold wait_pop. by rewrite Hi, E. }
  do 3 (split; [done|]). intros o. set (s' := Path _ p q _ _ o).
  assert (Hq : queued s' = omap id rest) by (unfold queued; simpl; by rewrite Hitems).
  split. { apply inv_intro; rewrite ?Hitems; try done; try apply H. set_solver. }
  split. { unfold contents. rewrite Hq. unfold queued. by rewrite Hi. }
  split; [|done]. unfold lost_recv. rewrite Hq. unfold queued. rewrite Hi. simpl. rewrite Hheld.
  set_solver.
Qed.

Lemma recv_pop_sentinel s rest :
  path_inv s → ff_items (queue s) = None :: rest →
  ∃ q, let s' := Path (pool_send s) (pool_recv s) q (data_recv s) (quic s) (out s) in
    wait_pop s = Ret None s' ∧ ff_cap q = ff_cap (queue s) ∧ path_inv s' ∧
    queued s' = queued s.
Proof.
  intros H Hi. pose proof (inv_data' _ H) as Hd. pose proof (inv_queued _ H) as Hsub.
  pose proof (inv_nodup _ H) as Hnd. unfold queued in *.
  destruct (ff_try_pop_law (queue s) (inv_queue _ H)) as (q & E & Hok & Hcap & Hitems).
  rewrite Hi in *. simpl in *. exists q.
  split. { unfold wait_pop. by rewrite Hi, E. }
  split; [done|]. split; [|simpl; by rewrite Hitems].
  apply inv_intro; rewrite ?Hitems; try done; apply H.
Qed.

(** What both receive turns do with a packet, once they have it. *)
Lemma recv_turn_effect sd s ev (m : M (path P Q) bool) fd :
  path_inv s →
  (ff_items (queue s) = [] → m s = Block s) →
  (∀ rest s', ff_items (queue s) = None :: rest → wait_pop s = Ret None s' → m s = Ret false s') →
  (∀ b rest s' p, ff_items (queue s) = Some b :: rest → wait_pop s = Ret (Some b) s' →
    packet_ok (bytes_at s b) → op_put b (pool_recv s') = Some p → data_recv s' = data_recv s →
    m s = Ret true (Path (pool_send s') p (queue s') (data_recv s') (quic s')
      (out s' ++ if valid (bytes_at s b) then [TunWrite fd (bytes_at s b)] else []))) →
  ∃ s', (m s = Block s' ∨ ∃ r, m s = Ret r s') ∧ step_effect sd s ev s'.
Proof.
  intros H Hempty Hnone Hsome. destruct (ff_items (queue s)) as [|[b|] rest] eqn:Hi.
  - exists s. split; [left; by apply Hempty|by apply effect_refl].
  - destruct (recv_pop s b rest H Hi) as (q & p & Ew & Ep & Hcap & Hok & Hs).
    eexists. split; [right; eexists; by apply (Hsome b rest _ p eq_refl Ew)|].
    simpl. set (o := out s ++ _). destruct (Hs o) as (Hinv & Hc & Hl & Hls).
    split; [done| |done|by left|by left].
    eapply RecvDeliver; [exact Hc|done|]. unfold written. simpl. unfold o. rewrite omap_app.
    f_equal. by destruct (valid (bytes_at s b)).
  - destruct (recv_pop_sentinel s rest H Hi) as (q & Ew & Hcap & Hinv & Hq).
    eexists. split; [right; eexists; by apply (Hnone rest)|].
    split; [done| |done|left|by left].
    + apply RecvStay; [|done]. unfold contents. by rewrite Hq.
    + unfold lost_recv. by rewrite Hq.
Qed.

Lemma server_recv_effect tun pool cl running s :
  path_inv s → IpPool.pool_wf pool →
  ∃ s', (server_recv_turn tun (Some pool) running s = Block s' ∨
         ∃ r, server_recv_turn tun (Some pool) running s = Ret r s') ∧
    step_effect (Server tun pool cl) s (RecvTurn running) s'.
Proof.
  intros H Hwf. unfold server_recv_turn. destruct running; cbv [negb].
  2:{ exists s. split; [right; by eexists|by apply effect_refl]. }
  apply (recv_turn_effect _ _ _ _ (fd_of tun) H).
  - intros Hi. unfold mbind, M_bind. by rewrite wait_pop_empty.
  - intros rest s' Hi E. unfold mbind, M_bind. by rewrite E.
  - intros b rest s' p Hi E Hok Ep Hd. unfold mbind, M_bind. rewrite E. unfold get_data, gets.
    rewrite Hd. fold (bytes_at s b). rewrite packet_iphdr. destruct (valid (bytes_at s b)).
    + cbv beta iota. change (negb (0 =? 0)) with false. cbv beta iota.
      change (default 0 (Some ?x)) with x. rewrite search_total by (done || apply Hok).
      simpl. destruct (IpPool.leases pool !! _); [rewrite packet_print by done|]; simpl;
        unfold put_recv; simpl; by rewrite Ep, Hd.
    + rewrite app_nil_r. destruct (len (bytes_at s b) <? 20); simpl; unfold put_recv; simpl;
        by rewrite Ep, Hd.
Qed.

Lemma client_recv_effect tun con h running s :
  path_inv s →
  ∃ s', (client_recv_turn tun running s = Block s' ∨
         ∃ r, client_recv_turn tun running s = Ret r s') ∧
    step_effect (Client tun con h) s (RecvTurn running) s'.
Proof.
  intros H. unfold client_recv_turn. destruct running; cbv [negb].
  2:{ exists s. split; [right; by eexists|by apply effect_refl]. }
  apply (recv_turn_effect _ _ _ _ (fd_of tun) H).
  - intros Hi. unfold mbind, M_bind. by rewrite wait_pop_empty.
  - intros rest s' Hi E. unfold mbind, M_bind. by rewrite E.
  - intros b rest s' p Hi E Hok Ep Hd. unfold mbind, M_bind. rewrite E. unfold get_data, gets.
    rewrite Hd. fold (bytes_at s b). rewrite packet_iphdr. destruct (valid (bytes_at s b)).
    + simpl. rewrite packet_print by done. simpl. unfold put_recv. simpl. by rewrite Ep, Hd.
    + rewrite app_nil_r. destruct (len (bytes_at s b) <? 20); simpl; unfold put_recv; simpl;
        by rewrite Ep, Hd.
Qed.

(** *** Datagrams that arrive *)

Lemma contents_insert (l : list nat) b bytes (d : gmap nat (list Z)) :
  b ∉ l → (λ c, default [] (<[b := bytes]> d !! c)) <$> l = (λ c, default [] (d !! c)) <$> l.
Proof.
  intros Hb. apply list_fmap_ext. intros i c Hc. rewrite lookup_insert_ne; [done|].
  intros ->. apply Hb. by eapply list_elem_of_lookup_2.
Qed.

Lemma datagram_effect sd s alloc bytes :
  path_inv s → op_fresh alloc (pool_recv s) → packet_ok bytes →
  ∃ s', server_datagram_received alloc bytes s = Ret QUIC_STATUS_SUCCESS s' ∧
    step_effect sd s (Datagram alloc bytes) s'.
Proof.
  intros H Hf Hok. unfold server_datagram_received.
  destruct (len bytes =? 0); [exists s; split; [done|by apply effect_refl]|].
  destruct (op_get_law (pool_recv s) alloc (inv_recv _ H) Hf) as (r & p & Eg & Hp & Hr).
  unfold mbind, M_bind, get_recv. rewrite Eg. destruct r as [b|].
  2:{ eexists. split; [reflexivity|]. split; [|by apply RecvStay|done|left|by left].
      - destruct H. split; try done. simpl. by rewrite Hr.
      - unfold lost_recv. simpl. by rewrite Hr. }
  destruct Hr as [Hb Hheld]. unfold memcpy_data.
  destruct (Z.ltb_spec DATAPKTBUF (Z.of_nat (length bytes)));
    [destruct Hok as [_ Hl]; unfold len in Hl; lia|].
  unfold set_data, modify, try_push. simpl.
  destruct (ff_try_push_law (queue s) (Some b) (inv_queue _ H)) as (q & Ep & Hq & Hcap & Hitems).
  rewrite Ep. eexists. split; [reflexivity|].
  assert (Hbq : b ∉ queued s).
  { intros Hin. apply Hb, (inv_queued _ H). by apply elem_of_list_to_set. }
  pose proof (inv_data' _ H) as Hd. pose proof (inv_queued _ H) as Hsub.
  pose proof (inv_nodup _ H) as Hnd. pose proof (contents_insert _ _ bytes (data_recv s) Hbq) as Hc.
  destruct (decide (length (ff_items (queue s)) < ff_cap (queue s))%nat) as [Hroom|Hfull].
  - assert (Hq' : omap id (ff_items q) = queued s ++ [b]) by (by rewrite Hitems, omap_app).
    split; [| |done| |by left].
    + apply inv_intro; rewrite ?Hq', ?Hheld; try done; try apply H.
      * rewrite list_to_set_app_L. set_solver.
      * apply NoDup_app. split; [done|]. split; [set_solver|apply NoDup_singleton].
      * rewrite fmap_app, Hc. apply Forall_app. split; [done|].
        simpl. rewrite lookup_insert_eq. by constructor.
    + eapply RecvAccept; [done| |done]. unfold contents at 1, bytes_at, queued. simpl.
      rewrite Hq', fmap_app, Hc. simpl. by rewrite lookup_insert_eq.
    + left. unfold lost_recv, queued at 1. simpl. rewrite Hq', Hheld, list_to_set_app_L. simpl.
      set_solver.
  - assert (Hq' : omap id (ff_items q) = queued s) by (by rewrite Hitems).
    split; [| |done| |by left].
    + apply inv_intro; rewrite ?Hq', ?Hheld; try done; try apply H; [set_solver|].
      by rewrite Hc.
    + apply RecvStay; [|done]. unfold contents at 1, bytes_at, queued. simpl. by rewrite Hq', Hc.
    + right. split; [simpl; lia|]. exists b. unfold lost_recv, queued at 1. simpl.
      rewrite Hq', Hheld. set_solver.
Qed.

(** *** Packets given to MsQuic *)

Lemma send_state_effect sd s b st :
  path_inv s → b ∈ quic s →
  ∃ s', handle_event sd (SendState b st) s = Ret () s' ∧ step_effect sd s (SendState b st) s'.
Proof.
  intros H Hb. pose proof (inv_quic _ H) as Hsub.
  destruct (op_put_law (pool_send s) b (inv_send _ H)) as (p & Ep & Hp & Hheld); [set_solver|].
  assert (Hdone : step_effect sd s (SendState b st)
    (Path p (pool_recv s) (queue s) (data_recv s) (quic s ∖ {[b]}) (out s))).
  { split; [|by apply RecvStay|done|by left|left].
    - destruct H. split; try done. simpl. rewrite Hheld. set_solver.
    - unfold lost_send. simpl. rewrite Hheld. set_solver. }
  destruct st; try (exists s; split; [done|by apply effect_refl]);
    (eexists; split; [|exact Hdone]); cbn; unfold mbind, M_bind, put_send, set_quic, modify; simpl;
    by rewrite Ep.
Qed.

Lemma send_got sd s i :
  path_inv s → op_fresh (alloc i) (pool_send s) →
  ∃ r p, get_send (alloc i) s = Ret r (Path p (pool_recv s) (queue s) (data_recv s) (quic s) (out s)) ∧
    match r with
    | None => step_effect sd s (SendTurn i) (Path p (pool_recv s) (queue s) (data_recv s) (quic s) (out s))
    | Some b =>
        (∃ p', op_put b p = Some p' ∧ step_effect sd s (SendTurn i)
           (Path p' (pool_recv s) (queue s) (data_recv s) (quic s) (out s))) ∧
        (∀ h bytes, step_effect sd s (SendTurn i)
           (Path p (pool_recv s) (queue s) (data_recv s) ({[b]} ∪ quic s)
              (out s ++ [DatagramSend h b bytes]))) ∧
        (send_loses sd (SendTurn i) → step_effect sd s (SendTurn i)
           (Path p (pool_recv s) (queue s) (data_recv s) (quic s) (out s)))
    end.
Proof.
  intros H Hf. destruct (op_get_law (pool_send s) (alloc i) (inv_send _ H) Hf) as (r & p & E & Hp & Hr).
  exists r, p. split; [unfold get_send; by rewrite E|]. pose proof (inv_quic _ H) as Hsub.
  destruct r as [b|].
  2:{ split; [|by apply RecvStay|done|by left|left].
      - destruct H. split; try done. simpl. by rewrite Hr.
      - unfold lost_send. simpl. by rewrite Hr. }
  destruct Hr as [Hb Hheld]. split; [|split].
  - destruct (op_put_law p b Hp) as (p' & Ep & Hp' & Hheld'); [set_solver|].
    exists p'. split; [done|]. assert (Heq : op_held p' = op_held (pool_send s)) by set_solver.
    split; [|by apply RecvStay|done|by left|left].
    + destruct H. split; try done. simpl. by rewrite Heq.
    + unfold lost_send. simpl. by rewrite Heq.
  - intros h bytes. split; [| |done|by left|left].
    + destruct H. split; try done. simpl. rewrite Hheld. set_solver.
    + apply RecvStay; [done|]. unfold written. simpl. by rewrite omap_app, app_nil_r.
    + unfold lost_send. simpl. rewrite Hheld. set_solver.
  - intros Hl. split; [|by apply RecvStay|done|by left|right].
    + destruct H. split; try done. simpl. rewrite Hheld. set_solver.
    + split; [done|]. exists b. unfold lost_send. simpl. rewrite Hheld. set_solver.
Qed.

Lemma send_turn_effect sd s i on_error k :
  path_inv s → event_ok s (SendTurn i) →
  (∀ s1, ∃ r, on_error None s1 = Ret r s1) →
  (∀ b bytes s1 p', packet_ok bytes → op_put b (pool_send s1) = Some p' →
    let put := Path p' (pool_recv s1) (queue s1) (data_recv s1) (quic s1) (out s1) in
    k b bytes s1 = Ret () put ∨
    (∃ h, k b bytes s1 = Ret () (Path (pool_send s1) (pool_recv s1) (queue s1) (data_recv s1)
            ({[b]} ∪ quic s1) (out s1 ++ [DatagramSend h b bytes]))) ∨
    (api i = false ∧ k b bytes s1 = Ret () s1)) →
  (∀ b s1 p', op_put b (pool_send s1) = Some p' →
    let put := Path p' (pool_recv s1) (queue s1) (data_recv s1) (quic s1) (out s1) in
    (∃ r, on_error (Some b) s1 = Ret r put) ∨
    (match sd with Client _ _ _ => True | _ => False end ∧ ∃ r, on_error (Some b) s1 = Ret r s1)) →
  ∃ r s', send_turn i on_error k s = Ret r s' ∧ step_effect sd s (SendTurn i) s'.
Proof.
  intros H [Hf Hread] Hnull Hk Herr. unfold send_turn.
  destruct (running i); cbv [negb]; [|exists false, s; split; [done|by apply effect_refl]].
  destruct (polled i) as [e|tun_in shutdown_in];
    [exists (e =? EINTR), s; split; [done|by apply effect_refl]|].
  destruct shutdown_in; [exists false, s; split; [done|by apply effect_refl]|].
  destruct tun_in; [|exists true, s; split; [done|by apply effect_refl]].
  destruct (send_got sd s i H Hf) as (r & p & E & Hr). unfold mbind, M_bind. rewrite E.
  set (s1 := Path p _ _ _ _ _) in *. destruct r as [b|].
  2:{ destruct (Hnull s1) as [r Er]. exists r, s1. split; [by destruct (read_res i)|done]. }
  destruct Hr as ((p' & Ep & Hput) & Hsent & Hleak).
  destruct (read_res i) as [e|bytes] eqn:Er.
  - destruct (Herr b s1 p' Ep) as [[r E2]|[Hsd [r E2]]]; exists r; eexists; (split; [exact E2|]);
      [done|]. apply Hleak. right. by destruct sd; rewrite ?Er.
  - destruct (Hk b bytes s1 p' Hread Ep) as [E2|[[h E2]|[Hapi E2]]]; rewrite E2;
      exists true; eexists; (split; [reflexivity|]); [done|apply Hsent|].
    apply Hleak. by left.
Qed.

(** The three endings of a send turn. *)
Lemma datagram_send_cases h b bytes st s p' :
  op_put b (pool_send s) = Some p' →
  datagram_send h b bytes st s = Ret ()
    (Path p' (pool_recv s) (queue s) (data_recv s) (quic s) (out s)) ∨
  datagram_send h b bytes st s = Ret () (Path (pool_send s) (pool_recv s) (queue s)
    (data_recv s) ({[b]} ∪ quic s) (out s ++ [DatagramSend h b bytes])).
Proof.
  intros Ep. unfold datagram_send. destruct (QUIC_FAILED st); [left|by right].
  unfold put_send. by rewrite Ep.
Qed.

Lemma server_send_effect tun pool cl i s :
  path_inv s → IpPool.pool_wf pool → event_ok s (SendTurn i) →
  ∃ r s', server_send_turn (Some pool) cl i s = Ret r s' ∧
    step_effect (Server tun pool cl) s (SendTurn i) s'.
Proof.
  intros H Hwf Hok. apply send_turn_effect; try done.
  - intros s1. by exists false.
  - intros b bytes s1 p' Hb Ep. unfold mbind, M_bind. rewrite packet_iphdr.
    destruct (valid bytes).
    2:{ left. destruct (len bytes <? 20); simpl; unfold put_send; by rewrite Ep. }
    cbv beta iota. change (negb (0 =? 0)) with false. cbv beta iota.
    change (default 0 (Some ?x)) with x. rewrite search_total by (done || apply Hb). simpl.
    destruct (IpPool.leases pool !! _) as [c|]; [|left; unfold put_send; by rewrite Ep].
    rewrite packet_print by done. destruct (api i); [|by right; right].
    simpl. destruct (datagram_send_cases (ClientList.ConnectionHandle (cl c)) b bytes (status i) s1 p' Ep)
      as [E|E]; [by left|right; left]. by eexists.
  - intros b s1 p' Ep. left. exists false. unfold mbind, M_bind, put_send. by rewrite Ep.
Qed.

Lemma client_send_effect tun con h i s :
  path_inv s → event_ok s (SendTurn i) →
  ∃ r s', client_send_turn con h i s = Ret r s' ∧
    step_effect (Client tun con h) s (SendTurn i) s'.
Proof.
  intros H Hok. apply send_turn_effect; try done.
  - intros s1. by exists true.
  - intros b bytes s1 p' Hb Ep. unfold mbind, M_bind. rewrite packet_print by done.
    destruct con; simpl; [|left; unfold put_send; by rewrite Ep].
    destruct (api i); [|by right; right]. simpl.
    destruct (datagram_send_cases h b bytes (status i) s1 p' Ep) as [E|E]; [by left|right; left].
    by eexists.
  - intros b s1 p' Ep. right. split; [done|]. by exists true.
Qed.

Definition side_ok (sd : side) : Prop :=
  match sd with Server _ pool _ => IpPool.pool_wf pool | Client _ _ _ => True end.

(** Every call of a callback and every turn of a thread. *)
Lemma path_step_effect sd s ev :
  side_ok sd → path_inv s → event_ok s ev →
  ∃ s', path_step sd s ev = Some s' ∧ step_effect sd s ev s'.
Proof.
  intros Hsd H Hok. unfold path_step. destruct ev as [alloc bytes|b st|running|i].
  - destruct Hok as [Hf Hb]. destruct (datagram_effect sd s alloc bytes H Hf Hb) as (s' & E & He).
    exists s'. split; [|done]. destruct sd; cbn [handle_event]; unfold mbind, M_bind;
      [|change (client_datagram_received alloc (Some bytes) s)
          with (server_datagram_received alloc bytes s)]; by rewrite E.
  - destruct (send_state_effect sd s b st H Hok) as (s' & E & He). exists s'. by rewrite E.
  - destruct sd as [tun pool cl|tun con h]; cbn [handle_event]; unfold mbind, M_bind.
    + destruct (server_recv_effect tun pool cl running s H Hsd) as (s' & [E|[r E]] & He);
        exists s'; by rewrite E.
    + destruct (client_recv_effect tun con h running s H) as (s' & [E|[r E]] & He);
        exists s'; by rewrite E.
  - destruct sd as [tun pool cl|tun con h]; cbn [handle_event]; unfold mbind, M_bind.
    + destruct (server_send_effect tun pool cl i s H Hsd Hok) as (r & s' & E & He);
        exists s'; by rewrite E.
    + destruct (client_send_effect tun con h i s H Hok) as (r & s' & E & He);
        exists s'; by rewrite E.
Qed.

Lemma path_steps_inv ok sd s evs s' :
  (∀ s ev, ok s ev → event_ok s ev) → side_ok sd → path_inv s → path_steps ok sd s evs s' →
  path_inv s'.
Proof.
  intros Hok Hsd H Hs. induction Hs as [|s ev s1 evs s2 Hev E Hs IH]; [done|].
  destruct (path_step_effect sd s ev Hsd H (Hok _ _ Hev)) as (s1' & E' & He).
  rewrite E in E'. injection E' as <-. apply IH, He.
Qed.

(** The events that lose no packet. *)
Definition event_clean (sd : side) s (ev : event) : Prop :=
  event_ok s ev ∧ ¬ recv_loses s ev ∧ ¬ send_loses sd ev.


(** The datagrams that arrived. *)
Definition received (evs : list event) : list (list Z) :=
  omap (λ ev, match ev with Datagram _ bytes => Some bytes | _ => None end) evs.

(** C8. The receive path is a queue: of the datagrams that arrive some are
    accepted, and the packets written to the TUN device are, in order, each
    once and byte for byte, the IPv4 packets among the oldest accepted; the
    rest of the accepted ones are still queued. *)
Theorem data_path_recv_fifo sd s evs s' :
  side_ok sd → path_inv s → path_steps event_ok sd s evs s' →
  ∃ accepted n, accepted `sublist_of` received evs ∧
    written s' = written s ++ filter (λ l, valid l = true) (take n (contents s ++ accepted)) ∧
    contents s' = drop n (contents s ++ accepted).
Proof.
  intros Hsd H Hs. revert H. induction Hs as [s|s ev s1 evs s2 Hok E Hs IH]; intros H.
  { exists [], 0%nat. rewrite app_nil_r, drop_0. simpl. by rewrite app_nil_r. }
  destruct (path_step_effect sd s ev Hsd H Hok) as (s1' & E' & He).
  rewrite E in E'. injection E' as <-.
  destruct (IH (eff_inv _ _ _ _ He)) as (acc & n & Hsub & Hw & Hc). clear IH.
  assert (Hskip : received evs `sublist_of` received (ev :: evs)).
  { unfold received. destruct ev; simpl; try done. by constructor. }
  destruct (eff_recv _ _ _ _ He) as [Ec Ew|alloc bytes -> Ec Ew|bytes rest Es Ec Ew].
  - exists acc, n. rewrite Ec, Ew in *. split; [by etrans|done].
  - exists (bytes :: acc), n. split; [by apply sublist_skip|].
    rewrite Ec, Ew in *. by rewrite <- (assoc_L (++)) in Hw, Hc.
  - exists acc, (S n). split; [by etrans|]. rewrite Ec, Ew in *. rewrite Es. simpl. split; [|done].
    rewrite Hw, <- (assoc_L (++)). f_equal. rewrite filter_cons.
    destruct (valid bytes); [by rewrite decide_True|by rewrite decide_False].
Qed.

(** The datagram a turn of the server's send thread is to send, given the
    packet object it got. *)
Definition routed (pool : IpPool.ip_pool_t) (cl : nat → ClientList.client_t) (i : send_in)
    (pkt : option nat) : list io :=
  match running i, polled i, pkt, read_res i with
  | true, PollReady true false, Some b, inr bytes =>
      if valid bytes && api i && negb (QUIC_FAILED (status i)) then
        match IpPool.leases pool !! ntohl (le_word (sub 16 4 bytes)) with
        | Some c => [DatagramSend (ClientList.ConnectionHandle (cl c)) b bytes]
        | None => []
        end
      else []
  | _, _, _, _ => []
  end.

(** Closes a branch whose trace is known. *)
Ltac same_out := eexists _, _; split; [done|]; split; [reflexivity|]; by rewrite ?app_nil_r.

Lemma server_send_run pool cl i s :
  path_inv s → IpPool.pool_wf pool → event_ok s (SendTurn i) →
  ∃ pkt p r s', op_get (alloc i) (pool_send s) = Some (pkt, p) ∧
    server_send_turn (Some pool) cl i s = Ret r s' ∧ out s' = out s ++ routed pool cl i pkt.
Proof.
  intros H Hwf [Hf Hread].
  destruct (op_get_law (pool_send s) (alloc i) (inv_send _ H) Hf) as (pkt & p & E & Hp & Hpkt).
  exists pkt, p. unfold routed, server_send_turn, send_turn.
  destruct (running i); cbv [negb]; [|same_out].
  destruct (polled i) as [e|[] []]; [same_out..| |same_out|same_out].
  all: unfold mbind, M_bind, get_send; rewrite E.
  destruct pkt as [b|]; [|destruct (read_res i); same_out].
  destruct Hpkt as [Hb Hheld].
  destruct (op_put_law p b Hp) as (p' & Ep & _); [set_solver|].
  destruct (read_res i) as [e|bytes]; [unfold put_send; simpl; rewrite Ep; same_out|].
  rewrite packet_iphdr. destruct (valid bytes) eqn:Ev.
  2:{ destruct (len bytes <? 20); simpl; unfold put_send; simpl; rewrite Ep; same_out. }
  cbv beta iota. change (negb (0 =? 0)) with false. cbv beta iota.
  change (default 0 (Some ?x)) with x. rewrite search_total by (done || apply Hread). simpl.
  destruct (IpPool.leases pool !! _) as [c|];
    [|unfold put_send; simpl; rewrite Ep; destruct (_ && _); same_out].
  rewrite packet_print by done. destruct (api i); simpl; [|same_out].
  unfold datagram_send. destruct (QUIC_FAILED (status i)); simpl; [|same_out].
  unfold put_send. simpl. rewrite Ep. same_out.
Qed.

(** C35. The server's send thread routes: a packet read from the TUN device is
    sent, byte for byte and in the object it was read into, on the connection
    of the client that leases its destination address, and nothing else is
    ever sent; packets that are not IPv4 or have no lease go nowhere. *)
Theorem server_send_routes pool cl i s :
  path_inv s → IpPool.pool_wf pool → event_ok s (SendTurn i) →
  ∃ pkt p r s', op_get (alloc i) (pool_send s) = Some (pkt, p) ∧
    server_send_turn (Some pool) cl i s = Ret r s' ∧ out s' = out s ++ routed pool cl i pkt.
Proof. apply server_send_run. Qed.
End invariant.

(** ** Samples: the code's pool and queue, empty *)
#[local] Existing Instance Pool.pool_objpool.
#[local] Existing Instance Queue.queue_fifo.

Module Sample.

Definition pool0 : Pool.pool_t := Pool.PoolT 2064 0 0 0 None ∅.
Definition queue0 : Queue.queue_t := Queue.Queue 2 (replicate 2 None) 0 0 0 2 0.
Definition path0 : path Pool.pool_t Queue.queue_t := Path pool0 pool0 queue0 ∅ ∅ [].

Definition leased : IpPool.ip_pool_t :=
  match IpPool.ip_acquire (Some IpPool.sample_pool) (Some 5%nat) with
  | Some (_, Some p) => p
  | _ => IpPool.sample_pool
  end.
Definition client_5 (c : nat) : ClientList.client_t := ClientList.Client (Some 77%nat) true 1 0 None.
Definition server : side := Server None leased client_5.

(** A packet of 20 bytes to the first address the pool leases. *)
Definition packet : list Z :=
  [0x45; 0; 0; 20; 0; 0; 0; 0; 64; 1; 0; 0; 10; 0; 0; 1; 172; 18; 0; 2].

Lemma pool0_ok : Pool.pool_ok pool0.
Proof.
  exists []. split; try done; constructor.
Qed.

Lemma queue0_ok : Queue.queue_ok queue0.
Proof.
  destruct (Queue.queue_init_inv os_posix 2 os_posix_ok) as (q & E & H & _); [done|].
  unfold Queue.queue_init in E. injection E as <-. exists []. exact H.
Qed.

Lemma path0_inv : path_inv path0.
Proof. split; try apply pool0_ok; try apply queue0_ok; try done; constructor. Qed.

Definition alloc_9 : Z → option nat := λ _, Some 9%nat.
Definition events : list event := [Datagram alloc_9 packet; RecvTurn true; RecvTurn true].
Definition after (evs : list event) : path Pool.pool_t Queue.queue_t :=
  foldl (λ s ev, default s (path_step server s ev)) path0 evs.

Lemma leased_wf : IpPool.pool_wf leased.
Proof.
  unfold leased. destruct (IpPool.acquire_total IpPool.sample_pool 5 IpPool.sample_pool_wf)
    as [(idx & p & E & Hwf & _)|[E _]]; rewrite E; [done|apply IpPool.sample_pool_wf].
Qed.

Lemma packet_sample_ok : packet_ok packet.
Proof. split; [by apply (bool_decide_unpack _)|done]. Qed.

Definition run_end : path Pool.pool_t Queue.queue_t := after events.

Lemma events_ok :
  path_steps event_ok server path0 events run_end ∧
  path_steps (event_clean server) server path0 events run_end.
Proof.
  assert (Hok : event_ok path0 (Datagram alloc_9 packet)).
  { split; [|apply packet_sample_ok]. intros sz b _. apply lookup_empty. }
  split.
  - apply (StepsCons _ _ _ _ (after [Datagram alloc_9 packet])); [done|by vm_compute|].
    apply (StepsCons _ _ _ _ (after [Datagram alloc_9 packet; RecvTurn true])); [done|by vm_compute|].
    apply (StepsCons _ _ _ _ run_end); [done|by vm_compute|constructor].
  - apply (StepsCons _ _ _ _ (after [Datagram alloc_9 packet])).
    { split; [done|]. split; [|intros []]. intros H. vm_compute in H. lia. }
    { by vm_compute. }
    apply (StepsCons _ _ _ _ (after [Datagram alloc_9 packet; RecvTurn true]));
      [split; [done|]; by split; intros []|by vm_compute|].
    apply (StepsCons _ _ _ _ run_end); [split; [done|]; by split; intros []|by vm_compute|constructor].
Qed.

Definition send_1 : send_in :=
  SendIn true (PollReady true false) alloc_9 (inr packet) true 0.
End Sample.


Lemma data_path_recv_fifo_witness :
  ∃ accepted n, accepted `sublist_of` [Sample.packet] ∧
    written Sample.run_end = [] ++ filter (λ l, valid l = true) (take n ([] ++ accepted)) ∧
    contents Sample.run_end = drop n ([] ++ accepted).
Proof.
  exact (data_path_recv_fifo Sample.server Sample.path0 Sample.events Sample.run_end
           Sample.leased_wf Sample.path0_inv (proj1 Sample.events_ok)).
Defined.

Lemma server_send_routes_witness :
  ∃ pkt p r s', op_get Sample.alloc_9 Sample.pool0 = Some (pkt, p) ∧
    server_send_turn (Some Sample.leased) Sample.client_5 Sample.send_1 Sample.path0 = Ret r s' ∧
    out s' = [] ++ routed Sample.leased Sample.client_5 Sample.send_1 pkt.
Proof.
  assert (Hok : event_ok Sample.path0 (SendTurn Sample.send_1)).
  { split; [intros sz b _; apply lookup_empty|apply Sample.packet_sample_ok]. }
  exact (server_send_routes Sample.leased Sample.client_5 Sample.send_1 Sample.path0
           Sample.path0_inv Sample.leased_wf Hok).
Defined.

(** The packet travels both ways. *)
Example sample_written : written Sample.run_end = [Sample.packet].
Proof. by vm_compute. Qed.

Example sample_routed :
  routed Sample.leased Sample.client_5 Sample.send_1 (Some 9%nat) =
  [DatagramSend (Some 77%nat) 9 Sample.packet].
Proof. by vm_compute. Qed.
