(* ===== verification/ServerQuic.v ===== *)
(** * quic.c and stream.c of the server: the QUIC callbacks

    The state is the registry of clients with its pools, the TUN handle,
    whether [session->MsQuic] is set, the streams and the trace of the calls
    into MsQuic and the allocator.  A handle and a pointer are numbers, a
    client the number of its object.  What MsQuic and malloc answer is a
    parameter, a function of the call and of the number of calls before it;
    malloc answers 0 for NULL.  The datagram events of the connection callback
    are in DataPath.v, the frames of the receive event in Frames.v.  [Fatal]
    is a failed assertion or the use of a NULL pointer. *)
From stdpp Require Import prelude gmap strings.
From Stdlib Require Import ZArith Lia.
From S2P Require Import Prelude Utils PktCtrl ObjPool Frames.
From S2P Require IpPool Tun ClientList Pool.

Definition QUIC_STATUS_SUCCESS : Z := 0.
Definition QUIC_STATUS_OUT_OF_MEMORY : Z := ENOMEM.
Definition QUIC_STATUS_CONNECTION_REFUSED : Z := 111.
Definition QUIC_FAILED (Status : Z) : bool := 0 <? Status.

Definition SERVER_ERROR_FULL : Z := 0x110.

Definition QUIC_CONNECTION_SHUTDOWN_FLAG_NONE : Z := 0.
Definition QUIC_STREAM_SHUTDOWN_FLAG_GRACEFUL : Z := 1.
Definition QUIC_STREAM_SHUTDOWN_FLAG_ABORT_SEND : Z := 2.
Definition QUIC_STREAM_SHUTDOWN_FLAG_ABORT : Z := 6.

Inductive api_call :=
| SetStreamCallback (stream : option nat) (context : nat)
| SetConnectionCallback (conn : nat) (client : nat)
| ConnectionSetConfiguration (conn : nat)
| ConnectionShutdown (conn : option nat) (flags code : Z)
| ConnectionClose (conn : option nat)
| StreamShutdown (stream : option nat) (flags code : Z)
| StreamClose (stream : option nat)
| StreamSend (stream : option nat) (bytes : list Z)
| Malloc (size : Z)
| Free (p : Z).

Record stream_t := Stream {
  StreamHandle : option nat;
  s_client : option nat
}.

Record server (P : Type) := MkServer {
  reg : ClientList.session_t P;
  tun : option Tun.tun_iface_t;
  MsQuic : bool;
  streams : gmap nat stream_t;
  calls : list api_call
}.
Arguments MkServer {P}.
Arguments reg {P}.
Arguments tun {P}.
Arguments MsQuic {P}.
Arguments streams {P}.
Arguments calls {P}.

Inductive stream_event :=
| STREAM_SEND_COMPLETE (context : option (Z * Z))     (* Buffer and the QUIC_BUFFER itself *)
| STREAM_RECEIVE (bufs : list (list Z))
| STREAM_PEER_SEND_SHUTDOWN
| STREAM_PEER_SEND_ABORTED (code : Z)
| STREAM_SHUTDOWN_COMPLETE
| STREAM_OTHER.

Inductive connection_event :=
| CONNECTED
| SHUTDOWN_INITIATED_BY_TRANSPORT (code : Z)
| SHUTDOWN_INITIATED_BY_PEER (code : Z)
| SHUTDOWN_COMPLETE
| PEER_STREAM_STARTED (stream : nat)
| RESUMED
| CONNECTION_OTHER.

Inductive listener_event :=
| NEW_CONNECTION (conn : nat)
| STOP_COMPLETE
| LISTENER_OTHER.

Section server.
Context {P : Type} `{!ObjPool P}.
Context (garbage : nat → ClientList.client_t) (env : api_call → nat → Z) (alloc : Z → option nat).

Abbreviation M := (M (server P)).
Abbreviation get_client := (ClientList.get_client garbage).

Definition call (c : api_call) : M Z := λ s,
  Ret (env c (length (calls s)))
    (MkServer (reg s) (tun s) (MsQuic s) (streams s) (calls s ++ [c])).

Definition set_reg (r : ClientList.session_t P) : M () :=
  modify (λ s, MkServer r (tun s) (MsQuic s) (streams s) (calls s)).
Definition set_streams (f : gmap nat stream_t → gmap nat stream_t) : M () :=
  modify (λ s, MkServer (reg s) (tun s) (MsQuic s) (f (streams s)) (calls s)).

(** A call of the registry or the pools. *)
Definition on_reg {A} (f : ClientList.session_t P → option (A * ClientList.session_t P)) : M A :=
  λ s, match f (reg s) with
       | None => Fatal s
       | Some (a, r) => Ret a (MkServer r (tun s) (MsQuic s) (streams s) (calls s))
       end.
Definition check {A} (x : option A) : M A := match x with None => fatal | Some a => mret a end.
Definition assert (b : bool) : M () := if b then mret () else fatal.

(** ** stream.c *)

(** [pkt]: the bytes at [buf], [None] when it is NULL. *)
Definition stream_send (stream : nat) (buf : option (list Z)) (len : Z) : M Z :=
  s ← gets id;
  st ← check (streams s !! stream);
  assert (MsQuic s);;
  out_buf ← call (Malloc len);
  if out_buf =? 0 then
    call (StreamShutdown (StreamHandle st) QUIC_STREAM_SHUTDOWN_FLAG_ABORT 0);;
    mret (- ENOMEM)
  else
    bytes ← check buf;                           (* memcpy from buf *)
    quic_buf ← call (Malloc 16);
    assert (negb (quic_buf =? 0));;              (* not checked by the code *)
    Status ← call (StreamSend (StreamHandle st) bytes);
    if QUIC_FAILED Status then
      call (Free out_buf);;
      call (Free quic_buf);;
      call (StreamShutdown (StreamHandle st) QUIC_STREAM_SHUTDOWN_FLAG_ABORT 0);;
      mret (- ECANCELED)
    else mret 0.

(** ** process_ctrl_pkt *)

Definition out_of {A} (d : A) (r : Z * option A) : A := default d r.2.

Definition process_ctrl_pkt (stream : nat) (pkt : list Z) : M Z :=
  let p := pkt_of_bytes pkt in
  let h := pkt_ntoh p in
  if negb (frame_ok h) then mret (-1)
  else if type h.1 =? msg_type VPN_MSG_TYPE_CONFIG_REQ then
    s ← gets id;
    st ← check (streams s !! stream);
    c ← check (s_client st);
    let assigned_uid := u64 (ClientList.uid (get_client (reg s) c)) in
    client ← check (ClientList.list_find_client_by_uid garbage false assigned_uid (reg s));
    match client with
    | None => mret (-1)
    | Some client =>
        i ← check (ClientList.ip_entry (get_client (reg s) client));
        e ← check (IpPool.ip_entry (ClientList.ip_pool (reg s)) !! i);
        let assigned_ip := IpPool.ip e in
        let mtu := out_of 0 (Tun.tun_get_mtu (tun s) (Some 0)) in
        let mask := out_of 0 (Tun.tun_get_mask (tun s) (Some 0)) in
        let dns1 := out_of 0 (Tun.tun_get_dns1 (tun s) (Some 0)) in
        let dns2 := out_of 0 (Tun.tun_get_dns2 (tun s) (Some 0)) in
        mem ← call (Malloc PKTCTRLSIZ);
        let pkt := pkt_ctrl_create_config_resp (negb (mem =? 0)) assigned_uid 0 mtu assigned_ip
                     mask dns1 dns2 in
        stream_send stream (pkt_bytes <$> pkt) PKTCTRLSIZ;;
        mret 0
    end
  else mret 0.

(** ** ServerStreamCallback

    The status, and the TotalBufferLength stored into a RECEIVE event. *)
Definition ServerStreamCallback (handle : nat) (stream : nat) (Event : stream_event)
    : M (Z * option Z) :=
  s ← gets id;
  st ← check (streams s !! stream);
  c ← check (s_client st);
  assert (MsQuic s);;
  match Event with
  | STREAM_SEND_COMPLETE context =>
      match context with
      | Some (buffer, quic_buf) => call (Free buffer);; call (Free quic_buf);; mret (QUIC_STATUS_SUCCESS, None)
      | None => mret (QUIC_STATUS_SUCCESS, None)
      end
  | STREAM_RECEIVE bufs =>
      let total_bytes := Z.of_nat (length (concat bufs)) in
      bytes_consumed ← receive_loop (process_ctrl_pkt stream) (λ _, false)
                         (receive_fuel total_bytes) bufs total_bytes 0;
      mret (QUIC_STATUS_SUCCESS, bytes_consumed)
  | STREAM_PEER_SEND_SHUTDOWN =>
      call (StreamShutdown (Some handle) QUIC_STREAM_SHUTDOWN_FLAG_GRACEFUL 0);;
      mret (QUIC_STATUS_SUCCESS, None)
  | STREAM_PEER_SEND_ABORTED _ =>
      call (StreamShutdown (Some handle) QUIC_STREAM_SHUTDOWN_FLAG_ABORT_SEND 0);;
      mret (QUIC_STATUS_SUCCESS, None)
  | STREAM_SHUTDOWN_COMPLETE =>
      call (StreamClose (Some handle));;
      (match ClientList.ConnectionHandle (get_client (reg s) c) with
       | Some h => call (ConnectionShutdown (Some h) QUIC_CONNECTION_SHUTDOWN_FLAG_NONE 0);; mret ()
       | None => mret ()
       end);;
      call (Free (Z.of_nat stream));;
      set_streams (delete stream);;
      mret (QUIC_STATUS_SUCCESS, None)
  | STREAM_OTHER => mret (QUIC_STATUS_SUCCESS, None)
  end.

(** ** ServerConnectionCallback *)

Definition ServerConnectionCallback (handle : nat) (client : nat) (Event : connection_event) : M Z :=
  s ← gets id;
  assert (ClientList.session (get_client (reg s) client));;
  assert (MsQuic s);;
  match Event with
  | CONNECTED =>
      rc ← on_reg (ClientList.initialize_client_state garbage (Some client));
      if negb (rc =? 0) then
        call (ConnectionShutdown (Some handle) QUIC_CONNECTION_SHUTDOWN_FLAG_NONE SERVER_ERROR_FULL);;
        mret QUIC_STATUS_CONNECTION_REFUSED
      else mret QUIC_STATUS_SUCCESS
  | SHUTDOWN_INITIATED_BY_TRANSPORT _ => mret QUIC_STATUS_SUCCESS
  | SHUTDOWN_INITIATED_BY_PEER _ => mret QUIC_STATUS_SUCCESS
  | SHUTDOWN_COMPLETE =>
      on_reg (λ r,
        '(rc, q) ← IpPool.ip_release (Some (ClientList.ip_pool r))
                     (ClientList.ip_entry (get_client r client));
        Some (rc, ClientList.set_ip_pool (default (ClientList.ip_pool r) q) r));;
      on_reg (ClientList.list_remove_client garbage false (Some client));;
      on_reg (λ r, Some ((), ClientList.upd_client garbage client (ClientList.set_handle None) r));;
      (* ConnectionHandle is not NULL, but the handle closed is the client's *)
      s ← gets id;
      call (ConnectionClose (ClientList.ConnectionHandle (get_client (reg s) client)));;
      mret QUIC_STATUS_SUCCESS
  | PEER_STREAM_STARTED stream =>
      p ← call (Malloc 32);
      if p =? 0 then
        call (StreamClose (Some stream));;
        mret QUIC_STATUS_OUT_OF_MEMORY
      else
        set_streams (insert (Z.to_nat p) (Stream (Some stream) (Some client)));;
        call (SetStreamCallback (Some stream) (Z.to_nat p));;
        mret QUIC_STATUS_SUCCESS
  | RESUMED => mret QUIC_STATUS_SUCCESS
  | CONNECTION_OTHER => mret QUIC_STATUS_SUCCESS
  end.

(** ** ServerListenerCallback *)

Definition ServerListenerCallback (Event : listener_event) : M Z :=
  s ← gets id;
  assert (MsQuic s);;
  match Event with
  | NEW_CONNECTION conn =>
      client ← on_reg (ClientList.list_add_client garbage alloc (Some conn));
      match client with
      | None => mret QUIC_STATUS_OUT_OF_MEMORY
      | Some c =>
          call (SetConnectionCallback conn c);;
          Status ← call (ConnectionSetConfiguration conn);
          if QUIC_FAILED Status then
            on_reg (ClientList.list_remove_client garbage false (Some c));;
            call (ConnectionClose (Some conn));;
            mret Status
          else mret QUIC_STATUS_SUCCESS
      end
  | STOP_COMPLETE => mret QUIC_STATUS_SUCCESS
  | LISTENER_OTHER => mret QUIC_STATUS_SUCCESS
  end.
End server.

(** ** The configuration exchange *)
Section exchange.
Context {P : Type} `{!ObjPool P}.
Context (garbage : nat → ClientList.client_t) (env : api_call → nat → Z) (alloc : Z → option nat).
Implicit Types s : server P.
Abbreviation get_client := (ClientList.get_client garbage).

(** [c] is registered under a uid of its own. *)
Definition identified (r : ClientList.session_t P) (c : nat) : Prop :=
  ClientList.list_wf r ∧ u64 (ClientList.uid (get_client r c)) ≠ 0 ∧
  (∃ k, ClientList.client_list r !! k = Some (Some c)) ∧
  ∀ j c', ClientList.client_list r !! j = Some (Some c') →
    u64 (ClientList.uid (get_client r c')) = u64 (ClientList.uid (get_client r c)) → c' = c.

Lemma identified_find r c :
  identified r c →
  ClientList.list_find_client_by_uid garbage false (u64 (ClientList.uid (get_client r c))) r =
  Some (Some c).
Proof.
  intros ([Hlen _] & Hu & [k Hk] & Huniq). unfold ClientList.list_find_client_by_uid.
  destruct (Z.eqb_spec (u64 (ClientList.uid (get_client r c))) 0); [done|].
  destruct (ClientList.find_loop_spec garbage (Z.to_nat (ClientList.max_clients r)) 0
              (u64 (ClientList.uid (get_client r c))) r) as (x & E & Hx); [lia|].
  rewrite E. destruct x as [c'|].
  - destruct Hx as (j & _ & Hj & Hu' & _). by rewrite (Huniq j c' Hj Hu').
  - exfalso. by apply (Hx k c); [lia|..].
Qed.

(** Memory is found and MsQuic takes what is sent. *)
Definition env_ok : Prop :=
  (∀ sz n, env (Malloc sz) n ≠ 0) ∧ ∀ st b n, QUIC_FAILED (env (StreamSend st b) n) = false.

Lemma server_call_bind {A} c (k : Z → M (server P) A) s :
  (x ← call env c; k x) s =
  k (env c (length (calls s))) (MkServer (reg s) (tun s) (MsQuic s) (streams s) (calls s ++ [c])).
Proof. done. Qed.

Lemma stream_send_ok stream st bytes len s :
  env_ok → streams s !! stream = Some st → MsQuic s = true →
  stream_send env stream (Some bytes) len s = Ret 0
    (MkServer (reg s) (tun s) (MsQuic s) (streams s)
       (calls s ++ [Malloc len; Malloc 16; StreamSend (StreamHandle st) bytes])).
Proof.
  intros [Hm Hs] Hst Hq. destruct s as [r t q ss cs]. simpl in *. subst q.
  unfold stream_send, mbind, M_bind, gets, id, check. simpl. rewrite Hst. simpl.
  destruct (Z.eqb_spec (env (Malloc len) (length cs)) 0) as [E|_]; [by destruct (Hm _ _ E)|].
  simpl. destruct (Z.eqb_spec (env (Malloc 16) (length (cs ++ [Malloc len]))) 0) as [E|_];
    [by destruct (Hm _ _ E)|]. simpl. rewrite Hs. by rewrite <- !(assoc_L (++)).
Qed.

(** What the exchange needs of the server: its stream belongs to a registered
    client that holds an address, and the TUN interface is configured. *)
Record serving s (stream c : nat) (st : stream_t) (e : IpPool.ip_entry_t) (t : Tun.tun_iface_t)
    : Prop := {
  sv_stream : streams s !! stream = Some st;
  sv_client : s_client st = Some c;
  sv_quic : MsQuic s = true;
  sv_known : identified (reg s) c;
  sv_entry : (ClientList.ip_entry (get_client (reg s) c) ≫=
              λ i, IpPool.ip_entry (ClientList.ip_pool (reg s)) !! i) = Some e;
  sv_tun : tun s = Some t;
  sv_fields : in_u 32 (IpPool.ip e) ∧ in_u 16 (Tun.mtu t) ∧ in_u 32 (Tun.mask t) ∧
              in_u 32 (Tun.dns1 t) ∧ in_u 32 (Tun.dns2 t)
}.

(** The answer to a configuration request, whatever else the request says. *)
Definition config_resp_of s (c : nat) (e : IpPool.ip_entry_t) (t : Tun.tun_iface_t)
    : option pkt_ctrl_t :=
  pkt_ctrl_create_config_resp true (u64 (ClientList.uid (get_client (reg s) c))) 0 (Tun.mtu t)
    (IpPool.ip e) (Tun.mask t) (Tun.dns1 t) (Tun.dns2 t).

Lemma process_config_req s stream c st e t resp pkt :
  env_ok → serving s stream c st e t → config_resp_of s c e t = Some resp →
  frame_ok (pkt_ntoh (pkt_of_bytes pkt)) = true →
  type (pkt_ntoh (pkt_of_bytes pkt)).1 = msg_type VPN_MSG_TYPE_CONFIG_REQ →
  process_ctrl_pkt garbage env stream pkt s = Ret 0
    (MkServer (reg s) (tun s) (MsQuic s) (streams s)
       (calls s ++ [Malloc PKTCTRLSIZ; Malloc PKTCTRLSIZ; Malloc 16;
                    StreamSend (StreamHandle st) (pkt_bytes resp)])).
Proof.
  intros Henv [Hst Hc Hq Hid He Ht _] Hresp Hf Hty. pose proof (identified_find _ _ Hid) as Hfind.
  destruct (ClientList.ip_entry (get_client (reg s) c)) as [i|] eqn:Ei; simpl in He; [|done].
  unfold process_ctrl_pkt. rewrite Hf, Hty. cbn [negb]. rewrite Z.eqb_refl, bind_gets.
  rewrite (bind_run _ _ _ st s) by (unfold id; by rewrite Hst).
  rewrite (bind_run _ _ _ c s) by (by rewrite Hc).
  rewrite (bind_run _ _ _ (Some c) s) by (unfold id; by rewrite Hfind). cbv beta iota.
  rewrite (bind_run _ _ _ i s) by (unfold id; by rewrite Ei).
  rewrite (bind_run _ _ _ e s) by (unfold id; by rewrite He). cbv zeta.
  rewrite server_call_bind. change (id s) with s. rewrite Ht.
  destruct (Z.eqb_spec (env (Malloc PKTCTRLSIZ) (length (calls s))) 0) as [E0|_];
    [by destruct (proj1 Henv _ _ E0)|]. cbn [negb].
  unfold config_resp_of in Hresp. simpl out_of.
  match goal with |- context [pkt_ctrl_create_config_resp true ?a ?b ?cc ?d ?f ?g ?h] =>
    replace (pkt_ctrl_create_config_resp true a b cc d f g h) with (Some resp) by exact (eq_sym Hresp) end.
  cbn [fmap option_fmap option_map].
  set (s1 := MkServer _ _ _ _ (calls s ++ [Malloc PKTCTRLSIZ])).
  rewrite (bind_run _ _ _ 0 _ (stream_send_ok stream st _ _ s1 Henv Hst Hq)).
  unfold s1. cbn [calls reg tun streams MsQuic]. by rewrite <- (assoc_L (++)).
Qed.

Lemma frames_one (l : list Z) : length l = 1024%nat → frames l = [l].
Proof.
  intros H. unfold frames. rewrite H. change (Z.to_nat PKTCTRLSIZ) with 1024%nat.
  change (1024 / 1024)%nat with 1%nat. cbn [cut]. by rewrite take_ge by (rewrite H; done).
Qed.

Lemma server_exchange_run s handle stream c st e t host req bufs :
  env_ok → serving s stream c st e t → c_string host →
  pkt_ctrl_create_config_req true 0 AF_INET (Some host) = Some req →
  concat bufs = pkt_bytes req → Forall (λ b, Length b < 2 ^ 32) bufs →
  ∃ resp s', ServerStreamCallback garbage env handle stream (STREAM_RECEIVE bufs) s =
      Ret (QUIC_STATUS_SUCCESS, Some PKTCTRLSIZ) s' ∧
    reg s' = reg s ∧ streams s' = streams s ∧
    calls s' = calls s ++ [Malloc PKTCTRLSIZ; Malloc PKTCTRLSIZ; Malloc 16;
                           StreamSend (StreamHandle st) resp] ∧
    length resp = 1024%nat ∧
    let q := pkt_of_bytes resp in
    frame_ok (pkt_ntoh q) = true ∧
    type (pkt_ntoh q).1 = msg_type VPN_MSG_TYPE_CONFIG_RESP ∧
    uid (pkt_ntoh q).1 = u64 (ClientList.uid (get_client (reg s) c)) ∧
    resp_ip (body q) = IpPool.ip e ∧ resp_mask (body q) = Tun.mask t ∧
    ntohs (resp_mtu (body q)) = Tun.mtu t ∧
    resp_dns1 (body q) = Tun.dns1 t ∧ resp_dns2 (body q) = Tun.dns2 t.
Proof.
  intros Henv Hsv Hhost Hreq Hbufs Hlen. destruct (sv_fields _ _ _ _ _ _ Hsv) as (? & ? & ? & ? & ?).
  destruct (config_req_run 0 AF_INET host) as (req' & Ereq & Hrlen & Hrf & Hrt & _); [done..|].
  rewrite Hreq in Ereq. injection Ereq as <-.
  destruct (config_resp_run (u64 (ClientList.uid (get_client (reg s) c))) 0 (Tun.mtu t)
    (IpPool.ip e) (Tun.mask t) (Tun.dns1 t) (Tun.dns2 t))
    as (resp & Eresp & Hl & Hf & Hty & Hu & _ & Hm & Hip & Hmask & Hd1 & Hd2 & _);
    [apply u64_range|done..|].
  exists (pkt_bytes resp). eexists. split.
  - destruct Hsv as [Hst Hc Hq Hid He Ht Hfields].
    unfold ServerStreamCallback. rewrite bind_gets.
    rewrite (bind_run _ _ _ st s) by (unfold id; by rewrite Hst).
    rewrite (bind_run _ _ _ c s) by (by rewrite Hc).
    rewrite (bind_run _ _ _ () s) by (unfold id; by rewrite Hq). cbv beta iota zeta.
    unfold mbind, M_bind. rewrite receive_loop_run; [|done|by rewrite Hbufs, Hrlen].
    rewrite Hbufs, (frames_one _ Hrlen), Hrlen.
    unfold frames_then. cbn [run_frames]. unfold mbind, M_bind.
    erewrite process_config_req by (done || by split). reflexivity.
  - split; [done|]. split; [done|]. split; [done|]. split; [done|]. auto 12.
Qed.

(** A connected client gets its configuration: when the bytes of a request
    built by the client arrive on its control stream, in whatever buffers,
    the server consumes the frame and sends one frame on that stream which
    the client validates and from which it reads the client's uid, the
    address leased to it, and the mask, MTU and DNS addresses of the tunnel;
    the registry is unchanged.  Of the four buffers allocated the one of the
    response frame is never freed. *)
Theorem server_config_exchange s handle stream c st e t host req bufs :
  env_ok → serving s stream c st e t → c_string host →
  pkt_ctrl_create_config_req true 0 AF_INET (Some host) = Some req →
  concat bufs = pkt_bytes req → Forall (λ b, Length b < 2 ^ 32) bufs →
  ∃ resp s', ServerStreamCallback garbage env handle stream (STREAM_RECEIVE bufs) s =
      Ret (QUIC_STATUS_SUCCESS, Some PKTCTRLSIZ) s' ∧
    reg s' = reg s ∧ streams s' = streams s ∧
    calls s' = calls s ++ [Malloc PKTCTRLSIZ; Malloc PKTCTRLSIZ; Malloc 16;
                           StreamSend (StreamHandle st) resp] ∧
    length resp = 1024%nat ∧
    let q := pkt_of_bytes resp in
    frame_ok (pkt_ntoh q) = true ∧
    type (pkt_ntoh q).1 = msg_type VPN_MSG_TYPE_CONFIG_RESP ∧
    uid (pkt_ntoh q).1 = u64 (ClientList.uid (get_client (reg s) c)) ∧
    resp_ip (body q) = IpPool.ip e ∧ resp_mask (body q) = Tun.mask t ∧
    ntohs (resp_mtu (body q)) = Tun.mtu t ∧
    resp_dns1 (body q) = Tun.dns1 t ∧ resp_dns2 (body q) = Tun.dns2 t.
Proof. apply server_exchange_run. Qed.
End exchange.

(** ** Connections that come and go *)
Section connections.
Context {P : Type} `{!ObjPool P}.
Context (garbage : nat → ClientList.client_t) (env : api_call → nat → Z) (alloc : Z → option nat).
Implicit Types s : server P.
Abbreviation get_client := (ClientList.get_client garbage).
Abbreviation reg_wf := (ClientList.reg_wf garbage).

(** Another address pool over as many addresses leaves the registry sound. *)
Lemma reg_wf_set_ip_pool r q :
  reg_wf r → IpPool.max_clients q = IpPool.max_clients (ClientList.ip_pool r) →
  reg_wf (ClientList.set_ip_pool q r).
Proof.
  intros [[Hlen Hok] Hh Hs] Hq. split; [|done..]. split; [|done].
  unfold ClientList.max_clients in *. simpl. by rewrite Hq.
Qed.

Lemma release_same_max p i rc q :
  IpPool.ip_release (Some p) (Some i) = Some (rc, Some q) →
  IpPool.max_clients q = IpPool.max_clients p.
Proof.
  unfold IpPool.ip_release. destruct (IpPool.ip_entry p !! i); [|done].
  cbn [mbind option_bind]. by intros [= _ <-].
Qed.

(** C36. The end of a connection: SHUTDOWN_COMPLETE of a registered client
    gives its address back (the lease is gone, all others stay) and its object
    back to the pool, but the connection's handle is never closed: the code
    clears the pointer first and then closes NULL. *)
Theorem server_shutdown_complete_spec s handle k c i :
  reg_wf (reg s) → IpPool.pool_wf (ClientList.ip_pool (reg s)) → MsQuic s = true →
  ClientList.client_list (reg s) !! k = Some (Some c) →
  ClientList.ip_entry (get_client (reg s) c) = Some i →
  (i < length (IpPool.ip_entry (ClientList.ip_pool (reg s))))%nat →
  ¬ IpPool.reserved (ClientList.ip_pool (reg s)) i →
  ∃ s', ServerConnectionCallback garbage env handle c SHUTDOWN_COMPLETE s =
      Ret QUIC_STATUS_SUCCESS s' ∧
    IpPool.leases (ClientList.ip_pool (reg s')) =
      delete (ntohl (IpPool.net_addr (ClientList.ip_pool (reg s))) + Z.of_nat i)
        (IpPool.leases (ClientList.ip_pool (reg s))) ∧
    op_held (ClientList.client_pool (reg s')) = op_held (ClientList.client_pool (reg s)) ∖ {[c]} ∧
    ClientList.ConnectionHandle (get_client (reg s') c) = None ∧
    calls s' = calls s ++ [ConnectionClose None].
Proof.
  intros Hwf Hip Hq Hk Hi Hlt Hres.
  destruct (ClientList.reg_slot _ _ Hwf k c Hk) as [_ Hsess].
  destruct (IpPool.ip_release_spec _ i Hip Hlt Hres) as (q & Er & Hqwf & Hl).
  pose proof (reg_wf_set_ip_pool _ q Hwf (release_same_max _ _ _ _ Er)) as Hwf1.
  destruct (ClientList.remove_run garbage (ClientList.set_ip_pool q (reg s)) k c Hwf1 Hk)
    as (r2 & E2 & Hlist & _ & Hheld & Hc & _ & Hip2).
  unfold ServerConnectionCallback. rewrite bind_gets.
  rewrite (bind_run _ _ _ () s) by (unfold id; by rewrite Hsess).
  rewrite (bind_run _ _ _ () s) by (unfold id; by rewrite Hq). cbv beta iota.
  erewrite bind_run; [|unfold on_reg; rewrite Hi, Er; reflexivity].
  erewrite bind_run; [|unfold on_reg; cbn [reg]; change (default _ (Some q)) with q; rewrite E2; reflexivity].
  erewrite bind_run; [|reflexivity]. rewrite bind_gets. unfold id. cbn [reg].
  eexists. split; [reflexivity|]. cbn [reg calls].
  rewrite ClientList.get_upd_eq. simpl. by rewrite Hip2.
Qed.

Lemma on_reg_run {A} (f : ClientList.session_t P → option (A * ClientList.session_t P)) s a r :
  f (reg s) = Some (a, r) →
  on_reg f s = Ret a (MkServer r (tun s) (MsQuic s) (streams s) (calls s)).
Proof. unfold on_reg. by intros ->. Qed.

(** A new connection: the listener registers a fresh client for it at the
    first free slot and then gives MsQuic its callback and the configuration,
    in this order; without a slot or memory it refuses and changes nothing;
    when MsQuic rejects the configuration the client's object is given back
    and the connection closed once. *)
Theorem server_new_connection_spec s conn :
  reg_wf (reg s) → op_fresh alloc (ClientList.client_pool (reg s)) → MsQuic s = true →
  ∃ r s', ServerListenerCallback garbage env alloc (NEW_CONNECTION conn) s = Ret r s' ∧
    ((r = QUIC_STATUS_OUT_OF_MEMORY ∧ calls s' = calls s ∧
      ClientList.added garbage (Some conn) (reg s) None (reg s')) ∨
     ∃ c r1, ClientList.added garbage (Some conn) (reg s) (Some c) r1 ∧ reg_wf r1 ∧
       let st := env (ConnectionSetConfiguration conn) (S (length (calls s))) in
       (QUIC_FAILED st = false ∧ r = QUIC_STATUS_SUCCESS ∧ reg s' = r1 ∧
        calls s' = calls s ++ [SetConnectionCallback conn c; ConnectionSetConfiguration conn]) ∨
       (QUIC_FAILED st = true ∧ r = st ∧
        op_held (ClientList.client_pool (reg s')) = op_held (ClientList.client_pool (reg s)) ∧
        calls s' = calls s ++ [SetConnectionCallback conn c; ConnectionSetConfiguration conn;
                               ConnectionClose (Some conn)])).
Proof.
  intros Hwf Hf Hq.
  destruct (ClientList.list_add_client_added garbage alloc (Some conn) (reg s)
    (ClientList.reg_list _ _ Hwf) Hf) as (r & r1 & E & Hadd).
  pose proof (ClientList.added_reg_wf _ _ _ _ _ Hwf Hadd) as Hwf1.
  unfold ServerListenerCallback. rewrite bind_gets.
  rewrite (bind_run _ _ _ () s) by (unfold id; by rewrite Hq). cbv beta iota.
  rewrite (bind_run _ _ s _ _ (on_reg_run (ClientList.list_add_client garbage alloc (Some conn))
    s r r1 E)). destruct r as [c|].
  2:{ eexists _, _. split; [reflexivity|]. by left. }
  rewrite !server_call_bind. cbn [calls]. rewrite length_app, Nat.add_1_r.
  set (st := env (ConnectionSetConfiguration conn) _).
  destruct (QUIC_FAILED st) eqn:Est.
  - inversion Hadd as [idx c' s' Hfree Hnh Hl Hc Hne Hok Hh Hip Hcnt|]; subst.
    assert (Hk : ClientList.client_list r1 !! idx = Some (Some c)).
    { rewrite Hl. apply list_lookup_insert_eq. by eapply lookup_lt_Some, Hfree. }
    destruct (ClientList.remove_run garbage r1 idx c Hwf1 Hk) as (r2 & E2 & _ & _ & Hh2 & _).
    cbn [reg tun MsQuic streams calls]. set (s1 := MkServer r1 _ _ _ _).
    rewrite (bind_run _ _ s1 _ _ (on_reg_run (ClientList.list_remove_client garbage false (Some c))
      s1 0 r2 E2)), server_call_bind. unfold s1.
    eexists _, _. split; [reflexivity|]. right. exists c, r1. split; [exact Hadd|].
    split; [exact Hwf1|]. right. split; [reflexivity|]. split; [reflexivity|]. cbn [reg calls].
    rewrite Hh2, Hh, <- !(assoc_L (++)). split; [set_solver|reflexivity].
  - eexists _, _. split; [reflexivity|]. right. exists c, r1. split; [exact Hadd|].
    split; [exact Hwf1|]. left. split; [reflexivity|]. split; [reflexivity|].
    split; [reflexivity|]. cbn [calls]. rewrite <- (assoc_L (++)). reflexivity.
Qed.
End connections.

(** ** Samples: the registry of ClientList, its first client connected *)

#[local] Existing Instance Pool.pool_objpool.

Definition env_sample (c : api_call) (n : nat) : Z :=
  match c with Malloc _ => Z.of_nat n + 100 | _ => 0 end.

Definition sample_tun : Tun.tun_iface_t :=
  Tun.TunIface 3 63 "tun0" (htonl 2886860801) (mask_of_prefix 29) 29 (htonl 2886860800) 16843009
    134744072 1380 Tun.TUN_BACKEND_NETLINK_SERVER (Some Tun.api_table_netlink_server) None.

Definition sample_reg : ClientList.session_t Pool.pool_t :=
  match ClientList.initialize_client_state ClientList.no_garbage (Some 1%nat)
          ClientList.sample_session with
  | Some (_, r) => r
  | None => ClientList.sample_session
  end.

Definition sample_server : server Pool.pool_t :=
  MkServer sample_reg (Some sample_tun) true {[ 7%nat := Stream (Some 21%nat) (Some 1%nat) ]} [].

Lemma sample_reg_list : ClientList.client_list sample_reg = ClientList.client_list ClientList.sample_session.
Proof. by vm_compute. Qed.

Definition client_of (c : nat) : ClientList.client_t :=
  ClientList.get_client ClientList.no_garbage sample_reg c.
Definition at_slot (i c : nat) : Prop :=
  ClientList.slot_idx (client_of c) = Z.of_nat i ∧ ClientList.session (client_of c) = true.

Lemma sample_slot_0 : at_slot 0 1.
Proof. by vm_compute. Qed.
Lemma sample_slot_1 : at_slot 1 2.
Proof. by vm_compute. Qed.

Definition uid_of_1 (_ c : nat) : Prop :=
  u64 (ClientList.uid (client_of c)) = u64 (ClientList.uid (client_of 1)) → c = 1%nat.

Lemma sample_uid_1 : uid_of_1 0 1.
Proof. intros _. reflexivity. Qed.
Lemma sample_uid_2 : uid_of_1 1 2.
Proof. intros H. vm_compute in H. discriminate H. Qed.

Lemma server_reg_wf : ClientList.reg_wf ClientList.no_garbage sample_reg.
Proof.
  destruct ClientList.sample_reg_wf as [[Hlen Hok] Hheld Hslot].
  assert (Hp : ClientList.client_pool sample_reg = ClientList.client_pool ClientList.sample_session)
    by by vm_compute.
  split.
  - split; [by vm_compute|]. rewrite Hp. exact Hok.
  - intros i c. rewrite sample_reg_list, Hp. apply Hheld.
  - intros i c. rewrite sample_reg_list. exact (ClientList.sample_registered at_slot
      sample_slot_0 sample_slot_1 i c).
Qed.

Lemma sample_identified : identified ClientList.no_garbage sample_reg 1.
Proof.
  split; [exact (ClientList.reg_list _ _ server_reg_wf)|].
  split; [intros H; vm_compute in H; discriminate H|].
  split; [exists 0%nat; rewrite sample_reg_list; reflexivity|]. intros j c' Hj.
  rewrite sample_reg_list in Hj.
  exact (ClientList.sample_registered uid_of_1 sample_uid_1 sample_uid_2 j c' Hj).
Qed.

Lemma sample_serving :
  serving ClientList.no_garbage sample_server 7 1 (Stream (Some 21%nat) (Some 1%nat))
    (default (IpPool.IpEntry 0 EmptyString false None)
       (IpPool.ip_entry (ClientList.ip_pool sample_reg) !! 2%nat)) sample_tun.
Proof.
  split; [reflexivity|reflexivity|reflexivity|exact sample_identified|by vm_compute|reflexivity|].
  unfold in_u. by vm_compute.
Qed.

Definition sample_req : pkt_ctrl_t :=
  default (pkt_of_bytes []) (pkt_ctrl_create_config_req true 0 AF_INET (Some [113; 117; 105; 99])).

Lemma server_config_exchange_witness :
  ∃ resp s', ServerStreamCallback ClientList.no_garbage env_sample 21 7
      (STREAM_RECEIVE [take 600 (pkt_bytes sample_req); drop 600 (pkt_bytes sample_req)]) sample_server
      = Ret (QUIC_STATUS_SUCCESS, Some PKTCTRLSIZ) s' ∧
    resp_ip (body (pkt_of_bytes resp)) = htonl 2886860802.
Proof.
  assert (Henv : env_ok env_sample) by (split; [intros sz n; simpl; lia|done]).
  assert (Hs : c_string [113; 117; 105; 99]) by by repeat constructor.
  assert (Hb : concat [take 600 (pkt_bytes sample_req); drop 600 (pkt_bytes sample_req)] =
               pkt_bytes sample_req) by by vm_compute.
  assert (Hl : Forall (λ b, Length b < 2 ^ 32)
    [take 600 (pkt_bytes sample_req); drop 600 (pkt_bytes sample_req)]) by by repeat constructor.
  destruct (server_config_exchange ClientList.no_garbage env_sample sample_server 21 7 1 _ _ _
    [113; 117; 105; 99] sample_req _ Henv sample_serving Hs eq_refl Hb Hl)
    as (resp & s' & E & _ & _ & _ & _ & _ & _ & _ & Hip & _).
  exists resp, s'. split; [exact E|]. rewrite Hip. by vm_compute.
Defined.

Lemma server_shutdown_complete_spec_witness :
  ∃ s', ServerConnectionCallback ClientList.no_garbage env_sample 11 1 SHUTDOWN_COMPLETE sample_server =
      Ret QUIC_STATUS_SUCCESS s' ∧ calls s' = [ConnectionClose None].
Proof.
  assert (Hwf : IpPool.pool_wf (ClientList.ip_pool sample_reg)).
  { pose proof (IpPool.acquire_total IpPool.sample_pool 1 IpPool.sample_pool_wf) as H.
    unfold sample_reg, ClientList.initialize_client_state. cbn [mbind option_bind].
    change (negb _) with false. cbv iota.
    destruct H as [(idx & p & E & H & _)|[E _]];
      change (ClientList.ip_pool ClientList.sample_session) with IpPool.sample_pool; rewrite E;
      [exact H|exact IpPool.sample_pool_wf]. }
  assert (Hlt : (2 < length (IpPool.ip_entry (ClientList.ip_pool sample_reg)))%nat)
    by (apply (bool_decide_unpack _); by vm_compute).
  assert (Hres : ¬ IpPool.reserved (ClientList.ip_pool sample_reg) 2).
  { unfold IpPool.reserved. vm_compute. intros [?|[?|?]]; discriminate. }
  destruct (server_shutdown_complete_spec ClientList.no_garbage env_sample sample_server 11 0 1 2
    server_reg_wf Hwf eq_refl eq_refl eq_refl Hlt Hres) as (s' & E & _ & _ & _ & Hc).
  exists s'. split; [exact E|exact Hc].
Defined.

Lemma server_new_connection_spec_witness :
  ∃ r s', ServerListenerCallback ClientList.no_garbage env_sample (λ _, Some 3%nat) (NEW_CONNECTION 13)
            sample_server = Ret r s'.
Proof.
  assert (Hf : op_fresh (λ _, Some 3%nat) (ClientList.client_pool sample_reg)).
  { intros sz b [= <-]. by vm_compute. }
  destruct (server_new_connection_spec ClientList.no_garbage env_sample (λ _, Some 3%nat) sample_server 13
    server_reg_wf Hf eq_refl) as (r & s' & E & _). eauto.
Defined.
