(* ===== verification/Sessions.v ===== *)
(** * quic.c and client.c of the server: the life of its connections

    The listener, connection and stream callbacks of ServerQuic.v driven by
    MsQuic.  [world] is the server with what MsQuic remembers between
    callbacks: the context each connection and stream was given with
    SetCallbackHandler (read off the calls the callback made) and, for a
    connection, whether it was connected.  [allowed] is what the documentation
    of MsQuic and of malloc guarantees about the next event; a run is a
    sequence of whole callbacks.  The datagram events are in DataPath.v.

    The abstract server is a finite map from the open connections to the
    address each one holds, if any. *)
From stdpp Require Import prelude gmap sets.
From Stdlib Require Import ZArith Lia.
From S2P Require Import Prelude Utils PktCtrl ObjPool Frames ServerQuic.
From S2P Require IpPool Tun ClientList Pool.

Inductive phase := Pending | Connected | Refused.

Record world (P : Type) := World {
  srv : server P;
  conns : gmap nat (nat * phase);     (* connection: its context, its phase *)
  strms : gmap nat (nat * nat)        (* stream: its context, its connection *)
}.
Arguments World {P}.
Arguments srv {P}.
Arguments conns {P}.
Arguments strms {P}.

(** [alloc] is the allocator the object pool finds during the callback. *)
Inductive event :=
| EvListener (alloc : Z → option nat) (ev : listener_event)
| EvConn (conn : nat) (ev : connection_event)
| EvStream (stream : nat) (ev : stream_event).

(** The context a handle got in a sequence of calls. *)
Fixpoint conn_context (conn : nat) (cs : list api_call) : option nat :=
  match cs with
  | [] => None
  | SetConnectionCallback h c :: cs => if decide (h = conn) then Some c else conn_context conn cs
  | _ :: cs => conn_context conn cs
  end.
Fixpoint stream_context (stream : nat) (cs : list api_call) : option nat :=
  match cs with
  | [] => None
  | SetStreamCallback (Some h) p :: cs =>
      if decide (h = stream) then Some p else stream_context stream cs
  | _ :: cs => stream_context stream cs
  end.

Section sessions.
Context {P : Type} `{!ObjPool P}.
Context (garbage : nat → ClientList.client_t) (env : api_call → nat → Z).
Implicit Types w : world P.
Implicit Types s : server P.
Implicit Types r : ClientList.session_t P.
Implicit Types cs : gmap nat (nat * phase).
Abbreviation get_client := (ClientList.get_client garbage).

Definition returned {A} (o : outcome (server P) A) : option (A * server P) :=
  match o with Ret a s => Some (a, s) | Fatal _ => None | Block _ => None end.

(** The calls made since [s]. *)
Definition new_calls s s' : list api_call := drop (length (calls s)) (calls s').

(** One event: its callback, and what MsQuic remembers of it.  [None]: there
    is no handle or no context for the event, or the callback did not return. *)
Definition world_step (e : event) w : option (world P) :=
  match e with
  | EvListener alloc ev =>
      '(rc, s) ← returned (ServerListenerCallback garbage env alloc ev (srv w));
      match ev with
      | NEW_CONNECTION conn =>
          if QUIC_FAILED rc then Some (World s (conns w) (strms w))
          else
            c ← conn_context conn (new_calls (srv w) s);
            Some (World s (<[conn := (c, Pending)]> (conns w)) (strms w))
      | STOP_COMPLETE => Some (World s (conns w) (strms w))
      | LISTENER_OTHER => Some (World s (conns w) (strms w))
      end
  | EvConn conn ev =>
      '(c, ph) ← conns w !! conn;
      '(rc, s) ← returned (ServerConnectionCallback garbage env conn c ev (srv w));
      match ev with
      | CONNECTED =>
          Some (World s (<[conn := (c, if QUIC_FAILED rc then Refused else Connected)]> (conns w))
                  (strms w))
      | SHUTDOWN_COMPLETE => Some (World s (delete conn (conns w)) (strms w))
      | PEER_STREAM_STARTED h =>
          if QUIC_FAILED rc then Some (World s (conns w) (strms w))
          else
            p ← stream_context h (new_calls (srv w) s);
            Some (World s (conns w) (<[h := (p, conn)]> (strms w)))
      | _ => Some (World s (conns w) (strms w))
      end
  | EvStream h ev =>
      '(p, _) ← strms w !! h;
      '(_, s) ← returned (ServerStreamCallback garbage env h p ev (srv w));
      Some (World s (conns w)
              (match ev with STREAM_SHUTDOWN_COMPLETE => delete h (strms w) | _ => strms w end))
  end.

Fixpoint world_run (es : list event) w : option (world P) :=
  match es with
  | [] => Some w
  | e :: es => w' ← world_step e w; world_run es w'
  end.

(** Memory that reads as uid 0 when the pool hands it out for the first time. *)
Definition cleared : Prop := ∀ c, u64 (ClientList.uid (garbage c)) = 0.

(** What may come next.  A connection is announced once while it is open and
    connected once; its shutdown completes after that of its streams.  malloc
    returns memory that is not in use.  A RECEIVE event is only considered
    when memory is found and comes cleared, as the code checks neither. *)
Definition allowed (e : event) w : Prop :=
  match e with
  | EvListener alloc (NEW_CONNECTION conn) =>
      conns w !! conn = None ∧ op_fresh alloc (ClientList.client_pool (reg (srv w)))
  | EvListener _ _ => True
  | EvConn conn ev =>
      ∃ c ph, conns w !! conn = Some (c, ph) ∧
      match ev with
      | CONNECTED => ph = Pending
      | SHUTDOWN_COMPLETE => ∀ h p, strms w !! h ≠ Some (p, conn)
      | PEER_STREAM_STARTED h =>
          strms w !! h = None ∧
          let p := env (Malloc 32) (length (calls (srv w))) in
          p ≠ 0 → 0 < p ∧ streams (srv w) !! Z.to_nat p = None
      | _ => True
      end
  | EvStream h ev =>
      is_Some (strms w !! h) ∧
      match ev with
      | STREAM_RECEIVE bufs =>
          Forall (λ b, Length b < 2 ^ 32) bufs ∧ Z.of_nat (length (concat bufs)) < 2 ^ 64 ∧
          (∀ sz n, env (Malloc sz) n ≠ 0) ∧ cleared
      | _ => True
      end
  end.

Fixpoint allowed_run (es : list event) w : Prop :=
  match es with
  | [] => True
  | e :: es => allowed e w ∧ ∀ w', world_step e w = Some w' → allowed_run es w'
  end.

(** ** The abstract server *)

Definition addr_of r (c : nat) : option Z :=
  i ← ClientList.ip_entry (get_client r c);
  Some (ntohl (IpPool.net_addr (ClientList.ip_pool r)) + Z.of_nat i).
Definition sessions_of r cs : gmap nat (option Z) := (λ x, addr_of r x.1) <$> cs.
Definition sessions w : gmap nat (option Z) := sessions_of (reg (srv w)) (conns w).

Definition quiet (e : event) : Prop :=
  match e with
  | EvListener _ (NEW_CONNECTION _) => False
  | EvConn _ CONNECTED => False
  | EvConn _ SHUTDOWN_COMPLETE => False
  | _ => True
  end.

Inductive sess_step (free : Z → Prop) : gmap nat (option Z) → event → gmap nat (option Z) → Prop :=
| SessAccept m alloc conn :
    m !! conn = None →
    sess_step free m (EvListener alloc (NEW_CONNECTION conn)) (<[conn := None]> m)
| SessReject m alloc conn : sess_step free m (EvListener alloc (NEW_CONNECTION conn)) m
| SessConnect m conn a :
    m !! conn = Some None → free a → (∀ k, m !! k ≠ Some (Some a)) →
    sess_step free m (EvConn conn CONNECTED) (<[conn := Some a]> m)
| SessFull m conn :
    m !! conn = Some None → (∀ a, free a → ∃ k, m !! k = Some (Some a)) →
    sess_step free m (EvConn conn CONNECTED) m
| SessEnd m conn :
    is_Some (m !! conn) → sess_step free m (EvConn conn SHUTDOWN_COMPLETE) (delete conn m)
| SessQuiet m e : quiet e → sess_step free m e m.

Inductive sess_run (free : Z → Prop) : gmap nat (option Z) → list event → gmap nat (option Z) → Prop :=
| SessNil m : sess_run free m [] m
| SessCons m e m' es m'' :
    sess_step free m e m' → sess_run free m' es m'' → sess_run free m (e :: es) m''.

(** ** The invariant *)

Definition holds_address r (c : nat) : Prop :=
  ∃ i, ClientList.ip_entry (get_client r c) = Some i ∧
    (i < length (IpPool.ip_entry (ClientList.ip_pool r)))%nat ∧
    ¬ IpPool.reserved (ClientList.ip_pool r) i ∧
    IpPool.leases (ClientList.ip_pool r)
      !! (ntohl (IpPool.net_addr (ClientList.ip_pool r)) + Z.of_nat i) = Some c.

Record client_ok r (conn c : nat) (ph : phase) : Prop := {
  ok_held : c ∈ op_held (ClientList.client_pool r);
  ok_session : ClientList.session (get_client r c) = true;
  ok_handle : ClientList.ConnectionHandle (get_client r c) = Some conn;
  ok_slot : 0 ≤ ClientList.slot_idx (get_client r c) < ClientList.max_clients r;
  ok_addr : match ph with
            | Connected => holds_address r c
            | _ => ClientList.ip_entry (get_client r c) = None
            end
}.

(** A client with a uid is checked out and has an address. *)
Definition uids_ok r : Prop :=
  ∀ c, u64 (ClientList.uid (get_client r c)) ≠ 0 →
    c ∈ op_held (ClientList.client_pool r) ∧
    ∃ i, ClientList.ip_entry (get_client r c) = Some i ∧
      (i < length (IpPool.ip_entry (ClientList.ip_pool r)))%nat.

Record reg_inv r cs : Prop := {
  ri_list : ClientList.list_wf r;
  ri_pool : IpPool.pool_wf (ClientList.ip_pool r);
  ri_conn : ∀ conn c ph, cs !! conn = Some (c, ph) → client_ok r conn c ph;
  ri_held : ∀ c, c ∈ op_held (ClientList.client_pool r) → ∃ conn ph, cs !! conn = Some (c, ph);
  ri_lease : ∀ a c, IpPool.leases (ClientList.ip_pool r) !! a = Some c →
    ∃ conn, cs !! conn = Some (c, Connected) ∧ addr_of r c = Some a;
  ri_uid : cleared → uids_ok r
}.

Record world_inv w : Prop := {
  wi_quic : MsQuic (srv w) = true;
  wi_reg : reg_inv (reg (srv w)) (conns w);
  wi_stream : ∀ h p conn, strms w !! h = Some (p, conn) →
    ∃ c ph, conns w !! conn = Some (c, ph) ∧
      streams (srv w) !! p = Some (Stream (Some h) (Some c));
  wi_context : ∀ p st, streams (srv w) !! p = Some st → ∃ h conn, strms w !! h = Some (p, conn)
}.

(** ** The registry *)

(** What an operation on client [c] leaves alone. *)
Definition only_client r (c : nat) r' : Prop :=
  IpPool.same_net (ClientList.ip_pool r) (ClientList.ip_pool r') ∧
  ∀ c', c' ≠ c → get_client r' c' = get_client r c'.

Lemma same_net_refl p : IpPool.same_net p p.
Proof. by split_and!. Qed.
Lemma same_net_trans p q t : IpPool.same_net p q → IpPool.same_net q t → IpPool.same_net p t.
Proof. intros (? & ? & ? & ?) (? & ? & ? & ?). split_and!; congruence. Qed.

Lemma reg_inv_inj r cs k1 k2 c ph1 ph2 :
  reg_inv r cs → cs !! k1 = Some (c, ph1) → cs !! k2 = Some (c, ph2) → k1 = k2.
Proof.
  intros H H1 H2. pose proof (ok_handle _ _ _ _ (ri_conn _ _ H _ _ _ H1)).
  pose proof (ok_handle _ _ _ _ (ri_conn _ _ H _ _ _ H2)). congruence.
Qed.

(** A client an operation on [c] left alone is as good as before, when the
    lease of its address is. *)
Lemma client_ok_other r r' c conn c' ph :
  only_client r c r' → c' ≠ c →
  (c' ∈ op_held (ClientList.client_pool r) → c' ∈ op_held (ClientList.client_pool r')) →
  (∀ a, IpPool.leases (ClientList.ip_pool r) !! a = Some c' →
        IpPool.leases (ClientList.ip_pool r') !! a = Some c') →
  client_ok r conn c' ph → client_ok r' conn c' ph.
Proof.
  intros [Hnet Hget] Hne Hh Hl [H1 H2 H3 H4 H5]. pose proof Hnet as (En & _ & Em & El).
  split; rewrite ?Hget by done; auto.
  - unfold ClientList.max_clients in *. by rewrite Em.
  - destruct ph; [|destruct H5 as (i & Hi & Hlt & Hres & Hle)|]; [done| |done].
    exists i. rewrite Hget, En, El by done. split; [done|]. split; [done|].
    split; [by rewrite (IpPool.same_net_reserved _ _ _ Hnet)|]. by apply Hl.
Qed.

Lemma addr_of_other r r' c c' : only_client r c r' → c' ≠ c → addr_of r' c' = addr_of r c'.
Proof. intros [(En & _) Hget] Hne. unfold addr_of. by rewrite Hget, En. Qed.

(** The abstract state after an operation on the client [c] of [conn]. *)
Lemma sessions_insert r r' cs conn c ph :
  reg_inv r cs → only_client r c r' →
  (∀ k c' ph', cs !! k = Some (c', ph') → k = conn ↔ c' = c) →
  sessions_of r' (<[conn := (c, ph)]> cs) = <[conn := addr_of r' c]> (sessions_of r cs).
Proof.
  intros H Ho Hinj. unfold sessions_of. rewrite fmap_insert. simpl.
  apply map_eq. intros k. destruct (decide (k = conn)) as [->|Hk].
  - by rewrite !lookup_insert_eq.
  - rewrite !lookup_insert_ne by done. rewrite !lookup_fmap.
    destruct (cs !! k) as [[c' ph']|] eqn:E; [|done]. simpl. f_equal.
    apply (addr_of_other r r' c); [done|]. by rewrite <- (Hinj k c' ph').
Qed.
(** Rebuilding the invariant after an operation on [c], which opens or keeps
    its connection. *)
Lemma reg_inv_insert r r' cs conn c ph :
  reg_inv r cs → only_client r c r' →
  (∀ k c' ph', cs !! k = Some (c', ph') → k = conn ↔ c' = c) →
  ClientList.list_wf r' → IpPool.pool_wf (ClientList.ip_pool r') →
  op_held (ClientList.client_pool r') = {[c]} ∪ op_held (ClientList.client_pool r) →
  (∀ a c', c' ≠ c → IpPool.leases (ClientList.ip_pool r') !! a = Some c' ↔
                    IpPool.leases (ClientList.ip_pool r) !! a = Some c') →
  client_ok r' conn c ph →
  (∀ a, IpPool.leases (ClientList.ip_pool r') !! a = Some c → ph = Connected ∧ addr_of r' c = Some a) →
  (cleared → u64 (ClientList.uid (get_client r' c)) ≠ 0 →
   ∃ i, ClientList.ip_entry (get_client r' c) = Some i ∧
     (i < length (IpPool.ip_entry (ClientList.ip_pool r')))%nat) →
  reg_inv r' (<[conn := (c, ph)]> cs).
Proof.
  intros H Ho Hinj Hlist Hpool Hheld Hl Hok Hlc Hu. pose proof Ho as [(_ & _ & _ & El) Hget].
  assert (Hother : ∀ k c' ph', cs !! k = Some (c', ph') → c' ≠ c →
    <[conn := (c, ph)]> cs !! k = Some (c', ph')).
  { intros k c' ph' E Hne. rewrite lookup_insert_ne; [done|]. intros <-.
    by apply Hne, (Hinj _ _ _ E). }
  split; [done|done|..].
  - intros k c' ph'. destruct (decide (k = conn)) as [->|Hk].
    + rewrite lookup_insert_eq. by intros [= <- <-].
    + rewrite lookup_insert_ne by done. intros E.
      assert (Hne : c' ≠ c) by (by rewrite <- (Hinj _ _ _ E)).
      apply (client_ok_other r r' c); eauto using ri_conn; [rewrite Hheld; set_solver|].
      intros a. by apply Hl.
  - intros c' Hc'. destruct (decide (c' = c)) as [->|Hne].
    { exists conn, ph. apply lookup_insert_eq. }
    rewrite Hheld, elem_of_union, elem_of_singleton in Hc'. destruct Hc' as [|Hc']; [done|].
    destruct (ri_held _ _ H c' Hc') as (k & ph' & E). eauto.
  - intros a c' Ha. destruct (decide (c' = c)) as [->|Hne].
    { destruct (Hlc a Ha) as [-> ?]. exists conn. by rewrite lookup_insert_eq. }
    apply Hl in Ha; [|done]. destruct (ri_lease _ _ H a c' Ha) as (k & E & Hk).
    exists k. by rewrite (addr_of_other r r' c) by done; eauto.
  - intros Hclr c' Hc'. rewrite Hheld. destruct (decide (c' = c)) as [->|Hne].
    { split; [set_solver|by apply Hu]. }
    rewrite Hget in * by done. destruct (ri_uid _ _ H Hclr c' Hc') as [Hh Hi].
    rewrite El. split; [set_solver|done].
Qed.

(** The same when [c] is given back and its connection [conn] ends. *)
Lemma reg_inv_delete r r' cs conn c ph :
  reg_inv r cs → cs !! conn = Some (c, ph) → only_client r c r' →
  ClientList.list_wf r' → IpPool.pool_wf (ClientList.ip_pool r') →
  op_held (ClientList.client_pool r') = op_held (ClientList.client_pool r) ∖ {[c]} →
  (∀ a c', c' ≠ c → IpPool.leases (ClientList.ip_pool r') !! a = Some c' ↔
                    IpPool.leases (ClientList.ip_pool r) !! a = Some c') →
  (∀ a, IpPool.leases (ClientList.ip_pool r') !! a ≠ Some c) →
  u64 (ClientList.uid (get_client r' c)) = 0 →
  reg_inv r' (delete conn cs).
Proof.
  intros H Hc Ho Hlist Hpool Hheld Hl Hlc Hu. pose proof Ho as [(_ & _ & _ & El) Hget].
  assert (Hother : ∀ k c' ph', cs !! k = Some (c', ph') → c' ≠ c → delete conn cs !! k = Some (c', ph')).
  { intros k c' ph' E Hne. rewrite lookup_delete_ne; [done|]. congruence. }
  split; [done|done|..].
  - intros k c' ph' [Hk E]%lookup_delete_Some.
    assert (Hne : c' ≠ c) by (intros ->; by apply Hk, (reg_inv_inj r cs conn k c ph ph')).
    apply (client_ok_other r r' c); eauto using ri_conn; [rewrite Hheld; set_solver|].
    intros a. by apply Hl.
  - intros c' Hc'. rewrite Hheld in Hc'.
    destruct (ri_held _ _ H c') as (k & ph' & E); [set_solver|]. exists k, ph'.
    apply Hother; [done|]. set_solver.
  - intros a c' Ha. destruct (decide (c' = c)) as [->|Hne]; [by destruct (Hlc a)|].
    apply Hl in Ha; [|done]. destruct (ri_lease _ _ H a c' Ha) as (k & E & Hk).
    exists k. rewrite (addr_of_other r r' c) by done. eauto.
  - intros Hclr c' Hc'. rewrite Hheld. destruct (decide (c' = c)) as [->|Hne]; [done|].
    rewrite Hget in * by done. destruct (ri_uid _ _ H Hclr c' Hc') as [Hh Hi].
    rewrite El. split; [set_solver|done].
Qed.

Lemma sessions_delete r r' cs conn c ph :
  reg_inv r cs → cs !! conn = Some (c, ph) → only_client r c r' →
  sessions_of r' (delete conn cs) = delete conn (sessions_of r cs).
Proof.
  intros H Hc Ho. unfold sessions_of. rewrite fmap_delete. apply map_eq. intros k.
  destruct (decide (k = conn)) as [->|Hk]; [by rewrite !lookup_delete_eq|].
  rewrite !lookup_delete_ne, !lookup_fmap by done. destruct (cs !! k) as [[c' ph']|] eqn:E; [|done].
  simpl. f_equal. apply (addr_of_other r r' c); [done|]. intros ->.
  by apply Hk, (reg_inv_inj r cs k conn c ph' ph).
Qed.

(** A new client, of a connection MsQuic just announced. *)
Lemma reg_inv_add r cs conn c r' :
  reg_inv r cs → cs !! conn = None → ClientList.added garbage (Some conn) r (Some c) r' →
  reg_inv r' (<[conn := (c, Pending)]> cs) ∧
  sessions_of r' (<[conn := (c, Pending)]> cs) = <[conn := None]> (sessions_of r cs).
Proof.
  intros H Hconn Hadd. inversion Hadd as [idx c' s' Hfree Hnh El Ec Hne Hok Hh Eip Ecnt|]; subst.
  assert (Hlt : (idx < length (ClientList.client_list r))%nat) by (eapply lookup_lt_Some, Hfree).
  destruct (ri_list _ _ H) as [Hlen _].
  assert (Ho : only_client r c r') by (split; [rewrite Eip; apply same_net_refl|done]).
  assert (Hinj : ∀ k c' ph', cs !! k = Some (c', ph') → k = conn ↔ c' = c).
  { intros k c' ph' E. split; [intros ->; congruence|intros ->].
    by destruct Hnh; apply (ok_held _ _ _ _ (ri_conn _ _ H _ _ _ E)). }
  split.
  - eapply reg_inv_insert; eauto.
    + split; [|done]. unfold ClientList.max_clients in *. by rewrite El, length_insert, Eip.
    + rewrite Eip. apply (ri_pool _ _ H).
    + by rewrite Eip.
    + split; rewrite ?Ec; simpl; try done; [rewrite Hh; set_solver|].
      unfold ClientList.max_clients in *. rewrite Eip. lia.
    + intros a. rewrite Eip. intros Ha. destruct (ri_lease _ _ H a c Ha) as (k & E & _).
      by destruct Hnh; apply (ok_held _ _ _ _ (ri_conn _ _ H _ _ _ E)).
    + rewrite Ec. simpl. intros Hclr Hu. by destruct (ri_uid _ _ H Hclr c Hu) as [? _].
  - rewrite (sessions_insert r r') by done. unfold addr_of. by rewrite Ec.
Qed.

Lemma reg_inv_ext r r' cs :
  reg_inv r cs → ClientList.client_list r' = ClientList.client_list r →
  (∀ c, get_client r' c = get_client r c) → ClientList.ip_pool r' = ClientList.ip_pool r →
  op_ok (ClientList.client_pool r') →
  op_held (ClientList.client_pool r') = op_held (ClientList.client_pool r) →
  reg_inv r' cs ∧ sessions_of r' cs = sessions_of r cs.
Proof.
  intros [[H1 _] H2 H3 H4 H5 H6] El Ec Eip Hok Hh. split.
  - split.
    + split; [|done]. unfold ClientList.max_clients in *. by rewrite El, Eip.
    + by rewrite Eip.
    + intros conn c ph E. destruct (H3 conn c ph E) as [A1 A2 A3 A4 A5].
      split; rewrite ?Hh, ?Ec; try done.
      * unfold ClientList.max_clients. by rewrite Eip.
      * destruct ph; try done. unfold holds_address. by rewrite Ec, Eip.
    + by rewrite Hh.
    + unfold addr_of. rewrite Eip. setoid_rewrite Ec. exact H5.
    + intros Hclr c. rewrite Ec, Hh, Eip. by apply H6.
  - unfold sessions_of. apply map_fmap_ext. intros k [c ph] _. unfold addr_of. simpl.
    by rewrite Ec, Eip.
Qed.
(** The addresses of the open connections are the leases of the pool. *)
Lemma sessions_lookup r cs k a :
  reg_inv r cs →
  sessions_of r cs !! k = Some (Some a) ↔
  ∃ c, cs !! k = Some (c, Connected) ∧ IpPool.leases (ClientList.ip_pool r) !! a = Some c.
Proof.
  intros H. unfold sessions_of. rewrite lookup_fmap, fmap_Some. split.
  - intros ([c ph] & E & Ha). simpl in Ha. exists c.
    pose proof (ok_addr _ _ _ _ (ri_conn _ _ H _ _ _ E)) as Hok. unfold addr_of in Ha.
    destruct ph; [by rewrite Hok in Ha| |by rewrite Hok in Ha].
    destruct Hok as (i & Ei & _ & _ & Hl). rewrite Ei in Ha. simpl in Ha. apply (inj Some) in Ha. by subst a.
  - intros (c & E & Hl). destruct (ri_lease _ _ H a c Hl) as (k' & E' & Ha).
    exists (c, Connected). split; [done|]. simpl. by rewrite Ha.
Qed.

Lemma sessions_leased r cs a :
  reg_inv r cs →
  (∃ k, sessions_of r cs !! k = Some (Some a)) ↔ is_Some (IpPool.leases (ClientList.ip_pool r) !! a).
Proof.
  intros H. split.
  - intros (k & E). apply sessions_lookup in E as (c & _ & Hl); eauto.
  - intros [c Hl]. destruct (ri_lease _ _ H a c Hl) as (k & E & _). exists k.
    apply sessions_lookup; eauto.
Qed.

(** What [initialize_client_state] writes. *)
Lemma initialize_run r c :
  IpPool.pool_wf (ClientList.ip_pool r) → ClientList.session (get_client r c) = true →
  ∃ rc r' u e, ClientList.initialize_client_state garbage (Some c) r = Some (rc, r') ∧
    only_client r c r' ∧ IpPool.pool_wf (ClientList.ip_pool r') ∧
    ClientList.client_list r' = ClientList.client_list r ∧
    ClientList.client_pool r' = ClientList.client_pool r ∧
    get_client r' c = ClientList.Client (ClientList.ConnectionHandle (get_client r c)) true u
                        (ClientList.slot_idx (get_client r c)) e ∧
    let a i := ntohl (IpPool.net_addr (ClientList.ip_pool r)) + Z.of_nat i in
    ((∃ i, rc = 0 ∧ e = Some i ∧ IpPool.assignable (ClientList.ip_pool r) (a i) ∧
        IpPool.leases (ClientList.ip_pool r) !! a i = None ∧
        IpPool.leases (ClientList.ip_pool r') = <[a i := c]> (IpPool.leases (ClientList.ip_pool r))) ∨
     (rc = -1 ∧ e = None ∧ u = ClientList.uid (get_client r c) ∧
      ClientList.ip_pool r' = ClientList.ip_pool r ∧
      ∀ b, IpPool.assignable (ClientList.ip_pool r) b →
        is_Some (IpPool.leases (ClientList.ip_pool r) !! b))).
Proof.
  intros Hwf Hs. unfold ClientList.initialize_client_state. cbn [mbind option_bind].
  rewrite Hs. cbn [negb].
  destruct (IpPool.acquire_total (ClientList.ip_pool r) c Hwf)
    as [(i & q & E & Hq & Ha & Hl & El & _)|[E Hfull]]; rewrite E; cbn [mbind option_bind default].
  - assert (Hnet : IpPool.same_net (ClientList.ip_pool r) q).
    { apply (IpPool.pool_step_same_net (IpPool.OpAcquire c) _ (IpPool.RetEntry (Some i))).
      unfold IpPool.pool_step. rewrite E. reflexivity. }
    eexists 0, _, _, _. split; [reflexivity|]. split.
    { split; [exact Hnet|]. intros c' Hne.
      by rewrite ClientList.get_set_cnt, !ClientList.get_upd_ne by congruence. }
    split; [exact Hq|]. split; [done|]. split; [done|]. split.
    { rewrite ClientList.get_set_cnt, !ClientList.get_upd_eq.
      unfold ClientList.set_uid, ClientList.set_ip_entry. simpl. f_equal. exact Hs. }
    left. exists i. split; [done|]. split; [done|]. split; [done|]. by split.
  - eexists (-1), _, _, _. split; [reflexivity|]. split.
    { split; [apply same_net_refl|]. intros c' Hne. by rewrite !ClientList.get_upd_ne by congruence. }
    split; [exact Hwf|]. split; [done|]. split; [done|]. split.
    { rewrite !ClientList.get_upd_eq. unfold ClientList.set_ip_entry. simpl. f_equal. exact Hs. }
    right. by split_and!.
Qed.

(** Connecting the client of a pending connection. *)
Lemma reg_inv_connect r cs conn c :
  reg_inv r cs → cs !! conn = Some (c, Pending) →
  ∃ rc r', ClientList.initialize_client_state garbage (Some c) r = Some (rc, r') ∧
    only_client r c r' ∧
    ((rc = 0 ∧ reg_inv r' (<[conn := (c, Connected)]> cs) ∧
      ∃ a, IpPool.assignable (ClientList.ip_pool r) a ∧
        IpPool.leases (ClientList.ip_pool r) !! a = None ∧ addr_of r' c = Some a) ∨
     (rc = -1 ∧ reg_inv r' (<[conn := (c, Refused)]> cs) ∧ addr_of r' c = None ∧
      ∀ a, IpPool.assignable (ClientList.ip_pool r) a →
        is_Some (IpPool.leases (ClientList.ip_pool r) !! a))).
Proof.
  intros H Hc. destruct (ri_conn _ _ H _ _ _ Hc) as [Hheld Hsess Hhandle Hslot Hentry].
  destruct (ri_list _ _ H) as [Hlen Hok].
  assert (Hinj : ∀ k c' ph', cs !! k = Some (c', ph') → k = conn ↔ c' = c).
  { intros k c' ph' E. split; [intros ->; congruence|intros ->].
    by apply (reg_inv_inj r cs k conn c ph' Pending). }
  assert (Hnone : ∀ a, IpPool.leases (ClientList.ip_pool r) !! a ≠ Some c).
  { intros a Ha. destruct (ri_lease _ _ H a c Ha) as (k & E & _).
    rewrite (proj2 (Hinj _ _ _ E) eq_refl) in E. congruence. }
  destruct (initialize_run r c (ri_pool _ _ H) Hsess)
    as (rc & r' & u & e & E & Ho & Hwf & El & Ep & Ec & Hcase).
  pose proof Ho as [(En & _ & Em & Elen) _].
  exists rc, r'. split; [exact E|]. split; [exact Ho|].
  assert (Hlist : ClientList.list_wf r').
  { split; [|by rewrite Ep]. unfold ClientList.max_clients in *. by rewrite El, Em. }
  assert (Hheld' : op_held (ClientList.client_pool r') = {[c]} ∪ op_held (ClientList.client_pool r))
    by (rewrite Ep; set_solver).
  destruct Hcase as [(i & -> & -> & Ha & Hl & Eleases)|(-> & -> & -> & Epool & Hfull)]; [left|right].
  - assert (Haddr : addr_of r' c = Some (ntohl (IpPool.net_addr (ClientList.ip_pool r)) + Z.of_nat i)).
    { unfold addr_of. by rewrite Ec, En. }
    split; [done|]. split; [|eauto].
    assert (Hi : (i < length (IpPool.ip_entry (ClientList.ip_pool r')))%nat ∧
                 ¬ IpPool.reserved (ClientList.ip_pool r) i).
    { destruct Ha as (j & Ej & Hj & Hr). assert (j = i) as -> by lia. rewrite Elen.
      pose proof (IpPool.wf_len _ (ri_pool _ _ H)). split; [lia|done]. }
    eapply reg_inv_insert; eauto.
    + intros a c' Hne. rewrite Eleases, lookup_insert_Some. naive_solver.
    + split; rewrite ?Ec, ?Ep; try done; unfold ClientList.max_clients in *; [by rewrite Em|].
      exists i. rewrite Ec, En. destruct Hi as [? Hr]. split; [done|]. split; [done|].
      split; [by rewrite (IpPool.same_net_reserved (ClientList.ip_pool r)) by apply Ho|].
      rewrite Eleases. apply lookup_insert_eq.
    + intros a. rewrite Eleases, lookup_insert_Some. intros [[<- _]|[_ Ha']]; [done|].
      by destruct (Hnone a).
    + rewrite Ec. intros _ _. exists i. by split; [|apply Hi].
  - split; [done|]. assert (Haddr : addr_of r' c = None) by (unfold addr_of; by rewrite Ec).
    split; [|by split]. eapply reg_inv_insert; eauto.
    + by rewrite Epool.
    + split; rewrite ?Ec, ?Ep; try done. unfold ClientList.max_clients in *. by rewrite Em.
    + intros a. rewrite Epool. intros Ha. by destruct (Hnone a).
    + rewrite Ec. intros Hclr Hu. destruct (ri_uid _ _ H Hclr c Hu) as (_ & i & Hi & _). congruence.
Qed.
(** [list_remove_client] of a checked-out client: it clears slot 0. *)
Lemma remove_any r c :
  ClientList.list_wf r → c ∈ op_held (ClientList.client_pool r) →
  0 ≤ ClientList.slot_idx (get_client r c) < ClientList.max_clients r →
  ∃ r', ClientList.list_remove_client garbage false (Some c) r = Some (0, r') ∧
    ClientList.list_wf r' ∧ only_client r c r' ∧ ClientList.ip_pool r' = ClientList.ip_pool r ∧
    ClientList.client_list r' = <[0%nat := None]> (ClientList.client_list r) ∧
    op_held (ClientList.client_pool r') = op_held (ClientList.client_pool r) ∖ {[c]} ∧
    ClientList.uid (get_client r' c) = 0.
Proof.
  intros [Hlen Hok] Hheld Hs.
  destruct (op_put_law (ClientList.client_pool r) c Hok Hheld) as (q & E & Hok' & Hh).
  destruct (lookup_lt_is_Some_2 (ClientList.client_list r) 0) as [slot Hslot]; [lia|].
  unfold ClientList.list_remove_client.
  destruct (Z.ltb_spec (ClientList.slot_idx (get_client r c)) 0); [lia|].
  destruct (Z.ltb_spec (ClientList.max_clients r) (ClientList.slot_idx (get_client r c))); [lia|].
  cbn [orb]. rewrite !ClientList.get_upd_eq.
  cbn [ClientList.slot_idx ClientList.set_ip_entry ClientList.set_uid ClientList.set_slot_idx].
  change (Z.to_nat 0) with 0%nat.
  set (r3 := ClientList.upd_client garbage c (ClientList.set_ip_entry None) _).
  change (ClientList.client_list r3) with (ClientList.client_list r). rewrite Hslot.
  cbn [mbind option_bind].
  change (ClientList.client_pool (ClientList.set_client_list _ r3)) with (ClientList.client_pool r).
  rewrite E. cbn [mbind option_bind]. eexists. split; [reflexivity|]. split.
  { split; [|done]. unfold ClientList.max_clients in *. simpl. by rewrite length_insert. }
  split.
  { split; [apply same_net_refl|]. intros c' Hne.
    rewrite ClientList.get_set_pool, ClientList.get_set_list. unfold r3.
    by rewrite !ClientList.get_upd_ne by congruence. }
  do 3 (split; [done|]). rewrite ClientList.get_set_pool, ClientList.get_set_list. unfold r3.
  by rewrite !ClientList.get_upd_eq.
Qed.

(** [ip_release] of the client of an open connection, connected or not. *)
Lemma release_client r cs conn c ph :
  reg_inv r cs → cs !! conn = Some (c, ph) →
  ∃ rc q, IpPool.ip_release (Some (ClientList.ip_pool r)) (ClientList.ip_entry (get_client r c)) =
      Some (rc, Some q) ∧
    IpPool.pool_wf q ∧ IpPool.same_net (ClientList.ip_pool r) q ∧
    (∀ a c', c' ≠ c → IpPool.leases q !! a = Some c' ↔
                      IpPool.leases (ClientList.ip_pool r) !! a = Some c') ∧
    (∀ a, IpPool.leases q !! a ≠ Some c).
Proof.
  intros H Hc. pose proof (ok_addr _ _ _ _ (ri_conn _ _ H _ _ _ Hc)) as Hok.
  assert (Hlease : ∀ a, IpPool.leases (ClientList.ip_pool r) !! a = Some c →
    ph = Connected ∧ addr_of r c = Some a).
  { intros a Ha. destruct (ri_lease _ _ H a c Ha) as (k & E & Hk).
    rewrite (reg_inv_inj r cs k conn c _ _ H E Hc) in E. split; [congruence|done]. }
  destruct (ClientList.ip_entry (get_client r c)) as [i|] eqn:Ei.
  - destruct ph; [done| |done]. destruct Hok as (j & Ej & Hj & Hres & Hlj).
    rewrite Ei in Ej. apply (inj Some) in Ej. subst j.
    destruct (IpPool.ip_release_spec _ i (ri_pool _ _ H) Hj Hres) as (q & E & Hq & Hl).
    exists 0, q. split; [exact E|]. split; [exact Hq|]. split.
    { apply (IpPool.pool_step_same_net (IpPool.OpRelease i) _ (IpPool.RetCode 0)).
      unfold IpPool.pool_step. rewrite E. reflexivity. }
    unfold addr_of in Hlease. rewrite Ei in Hlease. simpl in Hlease. rewrite Hl. split.
    + intros a c' Hne. rewrite lookup_delete_Some. split; [tauto|]. intros Ha. split; [|done].
      intros <-. congruence.
    + intros a [Hne Ha]%lookup_delete_Some. destruct (Hlease a Ha) as [_ ?]. congruence.
  - exists (- EINVAL), (ClientList.ip_pool r). split; [done|]. split; [apply (ri_pool _ _ H)|].
    split; [apply same_net_refl|]. split; [done|]. intros a Ha.
    destruct (Hlease a Ha) as [_ Ea]. unfold addr_of in Ea. by rewrite Ei in Ea.
Qed.

(** The three writes of SHUTDOWN_COMPLETE. *)
Lemma reg_inv_end r cs conn c ph :
  reg_inv r cs → cs !! conn = Some (c, ph) →
  ∃ rc q r', IpPool.ip_release (Some (ClientList.ip_pool r)) (ClientList.ip_entry (get_client r c)) =
      Some (rc, Some q) ∧
    ClientList.list_remove_client garbage false (Some c) (ClientList.set_ip_pool q r) = Some (0, r') ∧
    let r2 := ClientList.upd_client garbage c (ClientList.set_handle None) r' in
    only_client r c r2 ∧ reg_inv r2 (delete conn cs) ∧
    ClientList.ConnectionHandle (get_client r2 c) = None.
Proof.
  intros H Hc. destruct (ri_conn _ _ H _ _ _ Hc) as [Hheld Hsess Hhandle Hslot _].
  destruct (release_client r cs conn c ph H Hc) as (rc & q & E & Hq & Hnet & Hother & Hnone).
  pose proof Hnet as (_ & _ & Em & _). destruct (ri_list _ _ H) as [Hlen Hok].
  destruct (remove_any (ClientList.set_ip_pool q r) c) as (r' & Er & Hlist & Ho & Ep & El & Hh & Hu);
    [split; [|done]; unfold ClientList.max_clients in *; simpl; by rewrite Em|done| |].
  { unfold ClientList.max_clients in *. simpl. rewrite Em. exact Hslot. }
  exists rc, q, r'. split; [exact E|]. split; [exact Er|]. intros r2.
  assert (Ho2 : only_client r c r2).
  { split; [unfold r2; simpl; by rewrite Ep|]. intros c' Hne. unfold r2.
    rewrite ClientList.get_upd_ne by congruence. by rewrite (proj2 Ho). }
  split; [exact Ho2|]. split; [|unfold r2; by rewrite ClientList.get_upd_eq].
  eapply reg_inv_delete; try done.
  - unfold r2; simpl. by rewrite Ep.
  - intros a c' Hne. unfold r2. simpl. rewrite Ep. by apply Hother.
  - intros a. unfold r2. simpl. rewrite Ep. apply Hnone.
  - unfold r2. rewrite ClientList.get_upd_eq. simpl. by rewrite Hu.
Qed.

(** The configuration failed: the client just added is given back. *)
Lemma reg_inv_unadd r cs conn c :
  reg_inv r (<[conn := (c, Pending)]> cs) → cs !! conn = None →
  ∃ r', ClientList.list_remove_client garbage false (Some c) r = Some (0, r') ∧
    ClientList.ip_pool r' = ClientList.ip_pool r ∧ reg_inv r' cs ∧
    sessions_of r' cs = delete conn (sessions_of r (<[conn := (c, Pending)]> cs)).
Proof.
  intros H Hconn. assert (Hc : <[conn := (c, Pending)]> cs !! conn = Some (c, Pending))
    by apply lookup_insert_eq.
  destruct (ri_conn _ _ H _ _ _ Hc) as [Hheld _ _ Hslot Hentry].
  destruct (remove_any r c (ri_list _ _ H) Hheld Hslot) as (r' & Er & Hlist & Ho & Ep & El & Hh & Hu).
  exists r'. split; [exact Er|]. split; [exact Ep|].
  assert (Hd : delete conn (<[conn := (c, Pending)]> cs) = cs) by (by apply delete_insert_id).
  rewrite <- Hd at 1 2. split; [|by apply (sessions_delete r r' _ conn c Pending)].
  eapply reg_inv_delete; try done.
  - rewrite Ep. apply (ri_pool _ _ H).
  - by rewrite Ep.
  - intros a. rewrite Ep. intros Ha. destruct (ri_lease _ _ H a c Ha) as (k & E & _).
    pose proof (reg_inv_inj _ _ _ _ _ _ _ H E Hc) as ->. congruence.
  - by rewrite Hu.
Qed.
(** ** The server before its first connection *)

Definition world_of r (t : option Tun.tun_iface_t) (quic : bool) : world P :=
  World (MkServer r t quic ∅ []) ∅ ∅.

(** With the registry as init_client_manager leaves it. *)
Definition world_start (pool : IpPool.ip_pool_t) (q : P) (t : option Tun.tun_iface_t) : world P :=
  world_of (ClientList.Session pool q 1 (replicate (Z.to_nat (IpPool.max_clients pool)) None) ∅) t true.

Lemma world_of_inv r t :
  ClientList.list_wf r → IpPool.pool_wf (ClientList.ip_pool r) →
  IpPool.leases (ClientList.ip_pool r) = ∅ → op_held (ClientList.client_pool r) = ∅ →
  ClientList.clients r = ∅ → world_inv (world_of r t true).
Proof.
  intros Hlist Hwf Hl Hh Hc. split; [done| |done|done].
  split; simpl; rewrite ?Hh, ?Hl; [exact Hlist|exact Hwf|done|set_solver|done|].
  intros Hclr c Hu. destruct Hu. unfold ClientList.get_client. rewrite Hc. apply (Hclr c).
Qed.

Lemma world_start_inv pool q t :
  IpPool.pool_wf pool → IpPool.leases pool = ∅ → op_ok q → op_held q = ∅ →
  world_inv (world_start pool q t).
Proof.
  intros Hwf Hl Hok Hh. pose proof (IpPool.wf_len _ Hwf) as Hlen. apply world_of_inv; try done.
  split; [|done]. unfold ClientList.max_clients; simpl. rewrite length_replicate. lia.
Qed.
End sessions.
