(* ===== verification/ServerSessions.v ===== *)
(** * quic.c of the server: its callbacks along the life of the connections

    The invariant of Sessions.v holds across every event, and the server
    refines its abstract machine. *)
From stdpp Require Import prelude gmap sets.
From Stdlib Require Import ZArith Lia.
From S2P Require Import Prelude Utils PktCtrl ObjPool Frames ServerQuic Sessions.
From S2P Require IpPool Tun ClientList Pool.

Section callbacks.
Context {P : Type} `{!ObjPool P}.
Context (garbage : nat → ClientList.client_t) (env : api_call → nat → Z).
Implicit Types w : world P.
Implicit Types s : server P.
Implicit Types r : ClientList.session_t P.
Implicit Types cs : gmap nat (nat * phase).
Abbreviation get_client := (ClientList.get_client garbage).
Abbreviation world_step := (Sessions.world_step garbage env).
Abbreviation world_run := (Sessions.world_run garbage env).
Abbreviation allowed := (Sessions.allowed garbage env).
Abbreviation allowed_run := (Sessions.allowed_run garbage env).
Abbreviation cleared := (Sessions.cleared garbage).
Abbreviation reg_inv := (Sessions.reg_inv garbage).
Abbreviation world_inv := (Sessions.world_inv garbage).
Abbreviation sessions_of := (Sessions.sessions_of garbage).
Abbreviation sessions := (Sessions.sessions garbage).
Abbreviation addr_of := (Sessions.addr_of garbage).

(** ** The callbacks *)

Lemma new_calls_app s s' l : calls s' = calls s ++ l → new_calls s s' = l.
Proof. intros E. unfold new_calls. by rewrite E, drop_app_length. Qed.

(** A step of the world is right: it happens, keeps the invariant and the
    addresses of the network, and is a step of the abstract server. *)
Definition good_step (e : event) w : Prop :=
  ∃ w', world_step e w = Some w' ∧ world_inv w' ∧
    IpPool.same_net (ClientList.ip_pool (reg (srv w))) (ClientList.ip_pool (reg (srv w'))) ∧
    sess_step (IpPool.assignable (ClientList.ip_pool (reg (srv w)))) (sessions w) e (sessions w').

(** Streams are not concerned by what happens to the registry. *)
Lemma world_inv_reg w s cs :
  world_inv w → MsQuic s = true → reg_inv (reg s) cs → streams s = streams (srv w) →
  (∀ h p conn c ph, strms w !! h = Some (p, conn) → conns w !! conn = Some (c, ph) →
     ∃ ph', cs !! conn = Some (c, ph')) →
  world_inv (World s cs (strms w)).
Proof.
  intros [_ _ H3 H4] Hq Hr Hs Hcs. split; [done|done|..]; simpl; rewrite Hs; [|exact H4].
  intros h p conn E. destruct (H3 h p conn E) as (c & ph & Ec & Est).
  destruct (Hcs h p conn c ph E Ec) as (ph' & E'). eauto.
Qed.

(** A callback that only makes calls. *)
Lemma world_inv_calls w s :
  world_inv w → MsQuic s = MsQuic (srv w) → reg s = reg (srv w) → streams s = streams (srv w) →
  world_inv (World s (conns w) (strms w)).
Proof.
  intros H Hq Hr Hs. apply world_inv_reg; eauto.
  - rewrite Hq. apply (wi_quic garbage _ H).
  - rewrite Hr. apply (wi_reg garbage _ H).
Qed.

Lemma good_quiet e w s :
  world_inv w → quiet e → world_step e w = Some (World s (conns w) (strms w)) →
  MsQuic s = MsQuic (srv w) → reg s = reg (srv w) → streams s = streams (srv w) → good_step e w.
Proof.
  intros H Hq E H1 H2 H3. eexists. split; [exact E|]. split; [by apply world_inv_calls|].
  unfold sessions. simpl. rewrite H2. split; [apply same_net_refl|by constructor].
Qed.

Lemma sessions_none cs r conn : cs !! conn = None → sessions_of r cs !! conn = None.
Proof. intros E. unfold sessions_of. by rewrite lookup_fmap, E. Qed.

(** NEW_CONNECTION: refused without a trace, or accepted with a client as the
    context of the connection. *)
Lemma new_connection_run w alloc conn :
  world_inv w → conns w !! conn = None → op_fresh alloc (ClientList.client_pool (reg (srv w))) →
  ∃ rc s, ServerListenerCallback garbage env alloc (NEW_CONNECTION conn) (srv w) = Ret rc s ∧
    MsQuic s = true ∧ streams s = streams (srv w) ∧
    ClientList.ip_pool (reg s) = ClientList.ip_pool (reg (srv w)) ∧
    ((QUIC_FAILED rc = true ∧ reg_inv (reg s) (conns w) ∧ sessions_of (reg s) (conns w) = sessions w) ∨
     (QUIC_FAILED rc = false ∧ ∃ c, conn_context conn (new_calls (srv w) s) = Some c ∧
        let cs := <[conn := (c, Pending)]> (conns w) in
        reg_inv (reg s) cs ∧ sessions_of (reg s) cs = <[conn := None]> (sessions w))).
Proof.
  intros H Hconn Hf. pose proof (wi_reg garbage _ H) as Hr. pose proof (wi_quic garbage _ H) as Hq.
  destruct (ClientList.list_add_client_added garbage alloc (Some conn) (reg (srv w)) (ri_list garbage _ _ Hr) Hf)
    as (x & r1 & E & Hadd).
  unfold ServerListenerCallback. rewrite bind_gets. unfold id.
  rewrite (bind_run _ _ _ () (srv w)) by (by rewrite Hq). cbv beta iota.
  rewrite (bind_run _ _ _ _ _ (on_reg_run _ (srv w) x r1 E)). destruct x as [c|].
  2:{ eexists _, _. split; [reflexivity|]. split; [done|]. split; [done|].
      inversion Hadd as [|s' El Ec Eip Ecnt Hok Hh]; subst. split; [exact Eip|]. left.
      split; [done|]. apply reg_inv_ext; try done. intros c. unfold ClientList.get_client. simpl. by rewrite Ec. }
  destruct (reg_inv_add garbage _ _ conn c r1 Hr Hconn Hadd) as [Hr1 Hs1].
  assert (Hnet1 : ClientList.ip_pool r1 = ClientList.ip_pool (reg (srv w))) by (by inversion Hadd).
  rewrite !server_call_bind. cbn [calls reg tun MsQuic streams].
  set (st := env (ConnectionSetConfiguration conn) _). destruct (QUIC_FAILED st) eqn:Est.
  - destruct (reg_inv_unadd garbage r1 (conns w) conn c Hr1 Hconn) as (r2 & E2 & Enet & Hr2 & Hs2).
    set (s1 := MkServer r1 _ _ _ _).
    rewrite (bind_run _ _ s1 _ _ (on_reg_run (ClientList.list_remove_client garbage false (Some c))
      s1 0 r2 E2)), server_call_bind.
    eexists _, _. split; [reflexivity|]. split; [done|]. split; [done|]. cbn [reg].
    split; [congruence|]. left. split; [exact Est|]. split; [exact Hr2|].
    rewrite Hs2, Hs1. by apply delete_insert_id, sessions_none.
  - eexists _, _. split; [reflexivity|]. split; [done|]. split; [done|]. split; [exact Hnet1|].
    right. split; [done|]. exists c. split; [|by split].
    rewrite (new_calls_app _ _ [SetConnectionCallback conn c; ConnectionSetConfiguration conn])
      by (cbn [calls]; by rewrite <- (assoc_L (++))).
    cbn [conn_context]. by rewrite decide_True.
Qed.

Lemma new_connection_good w alloc conn :
  world_inv w → allowed (EvListener alloc (NEW_CONNECTION conn)) w →
  good_step (EvListener alloc (NEW_CONNECTION conn)) w.
Proof.
  intros H [Hconn Hf].
  destruct (new_connection_run w alloc conn H Hconn Hf) as (rc & s & E & Hq & Hst & Hnet & Hcase).
  unfold good_step, world_step. rewrite E. cbn [returned mbind option_bind].
  destruct Hcase as [(Hrc & Hr & Hs)|(Hrc & c & Hc & Hr & Hs)]; rewrite Hrc.
  - eexists. split; [reflexivity|]. split; [apply world_inv_reg; eauto|]. simpl. rewrite Hnet.
    split; [apply same_net_refl|]. unfold sessions at 2. simpl. rewrite Hs. constructor.
  - rewrite Hc. cbn [mbind option_bind]. eexists. split; [reflexivity|]. split.
    + apply world_inv_reg; try done. intros h p k c' ph _ Hk. exists ph.
      rewrite lookup_insert_ne; [done|congruence].
    + simpl. rewrite Hnet. split; [apply same_net_refl|]. unfold sessions at 2. simpl. rewrite Hs.
      constructor. by apply sessions_none.
Qed.

(** The assertions of the connection callback hold for an open connection. *)
Ltac enter_connection w H Hc :=
  unfold ServerConnectionCallback; rewrite bind_gets; unfold id;
  rewrite (bind_run _ _ (srv w) () (srv w))
    by (by rewrite (ok_session garbage _ _ _ _ (ri_conn garbage _ _ (wi_reg garbage _ H) _ _ _ Hc)));
  rewrite (bind_run _ _ (srv w) () (srv w)) by (by rewrite (wi_quic garbage _ H)).

Lemma connected_good w conn :
  world_inv w → allowed (EvConn conn CONNECTED) w → good_step (EvConn conn CONNECTED) w.
Proof.
  intros H (c & ph & Hc & ->). pose proof (wi_reg garbage _ H) as Hr.
  destruct (reg_inv_connect garbage _ _ conn c Hr Hc) as (rc & r' & E & Ho & Hcase).
  assert (Hinj : ∀ k c' ph', conns w !! k = Some (c', ph') → k = conn ↔ c' = c).
  { intros k c' ph' Ek. split; [intros ->; congruence|intros ->].
    by apply (reg_inv_inj garbage _ _ k conn c ph' Pending Hr). }
  assert (Hst : ∀ ph h p k c' ph1, strms w !! h = Some (p, k) → conns w !! k = Some (c', ph1) →
    ∃ ph2, <[conn := (c, ph)]> (conns w) !! k = Some (c', ph2)).
  { intros ph h p k c' ph1 _ Hk. destruct (decide (k = conn)) as [->|].
    - rewrite lookup_insert_eq. assert (c' = c) as -> by congruence. eauto.
    - rewrite lookup_insert_ne by done. eauto. }
  assert (Hpend : sessions w !! conn = Some None).
  { unfold sessions, sessions_of. rewrite lookup_fmap, Hc. simpl. unfold addr_of.
    by rewrite (ok_addr garbage _ _ _ _ (ri_conn garbage _ _ Hr _ _ _ Hc)). }
  unfold good_step, world_step. rewrite Hc. cbn [mbind option_bind].
  enter_connection w H Hc. rewrite (bind_run _ _ _ _ _ (on_reg_run _ _ _ _ E)).
  destruct Hcase as [(-> & Hr' & a & Ha & Hl & Haddr)|(-> & Hr' & Haddr & Hfull)].
  - eexists. split; [reflexivity|]. split; [apply world_inv_reg; eauto; apply (wi_quic garbage _ H)|].
    split; [apply Ho|]. unfold sessions at 2. simpl.
    change (QUIC_FAILED 0) with false. cbv iota.
    rewrite (sessions_insert garbage (reg (srv w)) r' _ conn c Connected Hr Ho Hinj), Haddr.
    constructor; [done|done|]. intros k Hk.
    assert (Hx : is_Some (IpPool.leases (ClientList.ip_pool (reg (srv w))) !! a))
      by (apply (sessions_leased garbage _ _ _ Hr); eauto). rewrite Hl in Hx. by destruct Hx.
  - eexists. split; [reflexivity|]. split; [apply world_inv_reg; eauto; apply (wi_quic garbage _ H)|].
    split; [apply Ho|]. unfold sessions at 2. simpl.
    change (QUIC_FAILED QUIC_STATUS_CONNECTION_REFUSED) with true. cbv iota.
    rewrite (sessions_insert garbage (reg (srv w)) r' _ conn c Refused Hr Ho Hinj), Haddr.
    assert (Hid : <[conn := None]> (sessions_of (reg (srv w)) (conns w)) = sessions w)
      by (by apply insert_id). rewrite Hid. apply SessFull; [done|].
    intros a Ha. apply (sessions_leased garbage _ _ _ Hr). by apply Hfull.
Qed.
Lemma shutdown_complete_good w conn :
  world_inv w → allowed (EvConn conn SHUTDOWN_COMPLETE) w → good_step (EvConn conn SHUTDOWN_COMPLETE) w.
Proof.
  intros H (c & ph & Hc & Hno). pose proof (wi_reg garbage _ H) as Hr.
  destruct (reg_inv_end garbage _ _ conn c ph Hr Hc) as (rc & q & r' & Er & Erm & Ho & Hr' & Hh).
  unfold good_step, world_step. rewrite Hc. cbn [mbind option_bind]. enter_connection w H Hc.
  erewrite bind_run; [|unfold on_reg; rewrite Er; reflexivity].
  erewrite bind_run; [|unfold on_reg; cbn [reg]; cbn [from_option]; rewrite Erm; reflexivity].
  erewrite bind_run; [|reflexivity]. rewrite bind_gets. unfold id. cbn [reg].
  eexists. split; [reflexivity|]. split.
  - apply world_inv_reg; try done; [apply (wi_quic garbage _ H)|]. intros h p k c' ph' Ek Ec. exists ph'.
    rewrite lookup_delete_ne; [done|]. intros <-. by destruct (Hno h p).
  - split; [apply Ho|]. unfold sessions at 2. simpl.
    rewrite (sessions_delete garbage _ _ _ _ _ _ Hr Hc Ho). constructor.
    unfold sessions, sessions_of. rewrite lookup_fmap, Hc. eauto.
Qed.

Lemma peer_stream_good w conn h :
  world_inv w → allowed (EvConn conn (PEER_STREAM_STARTED h)) w →
  good_step (EvConn conn (PEER_STREAM_STARTED h)) w.
Proof.
  intros H (c & ph & Hc & Hh & Hmem). cbv zeta in Hmem.
  unfold good_step, world_step. rewrite Hc. cbn [mbind option_bind]. enter_connection w H Hc.
  rewrite server_call_bind. set (p := env (Malloc 32) _) in *.
  destruct (Z.eqb_spec p 0) as [|Hp].
  { rewrite server_call_bind. eexists. split; [reflexivity|].
    split; [by apply world_inv_calls|]. split; [apply same_net_refl|by apply SessQuiet]. }
  destruct (Hmem Hp) as [Hpos Hfree].
  erewrite bind_run; [|reflexivity]. rewrite server_call_bind. cbn [returned mret M_ret mbind option_bind].
  change (QUIC_FAILED QUIC_STATUS_SUCCESS) with false. cbv iota.
  rewrite (new_calls_app _ _ [Malloc 32; SetStreamCallback (Some h) (Z.to_nat p)])
    by (cbn [calls]; by rewrite <- (assoc_L (++))).
  cbn [stream_context]. rewrite decide_True by done. cbn [mbind option_bind].
  eexists. split; [reflexivity|]. split.
  - destruct H as [H1 H2 H3 H4]. split; [done|done|..]; simpl.
    + intros h' p' k Ek. destruct (decide (h' = h)) as [->|Hne].
      * rewrite lookup_insert_eq in Ek. injection Ek as <- <-. exists c, ph. split; [done|].
        apply lookup_insert_eq.
      * rewrite lookup_insert_ne in Ek by done. destruct (H3 h' p' k Ek) as (c' & ph' & Ec & Es).
        exists c', ph'. split; [done|]. rewrite lookup_insert_ne; [done|congruence].
    + intros p' st Est. destruct (decide (p' = Z.to_nat p)) as [->|Hne].
      * exists h, conn. apply lookup_insert_eq.
      * rewrite lookup_insert_ne in Est by done. destruct (H4 p' st Est) as (h' & k & Ek).
        exists h', k. rewrite lookup_insert_ne; [done|congruence].
  - split; [apply same_net_refl|by apply SessQuiet].
Qed.

Lemma connection_good w conn ev :
  world_inv w → allowed (EvConn conn ev) w → good_step (EvConn conn ev) w.
Proof.
  intros H Ha. destruct ev; [by apply connected_good| | |by apply shutdown_complete_good|
    by apply peer_stream_good| |];
  destruct Ha as (c & ph & Hc & _); apply (good_quiet _ w (srv w) H); try done;
  unfold world_step; rewrite Hc; cbn [mbind option_bind]; by enter_connection w H Hc.
Qed.
(** *** The control stream *)

(** Only calls were added. *)
Definition only_calls s s' : Prop :=
  reg s' = reg s ∧ MsQuic s' = MsQuic s ∧ streams s' = streams s.

Lemma stream_send_calls stream bytes len s st :
  (∀ sz n, env (Malloc sz) n ≠ 0) → streams s !! stream = Some st → MsQuic s = true →
  runs (stream_send env stream (Some bytes) len) s (λ _ s', only_calls s s').
Proof.
  intros Hm Hst Hq. unfold stream_send. apply runs_bind. unfold runs at 1. cbn [gets].
  unfold id. apply runs_bind. rewrite Hst. unfold runs at 1. cbn [check mret M_ret].
  rewrite Hq. apply runs_bind. unfold runs at 1. cbn [assert mret M_ret].
  apply runs_bind. unfold runs at 1, call at 1.
  destruct (Z.eqb_spec (env (Malloc len) (length (calls s))) 0) as [E|_]; [by destruct (Hm _ _ E)|].
  apply runs_bind. unfold runs at 1. cbn [check mret M_ret].
  apply runs_bind. unfold runs at 1, call at 1.
  match goal with |- context [env (Malloc 16) ?n] =>
    destruct (Z.eqb_spec (env (Malloc 16) n) 0) as [E|_]; [by destruct (Hm _ _ E)|] end.
  apply runs_bind. unfold runs at 1. cbn [negb assert mret M_ret].
  apply runs_bind. unfold runs at 1, call at 1. by destruct (QUIC_FAILED _).
Qed.

(** A client found by a uid that is not 0 has an address. *)
Lemma find_client_addressed r cs u :
  reg_inv r cs → cleared →
  ∃ x, ClientList.list_find_client_by_uid garbage false u r = Some x ∧
    ∀ c, x = Some c → ∃ i e, ClientList.ip_entry (get_client r c) = Some i ∧
      IpPool.ip_entry (ClientList.ip_pool r) !! i = Some e.
Proof.
  intros H Hclr. unfold ClientList.list_find_client_by_uid.
  destruct (Z.eqb_spec u 0) as [|Hu]; [by exists None|].
  destruct (ri_list garbage _ _ H) as [Hlen _].
  destruct (ClientList.find_loop_spec garbage (Z.to_nat (ClientList.max_clients r)) 0 u r)
    as (x & E & Hx); [lia|]. exists x. split; [exact E|]. intros c ->.
  destruct Hx as (k & _ & _ & Huid & _).
  destruct (ri_uid garbage _ _ H Hclr c) as (_ & i & Ei & Hi); [by rewrite Huid|].
  destruct (lookup_lt_is_Some_2 _ _ Hi) as [e He]. eauto.
Qed.

Lemma process_ctrl_calls stream pkt s st c cs :
  (∀ sz n, env (Malloc sz) n ≠ 0) → cleared → reg_inv (reg s) cs → MsQuic s = true →
  streams s !! stream = Some st → s_client st = Some c →
  runs (process_ctrl_pkt garbage env stream pkt) s (λ _ s', only_calls s s').
Proof.
  intros Hm Hclr Hr Hq Hst Hc. unfold process_ctrl_pkt.
  destruct (negb (frame_ok _)); [done|]. destruct (type _ =? _); [|done].
  apply runs_bind. unfold runs at 1. cbn [gets]. unfold id.
  apply runs_bind. rewrite Hst. unfold runs at 1. cbn [check mret M_ret].
  apply runs_bind. rewrite Hc. unfold runs at 1. cbn [check mret M_ret].
  set (u := u64 _). destruct (find_client_addressed (reg s) cs u Hr Hclr) as (x & E & Hx).
  apply runs_bind. rewrite E. unfold runs at 1. cbn [check mret M_ret].
  destruct x as [c'|]; [|done]. destruct (Hx c' eq_refl) as (i & e & Ei & Ee).
  apply runs_bind. rewrite Ei. unfold runs at 1. cbn [check mret M_ret].
  apply runs_bind. rewrite Ee. unfold runs at 1. cbn [check mret M_ret].
  apply runs_bind. unfold runs at 1, call at 1.
  destruct (Z.eqb_spec (env (Malloc PKTCTRLSIZ) (length (calls s))) 0) as [E0|_];
    [by destruct (Hm _ _ E0)|]. cbn [negb].
  unfold pkt_ctrl_create_config_resp. cbn [fmap option_fmap option_map].
  apply runs_bind. eapply runs_mono; [apply (stream_send_calls _ _ _ _ st); done|].
  intros rc s' Hs'. exact Hs'.
Qed.

Lemma frames_calls stream fs s st c cs :
  (∀ sz n, env (Malloc sz) n ≠ 0) → cleared → reg_inv (reg s) cs → MsQuic s = true →
  streams s !! stream = Some st → s_client st = Some c →
  runs (run_frames (process_ctrl_pkt garbage env stream) (λ _, false) fs) s (λ ok s', ok = true ∧ only_calls s s').
Proof.
  intros Hm Hclr. revert s. induction fs as [|f fs IH]; intros s Hr Hq Hst Hc; [done|].
  cbn [run_frames]. apply runs_bind.
  eapply runs_mono; [by apply (process_ctrl_calls stream f s st c cs)|].
  intros _ s1 (E1 & E2 & E3). eapply runs_mono; [apply IH; congruence|].
  intros ok s2 (-> & F1 & F2 & F3). split; [done|]. split_and!; congruence.
Qed.

Ltac enter_stream w H Hst :=
  unfold ServerStreamCallback; rewrite bind_gets; unfold id;
  erewrite (bind_run _ _ (srv w) _ (srv w)) by (rewrite Hst; reflexivity); cbn [s_client];
  erewrite (bind_run _ _ (srv w) _ (srv w)) by reflexivity;
  rewrite (bind_run _ _ (srv w) () (srv w)) by (by rewrite (wi_quic garbage _ H)).

Lemma stream_shutdown_good w h :
  world_inv w → allowed (EvStream h STREAM_SHUTDOWN_COMPLETE) w →
  good_step (EvStream h STREAM_SHUTDOWN_COMPLETE) w.
Proof.
  intros H [[[p conn] Eh] _]. destruct (wi_stream garbage _ H h p conn Eh) as (c & ph & Hc & Hst).
  pose proof (ok_handle garbage _ _ _ _ (ri_conn garbage _ _ (wi_reg garbage _ H) _ _ _ Hc)) as Hh.
  unfold good_step, world_step. rewrite Eh. cbn [mbind option_bind]. enter_stream w H Hst.
  rewrite server_call_bind. rewrite Hh. eexists. split; [reflexivity|]. split.
  - destruct H as [H1 H2 H3 H4]. split; [done|done|..]; simpl.
    + intros h' p' k [Hne Ek]%lookup_delete_Some. destruct (H3 h' p' k Ek) as (c' & ph' & Ec & Es).
      exists c', ph'. split; [done|]. rewrite lookup_delete_ne; [done|]. intros <-.
      rewrite Hst in Es. congruence.
    + intros p' st [Hne Est]%lookup_delete_Some. destruct (H4 p' st Est) as (h' & k & Ek).
      exists h', k. rewrite lookup_delete_ne; [done|]. intros <-. rewrite Eh in Ek. congruence.
  - split; [apply same_net_refl|by apply SessQuiet].
Qed.

Lemma stream_receive_good w h bufs :
  world_inv w → allowed (EvStream h (STREAM_RECEIVE bufs)) w →
  good_step (EvStream h (STREAM_RECEIVE bufs)) w.
Proof.
  intros H ([[p conn] Eh] & Hlen & Htot & Hm & Hclr).
  destruct (wi_stream garbage _ H h p conn Eh) as (c & ph & Hc & Hst).
  set (total := Z.of_nat (length (concat bufs))) in *.
  assert (Hrun : runs (ServerStreamCallback garbage env h p (STREAM_RECEIVE bufs)) (srv w)
    (λ _ s', only_calls (srv w) s')).
  { unfold runs. enter_stream w H Hst. fold total.
    pose proof (frames_calls p (frames (concat bufs)) (srv w) _ c _ Hm Hclr (wi_reg garbage _ H) (wi_quic garbage _ H)
      Hst eq_refl) as Hf. unfold runs in Hf.
    unfold mbind, M_bind. rewrite (receive_loop_run _ _ bufs (srv w) Hlen Htot).
    unfold frames_then, mbind, M_bind. destruct (run_frames _ _ _ _); try done. apply Hf. }
  apply runs_exists in Hrun as ([rc n] & s & E & E1 & E2 & E3).
  apply (good_quiet _ w s H); try done. unfold world_step. rewrite Eh. cbn [mbind option_bind].
  by rewrite E.
Qed.

Lemma stream_good w h ev :
  world_inv w → allowed (EvStream h ev) w → good_step (EvStream h ev) w.
Proof.
  intros H Ha. pose proof Ha as [[[p conn] Eh] _]. destruct (wi_stream garbage _ H h p conn Eh) as (c & ph & Hc & Hst).
  destruct ev as [[[buffer quic_buf]|]|bufs| |code| |];
    [| |by apply stream_receive_good| | |by apply stream_shutdown_good|].
  all: eapply good_quiet; [done|done| |..];
    [unfold world_step; rewrite Eh; cbn [mbind option_bind]; enter_stream w H Hst; reflexivity|done..].
Qed.

Lemma listener_good w alloc ev :
  world_inv w → allowed (EvListener alloc ev) w → good_step (EvListener alloc ev) w.
Proof.
  intros H Ha. destruct ev as [conn| |]; [by apply new_connection_good|..];
  (apply (good_quiet _ w (srv w) H); [done| |done..]); unfold world_step, ServerListenerCallback;
  rewrite bind_gets; unfold id; by rewrite (bind_run _ _ (srv w) () (srv w)) by (by rewrite (wi_quic garbage _ H)).
Qed.

Lemma event_good w e : world_inv w → allowed e w → good_step e w.
Proof.
  destruct e; [apply listener_good|apply connection_good|apply stream_good].
Qed.

Lemma sess_step_free f1 f2 m e m' :
  (∀ a, f1 a ↔ f2 a) → sess_step f1 m e m' → sess_step f2 m e m'.
Proof.
  intros Hf. destruct 1; try by constructor.
  - constructor; [done|by apply Hf|done].
  - constructor; [done|]. intros a Ha. by apply H0, Hf.
Qed.

Lemma sess_run_free f1 f2 m es m' :
  (∀ a, f1 a ↔ f2 a) → sess_run f1 m es m' → sess_run f2 m es m'.
Proof.
  intros Hf. induction 1 as [|m e m' es m'' Hm _ IH]; [constructor|].
  econstructor; [|exact IH]. by eapply sess_step_free.
Qed.

Lemma sessions_run es w :
  world_inv w → allowed_run es w →
  ∃ w', world_run es w = Some w' ∧ world_inv w' ∧
    IpPool.same_net (ClientList.ip_pool (reg (srv w))) (ClientList.ip_pool (reg (srv w'))) ∧
    sess_run (IpPool.assignable (ClientList.ip_pool (reg (srv w)))) (sessions w) es (sessions w').
Proof.
  revert w. induction es as [|e es IH]; intros w H Ha.
  { exists w. split; [done|]. split; [done|]. split; [apply same_net_refl|constructor]. }
  destruct Ha as [Ha Hes]. destruct (event_good w e H Ha) as (w1 & E1 & H1 & Hnet1 & Hs1).
  destruct (IH w1 H1 (Hes w1 E1)) as (w2 & E2 & H2 & Hnet2 & Hs2). exists w2. simpl. rewrite E1.
  split; [exact E2|]. split; [exact H2|]. split; [by eapply same_net_trans|].
  econstructor; [exact Hs1|]. eapply sess_run_free; [|exact Hs2].
  intros a. by apply IpPool.same_net_assignable.
Qed.
(** ** The theorems *)

(** C4. The server refines its abstract machine: along every sequence of
    events MsQuic may deliver, no callback aborts or leaves the registry, and
    the run is one of the abstract server, a finite map from the open
    connections to the address each holds: a connection is accepted without
    an address or refused; connecting gives it an assignable address no open
    connection holds, or is refused only when every assignable address is
    held; its end frees both; and no other event changes anything. *)
Theorem server_sessions_refine es w :
  world_inv w → allowed_run es w →
  ∃ w', world_run es w = Some w' ∧ world_inv w' ∧
    sess_run (IpPool.assignable (ClientList.ip_pool (reg (srv w)))) (sessions w) es (sessions w').
Proof.
  intros H Ha. destruct (sessions_run es w H Ha) as (w' & E & H' & _ & Hs). eauto.
Qed.

(** Packets go to the connection that holds their destination: after any
    run, the lookup the send thread makes for an address finds the client of
    the open connection that holds it, with the handle of that connection,
    and finds nobody exactly when no open connection holds it; no two
    connections hold one address. *)
Theorem server_sessions_route es w addr :
  world_inv w → allowed_run es w → in_u 32 addr →
  ∃ w' x, world_run es w = Some w' ∧
    IpPool.ip_client_search (Some (ClientList.ip_pool (reg (srv w')))) addr = Some x ∧
    (∀ k, sessions w' !! k = Some (Some (ntohl addr)) ↔
       ∃ c, x = Some c ∧ ClientList.ConnectionHandle (get_client (reg (srv w')) c) = Some k) ∧
    (x = None ↔ ∀ k, sessions w' !! k ≠ Some (Some (ntohl addr))).
Proof.
  intros H Ha Haddr. destruct (sessions_run es w H Ha) as (w' & E & H' & _).
  pose proof (wi_reg garbage _ H') as Hr. exists w', (IpPool.leases (ClientList.ip_pool (reg (srv w'))) !! ntohl addr).
  split; [exact E|]. split; [by apply IpPool.ip_client_search_spec; [apply (ri_pool garbage _ _ Hr)|]|].
  split.
  - intros k. unfold sessions. rewrite (sessions_lookup garbage _ _ _ _ Hr). split.
    + intros (c & Hc & Hl). exists c. split; [done|]. apply (ok_handle garbage _ _ _ _ (ri_conn garbage _ _ Hr _ _ _ Hc)).
    + intros (c & Hl & Hh). exists c. split; [|done].
      destruct (ri_lease garbage _ _ Hr _ c Hl) as (k' & Hc & _).
      pose proof (ok_handle garbage _ _ _ _ (ri_conn garbage _ _ Hr _ _ _ Hc)) as Hh'. congruence.
  - split.
    + intros Hn k Hk. assert (Hx : is_Some (IpPool.leases (ClientList.ip_pool (reg (srv w'))) !! ntohl addr))
        by (apply (sessions_leased garbage _ _ _ Hr); eauto). rewrite Hn in Hx. by destruct Hx.
    + intros Hn. apply eq_None_not_Some. intros Hx%(sessions_leased garbage _ _ _ Hr).
      destruct Hx as [k Hk]. by apply (Hn k).
Qed.

(** C18. Nothing is left behind: when a run leaves no connection open, every
    client object is back in its pool, every address is free and every stream
    context was released.  (The list of clients is another matter.) *)
Theorem server_sessions_clean es w :
  world_inv w → allowed_run es w →
  ∃ w', world_run es w = Some w' ∧
    (conns w' = ∅ →
     op_held (ClientList.client_pool (reg (srv w'))) = ∅ ∧
     IpPool.leases (ClientList.ip_pool (reg (srv w'))) = ∅ ∧ streams (srv w') = ∅ ∧ strms w' = ∅).
Proof.
  intros H Ha. destruct (sessions_run es w H Ha) as (w' & E & [_ Hr Hs Hp] & _).
  exists w'. split; [exact E|]. intros Hnone.
  assert (Hst : strms w' = ∅).
  { apply map_eq. intros h. rewrite lookup_empty. apply eq_None_not_Some. intros [[p k] Eh].
    destruct (Hs h p k Eh) as (c & ph & Ec & _). by rewrite Hnone, lookup_empty in Ec. }
  split; [|split; [|split; [|done]]].
  - apply set_eq. intros c. split; [|set_solver]. intros Hc.
    destruct (ri_held garbage _ _ Hr c Hc) as (k & ph & Ek). by rewrite Hnone, lookup_empty in Ek.
  - apply map_eq. intros a. rewrite lookup_empty. apply eq_None_not_Some. intros [c Ha'].
    destruct (ri_lease garbage _ _ Hr a c Ha') as (k & Ek & _). by rewrite Hnone, lookup_empty in Ek.
  - apply map_eq. intros p. rewrite lookup_empty. apply eq_None_not_Some. intros [st Est].
    destruct (Hp p st Est) as (h & k & Ek). by rewrite Hst, lookup_empty in Ek.
Qed.

End callbacks.

(** ** A run of the server on 172.18.0.1/29 *)

#[local] Existing Instance Pool.pool_objpool.

Definition sample_start : world Pool.pool_t :=
  world_start IpPool.sample_pool (Pool.PoolT 40 8 0 0 None ∅) (Some sample_tun).

Definition gives (b : nat) : Z → option nat := λ _, Some b.

(** Two clients come, the first opens its control stream and leaves. *)
Definition sample_events : list event :=
  [EvListener (gives 1) (NEW_CONNECTION 11); EvConn 11 CONNECTED;
   EvConn 11 (PEER_STREAM_STARTED 21); EvListener (gives 2) (NEW_CONNECTION 12); EvConn 12 CONNECTED;
   EvStream 21 STREAM_SHUTDOWN_COMPLETE; EvConn 11 SHUTDOWN_COMPLETE].

Lemma sample_start_inv : world_inv ClientList.no_garbage sample_start.
Proof.
  destruct (IpPool.ip_pool_create_wf IpPool.sample_server 29 IpPool.sample_net)
    as (p & E & Hwf & Hl & _); [lia|by vm_compute..|].
  assert (Hp : IpPool.sample_pool = p) by (unfold IpPool.sample_pool; by rewrite E).
  assert (H8 : 0 ≤ 8 ≤ SIZE_MAX) by (unfold SIZE_MAX; lia).
  apply world_start_inv; [rewrite Hp; exact Hwf|rewrite Hp; exact Hl|apply (Pool.new_pool_ok 40 8 H8)|apply Pool.new_pool_held].
Qed.

Example sample_run :
  sessions ClientList.no_garbage <$> world_run ClientList.no_garbage env_sample sample_events sample_start
  = Some {[12%nat := Some 2886860803]}.
Proof. by vm_compute. Qed.

Lemma fresh_for b (p : Pool.pool_t) : Pool.heap p !! b = None → op_fresh (gives b) p.
Proof. intros H sz b' [= <-]. exact H. Qed.

Ltac next_world := let w := fresh "w" in let E := fresh "E" in
  intros w E; vm_compute in E; apply (inj Some) in E; subst w.

Lemma sample_allowed : allowed_run ClientList.no_garbage env_sample sample_events sample_start.
Proof.
  unfold sample_events. cbn [allowed_run].
  split; [split; [by vm_compute|apply fresh_for; by vm_compute]|next_world].
  split; [eexists _, _; split; [by vm_compute|reflexivity]|next_world].
  split; [eexists _, _; split; [by vm_compute|split; [by vm_compute|cbv zeta; intros _; split; by vm_compute]]|next_world].
  split; [split; [by vm_compute|apply fresh_for; by vm_compute]|next_world].
  split; [eexists _, _; split; [by vm_compute|reflexivity]|next_world].
  split; [split; [eexists; by vm_compute|exact I]|next_world].
  split; [eexists _, _; split; [by vm_compute|]|done].
  intros h p E. vm_compute in E. discriminate E.
Qed.

Lemma server_sessions_refine_witness :
  ∃ w', world_run ClientList.no_garbage env_sample sample_events sample_start = Some w' ∧
    sess_run (IpPool.assignable IpPool.sample_pool) ∅ sample_events
      (sessions ClientList.no_garbage w').
Proof.
  destruct (server_sessions_refine ClientList.no_garbage env_sample sample_events sample_start
    sample_start_inv sample_allowed) as (w' & E & _ & H).
  exists w'. split; [exact E|exact H].
Defined.

Lemma server_sessions_route_witness :
  ∃ w' c, world_run ClientList.no_garbage env_sample sample_events sample_start = Some w' ∧
    IpPool.ip_client_search (Some (ClientList.ip_pool (reg (srv w')))) (htonl 2886860803) = Some (Some c) ∧
    ClientList.ConnectionHandle (ClientList.get_client ClientList.no_garbage (reg (srv w')) c) = Some 12%nat.
Proof.
  assert (Ha : in_u 32 (htonl 2886860803)) by by vm_compute.
  destruct (server_sessions_route ClientList.no_garbage env_sample sample_events sample_start
    (htonl 2886860803) sample_start_inv sample_allowed Ha) as (w' & x & E & Hx & Hk & _).
  pose proof sample_run as Hs. rewrite E in Hs. apply (inj Some) in Hs.
  destruct (proj1 (Hk 12%nat)) as (c & -> & Hc).
  { change (ntohl (htonl 2886860803)) with 2886860803. rewrite Hs. reflexivity. }
  exists w', c. split; [exact E|]. by split.
Defined.

Definition sample_visit : list event :=
  [EvListener (gives 1) (NEW_CONNECTION 11); EvConn 11 CONNECTED; EvConn 11 SHUTDOWN_COMPLETE].

Lemma sample_visit_allowed : allowed_run ClientList.no_garbage env_sample sample_visit sample_start.
Proof.
  unfold sample_visit. cbn [allowed_run].
  split; [split; [by vm_compute|apply fresh_for; by vm_compute]|next_world].
  split; [eexists _, _; split; [by vm_compute|reflexivity]|next_world].
  split; [eexists _, _; split; [by vm_compute|]|done].
  intros h p E. vm_compute in E. discriminate E.
Qed.

Lemma sample_visit_over :
  conns <$> world_run ClientList.no_garbage env_sample sample_visit sample_start = Some ∅.
Proof. by vm_compute. Qed.

Lemma server_sessions_clean_witness :
  ∃ w', world_run ClientList.no_garbage env_sample sample_visit sample_start = Some w' ∧
    op_held (ClientList.client_pool (reg (srv w'))) = ∅.
Proof.
  destruct (server_sessions_clean ClientList.no_garbage env_sample sample_visit sample_start
    sample_start_inv sample_visit_allowed) as (w' & E & H).
  exists w'. split; [exact E|]. apply H. pose proof sample_visit_over as Ho. rewrite E in Ho.
  exact (inj Some _ _ Ho).
Defined.
