(* ===== verification/ServerSlots.v ===== *)
(** * client.c of the server: the slots of the client list along a run

    [list_remove_client] always clears slot 0, so a slot other than the first
    that was once taken stays taken, whatever happens to its client. *)
From stdpp Require Import prelude gmap sets.
From Stdlib Require Import ZArith Lia.
From S2P Require Import Prelude Utils PktCtrl ObjPool Frames ServerQuic Sessions ServerSessions.
From S2P Require IpPool Tun ClientList Pool.

Section slots.
Context {P : Type} `{!ObjPool P}.
Context (garbage : nat → ClientList.client_t) (env : api_call → nat → Z).
Implicit Types w : world P.
Implicit Types s : server P.
Implicit Types r : ClientList.session_t P.
Abbreviation get_client := (ClientList.get_client garbage).
Abbreviation world_step := (Sessions.world_step garbage env).
Abbreviation world_run := (Sessions.world_run garbage env).

(** A slot other than the first keeps its client. *)
Definition slot_stays (k : nat) r r' : Prop :=
  ∀ c, ClientList.client_list r !! k = Some (Some c) → ClientList.client_list r' !! k = Some (Some c).
Definition keeps_slot {A} (k : nat) (m : M (server P) A) : Prop :=
  ∀ s, ends m s (λ _ s', slot_stays k (reg s) (reg s')).

Lemma keeps_bind {A B} k (m : M (server P) A) (f : A → M (server P) B) :
  keeps_slot k m → (∀ a, keeps_slot k (f a)) → keeps_slot k (x ← m; f x).
Proof.
  intros Hm Hf s. apply ends_bind. eapply ends_mono; [apply Hm|]. intros a s1 H1.
  eapply ends_mono; [apply Hf|]. intros b s2 H2 c Hc. by apply H2, H1.
Qed.
Lemma keeps_ret {A} k (a : A) : keeps_slot k (mret a).
Proof. by intros s c. Qed.
Lemma keeps_gets {A} k (f : server P → A) : keeps_slot k (gets f).
Proof. by intros s c. Qed.
Lemma keeps_call k c : keeps_slot k (call env c).
Proof. by intros s ?. Qed.
Lemma keeps_check {A} k (x : option A) : keeps_slot k (check x).
Proof. intros s. destruct x; [by intros c|done]. Qed.
Lemma keeps_assert k b : keeps_slot k (assert b).
Proof. intros s. destruct b; [by intros c|done]. Qed.
Lemma keeps_streams k f : keeps_slot k (set_streams f).
Proof. by intros s ?. Qed.
Lemma keeps_on_reg {A} k (f : ClientList.session_t P → option (A * ClientList.session_t P)) :
  (∀ r a r', f r = Some (a, r') → slot_stays k r r') → keeps_slot k (on_reg f).
Proof.
  intros Hf s. unfold ends, on_reg. destruct (f (reg s)) as [[a r']|] eqn:E; [|done].
  by apply (Hf _ _ _ E).
Qed.
Lemma keeps_if {A} k (b : bool) (m1 m2 : M (server P) A) :
  keeps_slot k m1 → keeps_slot k m2 → keeps_slot k (if b then m1 else m2).
Proof. by destruct b. Qed.
Lemma keeps_receive k process on_error fuel bufs total n :
  (∀ f, keeps_slot k (process f)) → keeps_slot k (receive_loop process on_error fuel bufs total n).
Proof.
  intros Hp. revert n. induction fuel as [|fuel IH]; intros n; [done|]. cbn [receive_loop].
  apply keeps_if; [|apply keeps_ret]. cbv zeta. apply keeps_bind; [apply Hp|]. intros rc.
  apply keeps_if; [apply keeps_ret|apply IH].
Qed.

Lemma add_keeps k n idx alloc handle r x r' :
  ClientList.add_loop garbage n idx alloc handle r = Some (x, r') → slot_stays k r r'.
Proof.
  revert idx. induction n as [|n IH]; intros idx; cbn [ClientList.add_loop].
  { intros [= <- <-]. by intros c. }
 
  destruct (ClientList.client_list r !! idx) as [[c|]|] eqn:Ei; cbn [mbind option_bind]; [apply IH| |done].
  destruct (op_get _ _) as [[[c|] q]|]; cbn [mbind option_bind]; [| |done]; intros [= <- <-] c' Hc'; [|done].
  simpl. rewrite list_lookup_insert_ne; [done|congruence].
Qed.

Lemma remove_keeps k c r x r' :
  k ≠ 0%nat → ClientList.list_remove_client garbage false (Some c) r = Some (x, r') → slot_stays k r r'.
Proof.
  intros Hk. unfold ClientList.list_remove_client. destruct (_ || _); [by intros [= <- <-] c'|].
  rewrite !ClientList.get_upd_eq.
  cbn [ClientList.slot_idx ClientList.set_ip_entry ClientList.set_uid ClientList.set_slot_idx].
  change (Z.to_nat 0) with 0%nat. destruct (_ !! 0%nat); cbn [mbind option_bind]; [|done].
  destruct (op_put _ _); cbn [mbind option_bind]; [|done]. intros [= <- <-] c' Hc'. simpl.
  by rewrite list_lookup_insert_ne.
Qed.

Lemma initialize_keeps k c r x r' :
  ClientList.initialize_client_state garbage (Some c) r = Some (x, r') → slot_stays k r r'.
Proof.
  unfold ClientList.initialize_client_state. cbn [mbind option_bind].
  destruct (negb _); [done|]. destruct (IpPool.ip_acquire _ _) as [[[e|] q]|]; cbn [mbind option_bind];
    [| |done]; by intros [= <- <-] c'.
Qed.

Lemma release_keeps k c r x r' :
  ('(rc, q) ← IpPool.ip_release (Some (ClientList.ip_pool r)) (ClientList.ip_entry (get_client r c));
   Some (rc, ClientList.set_ip_pool (default (ClientList.ip_pool r) q) r)) = Some (x, r') →
  slot_stays k r r'.
Proof. destruct (IpPool.ip_release _ _) as [[rc q]|]; [|done]. by intros [= <- <-] c'. Qed.

Create HintDb slots.
#[local] Hint Resolve keeps_ret keeps_gets keeps_call keeps_check keeps_assert keeps_streams : slots.
Ltac keeps := repeat (first
  [ solve [auto with slots]
  | apply keeps_receive; intros ?
  | apply keeps_if
  | apply keeps_on_reg
  | apply keeps_bind; [|intros ?]
  | case_match ]).

Lemma process_keeps k stream pkt : keeps_slot k (process_ctrl_pkt garbage env stream pkt).
Proof. unfold process_ctrl_pkt, stream_send. keeps. Qed.
#[local] Hint Resolve process_keeps : slots.

Lemma stream_keeps k h p ev : keeps_slot k (ServerStreamCallback garbage env h p ev).
Proof. unfold ServerStreamCallback. keeps. Qed.

Lemma connection_keeps k conn c ev : k ≠ 0%nat → keeps_slot k (ServerConnectionCallback garbage env conn c ev).
Proof.
  intros Hk. unfold ServerConnectionCallback. keeps.
  - intros r x r'. apply initialize_keeps.
  - intros r x r'. apply release_keeps.
  - intros r x r'. by apply remove_keeps.
  - intros r x r' [= _ <-] c'. done.
Qed.

Lemma listener_keeps k alloc ev : k ≠ 0%nat → keeps_slot k (ServerListenerCallback garbage env alloc ev).
Proof.
  intros Hk. unfold ServerListenerCallback. keeps.
  - intros r x r'. apply add_keeps.
  - intros r x r'. by apply remove_keeps.
Qed.
Lemma returned_keeps {A} k (m : M (server P) A) s a s' :
  keeps_slot k m → returned (m s) = Some (a, s') → slot_stays k (reg s) (reg s').
Proof. intros Hm E. specialize (Hm s). unfold ends in Hm. destruct (m s); by simplify_eq/=. Qed.

Lemma step_keeps k e w w' :
  k ≠ 0%nat → world_step e w = Some w' → slot_stays k (reg (srv w)) (reg (srv w')).
Proof.
  intros Hk. destruct e as [alloc ev|conn ev|h ev]; cbn [Sessions.world_step].
  - destruct (returned _) as [[rc s]|] eqn:E; [|done]. cbn [mbind option_bind].
    pose proof (returned_keeps k _ _ _ _ (listener_keeps k alloc ev Hk) E) as Hs.
    destruct ev; [|by intros [= <-]..]. destruct (QUIC_FAILED rc); [by intros [= <-]|].
    destruct (conn_context _ _); [|done]. by intros [= <-].
  - destruct (conns w !! conn) as [[c ph]|]; [|done]. cbn [mbind option_bind].
    destruct (returned _) as [[rc s]|] eqn:E; [|done]. cbn [mbind option_bind].
    pose proof (returned_keeps k _ _ _ _ (connection_keeps k conn c ev Hk) E) as Hs.
    destruct ev; try (by intros [= <-]). destruct (QUIC_FAILED rc); [by intros [= <-]|].
    destruct (stream_context _ _); [|done]. by intros [= <-].
  - destruct (strms w !! h) as [[p conn]|]; [|done]. cbn [mbind option_bind].
    destruct (returned _) as [[rc s]|] eqn:E; [|done]. cbn [mbind option_bind].
    pose proof (returned_keeps k _ _ _ _ (stream_keeps k h p ev) E) as Hs. by intros [= <-].
Qed.

Lemma run_keeps k es w w' :
  k ≠ 0%nat → world_run es w = Some w' → slot_stays k (reg (srv w)) (reg (srv w')).
Proof.
  intros Hk. revert w. induction es as [|e es IH]; intros w; cbn [Sessions.world_run].
  { intros [= <-] c. done. }
  destruct (world_step e w) as [w1|] eqn:E; [|done]. cbn [mbind option_bind]. intros Hr c Hc.
  apply (IH w1 Hr). by apply (step_keeps k e w w1 Hk E).
Qed.

(** A list without a free slot: a new connection is refused. *)
Lemma add_loop_full n idx alloc handle r :
  (idx + n = length (ClientList.client_list r))%nat →
  (∀ k, (idx ≤ k < length (ClientList.client_list r))%nat →
     ∃ c, ClientList.client_list r !! k = Some (Some c)) →
  ClientList.add_loop garbage n idx alloc handle r = Some (None, r).
Proof.
  revert idx. induction n as [|n IH]; intros idx Hn Hfull; [done|].
  destruct (Hfull idx) as [c Hc]; [lia|]. cbn [ClientList.add_loop]. rewrite Hc.
  cbn [mbind option_bind]. apply IH; [lia|]. intros k Hk. apply Hfull. lia.
Qed.

(** C17. The slots of the client list leak: a slot other than the first that
    was taken once keeps its client along every further run of the server,
    also when that client left long ago.  So once every other slot was taken,
    a connection that arrives while the first slot is taken is refused for
    lack of memory, however many clients are connected. *)
Theorem server_slots_leak es w w' :
  MsQuic (srv w') = true → ClientList.list_wf (reg (srv w')) →
  world_run es w = Some w' →
  (∀ k, k ≠ 0%nat → slot_stays k (reg (srv w)) (reg (srv w'))) ∧
  ((∀ k, (0 < k < length (ClientList.client_list (reg (srv w'))))%nat →
      ∃ c, ClientList.client_list (reg (srv w)) !! k = Some (Some c)) →
   ∀ c alloc conn, ClientList.client_list (reg (srv w')) !! 0%nat = Some (Some c) →
     ServerListenerCallback garbage env alloc (NEW_CONNECTION conn) (srv w') =
     Ret QUIC_STATUS_OUT_OF_MEMORY (srv w')).
Proof.
  intros Hq [Hlen _] E. split; [intros k Hk; by apply (run_keeps k es)|].
  intros Hall c alloc conn Hc.
  unfold ServerListenerCallback. rewrite bind_gets. unfold id.
  rewrite (bind_run _ _ (srv w') () (srv w')) by (by rewrite Hq).
  rewrite (bind_run _ _ _ (None : option nat) (srv w')); [done|].
  unfold on_reg, ClientList.list_add_client.
  rewrite add_loop_full; [by destruct (srv w')|lia|].
  intros [|k] Hk; [eauto|]. destruct (Hall (S k)) as [c' Hc']; [lia|]. exists c'.
  by apply (run_keeps (S k) es w).
Qed.
End slots.

(** ** Runs of the sample server *)

#[local] Existing Instance Pool.pool_objpool.

Definition arrivals : list event :=
  [EvListener (gives 1) (NEW_CONNECTION 11); EvListener (gives 2) (NEW_CONNECTION 12)].
Definition departures : list event := [EvConn 12 SHUTDOWN_COMPLETE; EvConn 11 SHUTDOWN_COMPLETE].

Definition run_from (w : world Pool.pool_t) (es : list event) : world Pool.pool_t :=
  default w (Sessions.world_run ClientList.no_garbage env_sample es w).
Definition arrived : world Pool.pool_t := run_from sample_start arrivals.
Definition departed : world Pool.pool_t := run_from arrived departures.

Lemma arrivals_allowed : allowed_run ClientList.no_garbage env_sample arrivals sample_start.
Proof.
  unfold arrivals. cbn [allowed_run].
  split; [split; [by vm_compute|apply fresh_for; by vm_compute]|next_world].
  split; [split; [by vm_compute|apply fresh_for; by vm_compute]|done].
Qed.

Lemma departures_allowed : allowed_run ClientList.no_garbage env_sample departures arrived.
Proof.
  unfold departures. cbn [allowed_run].
  split; [eexists _, _; split; [by vm_compute|]|next_world].
  { intros h p E. vm_compute in E. discriminate E. }
  split; [eexists _, _; split; [by vm_compute|]|done].
  intros h p E. vm_compute in E. discriminate E.
Qed.

Lemma arrived_run : Sessions.world_run ClientList.no_garbage env_sample arrivals sample_start = Some arrived.
Proof. by vm_compute. Qed.
Lemma departed_run : Sessions.world_run ClientList.no_garbage env_sample departures arrived = Some departed.
Proof. by vm_compute. Qed.

Lemma departed_inv : world_inv ClientList.no_garbage departed.
Proof.
  destruct (sessions_run ClientList.no_garbage env_sample arrivals sample_start sample_start_inv
    arrivals_allowed) as (w1 & E1 & H1 & _).
  rewrite arrived_run in E1. apply (inj Some) in E1. subst w1.
  destruct (sessions_run ClientList.no_garbage env_sample departures arrived H1 departures_allowed)
    as (w2 & E2 & H2 & _). rewrite departed_run in E2. apply (inj Some) in E2. by subst w2.
Qed.

Lemma arrived_slot : ClientList.client_list (reg (srv arrived)) !! 1%nat = Some (Some 2%nat).
Proof. by vm_compute. Qed.
Lemma departed_conns : conns departed = ∅.
Proof. by vm_compute. Qed.

(** Both clients left; the second still has its slot. *)
Lemma server_slots_leak_witness :
  conns departed = ∅ ∧ ClientList.client_list (reg (srv departed)) !! 1%nat = Some (Some 2%nat).
Proof.
  split; [exact departed_conns|].
  destruct (server_slots_leak ClientList.no_garbage env_sample departures arrived departed
    (wi_quic _ _ departed_inv) (ri_list _ _ _ (wi_reg _ _ departed_inv)) departed_run) as [H _].
  apply (H 1%nat); [done|exact arrived_slot].
Defined.

(** Eight connections on eight slots come and go.  From then on the server
    serves one connection at a time: the ninth is accepted, the tenth refused,
    with every address free and memory to be had. *)
Definition eight_visits : list event :=
  ((λ i, EvListener (gives (S i)) (NEW_CONNECTION i)) <$> seq 0 8) ++
  ((λ i, EvConn i SHUTDOWN_COMPLETE) <$> seq 0 8).

Definition ninth_and_tenth : list event :=
  [EvListener (gives 50) (NEW_CONNECTION 9); EvListener (gives 51) (NEW_CONNECTION 10)].

Example slots_exhausted :
  let w := run_from sample_start eight_visits in
  conns w = ∅ ∧ conns (run_from w ninth_and_tenth) = {[9%nat := (8%nat, Pending)]}.
Proof. split; by vm_compute. Qed.

(** The callback of a departing connection writes its client once more after
    it gave it back.  When the listener hands the object to a new connection
    in between, the new client loses its handle: nothing is sent to it, and
    the end of its stream does not end its connection. *)
Definition late_write (c : nat) (alloc : Z → option nat) (conn : nat)
    (r : ClientList.session_t Pool.pool_t) : option (option nat * ClientList.session_t Pool.pool_t) :=
  '(_, r) ← ClientList.list_remove_client ClientList.no_garbage false (Some c) r;
  '(x, r) ← ClientList.list_add_client ClientList.no_garbage alloc (Some conn) r;
  Some (x, ClientList.upd_client ClientList.no_garbage c (ClientList.set_handle None) r).

Example late_write_drops_handle :
  match late_write 2 (gives 9) 13 (reg (srv arrived)) with
  | Some (Some c, r) =>
      c = 2%nat ∧ ClientList.ConnectionHandle (ClientList.get_client ClientList.no_garbage r c) = None
  | _ => False
  end.
Proof. by vm_compute. Qed.
