(* ===== verification/ServerDelivery.v ===== *)
(** * The send thread of the server on a live registry

    The composition of the life of the connections (ServerSessions.v) with a
    turn of the send thread (DataPath.v): the thread reads the address pool
    and the clients the callbacks leave. *)
From stdpp Require Import prelude gmap sets.
From Stdlib Require Import ZArith Lia.
From S2P Require Import Prelude Utils ObjPool Fifo PktData ServerQuic Sessions ServerSessions.
From S2P Require DataPath IpPool ClientList Pool Queue.

Section delivery.
Context {P D Q : Type} `{!ObjPool P, !ObjPool D, !Fifo Q}.
Context (garbage : nat → ClientList.client_t) (env : api_call → nat → Z).
Implicit Types w : world P.
Abbreviation get_client := (ClientList.get_client garbage).
Abbreviation sessions := (Sessions.sessions garbage).

(** A turn of the send thread on the server of [w]. *)
Definition send_turn_of w (i : DataPath.send_in) : Prelude.M (DataPath.path D Q) bool :=
  DataPath.server_send_turn (Some (ClientList.ip_pool (reg (srv w)))) (get_client (reg (srv w))) i.

Definition destination (bytes : list Z) : Z := ntohl (le_word (sub 16 4 bytes)).

(** The turn has a packet, and MsQuic takes it. *)
Definition to_send (i : DataPath.send_in) (bytes : list Z) : Prop :=
  DataPath.running i = true ∧ DataPath.polled i = DataPath.PollReady true false ∧
  DataPath.read_res i = inr bytes ∧ DataPath.valid bytes = true ∧ DataPath.api i = true ∧
  DataPath.QUIC_FAILED (DataPath.status i) = false.

Lemma routed_session w i pkt :
  world_inv garbage w →
  let out := DataPath.routed (ClientList.ip_pool (reg (srv w))) (get_client (reg (srv w))) i pkt in
  (out = [] ∨ ∃ k b bytes, out = [DataPath.DatagramSend (Some k) b bytes] ∧ to_send i bytes ∧
     sessions w !! k = Some (Some (destination bytes))) ∧
  (∀ b bytes k, pkt = Some b → to_send i bytes → sessions w !! k = Some (Some (destination bytes)) →
     out = [DataPath.DatagramSend (Some k) b bytes]).
Proof.
  intros H out. pose proof (wi_reg _ _ H) as Hr. unfold Sessions.sessions.
  assert (Hk : ∀ k a, sessions_of garbage (reg (srv w)) (conns w) !! k = Some (Some a) ↔
    ∃ c, conns w !! k = Some (c, Connected) ∧
         IpPool.leases (ClientList.ip_pool (reg (srv w))) !! a = Some c)
    by (intros k a; by apply sessions_lookup).
  assert (Hh : ∀ k c ph, conns w !! k = Some (c, ph) →
    ClientList.ConnectionHandle (get_client (reg (srv w)) c) = Some k)
    by (intros k c ph E; apply (ok_handle _ _ _ _ _ (ri_conn _ _ _ Hr _ _ _ E))).
  split.
  - unfold out, DataPath.routed, to_send.
    destruct (DataPath.running i); [|by left]. destruct (DataPath.polled i) as [|[] []]; try by left.
    destruct pkt as [b|]; [|by left]. destruct (DataPath.read_res i) as [|bytes]; [by left|].
    destruct (DataPath.valid bytes && DataPath.api i && negb _) eqn:Eb; [|by left].
    apply andb_true_iff in Eb as [[Ev Ea]%andb_true_iff Es%negb_true_iff]. fold (destination bytes).
    destruct (IpPool.leases _ !! destination bytes) as [c|] eqn:El; [|by left]. right.
    destruct (ri_lease _ _ _ Hr _ c El) as (k & Ek & _). exists k, b, bytes.
    rewrite (Hh k c _ Ek). split; [done|]. split; [done|]. apply Hk. eauto.
  - intros b bytes k -> (E1 & E2 & E3 & E4 & E5 & E6) (c & Ec & El)%Hk.
    unfold out, DataPath.routed. rewrite E1, E2, E3, E4, E5, E6. cbn [andb negb].
    fold (destination bytes). rewrite El. by rewrite (Hh k c _ Ec).
Qed.

(** C3. A packet reaches the client it is for, and nobody else: after any run
    of the server, a turn of the send thread sends nothing, or the packet it
    read, byte for byte, on the open connection that holds the destination
    address; and when such a connection exists, a packet object was found and
    MsQuic takes the packet, the packet is sent. *)
Theorem server_sessions_deliver es w i (s : DataPath.path D Q) :
  world_inv garbage w → allowed_run garbage env es w →
  DataPath.path_inv s → DataPath.event_ok s (DataPath.SendTurn i) →
  ∃ w' pkt p r s', world_run garbage env es w = Some w' ∧
    op_get (DataPath.alloc i) (DataPath.pool_send s) = Some (pkt, p) ∧
    send_turn_of w' i s = Ret r s' ∧
    (DataPath.out s' = DataPath.out s ∨
     ∃ k b bytes, DataPath.out s' = DataPath.out s ++ [DataPath.DatagramSend (Some k) b bytes] ∧
       to_send i bytes ∧ sessions w' !! k = Some (Some (destination bytes))) ∧
    (∀ b bytes k, pkt = Some b → to_send i bytes → sessions w' !! k = Some (Some (destination bytes)) →
       DataPath.out s' = DataPath.out s ++ [DataPath.DatagramSend (Some k) b bytes]).
Proof.
  intros H Ha Hs Hi. destruct (sessions_run garbage env es w H Ha) as (w' & E & H' & _).
  destruct (DataPath.server_send_run (ClientList.ip_pool (reg (srv w'))) (get_client (reg (srv w'))) i s Hs
    (ri_pool _ _ _ (wi_reg _ _ H')) Hi) as (pkt & p & r & s' & Ep & Er & Eo).
  exists w', pkt, p, r, s'. split; [exact E|]. split; [exact Ep|]. split; [exact Er|].
  destruct (routed_session w' i pkt H') as [Hsafe Hlive]. rewrite Eo. split.
  - destruct Hsafe as [->|(k & b & bytes & -> & Hrest)]; [left; apply app_nil_r|right].
    by exists k, b, bytes.
  - intros b bytes k Hb Ht Hk. by rewrite (Hlive b bytes k Hb Ht Hk).
Qed.
End delivery.

(** ** A packet for the first client of the sample server *)

#[local] Existing Instance Pool.pool_objpool.
#[local] Existing Instance Queue.queue_fifo.

Definition visitor : list event := [EvListener (gives 1) (NEW_CONNECTION 11); EvConn 11 CONNECTED].

Lemma visitor_allowed : allowed_run ClientList.no_garbage env_sample visitor sample_start.
Proof.
  unfold visitor. cbn [allowed_run].
  split; [split; [by vm_compute|apply fresh_for; by vm_compute]|next_world].
  by split; [eexists _, _; split; [by vm_compute|reflexivity]|].
Qed.

Lemma visitor_address :
  sessions ClientList.no_garbage <$> world_run ClientList.no_garbage env_sample visitor sample_start
  = Some {[11%nat := Some (destination DataPath.Sample.packet)]}.
Proof. by vm_compute. Qed.

Lemma sample_to_send : to_send DataPath.Sample.send_1 DataPath.Sample.packet.
Proof. by vm_compute. Qed.

Lemma sample_object (pkt : option nat) (p : Pool.pool_t) :
  op_get (DataPath.alloc DataPath.Sample.send_1) (DataPath.pool_send DataPath.Sample.path0) = Some (pkt, p) →
  pkt = Some 9%nat.
Proof. intros E. vm_compute in E. by injection E as <- _. Qed.

Lemma server_sessions_deliver_witness :
  ∃ w' r s', world_run ClientList.no_garbage env_sample visitor sample_start = Some w' ∧
    send_turn_of ClientList.no_garbage w' DataPath.Sample.send_1 DataPath.Sample.path0 = Ret r s' ∧
    DataPath.out s' = [DataPath.DatagramSend (Some 11%nat) 9 DataPath.Sample.packet].
Proof.
  assert (Hok : DataPath.event_ok DataPath.Sample.path0 (DataPath.SendTurn DataPath.Sample.send_1)).
  { split; [intros sz b _; apply lookup_empty|apply DataPath.Sample.packet_sample_ok]. }
  destruct (server_sessions_deliver ClientList.no_garbage env_sample visitor sample_start
    DataPath.Sample.send_1 DataPath.Sample.path0 sample_start_inv visitor_allowed
    DataPath.Sample.path0_inv Hok) as (w' & pkt & p & r & s' & E & Ep & Er & _ & H).
  exists w', r, s'. split; [exact E|]. split; [exact Er|].
  apply (H 9%nat DataPath.Sample.packet 11%nat); [by apply (sample_object pkt p)|exact sample_to_send|].
  pose proof visitor_address as Hs. rewrite E in Hs. apply (inj Some) in Hs. rewrite Hs.
  apply lookup_singleton_eq.
Defined.
