(* ===== verification/ClientQuic.v ===== *)
(** * quic.c of the client: the control stream, the QUIC callbacks, the setup

    The state is the client's session with its QUIC context, the states its
    threads wait on, the TUN handle with the requests made of the driver, and
    the trace of the calls into MsQuic and the allocator.  A handle and a
    pointer are numbers, 0 or [None] for NULL.  What MsQuic and malloc answer is
    a parameter, a function of the call and of the number of calls before it;
    so is the handle an Open call returns, and the driver table.  [Fatal] is a
    failed assertion, an error of a pthread call or the use of a NULL pointer.
    The datagram events of the connection callback are in DataPath.v, the
    frames of the receive event in Frames.v. *)
From stdpp Require Import prelude strings.
From Stdlib Require Import ZArith Lia Ascii.
From S2P Require Import Prelude Utils PktCtrl StateSync SockAddr TunTotal Frames.
From S2P Require Tun TunDriver.

(** tun_state_t, connection_state_t, stream_state_t *)
Definition TUN_CLOSED : Z := 0.
Definition TUN_READY : Z := 1.
Definition TUN_FAIL : Z := 2.
Definition SESSION_CONNECTING : Z := 1.
Definition SESSION_CONNECTED : Z := 2.
Definition SESSION_DISCONNECTED : Z := 3.
Definition STREAM_OPENING : Z := 1.
Definition STREAM_OPEN : Z := 2.
Definition STREAM_CLOSED : Z := 3.

Definition QUIC_STATUS_SUCCESS : Z := 0.
Definition QUIC_STATUS_OUT_OF_MEMORY : Z := ENOMEM.
Definition QUIC_STATUS_PROTOCOL_ERROR : Z := 71.
Definition QUIC_STATUS_ABORTED : Z := ECANCELED.
Definition QUIC_SUCCEEDED (Status : Z) : bool := Status <=? 0.

Definition QUIC_CONNECTION_SHUTDOWN_FLAG_NONE : Z := 0.
Definition QUIC_STREAM_SHUTDOWN_FLAG_ABORT : Z := 6.
Definition QUIC_CREDENTIAL_TYPE_NONE : Z := 0.
Definition QUIC_CREDENTIAL_FLAG_CLIENT : Z := 1.
Definition QUIC_CREDENTIAL_FLAG_NO_CERTIFICATE_VALIDATION : Z := 4.

(** The fields of QUIC_SETTINGS the code sets, with IsSet. *)
Record settings_t := Settings {
  DisconnectTimeoutMs : option Z; HandshakeIdleTimeoutMs : option Z; IdleTimeoutMs : option Z;
  KeepAliveIntervalMs : option Z; DatagramReceiveEnabled : option Z;
  MaximumMtu : option Z; MinimumMtu : option Z
}.
Definition settings0 : settings_t := Settings None None None None None None None.

Inductive api_call :=
| MsQuicOpen2
| MsQuicClose
| RegistrationOpen (app : string) (profile : Z)
| RegistrationClose (r : nat)
| ConfigurationOpen (r : option nat) (alpn : string) (s : settings_t)
| ConfigurationLoadCredential (c : option nat) (type fl : Z)
| ConfigurationClose (c : nat)
| ConnectionOpen (r : option nat)
| SetLocalAddr (conn : option nat) (a : quic_addr)
| SetRemoteAddr (conn : option nat) (a : quic_addr)
| ConnectionStart (conn conf : option nat) (port : Z)
| ConnectionShutdown (conn : option nat) (fl code : Z)
| ConnectionClose (conn : option nat)
| StreamOpen (conn : option nat)
| StreamStart (stream : option nat)
| StreamShutdown (stream : option nat) (fl code : Z)
| StreamClose (stream : option nat)
| StreamSend (stream : option nat) (bytes : list Z)
| Malloc (size : Z)
| Free (p : Z)
| AllocContext
| FreeContext
| AllocTun.

(** CLIENT_QUIC_CONTEXT *)
Record quic_t := Quic {
  Api : bool;
  ConnectionHandle : option nat;
  StreamHandle : option nat;
  Registration : option nat;
  Configuration : option nat;
  SettingsOf : settings_t;
  RegConfig : option (string * Z);
  CredConfig : Z * Z;
  Alpn : option string;
  ResumptionTicketBuffer : Z;
  ResumptionTicketLength : Z;
  ResumptionTicket : list Z;                  (* the bytes at the buffer *)
  LocalAddr : quic_addr;
  ServerAddr : quic_addr
}.
Definition quic0 : quic_t := Quic false None None None None settings0 None (0, 0) None 0 0 [] quic_addr0 quic_addr0.

(** The session: the context, the states, the TUN handle it publishes and the
    requests made of the driver, the wan interface's name and the server. *)
Record client := MkClient {
  MsQuic : option quic_t;
  tun : option Tun.tun_iface_t;
  tun_state : Z;
  con_state : Z;
  stream_state : Z;
  wan_ifname : option string;
  server_ip_str : string;
  server_port : Z;
  driver : list Tun.sys;
  calls : list api_call
}.

Definition set_MsQuic (q : option quic_t) (s : client) : client :=
  MkClient q (tun s) (tun_state s) (con_state s) (stream_state s) (wan_ifname s) (server_ip_str s)
    (server_port s) (driver s) (calls s).
Definition set_tun (t : option Tun.tun_iface_t) (s : client) : client :=
  MkClient (MsQuic s) t (tun_state s) (con_state s) (stream_state s) (wan_ifname s)
    (server_ip_str s) (server_port s) (driver s) (calls s).
Definition set_tun_state (v : Z) (s : client) : client :=
  MkClient (MsQuic s) (tun s) v (con_state s) (stream_state s) (wan_ifname s) (server_ip_str s)
    (server_port s) (driver s) (calls s).
Definition set_con_state (v : Z) (s : client) : client :=
  MkClient (MsQuic s) (tun s) (tun_state s) v (stream_state s) (wan_ifname s) (server_ip_str s)
    (server_port s) (driver s) (calls s).
Definition set_stream_state (v : Z) (s : client) : client :=
  MkClient (MsQuic s) (tun s) (tun_state s) (con_state s) v (wan_ifname s) (server_ip_str s)
    (server_port s) (driver s) (calls s).
Definition set_driver (d : list Tun.sys) (s : client) : client :=
  MkClient (MsQuic s) (tun s) (tun_state s) (con_state s) (stream_state s) (wan_ifname s)
    (server_ip_str s) (server_port s) d (calls s).
Definition set_calls (c : list api_call) (s : client) : client :=
  MkClient (MsQuic s) (tun s) (tun_state s) (con_state s) (stream_state s) (wan_ifname s)
    (server_ip_str s) (server_port s) (driver s) c.

Definition set_ConnectionHandle (h : option nat) (q : quic_t) : quic_t :=
  Quic (Api q) h (StreamHandle q) (Registration q) (Configuration q) (SettingsOf q) (RegConfig q)
    (CredConfig q) (Alpn q) (ResumptionTicketBuffer q) (ResumptionTicketLength q)
    (ResumptionTicket q) (LocalAddr q) (ServerAddr q).
Definition set_StreamHandle (h : option nat) (q : quic_t) : quic_t :=
  Quic (Api q) (ConnectionHandle q) h (Registration q) (Configuration q) (SettingsOf q) (RegConfig q)
    (CredConfig q) (Alpn q) (ResumptionTicketBuffer q) (ResumptionTicketLength q)
    (ResumptionTicket q) (LocalAddr q) (ServerAddr q).
Definition set_ticket (p len : Z) (bytes : list Z) (q : quic_t) : quic_t :=
  Quic (Api q) (ConnectionHandle q) (StreamHandle q) (Registration q) (Configuration q) (SettingsOf q)
    (RegConfig q) (CredConfig q) (Alpn q) p len bytes (LocalAddr q) (ServerAddr q).
Definition set_registration (c : string * Z) (h : option nat) (q : quic_t) : quic_t :=
  Quic (Api q) (ConnectionHandle q) (StreamHandle q) h (Configuration q) (SettingsOf q) (Some c)
    (CredConfig q) (Alpn q) (ResumptionTicketBuffer q) (ResumptionTicketLength q)
    (ResumptionTicket q) (LocalAddr q) (ServerAddr q).
Definition set_configuration (s : settings_t) (a : option string) (h : option nat) (q : quic_t) : quic_t :=
  Quic (Api q) (ConnectionHandle q) (StreamHandle q) (Registration q) h s (RegConfig q)
    (CredConfig q) a (ResumptionTicketBuffer q) (ResumptionTicketLength q)
    (ResumptionTicket q) (LocalAddr q) (ServerAddr q).
Definition set_cred (c : Z * Z) (q : quic_t) : quic_t :=
  Quic (Api q) (ConnectionHandle q) (StreamHandle q) (Registration q) (Configuration q) (SettingsOf q)
    (RegConfig q) c (Alpn q) (ResumptionTicketBuffer q) (ResumptionTicketLength q)
    (ResumptionTicket q) (LocalAddr q) (ServerAddr q).
Definition set_addrs (l srv : quic_addr) (q : quic_t) : quic_t :=
  Quic (Api q) (ConnectionHandle q) (StreamHandle q) (Registration q) (Configuration q) (SettingsOf q)
    (RegConfig q) (CredConfig q) (Alpn q) (ResumptionTicketBuffer q) (ResumptionTicketLength q)
    (ResumptionTicket q) l srv.
Definition set_api (b : bool) (q : quic_t) : quic_t :=
  Quic b (ConnectionHandle q) (StreamHandle q) (Registration q) (Configuration q) (SettingsOf q)
    (RegConfig q) (CredConfig q) (Alpn q) (ResumptionTicketBuffer q) (ResumptionTicketLength q)
    (ResumptionTicket q) (LocalAddr q) (ServerAddr q).

Inductive stream_event :=
| START_COMPLETE (PeerAccepted : bool) (Status : Z)
| STREAM_RECEIVE (bufs : list (list Z))
| SEND_COMPLETE (context : option (Z * Z))           (* Buffer and the QUIC_BUFFER itself *)
| PEER_SEND_SHUTDOWN
| PEER_SEND_ABORTED (code : Z)
| PEER_RECEIVE_ABORTED (code : Z)
| SEND_SHUTDOWN_COMPLETE (graceful : bool)
| STREAM_SHUTDOWN_COMPLETE
| IDEAL_SEND_BUFFER_SIZE
| PEER_ACCEPTED
| CANCEL_ON_LOSS
| STREAM_OTHER.

Inductive connection_event :=
| RESUMPTION_TICKET_RECEIVED (ticket : list Z)
| DATAGRAM_STATE_CHANGED
| CONNECTED
| SHUTDOWN_INITIATED_BY_TRANSPORT (code : Z)
| SHUTDOWN_INITIATED_BY_PEER (code : Z)
| CONNECTION_SHUTDOWN_COMPLETE
| CONNECTION_OTHER.

Section client.
Context (os : os_t) (table : Tun.api_id → Tun.tun_api_table_t).
Context (env : api_call → nat → Z) (new_handle : nat → nat).
Context (inet_pton6 : string → bool).                  (* inet_pton of AF_INET6: accepted or not *)

Abbreviation M := (M client).

Definition call (c : api_call) : M Z := λ s,
  Ret (env c (length (calls s))) (set_calls (calls s ++ [c]) s).

(** A call that returns a handle through a pointer: its status and the handle. *)
Definition call_open (c : api_call) : M (Z * nat) := λ s,
  Ret (env c (length (calls s)), new_handle (length (calls s))) (set_calls (calls s ++ [c]) s).

Definition upd_quic (f : quic_t → quic_t) : M () := modify (λ s, set_MsQuic (f <$> MsQuic s) s).
Definition check {A} (x : option A) : M A := match x with None => fatal | Some a => mret a end.
Definition assert (b : bool) : M () := if b then mret () else fatal.

(** An operation of state_sync.h on one of the session's states. *)
Definition on_state {A} (get : client → Z) (set : Z → client → client)
    (m : Prelude.M state_sync_t A) : M A := zoom get set m.
Definition sync_tun (v : Z) : M () := on_state tun_state set_tun_state (state_sync_set os false v).
Definition sync_con (v : Z) : M () := on_state con_state set_con_state (state_sync_set os false v).
Definition sync_stream (v : Z) : M () :=
  on_state stream_state set_stream_state (state_sync_set os false v).

(** Operations on the local [tun] of a function. *)
Definition in_driver {A} (t : Tun.tun_iface_t) (m : Prelude.M Tun.world A) : M (A * Tun.tun_iface_t) :=
  λ s,
  match m (Tun.World t (driver s)) with
  | Ret a w => Ret (a, Tun.tun w) (set_driver (Tun.trace w) s)
  | Fatal w => Fatal (set_driver (Tun.trace w) s)
  | Block w => Block (set_driver (Tun.trace w) s)
  end.

(** ** process_ctrl_pkt *)

(** [if (m != 0) goto cleanup;]: [false] is the jump. *)
Definition or_cleanup (m : Prelude.M Tun.world Z) (k : Prelude.M Tun.world bool)
    : Prelude.M Tun.world bool :=
  r ← m;
  if negb (r =? 0) then mret false else k.

Definition configure (ip_str mask_str dns1_str dns2_str net_cidr : string) (wan_ifname : option string)
    (srv : string) (mtu srv_port : Z) : Prelude.M Tun.world bool :=
  or_cleanup (Tun.tun_open table false)
  (or_cleanup (Tun.tun_set_addr table false (Some ip_str) (Some mask_str))
  (or_cleanup (Tun.tun_set_mtu table false mtu)
  (or_cleanup (Tun.tun_set_up table false)
  (Tun.tun_rules_clear table false;;
  (or_cleanup (Tun.tun_set_dns table false (Some dns1_str) (Some dns2_str))
  (or_cleanup (Tun.tun_add_route table false (Some "0.0.0.0/1"%string))
  (or_cleanup (Tun.tun_add_route table false (Some "128.0.0.0/1"%string))
  (or_cleanup (Tun.tun_add_route table false (Some net_cidr))
  ((match wan_ifname with
    | None => fatal                              (* session->wan is NULL *)
    | Some w => Tun.tun_client_rules_add table false (Some w) (Some srv) srv_port
    end);;
  (or_cleanup (Tun.tun_start false)
  (mret true))))))))))).

(** The label cleanup, for a handle or for NULL. *)
Definition cleanup (null : bool) : Prelude.M Tun.world () :=
  Tun.tun_flush_routes table null;;
  Tun.tun_clear_dns table null;;
  Tun.tun_rules_clear table null;;
  Tun.tun_set_down table null;;
  Tun.tun_destroy table null;;
  mret ().

(** No handle: what the calls on NULL run beside. *)
Definition no_tun : Tun.tun_iface_t :=
  Tun.TunIface 0 0 "" 0 0 0 0 0 0 0 Tun.TUN_BACKEND_NETLINK_CLIENT None None.

Definition str_of (r : Z * option string) : string := default ""%string r.2.

Definition config_resp (b : list Z) : M Z :=
  s ← gets id;
  let ip := resp_ip b in
  let mask := resp_mask b in
  let net := Z.land ip mask in
  let mtu := ntohs (resp_mtu b) in
  let ip_str := str_of (in_addr_to_str (Some ip) (Some ""%string) INET_ADDRSTRLEN) in
  let mask_str := str_of (in_addr_to_str (Some mask) (Some ""%string) INET_ADDRSTRLEN) in
  let dns1_str := str_of (in_addr_to_str (Some (resp_dns1 b)) (Some ""%string) INET_ADDRSTRLEN) in
  let dns2_str := str_of (in_addr_to_str (Some (resp_dns2 b)) (Some ""%string) INET_ADDRSTRLEN) in
  let net_cidr := str_of (in_addr_to_cidr (Some net) (Some mask) (Some ""%string) INET_CIDRSTRLEN) in
  mem ← call AllocTun;
  match Tun.tun_create (negb (mem =? 0)) Tun.TUN_BACKEND_NETLINK_CLIENT with
  | None =>
      in_driver no_tun (cleanup true);;
      sync_tun TUN_FAIL;;
      mret (- ENODEV)
  | Some t =>
      '(ok, t) ← in_driver t (configure ip_str mask_str dns1_str dns2_str net_cidr (wan_ifname s)
                                (server_ip_str s) mtu (server_port s));
      if ok : bool then
        modify (set_tun (Some t));;
        sync_tun TUN_READY;;
        mret 0
      else
        in_driver t (cleanup false);;
        sync_tun TUN_FAIL;;
        mret (- ENODEV)
  end.

Definition process_ctrl_pkt (pkt_raw : list Z) : M Z :=
  let p := pkt_of_bytes pkt_raw in
  let h := pkt_ntoh p in
  if negb (frame_ok h) then mret 0
  else if type h.1 =? msg_type VPN_MSG_TYPE_CONFIG_RESP then config_resp (body p)
  else mret 0.

(** ** msquic_stream_callback

    The status, and the TotalBufferLength stored into a RECEIVE event. *)
Definition msquic_stream_callback (handle : nat) (Event : stream_event) : M (Z * option Z) :=
  s ← gets id;
  q ← check (MsQuic s);
  match Event with
  | START_COMPLETE PeerAccepted Status =>
      (if PeerAccepted && QUIC_SUCCEEDED Status then sync_stream STREAM_OPEN
       else sync_stream STREAM_CLOSED);;
      mret (QUIC_STATUS_SUCCESS, None)
  | STREAM_RECEIVE bufs =>
      let recv_bytes := Z.of_nat (length (concat bufs)) in
      if recv_bytes =? 0 then mret (QUIC_STATUS_PROTOCOL_ERROR, None)
      else
        consumed_bytes ← receive_loop process_ctrl_pkt (λ r, negb (r =? 0))
                           (receive_fuel recv_bytes) bufs recv_bytes 0;
        match consumed_bytes with
        | None => mret (QUIC_STATUS_ABORTED, None)
        | Some n => mret (QUIC_STATUS_SUCCESS, Some n)
        end
  | SEND_COMPLETE context =>
      match context with
      | None => mret (QUIC_STATUS_PROTOCOL_ERROR, None)
      | Some (buffer, quic_buffer) =>
          call (Free buffer);;
          call (Free quic_buffer);;
          mret (QUIC_STATUS_SUCCESS, None)
      end
  | PEER_SEND_SHUTDOWN | PEER_SEND_ABORTED _ | PEER_RECEIVE_ABORTED _ | SEND_SHUTDOWN_COMPLETE _ =>
      mret (QUIC_STATUS_SUCCESS, None)
  | STREAM_SHUTDOWN_COMPLETE =>
      sync_stream STREAM_CLOSED;;
      upd_quic (set_StreamHandle None);;
      call (StreamClose (Some handle));;
      (match ConnectionHandle q with
       | Some h =>
           call (ConnectionShutdown (Some h) QUIC_CONNECTION_SHUTDOWN_FLAG_NONE 0);;
           mret ()
       | None => mret ()
       end);;
      mret (QUIC_STATUS_SUCCESS, None)
  | IDEAL_SEND_BUFFER_SIZE | PEER_ACCEPTED | CANCEL_ON_LOSS | STREAM_OTHER =>
      mret (QUIC_STATUS_SUCCESS, None)
  end.

(** ** msquic_connect_callback *)
Definition msquic_connect_callback (handle : nat) (Event : connection_event) : M Z :=
  s ← gets id;
  q ← check (MsQuic s);
  check (ConnectionHandle q);;
  match Event with
  | RESUMPTION_TICKET_RECEIVED ticket =>
      (if negb (ResumptionTicketBuffer q =? 0) then
         call (Free (ResumptionTicketBuffer q));;
         upd_quic (set_ticket 0 0 [])
       else mret ());;
      let len := Z.of_nat (length ticket) in
      p ← call (Malloc len);
      upd_quic (set_ticket p len []);;
      if p =? 0 then mret QUIC_STATUS_OUT_OF_MEMORY
      else
        upd_quic (set_ticket p len ticket);;
        mret QUIC_STATUS_SUCCESS
  | DATAGRAM_STATE_CHANGED => mret QUIC_STATUS_SUCCESS
  | CONNECTED =>
      sync_con SESSION_CONNECTED;;
      mret QUIC_STATUS_SUCCESS
  | SHUTDOWN_INITIATED_BY_TRANSPORT _ | SHUTDOWN_INITIATED_BY_PEER _ => mret QUIC_STATUS_SUCCESS
  | CONNECTION_SHUTDOWN_COMPLETE =>
      sync_con SESSION_DISCONNECTED;;
      upd_quic (set_ConnectionHandle None);;
      call (ConnectionClose (Some handle));;
      mret QUIC_STATUS_SUCCESS
  | CONNECTION_OTHER => mret QUIC_STATUS_SUCCESS
  end.

(** ** The setup *)

Definition MsQuicCreate : M (option quic_t) :=
  p ← call AllocContext;
  mret (if p =? 0 then None else Some quic0).

Definition MsQuicRegister (app_name : option string) (exec_profile : Z) : M Z :=
  s ← gets id;
  match MsQuic s, app_name with
  | Some _, Some app =>
      Status ← call MsQuicOpen2;
      if QUIC_FAILED Status then mret (- ECANCELED)
      else
        upd_quic (set_api true);;
        '(Status, h) ← call_open (RegistrationOpen app exec_profile);
        upd_quic (λ q, set_registration (app, exec_profile)
                         (if QUIC_FAILED Status then Registration q else Some h) q);;
        if QUIC_FAILED Status then mret (- ECANCELED) else mret 0
  | _, _ => mret (- EINVAL)
  end.

Definition MsQuicConfigAddr (local_addr server_addr : option string) (srv_port : Z) : M Z :=
  s ← gets id;
  match MsQuic s, local_addr, server_addr with
  | Some q, Some l, Some srv =>
      let '(rc, a) := config_addr inet_pton6 srv srv_port in
      upd_quic (set_addrs (LocalAddr q) a);;
      if negb (rc =? 0) then mret rc
      else
        let '(rc, b) := config_addr inet_pton6 l 0 in
        upd_quic (set_addrs b a);;
        mret rc
  | _, _, _ => mret (- EINVAL)
  end.

Definition client_settings : settings_t :=
  Settings (Some (2 * 5 * 1000)) (Some (30 * 1000)) (Some 0) (Some (5 * 1000)) (Some 1) (Some 1480)
    (Some 1280).

Definition MsQuicConfigParameters (alpn : option string) : M Z :=
  s ← gets id;
  match MsQuic s, alpn with
  | Some q, Some alpn =>
      upd_quic (set_configuration client_settings (Some alpn) (Configuration q));;
      assert (Api q);;
      '(Status, h) ← call_open (ConfigurationOpen (Registration q) alpn client_settings);
      if QUIC_FAILED Status then mret (- ECANCELED)
      else
        upd_quic (set_configuration client_settings (Some alpn) (Some h));;
        mret 0
  | _, _ => mret (- EINVAL)
  end.

Definition MsQuicConfigCredentials : M Z :=
  s ← gets id;
  match MsQuic s with
  | Some q =>
      let fl := Z.lor QUIC_CREDENTIAL_FLAG_CLIENT QUIC_CREDENTIAL_FLAG_NO_CERTIFICATE_VALIDATION in
      upd_quic (set_cred (QUIC_CREDENTIAL_TYPE_NONE, fl));;
      assert (Api q);;
      Status ← call (ConfigurationLoadCredential (Configuration q) QUIC_CREDENTIAL_TYPE_NONE fl);
      if QUIC_FAILED Status then mret (- ECANCELED) else mret 0
  | None => mret (- EINVAL)
  end.

(** The error exits after ConnectionOpen. *)
Definition close_connection (h : nat) : M Z :=
  call (ConnectionClose (Some h));;
  upd_quic (set_ConnectionHandle None);;
  mret (- ECONNABORTED).

(** [started]: what MsQuic's threads do from the start of the connection on
    until the code stores SESSION_CONNECTING; [clock], [wakes]: the wait. *)
Definition MsQuicConnectionStart (started : M ()) (clock : option timespec) (wakes : list (Z * Z)) : M Z :=
  s ← gets id;
  q ← check (MsQuic s);
  assert (Api q);;
  '(Status, h) ← call_open (ConnectionOpen (Registration q));
  if QUIC_FAILED Status then mret (- ECONNABORTED)
  else
    upd_quic (set_ConnectionHandle (Some h));;
    Status ← call (SetLocalAddr (Some h) (LocalAddr q));
    if QUIC_FAILED Status then close_connection h
    else
      Status ← call (SetRemoteAddr (Some h) (ServerAddr q));
      if QUIC_FAILED Status then close_connection h
      else
        Status ← call (ConnectionStart (Some h) (Configuration q) (port (ServerAddr q)));
        if QUIC_FAILED Status then close_connection h
        else
          started;;
          sync_con SESSION_CONNECTING;;
          r ← on_state con_state set_con_state
                (state_sync_wait_ms_abort os false SESSION_CONNECTED SESSION_DISCONNECTED 5000 clock wakes);
          if negb (r =? 0) then mret (- ETIMEDOUT) else mret 0.

Definition MsQuicStreamStart (started : M ()) (clock : option timespec) (wakes : list (Z * Z)) : M Z :=
  ok ← on_state con_state set_con_state (state_sync_check os false SESSION_CONNECTED);
  if negb ok then mret (- ECONNABORTED)
  else
    s ← gets id;
    q ← check (MsQuic s);
    assert (Api q);;
    '(Status, h) ← call_open (StreamOpen (ConnectionHandle q));
    if QUIC_FAILED Status then
      sync_stream STREAM_CLOSED;;
      mret (- ECONNABORTED)
    else
      upd_quic (set_StreamHandle (Some h));;
      Status ← call (StreamStart (Some h));
      if QUIC_FAILED Status then
        call (StreamClose (Some h));;
        upd_quic (set_StreamHandle None);;
        sync_stream STREAM_CLOSED;;
        mret (- ECONNABORTED)
      else
        started;;
        sync_stream STREAM_OPENING;;
        r ← on_state stream_state set_stream_state
              (state_sync_wait_ms_abort os false STREAM_OPEN STREAM_CLOSED 5000 clock wakes);
        if negb (r =? 0) then mret (- ETIMEDOUT) else mret 0.

Definition MsQuicStreamSend (buf : option (list Z)) : M Z :=
  s ← gets id;
  q ← check (MsQuic s);
  bytes ← check buf;
  assert (0 <? Z.of_nat (length bytes));;
  assert (Api q);;
  out_buf ← call (Malloc (Z.of_nat (length bytes)));
  if out_buf =? 0 then
    call (StreamShutdown (StreamHandle q) QUIC_STREAM_SHUTDOWN_FLAG_ABORT 0);;
    mret (- ENOMEM)
  else
    quic_buf ← call (Malloc 16);
    assert (negb (quic_buf =? 0));;              (* not checked by the code *)
    Status ← call (StreamSend (StreamHandle q) bytes);
    if QUIC_FAILED Status then
      call (Free out_buf);;
      call (Free quic_buf);;
      call (StreamShutdown (StreamHandle q) QUIC_STREAM_SHUTDOWN_FLAG_ABORT 0);;
      mret (- ECANCELED)
    else mret 0.

(** [closing]: the callbacks MsQuic makes before ConnectionClose returns. *)
Definition MsQuicShutdown (closing : M ()) : M Z :=
  s ← gets id;
  match MsQuic s with
  | None => mret (- EINVAL)
  | Some q =>
      (if Api q then
         (match ConnectionHandle q with
          | Some h => call (ConnectionClose (Some h));; closing
          | None => mret ()
          end);;
         (match Configuration q with Some c => call (ConfigurationClose c);; mret () | None => mret () end);;
         (match Registration q with Some r => call (RegistrationClose r);; mret () | None => mret () end);;
         call MsQuicClose;;
         mret ()
       else mret ());;
      call FreeContext;;
      mret 0
  end.
End client.

(** ** The answer to a configuration response *)
Section outcome.
Context (os : os_t) (table : Tun.api_id → Tun.tun_api_table_t).
Context (env : api_call → nat → Z).
Context (Hos : posix_ok os).
Implicit Types (s : client) (w : Tun.world).

Context (Hd : driver_total table).

Lemma returns_cleanup n : returns (cleanup table n).
Proof.
  unfold cleanup. repeat (apply returns_bind; [|intros ?]);
    [by apply returns_flush|by apply returns_clear_dns|by apply returns_rules_clear|by apply returns_set_down
    |by apply returns_destroy|apply returns_ret].
Qed.

Lemma returns_or_cleanup m k : returns m → returns k → returns (or_cleanup m k).
Proof. intros Hm Hk. apply returns_bind; [done|]. intros r. by apply returns_if; [apply returns_ret|]. Qed.

Lemma returns_configure ip_str mask_str dns1_str dns2_str cidr wan srv m p : wan ≠ None →
  returns (configure table ip_str mask_str dns1_str dns2_str cidr wan srv m p).
Proof.
  intros Hw. unfold configure.
  do 4 (apply returns_or_cleanup;
    [first [by apply returns_open|by apply returns_set_addr|by apply returns_set_mtu|by apply returns_set_up]|]).
  apply returns_bind; [by apply returns_rules_clear|]. intros _.
  do 4 (apply returns_or_cleanup; [first [by apply returns_set_dns|by apply returns_add_route]|]).
  apply returns_bind; [destruct wan; [by apply returns_rules|done]|]. intros _.
  apply returns_or_cleanup; [apply returns_start|apply returns_ret].
Qed.

(** [configure] succeeds only through tun_start. *)
Lemma or_cleanup_true m k w w' :
  or_cleanup m k w = Ret true w' → ∃ w1, m w = Ret 0 w1 ∧ k w1 = Ret true w'.
Proof.
  unfold or_cleanup, mbind, M_bind. destruct (m w) as [r w1| |]; [|done..].
  destruct (Z.eqb_spec r 0) as [->|]; cbn; [eauto|done].
Qed.

Lemma bind_true {A} (m : M Tun.world A) (k : M Tun.world bool) w w' :
  (m;; k) w = Ret true w' → ∃ a w1, m w = Ret a w1 ∧ k w1 = Ret true w'.
Proof. unfold mbind, M_bind. destruct (m w) as [a w1| |]; [eauto|done..]. Qed.

Lemma configure_true ip_str mask_str dns1_str dns2_str cidr wan srv m p w w' :
  configure table ip_str mask_str dns1_str dns2_str cidr wan srv m p w = Ret true w' →
  ready (Tun.tun w').
Proof.
  unfold configure. intros H.
  do 4 (apply or_cleanup_true in H as (? & _ & H)). apply bind_true in H as (? & ? & _ & H).
  do 4 (apply or_cleanup_true in H as (? & _ & H)). apply bind_true in H as (? & ? & _ & H).
  apply or_cleanup_true in H as (w1 & H1 & H2). apply start_ready in H1 as [-> ?].
  by injection H2 as <-.
Qed.

Lemma sync_tun_run v s : sync_tun os v s = Ret () (set_tun_state v s).
Proof. unfold sync_tun, on_state, zoom. by rewrite state_sync_set_posix. Qed.
Lemma sync_con_run v s : sync_con os v s = Ret () (set_con_state v s).
Proof. unfold sync_con, on_state, zoom. by rewrite state_sync_set_posix. Qed.
Lemma sync_stream_run v s : sync_stream os v s = Ret () (set_stream_state v s).
Proof. unfold sync_stream, on_state, zoom. by rewrite state_sync_set_posix. Qed.

Lemma in_driver_run {A} t (m : M Tun.world A) s : returns m →
  ∃ a w, m (Tun.World t (driver s)) = Ret a w ∧
    in_driver t m s = Ret (a, Tun.tun w) (set_driver (Tun.trace w) s).
Proof.
  intros Hm. destruct (Hm (Tun.World t (driver s))) as (a & w & E). exists a, w. split; [done|].
  unfold in_driver. by rewrite E.
Qed.

(** What a response leaves alone. *)
Definition same_session s s' : Prop :=
  MsQuic s' = MsQuic s ∧ con_state s' = con_state s ∧ stream_state s' = stream_state s ∧
  server_ip_str s' = server_ip_str s ∧ server_port s' = server_port s ∧ wan_ifname s' = wan_ifname s.

Lemma process_ctrl_run pkt s : wan_ifname s ≠ None →
  runs (process_ctrl_pkt os table env pkt) s (λ r s',
    same_session s s' ∧
    if frame_ok (pkt_ntoh (pkt_of_bytes pkt)) &&
       (type (pkt_ntoh (pkt_of_bytes pkt)).1 =? msg_type VPN_MSG_TYPE_CONFIG_RESP)
    then (r = 0 ∧ tun_state s' = TUN_READY ∧ ∃ t, tun s' = Some t ∧ ready t) ∨
         (r = - ENODEV ∧ tun_state s' = TUN_FAIL ∧ tun s' = tun s)
    else r = 0 ∧ s' = s).
Proof.
  intros Hw. unfold process_ctrl_pkt. destruct (frame_ok _); [|by split]. cbn [negb andb].
  destruct (type _ =? _); [|by split]. unfold config_resp. apply runs_bind.
  unfold gets, runs at 1. change (id s) with s. apply runs_bind. unfold call, runs at 1.
  set (s1 := set_calls _ s). destruct (env AllocTun (length (calls s)) =? 0); cbn [negb Tun.tun_create Tun.get_sys_api].
  - destruct (in_driver_run no_tun (cleanup table true) s1 (returns_cleanup true)) as (a & w & _ & E).
    apply runs_bind. unfold runs at 1. rewrite E. apply runs_bind. unfold runs at 1.
    rewrite sync_tun_run. split; [done|]. by right.
  - match goal with |- runs (x ← in_driver ?t ?m; _) _ _ =>
      destruct (in_driver_run t m s1 (returns_configure _ _ _ _ _ _ _ _ _ Hw)) as (ok & w & Ew & E) end.
    apply runs_bind. unfold runs at 1. rewrite E. destruct ok.
    + apply runs_bind. unfold modify, runs at 1. apply runs_bind. unfold runs at 1.
      rewrite sync_tun_run. split; [done|]. left. split; [done|]. split; [done|].
      eexists. split; [done|]. by eapply configure_true.
    + destruct (in_driver_run (Tun.tun w) (cleanup table false) (set_driver (Tun.trace w) s1)
        (returns_cleanup false)) as (a & w2 & _ & E2).
      apply runs_bind. unfold runs at 1. rewrite E2. apply runs_bind. unfold runs at 1.
      rewrite sync_tun_run. split; [done|]. by right.
Qed.

End outcome.

(** ** Starting and ending the connection *)
Section connection.
Context (os : os_t) (env : api_call → nat → Z) (new_handle : nat → nat).
Context (Hos : posix_ok os).
Implicit Types s : client.

Lemma call_bind {A} c (k : Z → M client A) s :
  (x ← call env c; k x) s = k (env c (length (calls s))) (set_calls (calls s ++ [c]) s).
Proof. done. Qed.
Lemma call_open_bind {A} c (k : Z * nat → M client A) s :
  (x ← call_open env new_handle c; k x) s =
  k (env c (length (calls s)), new_handle (length (calls s))) (set_calls (calls s ++ [c]) s).
Proof. done. Qed.
Lemma upd_bind {A} f (k : M client A) s :
  (upd_quic f;; k) s = k (set_MsQuic (f <$> MsQuic s) s).
Proof. done. Qed.

(** MsQuic takes what the start of a connection asks of it. *)
Definition start_ok : Prop :=
  (∀ r n, QUIC_FAILED (env (ConnectionOpen r) n) = false) ∧
  (∀ c a n, QUIC_FAILED (env (SetLocalAddr c a) n) = false) ∧
  (∀ c a n, QUIC_FAILED (env (SetRemoteAddr c a) n) = false) ∧
  (∀ c d p n, QUIC_FAILED (env (ConnectionStart c d p) n) = false).

(** The session when the handshake has been started: the new handle, the calls. *)
Definition started_session (q : quic_t) s : client :=
  let h := new_handle (length (calls s)) in
  set_MsQuic (Some (set_ConnectionHandle (Some h) q))
    (set_calls (calls s ++ [ConnectionOpen (Registration q); SetLocalAddr (Some h) (LocalAddr q);
                            SetRemoteAddr (Some h) (ServerAddr q);
                            ConnectionStart (Some h) (Configuration q) (port (ServerAddr q))]) s).

Lemma connection_start_run started clock wakes q s :
  start_ok → MsQuic s = Some q → Api q = true →
  MsQuicConnectionStart os env new_handle started clock wakes s =
  (started;;
   sync_con os SESSION_CONNECTING;;
   r ← on_state con_state set_con_state
         (state_sync_wait_ms_abort os false SESSION_CONNECTED SESSION_DISCONNECTED 5000 clock wakes);
   if negb (r =? 0) then mret (- ETIMEDOUT) else mret 0) (started_session q s).
Proof.
  intros (H1 & H2 & H3 & H4) Hq Ha. destruct s as [m t ts cs ss wi si sp d c]. cbn [MsQuic] in Hq. subst m.
  unfold MsQuicConnectionStart. rewrite bind_gets.
  set (s := MkClient _ _ _ _ _ _ _ _ _ _). set (h := new_handle (length c)).
  rewrite (bind_run _ _ s q s) by done. rewrite (bind_run _ _ s () s) by by rewrite Ha.
  rewrite call_open_bind, H1. rewrite upd_bind, call_bind, H2, call_bind, H3, call_bind, H4.
  unfold started_session, s. cbn [calls]. cbn -[mbind]. by rewrite <- !(assoc_L (++)).
Qed.

(** An event that is too early is lost: when CONNECTED arrives after the
    code stored SESSION_CONNECTING the start returns 0; when it arrives before,
    while ConnectionStart returns, its state is overwritten, and with nothing
    more to report the start times out after five seconds and fails, although
    the connection is up and its handle stays open. *)
Theorem connection_start_loses_early_event q s ts :
  start_ok → MsQuic s = Some q → Api q = true → timespec_ok ts → tv_sec ts < INT64_MAX - 5 →
  let h := new_handle (length (calls s)) in
  runs (MsQuicConnectionStart os env new_handle (mret ()) (Some ts) [(0, SESSION_CONNECTED)]) s
    (λ r s', r = 0 ∧ con_state s' = SESSION_CONNECTED) ∧
  runs (MsQuicConnectionStart os env new_handle
          (msquic_connect_callback os env h CONNECTED;; mret ()) (Some ts)
          [(ETIMEDOUT, SESSION_CONNECTING)]) s
    (λ r s', r = - ETIMEDOUT ∧ con_state s' = SESSION_CONNECTING ∧
       ConnectionHandle <$> MsQuic s' = Some (Some h)).
Proof.
  intros Hst Hq Ha Hts Hsec h.
  assert (Hadd : (state_sync_timespec_add_ms ts 5000).1 = 0).
  { unfold state_sync_timespec_add_ms. change (5000 / 1000) with 5.
    destruct (Z.ltb_spec (INT64_MAX - 5) (tv_sec ts)); [lia|]. by destruct (1000000000 <=? _). }
  assert (Hwait : ∀ s1 w v, con_state s1 = SESSION_CONNECTING →
    abort_loop os SESSION_CONNECTED SESSION_DISCONNECTED w SESSION_CONNECTING = v →
    on_state con_state set_con_state
      (state_sync_wait_ms_abort os false SESSION_CONNECTED SESSION_DISCONNECTED 5000 (Some ts) w) s1 =
    match v with Ret a x => Ret a (set_con_state x s1) | Fatal x => Fatal (set_con_state x s1)
               | Block x => Block (set_con_state x s1) end).
  { intros s1 w v Hs1 <-. unfold on_state, zoom, state_sync_wait_ms_abort. rewrite Hs1.
    rewrite (bind_run _ _ SESSION_CONNECTING () SESSION_CONNECTING) by by apply rc_ok_posix.
    rewrite bind_gets. unfold id. cbn -[abort_loop]. by rewrite Hadd. }
  split; unfold runs; rewrite (connection_start_run _ _ _ q s Hst Hq Ha).
  - rewrite bind_ret. rewrite (bind_run _ _ _ _ _ (sync_con_run os Hos _ _)).
    rewrite (bind_run _ _ _ 0 (set_con_state SESSION_CONNECTED (set_con_state SESSION_CONNECTING (started_session q s)))).
    + done.
    + rewrite (Hwait _ _ (Ret 0 SESSION_CONNECTED)); [done|done|].
      cbn. unfold mbind, M_bind. by rewrite rc_ok_posix.
  - set (s1 := started_session q s).
    assert (Ecb : (msquic_connect_callback os env h CONNECTED;; mret ()) s1 =
      Ret () (set_con_state SESSION_CONNECTED s1)).
    { unfold msquic_connect_callback. unfold mbind at 1, M_bind at 1. rewrite bind_gets.
      rewrite (bind_run _ _ s1 (set_ConnectionHandle (Some h) q) s1) by done.
      rewrite (bind_run _ _ s1 h s1) by done. by rewrite (bind_run _ _ _ _ _ (sync_con_run os Hos _ _)). }
    rewrite (bind_run _ _ s1 () _ Ecb). rewrite (bind_run _ _ _ _ _ (sync_con_run os Hos _ _)).
    rewrite (bind_run _ _ _ (- ETIMEDOUT) (set_con_state SESSION_CONNECTING
      (set_con_state SESSION_CONNECTING (set_con_state SESSION_CONNECTED s1)))).
    + done.
    + by rewrite (Hwait _ _ (Ret (- ETIMEDOUT) SESSION_CONNECTING)).
Qed.

(** The calls of a shutdown after the connection. *)
Definition close_rest (q : quic_t) : list api_call :=
  match Configuration q with Some c => [ConfigurationClose c] | None => [] end ++
  match Registration q with Some r => [RegistrationClose r] | None => [] end ++
  [MsQuicClose; FreeContext].

Lemma shutdown_run closing q s s1 : MsQuic s = Some q → Api q = true →
  match ConnectionHandle q with
  | Some h => call env (ConnectionClose (Some h));; closing
  | None => mret ()
  end s = Ret () s1 →
  MsQuicShutdown env closing s = Ret 0 (set_calls (calls s1 ++ close_rest q) s1).
Proof.
  intros Hq Ha H. unfold MsQuicShutdown. rewrite bind_gets. unfold id. rewrite Hq, Ha.
  unfold close_rest. rewrite (bind_run _ _ s () (set_calls (calls s1 ++
    match Configuration q with Some c => [ConfigurationClose c] | None => [] end ++
    match Registration q with Some r => [RegistrationClose r] | None => [] end ++ [MsQuicClose]) s1)).
  - rewrite call_bind. cbn. by rewrite <- !(assoc_L (++)).
  - rewrite (bind_run _ _ s () s1 H).
    destruct (Configuration q), (Registration q); unfold mbind, M_bind, call; cbn;
      unfold set_calls; cbn; by rewrite <- ?(assoc_L (++)).
Qed.

Lemma shutdown_complete_run q s h : MsQuic s = Some q → ConnectionHandle q = Some h →
  msquic_connect_callback os env h CONNECTION_SHUTDOWN_COMPLETE s = Ret QUIC_STATUS_SUCCESS
    (set_calls (calls s ++ [ConnectionClose (Some h)])
      (set_MsQuic (Some (set_ConnectionHandle None q)) (set_con_state SESSION_DISCONNECTED s))).
Proof.
  intros E1 E2. unfold msquic_connect_callback. rewrite bind_gets.
  rewrite (bind_run _ _ s q s) by (unfold id; by rewrite E1).
  rewrite (bind_run _ _ s h s) by by rewrite E2.
  rewrite (bind_run _ _ _ _ _ (sync_con_run os Hos _ _)). rewrite upd_bind, call_bind. cbn. by rewrite E1.
Qed.

(** The connection is closed once, or twice: after the callback has seen
    the end of the connection, shutting down does not close it again; shutting
    down a live connection closes it, and once more if MsQuic reports the end
    of the connection to the callback before ConnectionClose returns. In no
    case is the resumption ticket freed. *)
Theorem client_shutdown_closes q s h :
  MsQuic s = Some q → Api q = true → ConnectionHandle q = Some h →
  runs (msquic_connect_callback os env h CONNECTION_SHUTDOWN_COMPLETE;;
        MsQuicShutdown env (mret ())) s
    (λ r s', r = 0 ∧ con_state s' = SESSION_DISCONNECTED ∧
             calls s' = calls s ++ ConnectionClose (Some h) :: close_rest q) ∧
  runs (MsQuicShutdown env (mret ())) s
    (λ r s', r = 0 ∧ calls s' = calls s ++ ConnectionClose (Some h) :: close_rest q) ∧
  runs (MsQuicShutdown env (msquic_connect_callback os env h CONNECTION_SHUTDOWN_COMPLETE;; mret ())) s
    (λ r s', r = 0 ∧
       calls s' = calls s ++ ConnectionClose (Some h) :: ConnectionClose (Some h) :: close_rest q).
Proof.
  intros Hq Ha Hh. split; [|split]; unfold runs.
  - rewrite (bind_run _ _ _ _ _ (shutdown_complete_run q s h Hq Hh)).
    erewrite (shutdown_run _ (set_ConnectionHandle None q)); [|reflexivity|exact Ha|reflexivity].
    cbn [calls set_calls con_state]. by rewrite <- (assoc_L (++)).
  - erewrite (shutdown_run _ q); [|done|done|rewrite Hh; reflexivity]. cbn [calls set_calls].
    by rewrite <- (assoc_L (++)).
  - erewrite (shutdown_run _ q); [|done|done|].
    2:{ rewrite Hh, call_bind. erewrite bind_run; [|by apply (shutdown_complete_run q)]. reflexivity. }
    cbn [calls set_calls]. by rewrite <- !(assoc_L (++)).
Qed.
End connection.

(** ** Witnesses *)

(** A driver whose functions all answer 0, an environment that grants
    everything, a session with a context and no wan address yet. *)
Definition sample_api : Tun.tun_api_table_t :=
  Tun.ApiTable (Some (mret 0)) (Some (λ _ _, mret 0)) (Some (λ _, mret 0)) (Some (mret 0)) (Some (mret 0))
    (Some (λ _, mret 0)) (Some (mret 0)) (Some (λ _ _, mret 0)) (Some (mret 0)) None None
    (Some (λ _ _ _, mret 0)) (Some (mret 0)) None (Some (mret 0)).
Definition grant (c : api_call) (n : nat) : Z :=
  match c with Malloc _ | AllocContext | AllocTun => 4096 + Z.of_nat n | _ => 0 end.
Definition sample_quic : quic_t :=
  set_api true (set_ConnectionHandle (Some 5%nat) (set_registration ("vpn"%string, 0) (Some 1%nat) quic0)).
Definition sample_client : client :=
  MkClient (Some sample_quic) None TUN_CLOSED 0 0 (Some "eth0"%string) "198.51.100.7" 4567 [] [].

Lemma sample_driver_total : driver_total (λ _, sample_api).
Proof.
  split; intros ?; cbn; intros; simplify_eq; try apply returns_ret.
  eexists; split; [reflexivity|apply returns_ret].
Qed.

(** A CONFIG_RESP for 10.8.0.2/24 with MTU 1400. *)
Definition sample_resp : list Z :=
  match pkt_ctrl_create_config_resp true 1 0 1400 131082 16777215 0 0 with
  | Some p => pkt_bytes p
  | None => []
  end.


Lemma grant_start_ok : start_ok grant.
Proof. by repeat split. Qed.

Lemma connection_start_loses_early_event_witness :
  start_ok grant ∧
  runs (MsQuicConnectionStart os_posix grant S
          (msquic_connect_callback os_posix grant 1 CONNECTED;; mret ()) (Some (Timespec 100 0))
          [(ETIMEDOUT, SESSION_CONNECTING)]) sample_client
    (λ r s', r = - ETIMEDOUT ∧ con_state s' = SESSION_CONNECTING ∧
       ConnectionHandle <$> MsQuic s' = Some (Some 1%nat)).
Proof.
  split; [exact grant_start_ok|].
  apply (connection_start_loses_early_event os_posix grant S os_posix_ok sample_quic sample_client
    (Timespec 100 0) grant_start_ok); by vm_compute.
Defined.

Lemma client_shutdown_closes_witness :
  runs (MsQuicShutdown grant (mret ())) sample_client
    (λ r s', r = 0 ∧ calls s' = [ConnectionClose (Some 5%nat); RegistrationClose 1; MsQuicClose; FreeContext]).
Proof.
  destruct (client_shutdown_closes os_posix grant os_posix_ok sample_quic sample_client 5)
    as (_ & H & _); [done..|]. exact H.
Defined.
