(* ===== verification/ClientEngine.v ===== *)
(** * vpn_client_engine.c and session.c of the client: starting and stopping

    The state is the session with the QUIC part of ClientQuic.v, the objects
    the engine creates, the worlds of the interface queries and of the
    resolver, and a ledger of what was acquired and given back.  Malloc,
    eventfd and pthread_create answer through [sys_answer]; the callbacks
    MsQuic makes while the engine waits, the clock and the wake-ups of the waits
    are the [schedule].  A join waits for a thread that ends; joining a thread
    that was never created is [Fatal]. *)
From stdpp Require Import prelude strings gmap.
From Stdlib Require Import ZArith Lia Ascii.
From S2P Require Import Prelude Utils PktCtrl Ledger StateSync ClientQuic.
From S2P Require Tun Pool Queue NetIface DefaultWan Domain Frames.

Inductive resource :=
| RSession | RTunState | RConState | RStreamState | REventfd | RPoolSend | RPoolRecv | RQueueRecv
| RWan | RCtrlPkt | RThreadSend | RThreadRecv.
#[export] Instance resource_eq_dec : EqDecision resource.
Proof. solve_decision. Defined.

Inductive sys_call :=
| MallocSession | EventFd | MallocPoolSend | MallocPoolRecv | MallocQueue | MallocSlots
| MallocWan | CallocPkt | CreateSend | CreateRecv.

Definition sizeof_pkt_data_t : Z := 2064.

(** vpn_config_t *)
Record vpn_config_t := VpnConfig { server_hostname : string; config_port : Z }.

Record engine := Engine {
  cl : client;
  wan : option DefaultWan.net_iface_t;
  shutdown_fd : Z;
  pool_send : option Pool.pool_t;
  pool_recv : option Pool.pool_t;
  queue_recv : option Queue.queue_t;
  running_send : bool;
  running_recv : bool;
  thread_send : bool;                     (* the thread was created and not joined *)
  thread_recv : bool;
  net : NetIface.os_state;
  dns : list Domain.gai_call;
  log : list (ledger_event resource)
}.

Definition set_cl (x : client) (e : engine) : engine :=
  Engine x (wan e) (shutdown_fd e) (pool_send e) (pool_recv e) (queue_recv e) (running_send e)
    (running_recv e) (thread_send e) (thread_recv e) (net e) (dns e) (log e).
Definition set_wan (x : option DefaultWan.net_iface_t) (e : engine) : engine :=
  Engine (cl e) x (shutdown_fd e) (pool_send e) (pool_recv e) (queue_recv e) (running_send e)
    (running_recv e) (thread_send e) (thread_recv e) (net e) (dns e) (log e).
Definition set_shutdown_fd (x : Z) (e : engine) : engine :=
  Engine (cl e) (wan e) x (pool_send e) (pool_recv e) (queue_recv e) (running_send e)
    (running_recv e) (thread_send e) (thread_recv e) (net e) (dns e) (log e).
Definition set_pool_send (x : option Pool.pool_t) (e : engine) : engine :=
  Engine (cl e) (wan e) (shutdown_fd e) x (pool_recv e) (queue_recv e) (running_send e)
    (running_recv e) (thread_send e) (thread_recv e) (net e) (dns e) (log e).
Definition set_pool_recv (x : option Pool.pool_t) (e : engine) : engine :=
  Engine (cl e) (wan e) (shutdown_fd e) (pool_send e) x (queue_recv e) (running_send e)
    (running_recv e) (thread_send e) (thread_recv e) (net e) (dns e) (log e).
Definition set_queue_recv (x : option Queue.queue_t) (e : engine) : engine :=
  Engine (cl e) (wan e) (shutdown_fd e) (pool_send e) (pool_recv e) x (running_send e)
    (running_recv e) (thread_send e) (thread_recv e) (net e) (dns e) (log e).
Definition set_running_send (x : bool) (e : engine) : engine :=
  Engine (cl e) (wan e) (shutdown_fd e) (pool_send e) (pool_recv e) (queue_recv e) x
    (running_recv e) (thread_send e) (thread_recv e) (net e) (dns e) (log e).
Definition set_running_recv (x : bool) (e : engine) : engine :=
  Engine (cl e) (wan e) (shutdown_fd e) (pool_send e) (pool_recv e) (queue_recv e) (running_send e)
    x (thread_send e) (thread_recv e) (net e) (dns e) (log e).
Definition set_thread_send (x : bool) (e : engine) : engine :=
  Engine (cl e) (wan e) (shutdown_fd e) (pool_send e) (pool_recv e) (queue_recv e) (running_send e)
    (running_recv e) x (thread_recv e) (net e) (dns e) (log e).
Definition set_thread_recv (x : bool) (e : engine) : engine :=
  Engine (cl e) (wan e) (shutdown_fd e) (pool_send e) (pool_recv e) (queue_recv e) (running_send e)
    (running_recv e) (thread_send e) x (net e) (dns e) (log e).
Definition set_net (x : NetIface.os_state) (e : engine) : engine :=
  Engine (cl e) (wan e) (shutdown_fd e) (pool_send e) (pool_recv e) (queue_recv e) (running_send e)
    (running_recv e) (thread_send e) (thread_recv e) x (dns e) (log e).
Definition set_dns (x : list Domain.gai_call) (e : engine) : engine :=
  Engine (cl e) (wan e) (shutdown_fd e) (pool_send e) (pool_recv e) (queue_recv e) (running_send e)
    (running_recv e) (thread_send e) (thread_recv e) (net e) x (log e).
Definition add_log (x : list (ledger_event resource)) (e : engine) : engine :=
  Engine (cl e) (wan e) (shutdown_fd e) (pool_send e) (pool_recv e) (queue_recv e) (running_send e)
    (running_recv e) (thread_send e) (thread_recv e) (net e) (dns e) (log e ++ x).

(** Fields of the QUIC part the engine sets. *)
Definition set_wan_ifname (x : option string) (s : client) : client :=
  MkClient (MsQuic s) (tun s) (tun_state s) (con_state s) (stream_state s) x (server_ip_str s)
    (server_port s) (driver s) (calls s).
Definition set_server (ip : string) (p : Z) (s : client) : client :=
  MkClient (MsQuic s) (tun s) (tun_state s) (con_state s) (stream_state s) (wan_ifname s) ip p
    (driver s) (calls s).

(** What happens beside the start: the callbacks MsQuic makes from the start of
    the connection and of the stream, those it makes once the request is out,
    and the waits' clock and wake-ups. *)
Record schedule := Schedule {
  on_connect : M client (); connect_clock : option timespec; connect_wakes : list (Z * Z);
  on_stream : M client (); stream_clock : option timespec; stream_wakes : list (Z * Z);
  on_request : M client (); request_clock : option timespec; request_wakes : list (Z * Z);
  on_close : M client ()
}.

Section engine.
Context (os : os_t) (table : Tun.api_id → Tun.tun_api_table_t).
Context (env : api_call → nat → Z) (new_handle : nat → nat) (inet_pton6 : string → bool).
Context (gai : string → Z → nat → Z * option Domain.addrinfo).
Context (netenv : NetIface.history → NetIface.sysreq → NetIface.answer)
        (uninit : NetIface.history → list Z)
        (route_garbage : NetIface.netlink_route_info_t) (addr_garbage : NetIface.netlink_addr_info_t)
        (link_garbage : NetIface.netlink_link_info_t) (polls : nat).
Context (sys_answer : sys_call → Z) (sch : schedule).

Abbreviation M := (M engine).

Definition acquire (r : resource) : M () := modify (add_log [Acquire r]).
Definition release (r : resource) : M () := modify (add_log [Release r]).
Definition quic {A} (m : Prelude.M client A) : M A := zoom cl set_cl m.
Definition found (c : sys_call) : bool := negb (sys_answer c =? 0).

(** state_sync_init and state_sync_destroy on one of the session's states. *)
Definition init_state (r : resource) (get : client → Z) (set : Z → client → client) (v : Z) : M Z :=
  rc ← quic (zoom get set (state_sync_init os false v));
  (if rc =? 0 then acquire r else mret ());;
  mret rc.
Definition destroy_state (r : resource) (get : client → Z) (set : Z → client → client) : M () :=
  quic (zoom get set (state_sync_destroy os false));;
  release r.

(** pool_destroy and queue_destroy of a pointer that may be NULL. *)
Definition destroy_pool (r : resource) (get : engine → option Pool.pool_t) : M () :=
  p ← gets get;
  match p with
  | None => mret ()
  | Some p => zoom (λ _, p) (λ _ e, e) (Pool.pool_destroy os false);; release r
  end.
Definition destroy_queue : M () :=
  q ← gets queue_recv;
  match q with
  | None => mret ()
  | Some q => zoom (λ _, q) (λ _ e, e) (Queue.queue_destroy os false);; release RQueueRecv
  end.

(** ** session.c *)

(** The label err of session_create: the session itself is not freed. *)
Definition create_err : M bool :=
  destroy_state RTunState tun_state set_tun_state;;
  destroy_state RConState con_state set_con_state;;
  destroy_state RStreamState stream_state set_stream_state;;
  destroy_pool RPoolSend pool_send;;
  destroy_pool RPoolRecv pool_recv;;
  destroy_queue;;
  mret false.

Definition or_err (m : M bool) (k : M bool) : M bool :=
  ok ← m;
  if ok : bool then k else create_err.

(** memset(session, 0, ..) *)
Definition zero_client (s : client) : client := MkClient None None 0 0 0 None "" 0 (driver s) (calls s).
Definition zero_session (e : engine) : engine :=
  Engine (zero_client (cl e)) None 0 None None None false false false false (net e) (dns e) (log e).

Definition create_pool (c : sys_call) (r : resource) (set : option Pool.pool_t → engine → engine) : M bool :=
  match Pool.pool_init os (found c) sizeof_pkt_data_t 0 with
  | Err _ => mret false
  | Ok p => modify (set (Some p));; acquire r;; mret true
  end.
Definition create_queue (n : Z) : M bool :=
  match Queue.queue_init os (found MallocQueue) (found MallocSlots) n with
  | Ret (Ok q) _ => modify (set_queue_recv (Some q));; acquire RQueueRecv;; mret true
  | Ret (Err _) _ => mret false
  | _ => fatal
  end.

(** Whether a session was created. *)
Definition session_create (config : vpn_config_t) : M bool :=
  if negb (found MallocSession) then mret false
  else
    acquire RSession;;
    modify zero_session;;
    '(rc, ip_str) ← zoom dns set_dns
       (Domain.resolve_hostname_ipv4_str gai (Some (server_hostname config)) (Some ""%string) INET_ADDRSTRLEN);
    if negb (rc =? 0) then create_err
    else
      quic (modify (set_server (snprintf INET_ADDRSTRLEN (default ""%string ip_str) "") (config_port config)));;
      or_err (rc ← init_state RTunState tun_state set_tun_state TUN_CLOSED; mret (rc =? 0))
      (or_err (rc ← init_state RConState con_state set_con_state SESSION_DISCONNECTED; mret (rc =? 0))
      (or_err (rc ← init_state RStreamState stream_state set_stream_state STREAM_CLOSED; mret (rc =? 0))
      (modify (set_shutdown_fd (sys_answer EventFd));;
       (if 0 <=? sys_answer EventFd then acquire REventfd else mret ());;
       or_err (create_pool MallocPoolSend RPoolSend set_pool_send)
       (or_err (create_pool MallocPoolRecv RPoolRecv set_pool_recv)
       (or_err (create_queue (64 * 1024 * 1024))
       (mret true)))))).

(** ** vpn_client_engine.c *)

Definition join_send : M () :=
  b ← gets thread_send;
  if b : bool then modify (set_thread_send false);; release RThreadSend else fatal.
Definition join_recv : M () :=
  b ← gets thread_recv;
  if b : bool then modify (set_thread_recv false);; release RThreadRecv else fatal.

(** queue_wait_push(session->queue_pkt_data_recv, NULL) *)
Definition push_null : M () :=
  q ← gets queue_recv;
  match q with
  | None => mret ()
  | Some q => zoom (λ _, q) (λ q, set_queue_recv (Some q)) (Queue.queue_wait_push os false false None);; mret ()
  end.

Definition vpn_engine_cleanup : M () :=
  b ← gets running_send;
  (if b : bool then
     modify (set_running_send false);;
     join_send;;                              (* after a write to the eventfd *)
     fd ← gets shutdown_fd;
     if 0 <=? fd then release REventfd else mret ()
   else mret ());;
  b ← gets running_recv;
  (if b : bool then
     modify (set_running_recv false);;
     push_null;;
     join_recv
   else mret ());;
  t ← gets (λ e, tun (cl e));
  (match t with
   | Some t =>
       '(_, t) ← quic (in_driver t (Tun.tun_flush_routes table false;; Tun.tun_clear_dns table false;;
                                    Tun.tun_rules_clear table false;; Tun.tun_destroy table false));
       destroy_state RTunState tun_state set_tun_state;;
       quic (modify (set_tun None))
   | None => mret ()
   end);;
  q ← gets (λ e, MsQuic (cl e));
  (match q with
   | Some _ => quic (MsQuicShutdown env (on_close sch));; quic (modify (set_MsQuic None))
   | None => mret ()
   end);;
  w ← gets wan;
  (match w with Some _ => release RWan;; modify (set_wan None) | None => mret () end);;
  destroy_state RConState con_state set_con_state;;
  destroy_state RStreamState stream_state set_stream_state;;
  destroy_pool RPoolSend pool_send;;
  destroy_pool RPoolRecv pool_recv;;
  destroy_queue;;
  release RSession.

Definition detect_default_wan : M Z :=
  '(rc, w) ← zoom net set_net (DefaultWan.detect_default_wan netenv uninit route_garbage addr_garbage
               link_garbage polls (found MallocWan));
  match w with
  | Some w =>
      modify (set_wan (Some w));;
      quic (modify (set_wan_ifname (Some (DefaultWan.ifname w))));;
      acquire RWan;;
      mret rc
  | None => mret rc
  end.

(** [if (m != 0) return -1;] *)
Definition or_fail (m : M Z) (k : M Z) : M Z :=
  rc ← m;
  if negb (rc =? 0) then mret (-1) else k.

Definition QUIC_EXECUTION_PROFILE_LOW_LATENCY : Z := 0.

Definition setup_msquic : M Z :=
  ctx ← quic (MsQuicCreate env);
  match ctx with
  | None => mret (-1)
  | Some q =>
      quic (modify (set_MsQuic (Some q)));;
      or_fail (quic (MsQuicRegister env new_handle (Some "msquic client app name"%string)
                       QUIC_EXECUTION_PROFILE_LOW_LATENCY))
      (w ← gets wan;
       match w with
       | None => fatal
       | Some w =>
           s ← gets cl;
           or_fail (quic (MsQuicConfigAddr inet_pton6 (Some (DefaultWan.ip_str w)) (Some (server_ip_str s))
                            (server_port s)))
           (or_fail (quic (MsQuicConfigParameters env new_handle (Some "h3"%string)))
           (or_fail (quic (MsQuicConfigCredentials env))
           (or_fail (quic (MsQuicConnectionStart os env new_handle (on_connect sch) (connect_clock sch)
                             (connect_wakes sch)))
           (or_fail (quic (MsQuicStreamStart os env new_handle (on_stream sch) (stream_clock sch)
                             (stream_wakes sch)))
           (mret 0)))))
       end)
  end.

Definition ascii_bytes (s : string) : list Z := (λ c, Z.of_nat (nat_of_ascii c)) <$> String.list_ascii_of_string s.

Definition request_virtip : M Z :=
  let pkt := pkt_ctrl_create_config_req (found CallocPkt) 0 AF_INET
               (Some (ascii_bytes "quic vpn client")) in
  (if found CallocPkt then acquire RCtrlPkt else mret ());;
  or_fail (quic (MsQuicStreamSend env (pkt_bytes <$> pkt)))
  (quic (on_request sch);;
   or_fail (quic (zoom tun_state set_tun_state
     (state_sync_wait_ms os false TUN_READY 5000 (request_clock sch) (request_wakes sch))))
   (mret 0)).

Definition create_thread (c : sys_call) (r : resource) (set : bool → engine → engine) : M Z :=
  if sys_answer c =? 0 then modify (set true);; acquire r;; mret 0 else mret (sys_answer c).

Definition start_threads : M Z :=
  modify (set_running_send true);;
  or_fail (create_thread CreateSend RThreadSend set_thread_send)
  (modify (set_running_recv true);;
   or_fail (create_thread CreateRecv RThreadRecv set_thread_recv)
   (mret 0)).

(** [if (m != 0) goto err;] of vpn_engine_start: [false] is NULL. *)
Definition or_stop (m : M Z) (k : M bool) : M bool :=
  rc ← m;
  if negb (rc =? 0) then vpn_engine_cleanup;; mret false else k.

Definition vpn_engine_start (config : vpn_config_t) : M bool :=
  ok ← session_create config;
  if negb ok then mret false                   (* vpn_engine_cleanup(NULL) *)
  else
    or_stop detect_default_wan
    (or_stop setup_msquic
    (or_stop request_virtip
    (or_stop start_threads
    (mret true)))).
End engine.
