(* ===== verification/ClientStart.v ===== *)
(** * Starting and stopping the client engine: what is acquired and given back *)
From stdpp Require Import prelude strings gmap.
From Stdlib Require Import ZArith Lia.
From S2P Require Import Prelude Utils PktCtrl Ledger StateSync SockAddr TunTotal ClientQuic ClientEngine.
From S2P Require Tun Pool Queue NetIface DefaultWan Domain.

(** ** The waits never abort *)
Section waits.
Context (os : os_t) (Hos : posix_ok os).

Lemma timed_loop_safe target wakes s :
  safe (timed_loop os target wakes) s (λ rc v, rc = 0 → v = target).
Proof.
  revert s. induction wakes as [|[rc v] wakes IH]; intros s; unfold safe; cbn [timed_loop];
    unfold mbind, M_bind; rewrite ?(rc_ok_posix os) by done; destruct (Z.eqb_spec s target) as [->|]; try done.
  destruct (rc =? 0); [apply IH|]. done.
Qed.

Lemma wait_ms_safe target ms clock wakes s :
  safe (state_sync_wait_ms os false target ms clock wakes) s (λ rc v, rc = 0 → v = target).
Proof.
  unfold state_sync_wait_ms. destruct clock as [ts|]; [|done]. destruct (negb _); [done|].
  apply safe_bind. unfold safe at 1. rewrite rc_ok_posix by done. apply timed_loop_safe.
Qed.

Lemma abort_loop_safe target ab wakes s : safe (abort_loop os target ab wakes) s (λ _ _, True).
Proof.
  revert s. induction wakes as [|[rc v] wakes IH]; intros s; unfold safe; cbn [abort_loop];
    unfold mbind, M_bind; rewrite ?(rc_ok_posix os) by done;
    destruct (s =? target), (s =? ab); try done.
  destruct (rc =? 0); [apply IH|]. by destruct (v =? target), (v =? ab).
Qed.

Lemma wait_ms_abort_safe target ab ms clock wakes s :
  safe (state_sync_wait_ms_abort os false target ab ms clock wakes) s (λ _ _, True).
Proof.
  unfold state_sync_wait_ms_abort. apply safe_bind. unfold safe at 1. rewrite rc_ok_posix by done.
  apply safe_bind. unfold gets, safe at 1. destruct (_ =? _); [done|]. destruct (_ =? _); [done|].
  destruct clock as [ts|]; [|done]. destruct (negb _); [done|]. apply abort_loop_safe.
Qed.
End waits.

(** ** The steps of the QUIC setup *)
Section quic.
Context (os : os_t) (Hos : posix_ok os).
Context (env : api_call → nat → Z) (new_handle : nat → nat) (inet_pton6 : string → bool).
Implicit Types s : client.

(** The context exists and MsQuic is open; a connection exists. *)
Definition api_up s : Prop := ∃ q, MsQuic s = Some q ∧ Api q = true.
Definition linked s : Prop := ∃ q h, MsQuic s = Some q ∧ Api q = true ∧ ConnectionHandle q = Some h.
(** What no step takes away. *)
Definition keeps s s' : Prop := (api_up s → api_up s') ∧ wan_ifname s' = wan_ifname s.

Lemma keeps_refl s : keeps s s.
Proof. by split. Qed.
Lemma keeps_trans s1 s2 s3 : keeps s1 s2 → keeps s2 s3 → keeps s1 s3.
Proof. intros [H1 E1] [H2 E2]. split; [auto|congruence]. Qed.
Lemma linked_up s : linked s → api_up s.
Proof. intros (q & h & ? & ? & _). by exists q. Qed.
Lemma keeps_calls c s : keeps s (set_calls c s).
Proof. by split. Qed.
Lemma keeps_con v s : keeps s (set_con_state v s).
Proof. by split. Qed.
Lemma keeps_stream v s : keeps s (set_stream_state v s).
Proof. by split. Qed.
Lemma keeps_tun_state v s : keeps s (set_tun_state v s).
Proof. by split. Qed.
Lemma keeps_quic f s : (∀ q, Api (f q) = Api q) → keeps s (set_MsQuic (f <$> MsQuic s) s).
Proof. intros Hf. split; [|done]. intros (q & E & Ha). exists (f q). cbn. rewrite E. by rewrite Hf. Qed.

(** [safe] with what is kept. *)
Definition keeping {A} (m : M client A) s : Prop := safe m s (λ _ s', keeps s s').

Lemma keeping_ret {A} (a : A) s : keeping (mret a) s.
Proof. apply keeps_refl. Qed.
Lemma keeping_bind {A B} (m : M client A) (k : A → M client B) s :
  keeping m s → (∀ a s', keeps s s' → keeping (k a) s') → keeping (x ← m; k x) s.
Proof.
  intros Hm Hk. apply safe_bind. eapply safe_mono; [exact Hm|]. intros a s' H.
  eapply safe_mono; [apply Hk, H|]. intros b s'' H'. exact (keeps_trans _ _ _ H H').
Qed.
Lemma from_keeping {A} (m : M client A) s0 s :
  keeps s0 s → keeping m s → safe m s (λ _ s', keeps s0 s').
Proof. intros H Hm. eapply safe_mono; [exact Hm|]. intros a s' H'. exact (keeps_trans _ _ _ H H'). Qed.
Lemma keeping_call c s : keeping (call env c) s.
Proof. apply keeps_calls. Qed.
Lemma keeping_open c s : keeping (call_open env new_handle c) s.
Proof. apply keeps_calls. Qed.
Lemma keeping_upd f s : (∀ q, Api (f q) = Api q) → keeping (upd_quic f) s.
Proof. apply keeps_quic. Qed.
Lemma keeping_sync_con v s : keeping (sync_con os v) s.
Proof. unfold keeping, safe. rewrite sync_con_run by done. apply keeps_con. Qed.
Lemma keeping_sync_stream v s : keeping (sync_stream os v) s.
Proof. unfold keeping, safe. rewrite sync_stream_run by done. apply keeps_stream. Qed.
Lemma keeping_wait_con a b ms c w s :
  keeping (on_state con_state set_con_state (state_sync_wait_ms_abort os false a b ms c w)) s.
Proof.
  apply safe_zoom. eapply safe_mono; [by apply wait_ms_abort_safe|]. intros; apply keeps_con.
Qed.
Lemma keeping_wait_stream a b ms c w s :
  keeping (on_state stream_state set_stream_state (state_sync_wait_ms_abort os false a b ms c w)) s.
Proof.
  apply safe_zoom. eapply safe_mono; [by apply wait_ms_abort_safe|]. intros; apply keeps_stream.
Qed.
Lemma keeping_check_con v s :
  keeping (on_state con_state set_con_state (state_sync_check os false v)) s.
Proof.
  unfold keeping, safe, on_state, zoom, state_sync_check, mbind, M_bind, gets, mret, M_ret, id.
  rewrite (rc_ok_posix os) by done. rewrite (rc_ok_posix os) by done. apply keeps_con.
Qed.
Lemma keeping_if {A} (b : bool) (m1 m2 : M client A) s :
  keeping m1 s → keeping m2 s → keeping (if b then m1 else m2) s.
Proof. by destruct b. Qed.

(** The context at the head of a function. *)
Lemma keeping_quic {A} (k : quic_t → M client A) s : api_up s →
  (∀ q, MsQuic s = Some q → Api q = true → keeping (k q) s) →
  keeping (q ← check (MsQuic s); assert (Api q);; k q) s.
Proof.
  intros (q & E & Ha) H. unfold check. rewrite E.
  unfold keeping, safe. rewrite (bind_run _ _ s q s) by done. rewrite (bind_run _ _ s () s) by by rewrite Ha. by apply H.
Qed.
End quic.

Create HintDb keeping.
#[export] Hint Resolve keeping_ret keeping_call keeping_open keeping_sync_con keeping_sync_stream
  keeping_wait_con keeping_wait_stream keeping_check_con : keeping.
#[export] Hint Extern 1 (keeping (upd_quic _) _) => apply keeping_upd; intros; reflexivity : keeping.

Ltac keeping_step :=
  first [solve [eauto with keeping]
        |simple apply keeping_if
        |simple apply keeping_bind; [|intros ? ? ?]
        |match goal with |- keeping (let '(_, _) := ?x in _) _ => destruct x end].
Ltac keeping := repeat keeping_step.

(** What the start asks of the callbacks made beside it: on a live connection,
    or with the context open and the wan known, they do not abort and take
    nothing away. *)
Record callbacks_ok (sch : schedule) : Prop := {
  cb_connect s : linked s → keeping (on_connect sch) s;
  cb_stream s : api_up s → wan_ifname s ≠ None → keeping (on_stream sch) s;
  cb_request s : api_up s → wan_ifname s ≠ None → keeping (on_request sch) s;
  cb_close s : linked s → safe (on_close sch) s (λ _ _, True)
}.

Section setup.
Context (os : os_t) (Hos : posix_ok os).
Context (env : api_call → nat → Z) (new_handle : nat → nat) (inet_pton6 : string → bool).
Context (sch : schedule) (Hcb : callbacks_ok sch).
Implicit Types s : client.

Lemma register_safe app p s :
  safe (MsQuicRegister env new_handle app p) s (λ rc s', keeps s s' ∧ (rc = 0 → api_up s')).
Proof.
  unfold MsQuicRegister. apply safe_bind. unfold gets, id, safe at 1.
  destruct (MsQuic s) as [q|] eqn:Eq, app as [app|]; try by (split; [apply keeps_refl|]).
  apply safe_bind. unfold call, safe at 1. destruct (QUIC_FAILED _); [split; [apply keeps_calls|done]|].
  apply safe_bind. unfold upd_quic, modify, safe at 1. apply safe_bind. unfold call_open, safe at 1.
  apply safe_bind. unfold safe at 1. destruct (QUIC_FAILED _); unfold safe, mret, M_ret; cbn; rewrite Eq; cbn.
  - split; [|done]. split; [|done]. intros _. by eexists.
  - split; [|by eexists]. split; [|done]. intros _. by eexists.
Qed.

Lemma keeping_config_addr l srv p s : keeping (MsQuicConfigAddr inet_pton6 l srv p) s.
Proof.
  unfold MsQuicConfigAddr. apply keeping_bind; [apply keeps_refl|]. intros s1 s' _.
  destruct (MsQuic s1), l, srv; try apply keeping_ret. destruct (config_addr _ _ _) as [rc a]. keeping.
Qed.

(** A function that begins by using the open context. *)
Lemma keeping_params alpn s : api_up s → keeping (MsQuicConfigParameters env new_handle (Some alpn)) s.
Proof.
  intros (q & E & Ha). unfold MsQuicConfigParameters, keeping. apply safe_bind. unfold gets, id, safe at 1.
  rewrite E. change (keeping (upd_quic (set_configuration client_settings (Some alpn) (Configuration q));;
    assert (Api q);; '(Status, h) ← call_open env new_handle (ConfigurationOpen (Registration q) alpn client_settings);
    if QUIC_FAILED Status then mret (- ECANCELED)
    else upd_quic (set_configuration client_settings (Some alpn) (Some h));; mret 0) s).
  rewrite Ha. keeping.
Qed.

Lemma keeping_credentials s : api_up s → keeping (MsQuicConfigCredentials env) s.
Proof.
  intros (q & E & Ha). unfold MsQuicConfigCredentials, keeping. apply safe_bind. unfold gets, id, safe at 1.
  rewrite E, Ha. match goal with |- safe ?m ?s _ => change (keeping m s) end. keeping.
Qed.
Lemma keeping_connection_start c w s : api_up s →
  keeping (MsQuicConnectionStart os env new_handle (on_connect sch) c w) s.
Proof.
  intros Hup. unfold MsQuicConnectionStart. apply safe_gets. unfold id.
  apply keeping_quic; [done|]. intros q Eq Ha. apply safe_bind. unfold call_open, safe at 1.
  set (h := new_handle _). destruct (QUIC_FAILED _); [apply keeps_calls|].
  apply safe_bind. unfold upd_quic, modify, safe at 1. set (s1 := set_MsQuic _ _).
  assert (Hk : keeps s s1) by (split; [intros _; eexists; cbn; rewrite Eq; by split|done]).
  assert (Hl : linked s1).
  { exists (set_ConnectionHandle (Some h) q), h. cbn. by rewrite Eq. }
  assert (Hclose : ∀ s, keeping (close_connection env h) s) by (intros; unfold close_connection; keeping).
  apply safe_bind. unfold call, safe at 1. set (s2 := set_calls _ s1).
  destruct (QUIC_FAILED _); [by apply from_keeping|]. apply safe_bind. unfold call, safe at 1.
  set (s3 := set_calls _ s2). destruct (QUIC_FAILED _); [by apply from_keeping|].
  apply safe_bind. unfold call, safe at 1. set (s4 := set_calls _ s3).
  destruct (QUIC_FAILED _); [by apply from_keeping|]. apply (from_keeping _ s s4); [exact Hk|].
  apply keeping_bind; [by apply cb_connect|]. intros _ s5 _. keeping.
Qed.

Lemma keeping_stream_start c w s : api_up s → wan_ifname s ≠ None →
  keeping (MsQuicStreamStart os env new_handle (on_stream sch) c w) s.
Proof.
  intros Hup Hw. unfold MsQuicStreamStart. apply keeping_bind; [by apply keeping_check_con|].
  intros ok s1 [H1 E1]. destruct (negb ok); [apply keeping_ret|]. specialize (H1 Hup). rewrite <- E1 in Hw.
  clear s Hup E1. apply safe_gets. unfold id.
  apply keeping_quic; [done|]. intros q Eq Ha.
  apply keeping_bind; [apply keeping_open|]. intros [Status h] s2 [H2 E2]. specialize (H2 H1). rewrite <- E2 in Hw.
  destruct (QUIC_FAILED Status); [keeping|].
  apply keeping_bind; [by apply keeping_upd|]. intros _ s3 [H3 E3]. specialize (H3 H2). rewrite <- E3 in Hw.
  apply keeping_bind; [apply keeping_call|]. intros St s4 [H4 E4]. specialize (H4 H3). rewrite <- E4 in Hw.
  destruct (QUIC_FAILED St); [keeping|].
  apply keeping_bind; [by apply cb_stream|]. intros _ s5 _. keeping.
Qed.

(** The code's assertions and its unchecked malloc are the hypotheses. *)
Lemma keeping_stream_send bytes s : api_up s → (0 < length bytes)%nat → (∀ n, env (Malloc 16) n ≠ 0) →
  keeping (MsQuicStreamSend env (Some bytes)) s.
Proof.
  intros (q & E & Ha) Hb Hm. unfold MsQuicStreamSend, keeping. apply safe_gets. unfold id.
  rewrite E. apply (safe_bind (mret q)). unfold safe at 1. cbn -[mbind Z.of_nat].
  apply (safe_bind (mret bytes)). unfold safe at 1. cbn -[mbind Z.of_nat].
  destruct (Z.ltb_spec 0 (Z.of_nat (length bytes))); [|lia].
  apply (safe_bind (mret ())). unfold safe at 1. cbn -[mbind Z.of_nat].
  rewrite Ha. apply (safe_bind (mret ())). unfold safe at 1. cbn -[mbind Z.of_nat].
  match goal with |- safe ?m ?s _ => change (keeping m s) end.
  apply keeping_bind; [apply keeping_call|]. intros out s1 _. apply keeping_if; [keeping|].
  apply safe_bind. unfold call, safe at 1.
  destruct (Z.eqb_spec (env (Malloc 16) (length (calls s1))) 0) as [Hz|_]; [by destruct (Hm _ Hz)|].
  apply (safe_bind (mret ())). unfold safe at 1. cbn -[mbind].
  apply (from_keeping _ s1); [apply keeps_calls|]. keeping.
Qed.

Lemma safe_shutdown s : safe (MsQuicShutdown env (on_close sch)) s (λ _ _, True).
Proof.
  unfold MsQuicShutdown. apply safe_gets. unfold id. destruct (MsQuic s) as [q|] eqn:Eq; [|done].
  apply safe_bind. assert (Hrest : ∀ s, safe (
    (match Configuration q with Some c => call env (ConfigurationClose c);; mret () | None => mret () end);;
    (match Registration q with Some r => call env (RegistrationClose r);; mret () | None => mret () end);;
    call env MsQuicClose;; mret ()) s (λ _ s', safe (call env FreeContext;; mret 0) s' (λ _ _, True))).
  { intros s'. destruct (Configuration q), (Registration q); done. }
  destruct (Api q) eqn:Ea; [|done]. apply safe_bind. destruct (ConnectionHandle q) as [h|] eqn:Eh.
  - apply safe_bind. unfold call, safe at 1.
    eapply safe_mono; [apply (cb_close _ Hcb); by exists q, h|]. intros _ s' _. apply Hrest.
  - apply Hrest.
Qed.
End setup.

(** ** The engine *)
Section engine.
Context (os : os_t) (table : Tun.api_id → Tun.tun_api_table_t).
Context (env : api_call → nat → Z) (new_handle : nat → nat) (inet_pton6 : string → bool).
Context (gai : string → Z → nat → Z * option Domain.addrinfo).
Context (netenv : NetIface.history → NetIface.sysreq → NetIface.answer)
        (uninit : NetIface.history → list Z)
        (route_garbage : NetIface.netlink_route_info_t) (addr_garbage : NetIface.netlink_addr_info_t)
        (link_garbage : NetIface.netlink_link_info_t) (polls : nat).
Context (sys_answer : sys_call → Z) (sch : schedule).
Context (Hos : posix_ok os) (Hd : driver_total table) (Hcb : callbacks_ok sch).
Implicit Types e : engine.

Lemma safe_destroy_state {B} r get set (k : M engine B) e Q :
  (∀ v, safe k (add_log [Release r] (set_cl (set v (cl e)) e)) Q) →
  safe (destroy_state os r get set;; k) e Q.
Proof.
  intros H. apply safe_bind. unfold destroy_state. apply safe_bind. apply safe_zoom, safe_zoom.
  unfold state_sync_destroy, safe at 1, mbind, M_bind, modify. rewrite !rc_ok_posix by done. apply H.
Qed.
Lemma safe_destroy_pool {B} r (get : engine → option Pool.pool_t) p n fl (k : M engine B) e Q :
  get e = Some p → Pool.pool_inv n p fl → safe k (add_log [Release r] e) Q →
  safe (destroy_pool os r get;; k) e Q.
Proof.
  intros Hp Hinv H. apply safe_bind. unfold destroy_pool. apply safe_gets. rewrite Hp.
  destruct (Pool.pool_destroy_spec os p n fl Hos Hinv) as (h & E & _).
  unfold safe at 1. rewrite (bind_run _ _ e 0 e) by (unfold zoom; by rewrite E). apply H.
Qed.
Lemma safe_destroy_no_pool {B} r (get : engine → option Pool.pool_t) (k : M engine B) e Q :
  get e = None → safe k e Q → safe (destroy_pool os r get;; k) e Q.
Proof. intros Hp H. apply safe_bind. unfold destroy_pool. apply safe_gets. by rewrite Hp. Qed.
Lemma safe_destroy_queue {B} q (k : M engine B) e Q :
  queue_recv e = Some q → safe k (add_log [Release RQueueRecv] e) Q → safe (destroy_queue os;; k) e Q.
Proof.
  intros Hq H. apply safe_bind. unfold destroy_queue. apply safe_gets. rewrite Hq. unfold safe at 1.
  rewrite (bind_run _ _ e (Ok ()) e); [apply H|].
  unfold zoom, Queue.queue_destroy, mbind, M_bind, modify. by rewrite !(rc_ok_posix os) by done.
Qed.

(** What the cleanup relies on: the pools and the queue are intact, and a
    running flag means a thread. *)
Record cleanable e (ps pr : Pool.pool_t) (q : Queue.queue_t) : Prop := {
  cn_ps : pool_send e = Some ps; cn_pr : pool_recv e = Some pr; cn_q : queue_recv e = Some q;
  cn_ps_inv : ∃ k fl, Pool.pool_inv k ps fl;
  cn_pr_inv : ∃ k fl, Pool.pool_inv k pr fl;
  cn_q_inv : ∃ l, Queue.queue_inv q l;
  cn_send : running_send e = thread_send e;
  cn_recv : running_recv e = thread_recv e
}.

(** What the cleanup gives back. *)
Definition cleanup_log e : list (ledger_event resource) :=
  (if running_send e
   then Release RThreadSend :: (if 0 <=? shutdown_fd e then [Release REventfd] else []) else []) ++
  (if running_recv e then [Release RThreadRecv] else []) ++
  (match tun (cl e) with Some _ => [Release RTunState] | None => [] end) ++
  (match wan e with Some _ => [Release RWan] | None => [] end) ++
  (Release <$> [RConState; RStreamState; RPoolSend; RPoolRecv; RQueueRecv; RSession]).

(** The tail of the cleanup, from the states on. *)
Lemma cleanup_tail_safe e ps pr q : cleanable e ps pr q →
  safe (destroy_state os RConState con_state set_con_state;;
        destroy_state os RStreamState stream_state set_stream_state;;
        destroy_pool os RPoolSend pool_send;;
        destroy_pool os RPoolRecv pool_recv;;
        destroy_queue os;;
        release RSession) e
    (λ _ e', log e' = log e ++
       (Release <$> [RConState; RStreamState; RPoolSend; RPoolRecv; RQueueRecv; RSession])).
Proof.
  intros [E1 E2 E3 (k1 & f1 & H1) (k2 & f2 & H2) _ _ _].
  apply safe_destroy_state; intros v1. apply safe_destroy_state; intros v2.
  eapply safe_destroy_pool; [exact E1|exact H1|]. eapply safe_destroy_pool; [exact E2|exact H2|].
  eapply safe_destroy_queue; [exact E3|]. unfold release, modify, safe. cbn [log add_log set_cl].
  by rewrite <- !(assoc_L (++)).
Qed.

(** The middle of the cleanup: the tunnel, MsQuic, the wan object. *)
Definition cleanup_middle (k : M engine ()) : M engine () :=
  t ← gets (λ e, tun (cl e));
  (match t with
   | Some t =>
       '(_, t) ← quic (in_driver t (Tun.tun_flush_routes table false;; Tun.tun_clear_dns table false;;
                                    Tun.tun_rules_clear table false;; Tun.tun_destroy table false));
       destroy_state os RTunState tun_state set_tun_state;;
       quic (modify (set_tun None))
   | None => mret ()
   end);;
  q ← gets (λ e, MsQuic (cl e));
  (match q with
   | Some _ => quic (MsQuicShutdown env (on_close sch));; quic (modify (set_MsQuic None))
   | None => mret ()
   end);;
  w ← gets wan;
  (match w with Some _ => release RWan;; modify (set_wan None) | None => mret () end);;
  k.

Lemma cleanable_frame e e' ps pr q : cleanable e ps pr q →
  pool_send e' = pool_send e → pool_recv e' = pool_recv e → queue_recv e' = queue_recv e →
  running_send e' = running_send e → running_recv e' = running_recv e →
  thread_send e' = thread_send e → thread_recv e' = thread_recv e → cleanable e' ps pr q.
Proof. intros [] ? ? ? ? ? ? ?. split; congruence. Qed.

Lemma cleanup_middle_safe e ps pr q k Q : cleanable e ps pr q →
  (∀ e', cleanable e' ps pr q →
    log e' = log e ++ (match tun (cl e) with Some _ => [Release RTunState] | None => [] end) ++
                      (match wan e with Some _ => [Release RWan] | None => [] end) → safe k e' Q) →
  safe (cleanup_middle k) e Q.
Proof.
  intros Hc Hk. unfold cleanup_middle. apply safe_gets.
  apply (safe_then _ _ _ (λ _ e', cleanable e' ps pr q ∧ wan e' = wan e ∧
    log e' = log e ++ (match tun (cl e) with Some _ => [Release RTunState] | None => [] end))).
  { destruct (tun (cl e)) as [t|]; [|by rewrite app_nil_r].
    assert (Hr : returns (Tun.tun_flush_routes table false;; Tun.tun_clear_dns table false;;
                          Tun.tun_rules_clear table false;; Tun.tun_destroy table false)).
    { apply returns_bind; [by apply returns_flush|intros _].
      apply returns_bind; [by apply returns_clear_dns|intros _].
      apply returns_bind; [by apply returns_rules_clear|intros _]. by apply returns_destroy. }
    destruct (in_driver_run t _ (cl e) Hr) as (a & w & _ & E).
    apply safe_bind. apply safe_zoom. unfold safe at 1. rewrite E.
    apply safe_destroy_state. intros v. unfold quic, zoom, modify, safe. split; [|done].
    by eapply cleanable_frame. }
  intros _ e1 (Hc1 & Hw & Hl). apply safe_gets.
  apply (safe_then _ _ _ (λ _ e', cleanable e' ps pr q ∧ wan e' = wan e1 ∧ log e' = log e1)).
  { destruct (MsQuic (cl e1)) as [x|]; [|done]. apply safe_bind. apply safe_zoom.
    eapply safe_mono; [by apply safe_shutdown|]. intros _ s _. unfold quic, zoom, modify, safe.
    split; [|done]. by eapply cleanable_frame. }
  intros _ e2 (Hc2 & Hw2 & Hl2). apply safe_gets. rewrite Hw2, Hw. destruct (wan e).
  - apply safe_bind. unfold safe at 1. apply Hk; [by eapply cleanable_frame|].
    cbn [log add_log set_wan]. by rewrite Hl2, Hl, <- !(assoc_L (++)).
  - apply Hk; [done|]. by rewrite Hl2, Hl, app_nil_r.
Qed.

(** Stopping the receiving thread. *)
Definition stop_recv (k : M engine ()) : M engine () :=
  b ← gets running_recv;
  (if b : bool then
     modify (set_running_recv false);;
     push_null os;;
     join_recv
   else mret ());;
  k.

Lemma stop_recv_safe e ps pr q k Q : cleanable e ps pr q →
  (∀ e' q', cleanable e' ps pr q' → cl e' = cl e → wan e' = wan e →
    log e' = log e ++ (if running_recv e then [Release RThreadRecv] else []) → safe k e' Q) →
  safe (stop_recv k) e Q.
Proof.
  intros Hc Hk. unfold stop_recv. apply safe_gets. destruct (running_recv e) eqn:Er.
  - apply safe_bind. apply safe_modify.
    assert (Ht : thread_recv e = true) by by rewrite <- (cn_recv _ _ _ _ Hc).
    set (e1 := set_running_recv false e).
    apply (safe_then _ _ _ (λ _ e', ∃ q', pool_send e' = Some ps ∧ pool_recv e' = Some pr ∧ queue_recv e' = Some q' ∧
      (∃ l, Queue.queue_inv q' l) ∧ running_send e' = thread_send e' ∧ running_recv e' = false ∧
      log e' = log e ∧ cl e' = cl e ∧ wan e' = wan e ∧ thread_recv e' = true)).
    { destruct Hc as [E1 E2 E3 H1 H2 [l Hl] Hs Hr]. unfold push_null. apply safe_gets. cbn [queue_recv e1 set_running_recv].
      rewrite E3. apply safe_bind. apply safe_zoom.
      destruct (Queue.push_run os Hos q l None Hl) as [(_ & q' & _ & E & Hq' & _)|(_ & _ & E)];
        unfold safe at 1; rewrite E; [|done]. exists q'. repeat split; try done. by exists (l ++ [None]). }
    intros _ e2 (q' & E1 & E2 & E3 & Hq' & Hs & Hr & Hl & Hcl & Hw & Ht2).
    unfold join_recv. apply safe_gets. rewrite Ht2. apply safe_modify. unfold release, modify, safe.
    destruct Hc as [_ _ _ H1 H2 _ _ _].
    apply (Hk _ q'); [by split|done..|]. cbn [log add_log set_thread_recv]. by rewrite Hl.
  - apply (Hk e q); [done..|]. by rewrite app_nil_r.
Qed.

Lemma cleanup_safe e ps pr q : cleanable e ps pr q →
  safe (vpn_engine_cleanup os table env sch) e (λ _ e', log e' = log e ++ cleanup_log e).
Proof.
  intros Hc.
  assert (Hrest : ∀ e' q' l, cleanable e' ps pr q' → log e' = log e ++ l → cl e' = cl e → wan e' = wan e →
    running_recv e' = running_recv e →
    safe (stop_recv (cleanup_middle (
        destroy_state os RConState con_state set_con_state;;
        destroy_state os RStreamState stream_state set_stream_state;;
        destroy_pool os RPoolSend pool_send;;
        destroy_pool os RPoolRecv pool_recv;;
        destroy_queue os;;
        release RSession))) e' (λ _ e2, log e2 = log e ++ l ++
      (if running_recv e then [Release RThreadRecv] else []) ++
      (match tun (cl e) with Some _ => [Release RTunState] | None => [] end) ++
      (match wan e with Some _ => [Release RWan] | None => [] end) ++
      (Release <$> [RConState; RStreamState; RPoolSend; RPoolRecv; RQueueRecv; RSession]))).
  { intros e' q' l Hc' Hl Hcl Hw Hr. eapply stop_recv_safe; [exact Hc'|].
    intros e1 q1 Hc1 Hcl1 Hw1 Hl1. eapply cleanup_middle_safe; [exact Hc1|].
    intros e2 Hc2 Hl2. eapply safe_mono; [by eapply cleanup_tail_safe|]. cbv beta. intros _ e3 Hl3.
    rewrite Hl3, Hl2, Hl1, Hl, Hcl1, Hw1, Hcl, Hw, Hr. by rewrite <- !(assoc_L (++)). }
  unfold vpn_engine_cleanup. apply safe_gets. unfold cleanup_log.
  destruct (running_send e) eqn:Es.
  - apply safe_bind. apply safe_modify. apply safe_bind. unfold join_send.
    assert (Ht : thread_send e = true) by by rewrite <- (cn_send _ _ _ _ Hc).
    apply safe_gets. cbn [thread_send set_running_send]. rewrite Ht. apply safe_modify.
    unfold release, modify, safe at 1. apply safe_gets. cbn [shutdown_fd add_log set_thread_send set_running_send].
    destruct Hc as [E1 E2 E3 H1 H2 H3 Hs Hr].
    destruct (0 <=? shutdown_fd e).
    + unfold release, modify, safe at 1.
      apply (Hrest _ q [Release RThreadSend; Release REventfd]); [by split| |done..].
      cbn [log add_log set_thread_send set_running_send]. by rewrite <- (assoc_L (++)).
    + unfold safe at 1. apply (Hrest _ q [Release RThreadSend]); [by split|done..].
  - apply (Hrest e q []); [done| |done..]. by rewrite app_nil_r.
Qed.

(** ** session_create *)

Definition has_fd : bool := 0 <=? sys_answer EventFd.
Definition create_log : list (ledger_event resource) :=
  (Acquire <$> [RSession; RTunState; RConState; RStreamState]) ++
  (if has_fd then [Acquire REventfd] else []) ++
  (Acquire <$> [RPoolSend; RPoolRecv; RQueueRecv]).

Record created e0 e ps pr q : Prop := {
  cr_clean : cleanable e ps pr q;
  cr_send : running_send e = false; cr_recv : running_recv e = false;
  cr_wan : wan e = None; cr_quic : MsQuic (cl e) = None; cr_tun : tun (cl e) = None;
  cr_fd : shutdown_fd e = sys_answer EventFd;
  cr_net : net e = net e0;
  cr_log : log e = log e0 ++ create_log
}.

(** What a failed session_create leaves behind: the session is not freed, nor
    is the eventfd closed; the states it destroys may never have been
    initialised. *)
Definition create_leak (resolved : bool) (r : resource) : Z :=
  match r with
  | RSession => 1
  | RTunState | RConState | RStreamState => if resolved then 0 else -1
  | REventfd => if resolved && has_fd then 1 else 0
  | _ => 0
  end.

Definition fresh_pool : Pool.pool_t := Pool.PoolT sizeof_pkt_data_t 0 0 0 None ∅.
Lemma fresh_pool_inv : Pool.pool_inv 0 fresh_pool [].
Proof. split; try done. apply NoDup_nil_2. Qed.

Lemma init_state_safe r get set v e :
  init_state os r get set v e = Ret 0 (add_log [Acquire r] (set_cl (set v (cl e)) e)).
Proof.
  unfold init_state. rewrite (bind_run _ _ e 0 (set_cl (set v (cl e)) e)); [done|].
  apply zoom_run, zoom_run. unfold state_sync_init, mbind, M_bind, modify. by rewrite !Hos.
Qed.

(** The error exit, given which pools there are. *)
Lemma create_err_safe e :
  (∀ p, pool_send e = Some p → p = fresh_pool) → (∀ p, pool_recv e = Some p → p = fresh_pool) →
  queue_recv e = None →
  safe (create_err os) e (λ ok e', ok = false ∧ log e' = log e ++
    (Release <$> [RTunState; RConState; RStreamState]) ++
    (match pool_send e with Some _ => [Release RPoolSend] | None => [] end) ++
    (match pool_recv e with Some _ => [Release RPoolRecv] | None => [] end)).
Proof.
  intros H1 H2 H3. unfold create_err. do 3 (apply safe_destroy_state; intros ?).
  set (e1 := add_log _ _). change (pool_send e) with (pool_send e1) in *.
  change (pool_recv e) with (pool_recv e1) in *. change (queue_recv e) with (queue_recv e1) in H3.
  assert (Hl : log e1 = log e ++ (Release <$> [RTunState; RConState; RStreamState])).
  { cbn. by rewrite <- !(assoc_L (++)). }
  assert (Hend : ∀ e2, queue_recv e2 = None → safe (destroy_queue os;; mret false) e2
    (λ ok e', ok = false ∧ log e' = log e2)).
  { intros e2 H. apply safe_bind. unfold destroy_queue. apply safe_gets. by rewrite H. }
  assert (Hrecv : ∀ e2, pool_recv e2 = pool_recv e1 → queue_recv e2 = None →
    safe (destroy_pool os RPoolRecv pool_recv;; destroy_queue os;; mret false) e2
      (λ ok e', ok = false ∧ log e' = log e2 ++
         (match pool_recv e1 with Some _ => [Release RPoolRecv] | None => [] end))).
  { intros e2 Hr H. destruct (pool_recv e1) as [p|] eqn:E.
    - eapply safe_destroy_pool; [exact Hr|by rewrite (H2 p eq_refl); apply fresh_pool_inv|]. by apply Hend.
    - apply safe_destroy_no_pool; [exact Hr|]. rewrite app_nil_r. by apply Hend. }
  destruct (pool_send e1) as [p|] eqn:E.
  - eapply safe_destroy_pool; [exact E|by rewrite (H1 p eq_refl); apply fresh_pool_inv|].
    eapply safe_mono; [by apply Hrecv|]. cbv beta. intros ok e' [-> Hl']. split; [done|].
    rewrite Hl'. cbn [log add_log]. rewrite Hl. by rewrite <- !(assoc_L (++)).
  - apply safe_destroy_no_pool; [exact E|].
    eapply safe_mono; [by apply Hrecv|]. cbv beta. intros ok e' [-> Hl']. split; [done|].
    rewrite Hl', Hl. by rewrite <- !(assoc_L (++)).
Qed.

Lemma safe_or_err_true m k e e' Q : m e = Ret true e' → safe k e' Q → safe (or_err os m k) e Q.
Proof. intros E H. unfold safe, or_err. by rewrite (bind_run _ _ e true e' E). Qed.
Lemma safe_or_err_false m k e e' Q : m e = Ret false e' → safe (create_err os) e' Q → safe (or_err os m k) e Q.
Proof. intros E H. unfold safe, or_err. by rewrite (bind_run _ _ e false e' E). Qed.

Lemma init_step r get set v k e Q :
  safe k (add_log [Acquire r] (set_cl (set v (cl e)) e)) Q →
  safe (or_err os (rc ← init_state os r get set v; mret (rc =? 0)) k) e Q.
Proof.
  intros H. eapply safe_or_err_true; [|exact H].
  by rewrite (bind_run _ _ _ _ _ (init_state_safe r get set v e)).
Qed.

Lemma create_pool_run c r set e :
  create_pool os sys_answer c r set e =
  if found sys_answer c then Ret true (add_log [Acquire r] (set (Some fresh_pool) e)) else Ret false e.
Proof.
  unfold create_pool, Pool.pool_init. change (sizeof_pkt_data_t =? 0) with false.
  change (SIZE_MAX - Pool.sizeof_pool_block_t <? sizeof_pkt_data_t) with false. cbv iota.
  destruct (found sys_answer c); [|done]. by rewrite !Hos.
Qed.

Lemma create_queue_run n e : 0 < n ≤ SEM_VALUE_MAX →
  (∃ q, create_queue os sys_answer n e = Ret true (add_log [Acquire RQueueRecv] (set_queue_recv (Some q) e)) ∧
     Queue.queue_inv q [] ∧ Queue.size q = n) ∨
  create_queue os sys_answer n e = Ret false e.
Proof.
  intros Hn. destruct (Queue.queue_init_inv os n Hos Hn) as (q & E & Hq & Hs). unfold create_queue.
  destruct (found sys_answer MallocQueue), (found sys_answer MallocSlots).
  - left. exists q. by rewrite E.
  - right. unfold Queue.queue_init. destruct (Z.eqb_spec n 0); [lia|]. by destruct (Z.ltb_spec SEM_VALUE_MAX n); [lia|].
  - right. unfold Queue.queue_init. destruct (Z.eqb_spec n 0); [lia|]. by destruct (Z.ltb_spec SEM_VALUE_MAX n); [lia|].
  - right. unfold Queue.queue_init. destruct (Z.eqb_spec n 0); [lia|]. by destruct (Z.ltb_spec SEM_VALUE_MAX n); [lia|].
Qed.

(** The pools and the queue of a session that resolved its server. *)
Lemma create_objects_safe e0 e :
  pool_send e = None → pool_recv e = None → queue_recv e = None →
  running_send e = false → running_recv e = false → thread_send e = false → thread_recv e = false →
  wan e = None → MsQuic (cl e) = None → tun (cl e) = None → shutdown_fd e = sys_answer EventFd →
  net e = net e0 →
  log e = log e0 ++ (Acquire <$> [RSession; RTunState; RConState; RStreamState]) ++
                    (if has_fd then [Acquire REventfd] else []) →
  safe (or_err os (create_pool os sys_answer MallocPoolSend RPoolSend set_pool_send)
       (or_err os (create_pool os sys_answer MallocPoolRecv RPoolRecv set_pool_recv)
       (or_err os (create_queue os sys_answer (64 * 1024 * 1024))
       (mret true)))) e (λ ok e',
    if ok : bool then ∃ ps pr q, created e0 e' ps pr q
    else ∀ r, balance (log e') r = balance (log e0) r + create_leak true r).
Proof.
  intros Hp1 Hp2 Hq Hr1 Hr2 Ht1 Ht2 Hw Hm Htun Hfd Hnet Hl.
  assert (Hfail : ∀ e2 l, log e2 = log e ++ l →
    (∀ p, pool_send e2 = Some p → p = fresh_pool) → (∀ p, pool_recv e2 = Some p → p = fresh_pool) →
    queue_recv e2 = None →
    (∀ r, balance (l ++ (match pool_send e2 with Some _ => [Release RPoolSend] | None => [] end) ++
      (match pool_recv e2 with Some _ => [Release RPoolRecv] | None => [] end)) r = 0) →
    safe (create_err os) e2 (λ ok e', if ok : bool then ∃ ps pr q, created e0 e' ps pr q
      else ∀ r, balance (log e') r = balance (log e0) r + create_leak true r)).
  { intros e2 l H H1 H2 H3 Hb. eapply safe_mono; [by apply create_err_safe|]. cbv beta.
    intros ok e' [-> Hl']. intros r. specialize (Hb r). rewrite Hl', H, Hl, !balance_app in *.
    unfold create_leak, has_fd. destruct (0 <=? sys_answer EventFd); destruct r; ledger. }
  unfold or_err at 1. apply safe_bind. unfold safe at 1. rewrite create_pool_run.
  destruct (found sys_answer MallocPoolSend).
  2:{ apply (Hfail e []); rewrite ?Hp1, ?Hp2; try done. by rewrite app_nil_r. }
  set (e1 := add_log _ _). unfold or_err at 1. apply safe_bind. unfold safe at 1. rewrite create_pool_run.
  destruct (found sys_answer MallocPoolRecv).
  2:{ apply (Hfail e1 [Acquire RPoolSend]); cbn; rewrite ?Hp1, ?Hp2; try done; [by intros p [= <-]|].
      by intros []. }
  set (e2 := add_log _ _). unfold or_err at 1. apply safe_bind. unfold safe at 1.
  destruct (create_queue_run (64 * 1024 * 1024) e2) as [(q & -> & Hqi & Hs)| ->]; [done| |].
  - unfold safe. exists fresh_pool, fresh_pool, q. split; try done.
    + split; try done; [exists 0, []; apply fresh_pool_inv..|by exists []| |]; cbn; congruence.
    + cbn [log add_log e2 e1 set_pool_send set_pool_recv set_queue_recv]. unfold create_log.
      rewrite Hl. by rewrite <- !(assoc_L (++)).
  - apply (Hfail e2 [Acquire RPoolSend; Acquire RPoolRecv]); cbn; rewrite ?Hp1, ?Hp2; try done.
    + by rewrite <- (assoc_L (++)).
    + by intros p [= <-].
    + by intros p [= <-].
    + by intros [].
Qed.

Lemma session_create_safe config e :
  safe (session_create os gai sys_answer config) e (λ ok e',
    if ok : bool then ∃ ps pr q, created e e' ps pr q
    else if found sys_answer MallocSession
         then ∃ resolved, ∀ r, balance (log e') r = balance (log e) r + create_leak resolved r
         else e' = e).
Proof.
  unfold session_create. destruct (found sys_answer MallocSession); cbn [negb]; [|done].
  unfold acquire. apply safe_modify, safe_modify.
  destruct (Domain.resolve_ipv4_str_agrees gai (server_hostname config) 0 ""%string INET_ADDRSTRLEN
    (dns e) ltac:(done)) as (rc & out & _ & _ & _ & E).
  apply safe_bind, safe_zoom. unfold safe at 1. change (dns (zero_session _)) with (dns e). rewrite E.
  set (e1 := set_dns _ _). destruct (Z.eqb_spec rc 0) as [->|Hrc]; cbn [negb].
  - unfold quic at 1. apply safe_bind, safe_zoom. unfold modify at 1, safe at 1.
    do 3 apply init_step. apply safe_modify. set (e2 := set_shutdown_fd _ _).
    assert (Hl2 : log e2 = log e ++ (Acquire <$> [RSession; RTunState; RConState; RStreamState]))
      by (cbn; by rewrite <- !(assoc_L (++))).
    apply (safe_then _ _ _ (λ _ e', e' = add_log (if has_fd then [Acquire REventfd] else []) e2)).
    { unfold has_fd. destruct (0 <=? sys_answer EventFd); [done|]. unfold safe, mret, M_ret, add_log, e2. cbn. by rewrite app_nil_r. }
    intros _ e3 ->. set (e3 := add_log _ e2).
    assert (Hl3 : log e3 = log e ++ (Acquire <$> [RSession; RTunState; RConState; RStreamState]) ++
      (if has_fd then [Acquire REventfd] else [])) by (unfold e3; cbn [log add_log]; by rewrite Hl2, <- (assoc_L (++))).
    eapply safe_mono; [by apply (create_objects_safe e e3)|]. cbv beta. intros ok e' H.
    destruct ok; [exact H|]. by exists true.
  - eapply safe_mono; [by apply create_err_safe|]. cbv beta. intros ok e' [-> Hl]. exists false.
    rewrite Hl. intros r. rewrite !balance_app. destruct r; ledger.
Qed.

(** ** The stages of the start *)

Lemma safe_or_stop m k e Q :
  safe m e (λ rc e', if rc =? 0 then safe k e' Q
                     else safe (vpn_engine_cleanup os table env sch) e' (λ _ e2, Q false e2)) →
  safe (or_stop os table env sch m k) e Q.
Proof.
  intros H. unfold or_stop. apply safe_bind. eapply safe_mono; [exact H|]. intros rc e'. cbv beta.
  destruct (rc =? 0); cbn [negb]; [done|]. intros H'. apply safe_bind. exact H'.
Qed.

Lemma safe_or_fail m k e (Q : Z → engine → Prop) :
  safe m e (λ rc e', if rc =? 0 then safe k e' Q else Q (-1) e') → safe (or_fail m k) e Q.
Proof.
  intros H. unfold or_fail. apply safe_bind. eapply safe_mono; [exact H|]. intros rc e'. cbv beta.
  by destruct (rc =? 0).
Qed.

(** A step of the QUIC part that keeps the context. *)
Lemma safe_quic_keeping {A} (m : M client A) e (Q : A → engine → Prop) :
  keeping m (cl e) → (∀ a c, keeps (cl e) c → Q a (set_cl c e)) → safe (quic m) e Q.
Proof. intros Hm HQ. apply safe_zoom. eapply safe_mono; [exact Hm|]. intros a c H. by apply HQ. Qed.

Lemma setup_msquic_safe e w : wan e = Some w → wan_ifname (cl e) ≠ None →
  safe (setup_msquic os env new_handle inet_pton6 sch) e (λ rc e', ∃ c, e' = set_cl c e ∧
    wan_ifname c = wan_ifname (cl e) ∧ (rc = 0 → api_up c)).
Proof.
  intros Hw Hi. unfold setup_msquic.
  apply (safe_then _ _ _ (λ ctx e', ∃ c, e' = set_cl c e ∧ wan_ifname c = wan_ifname (cl e))).
  { apply safe_quic_keeping; [apply keeps_calls|]. intros ctx c [_ H]. by exists c. }
  intros [x|] e1 (c1 & -> & E1); [|by exists c1].
  apply safe_bind, safe_zoom. unfold modify, safe at 1. cbn [cl set_cl].
  set (c2 := set_MsQuic (Some x) c1). change (set_cl c2 (set_cl c1 e)) with (set_cl c2 e).
  apply safe_or_fail. apply safe_zoom. eapply safe_mono; [apply register_safe|]. intros rc c3 [[_ E3] H3].
  cbn [cl set_cl] in E3. destruct (Z.eqb_spec rc 0) as [->|Hrc]; [|exists c3; split; [done|split; [|done]]; by rewrite E3].
  specialize (H3 eq_refl). apply safe_gets. cbn [wan set_cl]. rewrite Hw. apply safe_gets. cbn [cl set_cl].
  assert (Hk : wan_ifname c3 = wan_ifname (cl e)) by by rewrite E3.
  assert (Hstep : ∀ (m : M client Z) (k : M engine Z) c (Q : Z → engine → Prop), api_up c →
    wan_ifname c = wan_ifname (cl e) → keeping m c →
    (∀ c', api_up c' → wan_ifname c' = wan_ifname (cl e) → safe k (set_cl c' e) Q) →
    (∀ c', wan_ifname c' = wan_ifname (cl e) → Q (-1) (set_cl c' e)) →
    safe (or_fail (quic m) k) (set_cl c e) Q).
  { intros m k c Q Hup Hn Hm Hk' Hf. apply safe_or_fail, safe_quic_keeping; [exact Hm|].
    cbn [cl set_cl]. intros rc c' [Hu Hn']. change (set_cl c' (set_cl c e)) with (set_cl c' e).
    assert (wan_ifname c' = wan_ifname (cl e)) by by rewrite Hn'. destruct (rc =? 0); auto. }
  assert (Hneg : ∀ c', wan_ifname c' = wan_ifname (cl e) → ∃ c, set_cl c' e = set_cl c e ∧
    wan_ifname c = wan_ifname (cl e) ∧ (-1 = 0 → api_up c)) by by intros c' ?; exists c'.
  change (set_cl c3 (set_cl c2 e)) with (set_cl c3 e).
  apply Hstep; [done|done|apply keeping_config_addr| |exact Hneg]. intros c4 U4 N4.
  apply Hstep; [done|done|by apply keeping_params| |exact Hneg]. intros c5 U5 N5.
  apply Hstep; [done|done|by apply keeping_credentials| |exact Hneg]. intros c6 U6 N6.
  apply Hstep; [done|done|by apply keeping_connection_start| |exact Hneg]. intros c7 U7 N7.
  apply Hstep; [done|done|apply keeping_stream_start; [done..|congruence]| |exact Hneg]. intros c8 U8 N8.
  by exists c8.
Qed.

Lemma request_virtip_safe e : api_up (cl e) → wan_ifname (cl e) ≠ None →
  found sys_answer CallocPkt = true → (∀ n, env (Malloc 16) n ≠ 0) →
  safe (request_virtip os env sys_answer sch) e (λ rc e', ∃ c, e' = add_log [Acquire RCtrlPkt] (set_cl c e) ∧
    wan_ifname c = wan_ifname (cl e) ∧ (rc = 0 → api_up c ∧ tun_state c = TUN_READY)).
Proof.
  intros Hup Hi Hf Hm. unfold request_virtip. rewrite Hf.
  unfold acquire. apply safe_modify.
  destruct (pkt_ctrl_create_config_req true 0 AF_INET _) as [pkt|] eqn:E; [|done].
  assert (Hlen : (0 < length (pkt_bytes pkt))%nat).
  { unfold pkt_ctrl_create_config_req in E. injection E as <-. unfold pkt_bytes, hdr_bytes.
    rewrite !length_app, !length_le_bytes. lia. }
  apply safe_or_fail, safe_quic_keeping; [by apply keeping_stream_send|]. intros rc c [Hu Hn].
  cbn [cl add_log] in Hu, Hn. specialize (Hu Hup).
  destruct (Z.eqb_spec rc 0) as [->|Hrc]; [|exists c; by split].
  apply (safe_then _ _ _ (λ _ e', ∃ c', e' = add_log [Acquire RCtrlPkt] (set_cl c' e) ∧ api_up c' ∧
    wan_ifname c' = wan_ifname (cl e))).
  { apply safe_quic_keeping; [apply cb_request; [done|exact Hu|cbn; congruence]|].
    cbn [cl set_cl add_log]. intros _ c' [Hu' Hn']. exists c'. split; [done|]. split; [auto|congruence]. }
  intros _ e' (c' & -> & Hu' & Hn'). apply safe_or_fail, safe_zoom, safe_zoom.
  eapply safe_mono; [by apply wait_ms_safe|]. intros rc v Hv. cbn [cl set_cl add_log].
  destruct (Z.eqb_spec rc 0) as [->|Hrc].
  - exists (set_tun_state v c'). split; [done|]. split; [done|]. intros _. split; [exact Hu'|]. by apply Hv.
  - exists (set_tun_state v c'). by split.
Qed.

(** What a start that failed after session_create leaves behind: the eventfd is
    only closed with the sending thread, tun_state only destroyed with a tunnel,
    the request never freed. *)
Definition start_leak (published requested : bool) (r : resource) : Z :=
  match r with
  | REventfd => if has_fd then 1 else 0
  | RTunState => if published then 0 else 1
  | RCtrlPkt => if requested then 1 else 0
  | _ => 0
  end.
(** What a started engine holds. *)
Definition started_holds (r : resource) : Z :=
  match r with REventfd => if has_fd then 1 else 0 | _ => 1 end.

Definition start_outcome e (ok : bool) e' : Prop :=
  if ok then
    (running_send e' = true ∧ running_recv e' = true ∧ thread_send e' = true ∧ thread_recv e' = true) ∧
    (tun_state (cl e') = TUN_READY ∧ api_up (cl e') ∧ wan e' ≠ None) ∧
    ∀ r, balance (log e') r = balance (log e) r + started_holds r
  else
    e' = e ∨
    (∃ resolved, ∀ r, balance (log e') r = balance (log e) r + create_leak resolved r) ∨
    (∃ published requested, ∀ r, balance (log e') r = balance (log e) r + start_leak published requested r).

(** A failed stage: the cleanup of a session whose threads were not started. *)
Lemma failed_stage_safe e0 e ps pr q l requested :
  cleanable e ps pr q → running_send e = false → running_recv e = false →
  log e = log e0 ++ create_log ++ l →
  (∀ r, balance l r = (match r with RWan => match wan e with Some _ => 1 | None => 0 end
                       | RCtrlPkt => if requested : bool then 1 else 0 | _ => 0 end)) →
  safe (vpn_engine_cleanup os table env sch) e (λ _ e', start_outcome e0 false e').
Proof.
  intros Hc Hs Hr Hl Hb. eapply safe_mono; [by eapply cleanup_safe|]. cbv beta. intros _ e' Hl'.
  right; right. exists (match tun (cl e) with Some _ => true | None => false end), requested.
  intros r. rewrite Hl', Hl. unfold cleanup_log. rewrite Hs, Hr, !balance_app, (Hb r).
  unfold create_log, start_leak, has_fd. rewrite !balance_app.
  destruct (tun (cl e)), (wan e), (0 <=? sys_answer EventFd); destruct r; ledger.
Qed.

Lemma engine_start_safe config e :
  found sys_answer CallocPkt = true → (∀ n, env (Malloc 16) n ≠ 0) →
  sys_answer CreateSend = 0 → sys_answer CreateRecv = 0 →
  safe (DefaultWan.detect_default_wan netenv uninit route_garbage addr_garbage link_garbage polls
          (found sys_answer MallocWan)) (net e) (λ _ _, True) →
  safe (vpn_engine_start os table env new_handle inet_pton6 gai netenv uninit route_garbage addr_garbage
          link_garbage polls sys_answer sch config) e (λ ok e', start_outcome e ok e' ∧
    (ok = true → ∃ ps pr q, cleanable e' ps pr q ∧ shutdown_fd e' = sys_answer EventFd)).
Proof.
  intros Hpkt Hmal Hcs Hcr Hnet. unfold vpn_engine_start.
  eapply safe_then; [apply session_create_safe|]. cbv beta. intros ok e1 H1. destruct ok; cbn [negb].
  2:{ split; [|done]. destruct (found sys_answer MallocSession); [right; by left|by left]. }
  destruct H1 as (ps & pr & q & [Hc Hs Hr Hw Hm Ht Hfd Hn Hl]).
  assert (Hfail : ∀ e2 l requested, cleanable e2 ps pr q → running_send e2 = false → running_recv e2 = false →
    log e2 = log e ++ create_log ++ l →
    (∀ r, balance l r = (match r with RWan => match wan e2 with Some _ => 1 | None => 0 end
                         | RCtrlPkt => if requested : bool then 1 else 0 | _ => 0 end)) →
    safe (vpn_engine_cleanup os table env sch) e2 (λ _ e', start_outcome e false e' ∧
      (false = true → ∃ ps pr q, cleanable e' ps pr q ∧ shutdown_fd e' = sys_answer EventFd))).
  { intros e2 l rq ? ? ? ? ?. eapply safe_mono; [by eapply (failed_stage_safe e e2 ps pr q l rq)|].
    cbv beta. intros _ e' Ho. by split. }
  (* the wan interface *)
  apply safe_or_stop. unfold detect_default_wan. apply safe_bind, safe_zoom. rewrite Hn.
  pose proof (DefaultWan.detect_default_wan_result netenv uninit route_garbage addr_garbage link_garbage polls
    (found sys_answer MallocWan) (net e)) as Hres. unfold ends in Hres. unfold safe at 1. unfold safe in Hnet.
  destruct (DefaultWan.detect_default_wan _ _ _ _ _ _ _ _) as [[rc w] n| |]; [|done..].
  destruct Hres as [[Hrc [w' Ew]]|[Hrc Ew]]; cbn in Hrc, Ew; subst w.
  2:{ unfold safe at 1, mret, M_ret. destruct (Z.eqb_spec rc 0); [done|].
      apply (Hfail _ [] false); [by eapply cleanable_frame|done|done|cbn; by rewrite app_nil_r|].
      intros r. cbn. rewrite Hw. by destruct r. }
  subst rc. apply safe_modify, safe_bind, safe_zoom. unfold modify at 1, safe at 1.
  unfold acquire. apply safe_modify. unfold safe at 1, mret at 1, M_ret at 1. change (0 =? 0) with true. cbv iota.
  set (e2 := add_log _ _).
  assert (Hc2 : cleanable e2 ps pr q) by by eapply cleanable_frame.
  assert (Hl2 : log e2 = log e ++ create_log ++ [Acquire RWan]) by (cbn; by rewrite Hl, <- (assoc_L (++))).
  (* MsQuic *)
  apply safe_or_stop. eapply safe_mono; [by apply (setup_msquic_safe e2 w')|]. cbv beta.
  intros rc e3 (c3 & -> & Hi3 & H3). destruct (Z.eqb_spec rc 0) as [->|Hrc].
  2:{ apply (Hfail _ [Acquire RWan] false); [by eapply cleanable_frame|exact Hs|exact Hr|exact Hl2|].
      intros r. cbn [wan set_cl e2 add_log set_wan]. destruct r; ledger. }
  specialize (H3 eq_refl). apply safe_or_stop.
  eapply safe_mono; [apply request_virtip_safe; [exact H3|cbn in *; congruence|done|done]|]. cbv beta.
  intros rc e4 (c4 & -> & Hi4 & H4).
  change (set_cl c4 (set_cl c3 e2)) with (set_cl c4 e2). set (e4 := add_log _ _).
  assert (Hl4 : log e4 = log e ++ create_log ++ [Acquire RWan; Acquire RCtrlPkt])
    by (cbn [log e4 add_log set_cl]; rewrite Hl2, <- !(assoc_L (++)); done).
  assert (Hc4 : cleanable e4 ps pr q) by by eapply cleanable_frame.
  destruct (Z.eqb_spec rc 0) as [->|Hrc].
  2:{ apply (Hfail _ [Acquire RWan; Acquire RCtrlPkt] true); [done|exact Hs|exact Hr|exact Hl4|].
      intros r. cbn [wan set_cl e4 e2 add_log set_wan]. destruct r; ledger. }
  destruct (H4 eq_refl) as [Hu4 Hts]. apply safe_or_stop. unfold start_threads, or_fail, create_thread. rewrite Hcs, Hcr.
  unfold safe, mbind, M_bind, mret, M_ret, modify, acquire. cbn [Z.eqb negb]. cbv iota beta.
  split.
  - split; [done|]. split; [done|]. intros r. cbn [log add_log set_thread_recv set_running_recv
      set_thread_send set_running_send]. rewrite Hl4, !balance_app. unfold create_log, has_fd.
    rewrite !balance_app. unfold started_holds, has_fd.
    destruct (0 <=? sys_answer EventFd); destruct r; ledger.
  - intros _. exists ps, pr, q. split; [|done]. destruct Hc as [E1 E2 E3 I1 I2 I3 _ _]. by split.
Qed.

(** A running flag without a thread: the cleanup joins a thread that was never
    created.  start_threads leaves this state when pthread_create fails. *)
Lemma join_without_thread e : running_send e = true → thread_send e = false →
  ∃ e', vpn_engine_cleanup os table env sch e = Fatal e'.
Proof.
  intros Hr Ht. unfold vpn_engine_cleanup. rewrite bind_gets, Hr. eexists.
  unfold join_send, mbind, M_bind, gets, modify. cbn [thread_send set_running_send]. rewrite Ht. reflexivity.
Qed.
Lemma create_thread_fails e : sys_answer CreateSend ≠ 0 → thread_send e = false →
  ∃ e', or_stop os table env sch (start_threads sys_answer) (mret true) e = Fatal e'.
Proof.
  intros Hc Ht. unfold or_stop.
  rewrite (bind_run _ _ e (-1) (set_running_send true e)).
  - change (negb (-1 =? 0)) with true. cbv iota.
    destruct (join_without_thread (set_running_send true e)) as [e' E]; [done|done|].
    exists e'. unfold mbind at 1, M_bind at 1. by rewrite E.
  - unfold start_threads, or_fail, create_thread, mbind, M_bind, modify, mret, M_ret.
    destruct (Z.eqb_spec (sys_answer CreateSend) 0) as [|Hne]; [done|].
    by destruct (Z.eqb_spec (sys_answer CreateSend) 0).
Qed.


End engine.

(** ** MsQuic's callbacks are such callbacks *)
Section callbacks.
Context (os : os_t) (table : Tun.api_id → Tun.tun_api_table_t) (env : api_call → nat → Z).
Context (Hos : posix_ok os) (Hd : driver_total table).
Implicit Types s : client.

Lemma keeping_connect_callback h ev s : linked s → keeping (msquic_connect_callback os env h ev) s.
Proof.
  intros (q & h' & E & Ha & Eh). unfold msquic_connect_callback, keeping. apply safe_gets. unfold id.
  rewrite E. apply (safe_bind (mret q)). unfold safe at 1. cbn -[mbind].
  rewrite Eh. apply (safe_bind (mret h')). unfold safe at 1. cbn -[mbind].
  match goal with |- safe ?m ?s _ => change (keeping m s) end. destruct ev; keeping.
Qed.

Lemma keeping_process pkt s : wan_ifname s ≠ None → keeping (process_ctrl_pkt os table env pkt) s.
Proof.
  intros Hw. apply runs_safe. eapply runs_mono; [by apply (process_ctrl_run os table env Hos Hd)|].
  cbv beta. intros r s' [(E1 & _ & _ & _ & _ & E2) _]. split; [|done].
  intros (q & E & Ha). exists q. by rewrite E1.
Qed.

Lemma keeping_frames fs s : wan_ifname s ≠ None →
  keeping (Frames.run_frames (process_ctrl_pkt os table env) (λ r, negb (r =? 0)) fs) s.
Proof.
  revert s. induction fs as [|f fs IH]; intros s Hw; cbn [Frames.run_frames]; [apply keeping_ret|].
  apply keeping_bind; [by apply keeping_process|]. intros r s' [_ E]. apply keeping_if; [apply keeping_ret|].
  apply IH. by rewrite E.
Qed.

(** The stream's events; what a RECEIVE brings is bounded by its 32-bit lengths. *)
Definition event_ok (ev : stream_event) : Prop :=
  match ev with
  | STREAM_RECEIVE bufs =>
      Forall (λ b, Frames.Length b < 2 ^ 32) bufs ∧ Z.of_nat (length (concat bufs)) < 2 ^ 64
  | _ => True
  end.

Lemma keeping_stream_callback h ev s : event_ok ev → api_up s → wan_ifname s ≠ None →
  keeping (msquic_stream_callback os table env h ev) s.
Proof.
  intros Hev (q & E & Ha) Hw. unfold msquic_stream_callback, keeping. apply safe_gets. unfold id.
  rewrite E. apply (safe_bind (mret q)). unfold safe at 1. cbn -[mbind Frames.receive_loop].
  match goal with |- safe ?m ?s _ => change (keeping m s) end. destruct ev; try solve [keeping].
  - cbv zeta. destruct (_ =? 0); [apply keeping_ret|]. apply keeping_bind.
    + destruct Hev as [H1 H2]. unfold keeping, safe. pose proof (Frames.receive_loop_run (process_ctrl_pkt os table env) (λ r, negb (r =? 0)) bufs s H1 H2) as Er.
      cbv zeta in Er. rewrite Er.
      fold (safe (Frames.frames_then (process_ctrl_pkt os table env) (λ r, negb (r =? 0))
        (Frames.frames (concat bufs)) (Z.of_nat (length (concat bufs)) - Z.of_nat (length (concat bufs)) mod PKTCTRLSIZ)) s (λ _ s', keeps s s')).
      apply keeping_bind; [by apply keeping_frames|]. intros; apply keeping_ret.
    + intros [n|] s' _; apply keeping_ret.
  - destruct context as [[b qb]|]; keeping.
  - keeping. destruct (ConnectionHandle q); keeping.
Qed.

(** A schedule of MsQuic's events. *)
Definition msquic_schedule (h : nat) (con : connection_event) (st rq : stream_event) (cl : connection_event)
    (ts : timespec) (w1 w2 w3 : list (Z * Z)) : schedule :=
  Schedule (msquic_connect_callback os env h con;; mret ()) (Some ts) w1
           (msquic_stream_callback os table env h st;; mret ()) (Some ts) w2
           (msquic_stream_callback os table env h rq;; mret ()) (Some ts) w3
           (msquic_connect_callback os env h cl;; mret ()).

Lemma msquic_schedule_ok h con st rq cl ts w1 w2 w3 : event_ok st → event_ok rq →
  callbacks_ok (msquic_schedule h con st rq cl ts w1 w2 w3).
Proof.
  intros H1 H2. split; cbn [on_connect on_stream on_request on_close msquic_schedule].
  - intros s Hl. apply keeping_bind; [by apply keeping_connect_callback|]. intros; apply keeping_ret.
  - intros s Hu Hw. apply keeping_bind; [by apply keeping_stream_callback|]. intros; apply keeping_ret.
  - intros s Hu Hw. apply keeping_bind; [by apply keeping_stream_callback|]. intros; apply keeping_ret.
  - intros s Hl. apply safe_bind. eapply safe_mono; [by apply keeping_connect_callback|]. done.
Qed.
End callbacks.

(** ** Witnesses *)

(** The server answers a frame; MsQuic reports its events before the code waits. *)
Definition sample_schedule : schedule :=
  msquic_schedule os_posix (λ _, sample_api) grant 1 CONNECTED (START_COMPLETE true 0)
    (STREAM_RECEIVE [sample_resp]) CONNECTION_SHUTDOWN_COMPLETE (Timespec 100 0)
    [(0, SESSION_CONNECTED)] [(0, STREAM_OPEN)] [(0, TUN_READY)].
Definition sample_answer (c : sys_call) : Z :=
  match c with CreateSend | CreateRecv => 0 | EventFd => 9 | _ => 4096 end.
Definition sample_engine : engine :=
  Engine (MkClient None None 0 0 0 None "" 0 [] []) None 0 None None None false false false false
    (NetIface.Os 0 []) [] [].
Definition sample_start : M engine bool :=
  vpn_engine_start os_posix (λ _, sample_api) grant S (λ _, false) Domain.sample_gai
    DefaultWan.Sample.kernel DefaultWan.Sample.uninit DefaultWan.Sample.route_garbage
    DefaultWan.Sample.addr_garbage DefaultWan.Sample.link_garbage 8 sample_answer sample_schedule
    (VpnConfig "vpn.example" 4567).

Lemma sample_schedule_ok : callbacks_ok sample_schedule.
Proof.
  apply msquic_schedule_ok; [apply os_posix_ok|apply sample_driver_total|done|].
  split; [by repeat constructor|by vm_compute].
Qed.
Lemma sample_malloc n : grant (Malloc 16) n ≠ 0.
Proof. unfold grant. lia. Qed.


