(* ===== verification/Exchange.v ===== *)
(** * The configuration exchange, from the request to the client's tunnel

    The stream callbacks of the two programs put together: the frame the server
    hands to MsQuic is the one the client's callback receives, in buffers of
    any sizes, and the client configures its interface with the driver of
    TunDriver.v, whose kernel, processes and files answer anything. *)
From stdpp Require Import prelude strings.
From Stdlib Require Import ZArith Lia.
From S2P Require Import Prelude Utils PktCtrl ObjPool StateSync TunTotal Frames.
From S2P Require IpPool Tun TunDriver ClientList Pool ServerQuic ClientQuic.

Lemma runs_eq {S A} (m m' : M S A) s (Q : A → S → Prop) : m s = m' s → runs m' s Q → runs m s Q.
Proof. unfold runs. by intros ->. Qed.

(** ** The client applies a response *)
Section client.
Context (os : os_t) (Hos : posix_ok os) (env : ClientQuic.api_call → nat → Z).
Context (kern : Tun.sys → nat → Z) (kname : nat → string) (proc : Tun.sys → nat → Utils.proc_run).
Context (nft : Tun.sys → nat → TunDriver.nft_run) (access : string → bool) (mem : bool).
Abbreviation rtable := (TunDriver.driver_table kern kname proc nft access mem).
Implicit Types (w : Tun.world) (s : ClientQuic.client).

(** A step of [configure] whose success establishes [Q]. *)
Lemma ends_or_cleanup m k w (Q R : Tun.world → Prop) :
  ends m w (λ r w', r = 0 → Q w') →
  (∀ w', Q w' → ends k w' (λ ok w'', ok = true → R w'')) →
  ends (ClientQuic.or_cleanup m k) w (λ ok w', ok = true → R w').
Proof.
  intros Hm Hk. apply ends_bind. eapply ends_mono; [exact Hm|]. cbv beta. intros r w1 H.
  destruct (Z.eqb_spec r 0) as [->|]; cbn [negb]; [by apply Hk, H|done].
Qed.

(** One that leaves the configuration alone. *)
Lemma ends_keep m k w (c : Z * Z * Z * Z * Z * Z) (R : Tun.world → Prop) :
  leaves m → conf w = c →
  (∀ w', conf w' = c → ends k w' (λ ok w'', ok = true → R w'')) →
  ends (ClientQuic.or_cleanup m k) w (λ ok w', ok = true → R w').
Proof.
  intros Hm Hc Hk. apply (ends_or_cleanup _ _ _ (λ w', conf w' = c)); [|done].
  eapply ends_mono; [by apply (pres_ends conf)|]. cbv beta. intros r w' E _. congruence.
Qed.
Lemma ends_keep' (m : M Tun.world Z) (k : M Tun.world bool) w (c : Z * Z * Z * Z * Z * Z) (R : Tun.world → Prop) :
  leaves m → conf w = c →
  (∀ w', conf w' = c → ends k w' (λ ok w'', ok = true → R w'')) →
  ends (m;; k) w (λ ok w', ok = true → R w').
Proof.
  intros Hm Hc Hk. apply ends_bind. eapply ends_mono; [by apply (pres_ends conf)|]. cbv beta. intros r w' E.
  apply Hk. congruence.
Qed.

(** What the setters demand of a response. *)
Definition acceptable (m mtu : Z) : Prop := validate_mask m = true ∧ 256 ≤ mtu ≤ 1380.

Lemma client_configure_conf i m d1 d2 cidr wan srv mtu port w :
  in_u 32 i → in_u 32 m → in_u 32 d1 → in_u 32 d2 →
  ends (ClientQuic.configure rtable (dotted i) (dotted m) (dotted d1) (dotted d2) cidr wan srv mtu port) w
    (λ ok w', ok = true → acceptable m mtu ∧ conf w' = (i, m, Z.land i m, mtu, d1, d2)).
Proof.
  intros Hi Hm H1 H2. unfold ClientQuic.configure.
  eapply (ends_keep _ _ _ (conf w)); [apply leaves_open|done|]. intros w1 _.
  eapply ends_or_cleanup; [apply set_addr_conf|]. intros w2 (a & b & E1 & E2 & Hv & Ec2).
  rewrite TunDriver.inet_pton_dotted in E1, E2 by done. injection E1 as <-. injection E2 as <-.
  eapply ends_or_cleanup; [apply set_mtu_conf|]. intros w3 (Hmtu & Ec3).
  eapply ends_keep; [apply leaves_set_up|exact Ec3|]. intros w4 Ec4.
  eapply ends_keep'; [apply leaves_rules_clear|exact Ec4|]. intros w5 Ec5.
  eapply ends_or_cleanup; [apply set_dns_conf|]. intros w6 (a1 & a2 & E1 & E2 & Ec6).
  rewrite TunDriver.inet_pton_dotted in E1, E2 by done. injection E1 as <-. injection E2 as <-.
  eapply ends_keep; [apply leaves_add_route|exact Ec6|]. intros w7 Ec7.
  eapply ends_keep; [apply leaves_add_route|exact Ec7|]. intros w8 Ec8.
  eapply ends_keep; [apply leaves_add_route|exact Ec8|]. intros w9 Ec9.
  apply ends_bind. destruct wan as [wn|]; [|done].
  eapply ends_mono; [apply (pres_ends conf), leaves_crules|]. cbv beta. intros r w10 E10. rewrite Ec9 in E10.
  eapply ends_keep; [apply leaves_start|exact E10|]. intros w11 Ec11. intros _.
  split; [done|]. rewrite Ec11. unfold conf in Ec2, Ec5. congruence.
Qed.

(** The configuration of a handle. *)
Definition configured (t : Tun.tun_iface_t) (i m mtu d1 d2 : Z) : Prop :=
  ready t ∧ Tun.ip t = i ∧ Tun.mask t = m ∧ Tun.net t = Z.land i m ∧ Tun.mtu t = mtu ∧
  Tun.dns1 t = d1 ∧ Tun.dns2 t = d2.

(** One frame with a response for the client. *)
Lemma apply_response pkt i m d1 d2 mtu s :
  ClientQuic.wan_ifname s ≠ None →
  in_u 32 i → in_u 32 m → in_u 32 d1 → in_u 32 d2 →
  let b := body (pkt_of_bytes pkt) in
  frame_ok (pkt_ntoh (pkt_of_bytes pkt)) = true →
  type (pkt_ntoh (pkt_of_bytes pkt)).1 = msg_type VPN_MSG_TYPE_CONFIG_RESP →
  resp_ip b = i → resp_mask b = m → ntohs (resp_mtu b) = mtu → resp_dns1 b = d1 → resp_dns2 b = d2 →
  runs (ClientQuic.process_ctrl_pkt os rtable env pkt) s (λ r s',
    ClientQuic.same_session s s' ∧
    ((r = 0 ∧ ClientQuic.tun_state s' = ClientQuic.TUN_READY ∧ acceptable m mtu ∧
        ∃ t, ClientQuic.tun s' = Some t ∧ configured t i m mtu d1 d2) ∨
     (r = - ENODEV ∧ ClientQuic.tun_state s' = ClientQuic.TUN_FAIL ∧ ClientQuic.tun s' = ClientQuic.tun s))).
Proof.
  intros Hw Hi Hm H1 H2 b Hf Hty Ei Em Emtu E1 E2.
  unfold ClientQuic.process_ctrl_pkt. rewrite Hf, Hty. cbn [negb]. rewrite Z.eqb_refl.
  unfold ClientQuic.config_resp. fold b. rewrite Ei, Em, Emtu, E1, E2.
  unfold ClientQuic.str_of, in_addr_to_str. change (INET_ADDRSTRLEN =? 0) with false. cbv iota.
  rewrite !inet_ntop_fits by done. cbn [snd default]. unfold id.
  apply runs_bind. unfold gets, runs at 1. apply runs_bind.
  unfold ClientQuic.call, runs at 1. set (s1 := ClientQuic.set_calls _ s).
  destruct (env ClientQuic.AllocTun _ =? 0); cbn [negb Tun.tun_create Tun.get_sys_api].
  - destruct (ClientQuic.in_driver_run ClientQuic.no_tun (ClientQuic.cleanup rtable true) s1)
      as (a & w & _ & E).
    { apply ClientQuic.returns_cleanup, driver_table_total. }
    apply runs_bind. unfold runs at 1. rewrite E. apply runs_bind. unfold runs at 1.
    rewrite ClientQuic.sync_tun_run by done. split; [done|]. by right.
  - match goal with |- runs (x ← ClientQuic.in_driver ?t ?k; _) _ _ =>
      destruct (ClientQuic.in_driver_run t k s1) as (ok & w & Ew & E) end.
    { apply ClientQuic.returns_configure; [apply driver_table_total|done]. }
    apply runs_bind. unfold runs at 1. rewrite E. destruct ok.
    + apply runs_bind. unfold modify, runs at 1. apply runs_bind. unfold runs at 1.
      rewrite ClientQuic.sync_tun_run by done. split; [done|]. left. split; [done|]. split; [done|].
      pose proof (ClientQuic.configure_true _ _ _ _ _ _ _ _ _ _ _ _ Ew) as Hr.
      match type of Ew with ClientQuic.configure _ _ _ _ _ ?c ?wn ?sv _ ?p ?w0 = _ =>
        pose proof (client_configure_conf i m d1 d2 c wn sv mtu p w0 Hi Hm H1 H2) as Hc end.
      unfold ends in Hc. rewrite Ew in Hc. destruct (Hc eq_refl) as [Hacc Hc']. split; [done|].
      eexists. split; [done|]. unfold conf in Hc'. split; [done|]. split_and!; congruence.
    + destruct (ClientQuic.in_driver_run (Tun.tun w) (ClientQuic.cleanup rtable false)
        (ClientQuic.set_driver (Tun.trace w) s1)) as (a & w2 & _ & E2').
      { apply ClientQuic.returns_cleanup, driver_table_total. }
      apply runs_bind. unfold runs at 1. rewrite E2'. apply runs_bind. unfold runs at 1.
      rewrite ClientQuic.sync_tun_run by done. split; [done|]. by right.
Qed.
End client.

(** ** The two programs *)
Section exchange.
Context {P : Type} `{!ObjPool P}.
Context (garbage : nat → ClientList.client_t) (senv : ServerQuic.api_call → nat → Z).
Context (os : os_t) (env : ClientQuic.api_call → nat → Z).
Context (kern : Tun.sys → nat → Z) (kname : nat → string) (proc : Tun.sys → nat → Utils.proc_run).
Context (nft : Tun.sys → nat → TunDriver.nft_run) (access : string → bool) (mem : bool).
Abbreviation rtable := (TunDriver.driver_table kern kname proc nft access mem).

(** C2. The configuration exchange end to end: the request the client builds,
    delivered to the server in any buffers, makes the server hand one frame to
    MsQuic; delivered to the client in any buffers, that frame either brings
    up a tunnel with exactly the address leased to the client and the mask,
    network, MTU and DNS addresses of the server's tunnel, or, when the driver
    refuses one of them, marks it FAIL, publishes nothing and aborts the
    stream; the first can only be when the mask is a netmask and the MTU lies
    in 256..1380. *)
Theorem config_exchange_end_to_end s handle stream c st e t host req bufs k chandle :
  posix_ok os → ServerQuic.env_ok senv → ServerQuic.serving garbage s stream c st e t →
  c_string host → pkt_ctrl_create_config_req true 0 AF_INET (Some host) = Some req →
  concat bufs = pkt_bytes req → Forall (λ b, Length b < 2 ^ 32) bufs →
  ClientQuic.MsQuic k ≠ None → ClientQuic.wan_ifname k ≠ None →
  ∃ resp s', ServerQuic.ServerStreamCallback garbage senv handle stream (ServerQuic.STREAM_RECEIVE bufs) s =
      Ret (ServerQuic.QUIC_STATUS_SUCCESS, Some PKTCTRLSIZ) s' ∧
    last (ServerQuic.calls s') = Some (ServerQuic.StreamSend (ServerQuic.StreamHandle st) resp) ∧
    length resp = 1024%nat ∧
    ∀ cbufs, concat cbufs = resp → Forall (λ b, Length b < 2 ^ 32) cbufs →
    runs (ClientQuic.msquic_stream_callback os rtable env chandle (ClientQuic.STREAM_RECEIVE cbufs)) k (λ r k',
      ClientQuic.same_session k k' ∧
      ((r = (ClientQuic.QUIC_STATUS_SUCCESS, Some PKTCTRLSIZ) ∧ ClientQuic.tun_state k' = ClientQuic.TUN_READY ∧
        acceptable (Tun.mask t) (Tun.mtu t) ∧ ∃ t', ClientQuic.tun k' = Some t' ∧
          configured t' (IpPool.ip e) (Tun.mask t) (Tun.mtu t) (Tun.dns1 t) (Tun.dns2 t)) ∨
       (r = (ClientQuic.QUIC_STATUS_ABORTED, None) ∧ ClientQuic.tun_state k' = ClientQuic.TUN_FAIL ∧
        ClientQuic.tun k' = ClientQuic.tun k))).
Proof.
  intros Hos Henv Hsv Hhost Hreq Hb Hl Hq Hw. pose proof (ServerQuic.sv_fields _ _ _ _ _ _ _ Hsv) as (F1 & F2 & F3 & F4 & F5).
  destruct (ServerQuic.server_exchange_run garbage senv s handle stream c st e t host req bufs)
    as (resp & s' & E & _ & _ & Ec & Hlen & Hf & Hty & _ & H1 & H2 & H3 & H4 & H5); [done..|].
  exists resp, s'. split; [exact E|]. split; [by rewrite Ec, last_app|].
  split; [exact Hlen|]. intros cbufs Hcb Hcl. destruct (ClientQuic.MsQuic k) as [q|] eqn:Eq; [|done].
  unfold ClientQuic.msquic_stream_callback. apply runs_bind. unfold gets at 1, id, runs at 1. rewrite Eq.
  apply runs_bind. unfold ClientQuic.check, mret at 1, M_ret at 1, runs at 1.
  assert (Hn : Z.of_nat (length (concat cbufs)) = 1024) by (rewrite Hcb, Hlen; done).
  assert (Hrun : ∀ f on_error, receive_loop f on_error (receive_fuel 1024) cbufs 1024 0 k =
    frames_then f on_error [resp] 1024 k).
  { intros f on_error. pose proof (receive_loop_run f on_error cbufs k Hcl) as H. cbv zeta in H.
    rewrite Hn, Hcb, (ServerQuic.frames_one _ Hlen) in H. by apply H. }
  rewrite Hn. cbn [Z.eqb]. apply runs_bind. eapply runs_eq; [apply Hrun|].
  unfold frames_then. cbn [run_frames]. apply runs_bind. apply runs_bind.
  eapply runs_mono; [by apply (apply_response os Hos env kern kname proc nft access mem resp
    (IpPool.ip e) (Tun.mask t) (Tun.dns1 t) (Tun.dns2 t) (Tun.mtu t) k)|].
  cbv beta. intros r k' [Hsame [(-> & Hst & Hacc & Ht)|(-> & Hst & Ht)]]; (split; [done|]);
    [left|right]; done.
Qed.
End exchange.

(** ** A run of both *)

Definition sample_client_table : Tun.api_id → Tun.tun_api_table_t := TunDriver.table_ok TunDriver.kern_ok.
Definition sample_bufs : list (list Z) :=
  [take 600 (pkt_bytes ServerQuic.sample_req); drop 600 (pkt_bytes ServerQuic.sample_req)].

Lemma config_exchange_end_to_end_witness :
  ∃ resp s', ServerQuic.ServerStreamCallback ClientList.no_garbage ServerQuic.env_sample 21 7
      (ServerQuic.STREAM_RECEIVE sample_bufs) ServerQuic.sample_server =
      Ret (ServerQuic.QUIC_STATUS_SUCCESS, Some PKTCTRLSIZ) s' ∧
    runs (ClientQuic.msquic_stream_callback os_posix sample_client_table ClientQuic.grant 3
            (ClientQuic.STREAM_RECEIVE [resp])) ClientQuic.sample_client
      (λ _ k', ClientQuic.same_session ClientQuic.sample_client k').
Proof.
  assert (Henv : ServerQuic.env_ok ServerQuic.env_sample) by (split; [intros sz n; simpl; lia|done]).
  assert (Hs : c_string [113; 117; 105; 99]) by by repeat constructor.
  assert (Hb : concat sample_bufs = pkt_bytes ServerQuic.sample_req) by by vm_compute.
  assert (Hl : Forall (λ b, Length b < 2 ^ 32) sample_bufs) by by repeat constructor.
  destruct (config_exchange_end_to_end ClientList.no_garbage ServerQuic.env_sample os_posix ClientQuic.grant
    TunDriver.kern_ok (λ _, "tun0"%string) (λ _ _, ProcRun 0 (inr (Exited 0)))
    (λ _ _, TunDriver.NftRun 0 0 0 0 EmptyString (inr (Exited 0))) (λ _, true) true
    ServerQuic.sample_server 21 7 1 _ _ _ [113; 117; 105; 99] ServerQuic.sample_req sample_bufs
    ClientQuic.sample_client 3 os_posix_ok Henv ServerQuic.sample_serving Hs eq_refl Hb Hl
    ltac:(done) ltac:(done)) as (resp & s' & E & _ & Hlen & H).
  exists resp, s'. split; [exact E|]. eapply runs_mono; [apply H|].
  - apply app_nil_r.
  - constructor; [|done]. unfold Length. by rewrite Hlen.
  - by intros r k' [Hsame _].
Defined.

(** With a kernel that answers every request the tunnel comes up. *)
Definition sample_exchange : option (Z * option (Z * Z * Z)) :=
  match ServerQuic.ServerStreamCallback ClientList.no_garbage ServerQuic.env_sample 21 7
          (ServerQuic.STREAM_RECEIVE sample_bufs) ServerQuic.sample_server with
  | Ret _ s =>
      match last (ServerQuic.calls s) with
      | Some (ServerQuic.StreamSend _ resp) =>
          match ClientQuic.msquic_stream_callback os_posix sample_client_table ClientQuic.grant 3
                  (ClientQuic.STREAM_RECEIVE [take 3 resp; drop 3 resp]) ClientQuic.sample_client with
          | Ret _ k => Some (ClientQuic.tun_state k,
              (λ t, (Tun.ip t, Tun.mask t, Tun.mtu t)) <$> ClientQuic.tun k)
          | _ => None
          end
      | _ => None
      end
  | _ => None
  end.
Lemma sample_exchange_ready : sample_exchange =
  Some (ClientQuic.TUN_READY, Some (htonl 2886860802, mask_of_prefix 29, 1380)).
Proof. by vm_compute. Qed.
