(* ===== verification/ServerSetup.v ===== *)
(** * quic.c of the server: opening MsQuic and the listener, shutting down

    The state is the object the [MsQuic] argument points to, [None] when the
    pointer is NULL, and the trace of the calls into MsQuic and the allocator.
    What they answer and the handles they return are parameters, functions of
    the call and of the number of calls before it.  [Fatal] is a call through
    the NULL table. *)
From stdpp Require Import prelude strings.
From Stdlib Require Import ZArith Lia.
From S2P Require Import Prelude Utils PktCtrl SockAddr.

Definition QUIC_CREDENTIAL_FLAG_NONE : Z := 0.
Definition QUIC_SERVER_RESUME_AND_ZERORTT : Z := 2.
Definition PEERBIDISTREAMCOUNT : Z := 4.
Definition QUIC_CONNECTION_SHUTDOWN_FLAG_SILENT : Z := 1.

(** The fields of QUIC_SETTINGS the code sets, with IsSet. *)
Record settings_t := Settings {
  DisconnectTimeoutMs : option Z; HandshakeIdleTimeoutMs : option Z; IdleTimeoutMs : option Z;
  KeepAliveIntervalMs : option Z; MigrationEnabled : option bool; DatagramReceiveEnabled : option Z;
  MaximumMtu : option Z; MinimumMtu : option Z; ServerResumptionLevel : option Z;
  PeerBidiStreamCount : option Z
}.
Definition settings0 : settings_t := Settings None None None None None None None None None None.

(** QUIC_CREDENTIAL_CONFIG_HELPER: the type in CredConfig with the member of
    the union it says is there. *)
Inductive creds_t :=
| CREDENTIAL_TYPE_NONE
| CREDENTIAL_TYPE_CERTIFICATE_FILE (CertificateFile PrivateKeyFile : string)
| CREDENTIAL_TYPE_CERTIFICATE_FILE_PROTECTED (CertificateFile PrivateKeyFile PrivateKeyPassword : string).

Inductive api_call :=
| AllocContext
| MsQuicOpen2
| RegistrationOpen (app : string) (profile : Z)
| ConfigurationOpen (r : option nat) (alpn : string * Z) (s : settings_t)
| ConfigurationLoadCredential (c : option nat) (creds : creds_t) (fl : Z)
| ListenerOpen (r : option nat)
| ListenerStart (l : option nat) (alpn : string * Z) (a : quic_addr)
| RegistrationShutdown (r : option nat) (fl code : Z)
| ListenerClose (l : nat)
| ConfigurationClose (c : nat)
| RegistrationClose (r : nat)
| MsQuicClose
| FreeContext.

(** SERVER_QUIC_CONTEXT.  [Alpn]: the buffer and its length. *)
Record quic_t := Quic {
  Api : bool;
  Registration : option nat;
  Configuration : option nat;
  Listener : option nat;
  RegConfig : option (string * Z);
  SettingsOf : settings_t;
  Creds : creds_t * Z;
  Alpn : string * Z;
  LocalAddr : quic_addr
}.
Definition quic0 : quic_t :=
  Quic false None None None None settings0 (CREDENTIAL_TYPE_NONE, 0) (""%string, 0) quic_addr0.

Definition set_api (b : bool) (q : quic_t) : quic_t :=
  Quic b (Registration q) (Configuration q) (Listener q) (RegConfig q) (SettingsOf q) (Creds q) (Alpn q) (LocalAddr q).
Definition set_registration (h : option nat) (q : quic_t) : quic_t :=
  Quic (Api q) h (Configuration q) (Listener q) (RegConfig q) (SettingsOf q) (Creds q) (Alpn q) (LocalAddr q).
Definition set_configuration (h : option nat) (q : quic_t) : quic_t :=
  Quic (Api q) (Registration q) h (Listener q) (RegConfig q) (SettingsOf q) (Creds q) (Alpn q) (LocalAddr q).
Definition set_listener (h : option nat) (q : quic_t) : quic_t :=
  Quic (Api q) (Registration q) (Configuration q) h (RegConfig q) (SettingsOf q) (Creds q) (Alpn q) (LocalAddr q).
Definition set_reg_config (c : string * Z) (q : quic_t) : quic_t :=
  Quic (Api q) (Registration q) (Configuration q) (Listener q) (Some c) (SettingsOf q) (Creds q) (Alpn q) (LocalAddr q).
Definition set_creds (c : creds_t * Z) (q : quic_t) : quic_t :=
  Quic (Api q) (Registration q) (Configuration q) (Listener q) (RegConfig q) (SettingsOf q) c (Alpn q) (LocalAddr q).
Definition set_params (s : settings_t) (a : string * Z) (q : quic_t) : quic_t :=
  Quic (Api q) (Registration q) (Configuration q) (Listener q) (RegConfig q) s (Creds q) a (LocalAddr q).
Definition set_local_addr (a : quic_addr) (q : quic_t) : quic_t :=
  Quic (Api q) (Registration q) (Configuration q) (Listener q) (RegConfig q) (SettingsOf q) (Creds q) (Alpn q) a.

Record world := World { ctx : option quic_t; calls : list api_call }.

Section setup.
Context (env : api_call → nat → Z) (new_handle : nat → nat).
Context (inet_pton6 : string → bool).                  (* inet_pton of AF_INET6: accepted or not *)

Abbreviation M := (M world).

Definition call (c : api_call) : M Z := λ w,
  Ret (env c (length (calls w))) (World (ctx w) (calls w ++ [c])).

(** A call that returns a handle through a pointer: its status and the handle. *)
Definition call_open (c : api_call) : M (Z * nat) := λ w,
  Ret (env c (length (calls w)), new_handle (length (calls w))) (World (ctx w) (calls w ++ [c])).

Definition upd (f : quic_t → quic_t) : M () := modify (λ w, World (f <$> ctx w) (calls w)).
Definition assert (b : bool) : M () := if b then mret () else fatal.

(** The pointer the function returns becomes the argument of the others. *)
Definition MsQuicCreate : M bool :=
  p ← call AllocContext;
  modify (λ w, World (if p =? 0 then None else Some quic0) (calls w));;
  mret (negb (p =? 0)).

Definition MsQuicRegister (app_name : option string) (exec_profile : Z) : M Z :=
  q ← gets ctx;
  match q, app_name with
  | Some q, Some app =>
      Status ← call MsQuicOpen2;
      if QUIC_FAILED Status then mret (- ECANCELED)
      else
        upd (set_api true);;
        upd (set_reg_config (app, exec_profile));;
        '(Status, h) ← call_open (RegistrationOpen app exec_profile);
        if QUIC_FAILED Status then mret (- ECANCELED)
        else upd (set_registration (Some h));; mret 0
  | _, _ => mret (- EINVAL)
  end.

Definition MsQuicConfigLocalAddr (local_addr : option string) (port : Z) : M Z :=
  q ← gets ctx;
  match q, local_addr with
  | Some _, Some l =>
      let '(rc, a) := config_addr inet_pton6 l port in
      upd (set_local_addr a);;
      mret rc
  | _, _ => mret (- EINVAL)
  end.

Definition MsQuicConfigCredentials (cert_file key_file private_key_password : option string) : M Z :=
  q ← gets ctx;
  match q with
  | None => mret (- EINVAL)
  | Some _ =>
      upd (set_creds (CREDENTIAL_TYPE_NONE, QUIC_CREDENTIAL_FLAG_NONE));;
      match cert_file, key_file with
      | Some cert, Some key =>
          upd (set_creds
            (match private_key_password with
             | Some pw => CREDENTIAL_TYPE_CERTIFICATE_FILE_PROTECTED cert key pw
             | None => CREDENTIAL_TYPE_CERTIFICATE_FILE cert key
             end, QUIC_CREDENTIAL_FLAG_NONE));;
          mret 0
      | _, _ => mret (- EINVAL)
      end
  end.

Definition server_settings : settings_t :=
  {| DisconnectTimeoutMs := Some (2 * 60 * 1000);
     HandshakeIdleTimeoutMs := Some (30 * 1000);
     IdleTimeoutMs := Some 0;
     KeepAliveIntervalMs := Some (10 * 1000);
     MigrationEnabled := Some true;
     DatagramReceiveEnabled := Some 1;
     MaximumMtu := Some 1480;
     MinimumMtu := Some 1280;
     ServerResumptionLevel := Some QUIC_SERVER_RESUME_AND_ZERORTT;
     PeerBidiStreamCount := Some PEERBIDISTREAMCOUNT |}.

Definition MsQuicConfigParameters (alpn : option string) : M Z :=
  q ← gets ctx;
  match q, alpn with
  | Some _, Some alpn =>
      upd (set_params server_settings (alpn, u32 (Z.of_nat (String.length alpn))));;
      mret 0
  | _, _ => mret (- EINVAL)
  end.

Definition MsQuicListenerStart : M Z :=
  q ← gets ctx;
  match q with
  | None => mret (- EINVAL)
  | Some q =>
      assert (Api q);;
      '(Status, h) ← call_open (ConfigurationOpen (Registration q) (Alpn q) (SettingsOf q));
      if QUIC_FAILED Status then mret (- ECANCELED)
      else
        upd (set_configuration (Some h));;
        Status ← call (ConfigurationLoadCredential (Some h) (Creds q).1 (Creds q).2);
        if QUIC_FAILED Status then mret (- ECANCELED)
        else
          upd (set_listener None);;
          '(Status, l) ← call_open (ListenerOpen (Registration q));
          if QUIC_FAILED Status then mret (- ECANCELED)
          else
            upd (set_listener (Some l));;
            Status ← call (ListenerStart (Some l) (Alpn q) (LocalAddr q));
            if QUIC_FAILED Status then mret (- ECANCELED) else mret 0
  end.

Definition MsQuicShutdown : M Z :=
  q ← gets ctx;
  match q with
  | None => mret (- EINVAL)
  | Some q =>
      assert (Api q);;                           (* the check comes after this call *)
      call (RegistrationShutdown (Registration q) QUIC_CONNECTION_SHUTDOWN_FLAG_SILENT 0);;
      (if Api q then
         (match Listener q with Some l => call (ListenerClose l);; mret () | None => mret () end);;
         (match Configuration q with Some c => call (ConfigurationClose c);; mret () | None => mret () end);;
         (match Registration q with Some r => call (RegistrationClose r);; mret () | None => mret () end);;
         call MsQuicClose;;
         mret ()
       else mret ());;
      call FreeContext;;
      mret 0
  end.

(** ** setup_msquic of vpn_server_engine.c *)

Definition QUIC_EXECUTION_PROFILE_LOW_LATENCY : Z := 0.
Definition server_port : Z := 443.
Definition local_ip : string := "10.10.10.11".
Definition cert_file : string := "cert/server.cert".
Definition key_file : string := "cert/server.key".

(** [if (m != 0) return -1;] *)
Definition or_fail (m : M Z) (k : M Z) : M Z :=
  rc ← m;
  if negb (rc =? 0) then mret (-1) else k.

(** All but the last statement, [session->MsQuic = MsQuic]. *)
Definition setup_msquic : M Z :=
  ok ← MsQuicCreate;
  if negb ok then mret (-1)
  else
    or_fail (MsQuicRegister (Some "msquic server app name"%string) QUIC_EXECUTION_PROFILE_LOW_LATENCY)
    (or_fail (MsQuicConfigLocalAddr (Some local_ip) server_port)
    (or_fail (MsQuicConfigCredentials (Some cert_file) (Some key_file) None)
    (or_fail (MsQuicConfigParameters (Some "h3"%string))
    (or_fail MsQuicListenerStart
    (mret 0))))).

(** ** The calls of a setup, and those of a shutdown *)

(** The address the listener is given: 10.10.10.11:443. *)
Definition listen_addr : quic_addr := QuicAddr AF_INET 185207306 443.
Definition file_creds : creds_t := CREDENTIAL_TYPE_CERTIFICATE_FILE cert_file key_file.

(** The calls of a setup in full, [n] calls having been made before. *)
Definition setup_calls (n : nat) : list api_call :=
  let reg := Some (new_handle (n + 2)) in
  [AllocContext; MsQuicOpen2; RegistrationOpen "msquic server app name" 0;
   ConfigurationOpen reg ("h3"%string, 2) server_settings;
   ConfigurationLoadCredential (Some (new_handle (n + 3))) file_creds 0;
   ListenerOpen reg;
   ListenerStart (Some (new_handle (n + 5))) ("h3"%string, 2) listen_addr].
Definition accepted (n : nat) (c : api_call) : Prop :=
  match c with AllocContext => env c n ≠ 0 | _ => env c n ≤ 0 end.

(** The context a finished setup leaves. *)
Definition listening (n : nat) : quic_t :=
  Quic true (Some (new_handle (n + 2))) (Some (new_handle (n + 3))) (Some (new_handle (n + 5)))
    (Some ("msquic server app name"%string, 0)) server_settings (file_creds, 0) ("h3"%string, 2) listen_addr.

Lemma listen_addr_ok : config_addr inet_pton6 local_ip server_port = (0, listen_addr).
Proof. reflexivity. Qed.

Definition setup_outcome (w : world) (rc : Z) (w' : world) : Prop :=
  let n := length (calls w) in
  let full := setup_calls n in
  rc = 0 ∧ ctx w' = Some (listening n) ∧ calls w' = calls w ++ full ∧
    (∀ i c, full !! i = Some c → accepted (n + i) c) ∨
  rc = -1 ∧ ∃ i c, full !! i = Some c ∧ ¬ accepted (n + i) c ∧
    calls w' = calls w ++ take (S i) full ∧ ∀ j d, (j < i)%nat → full !! j = Some d → accepted (n + j) d.

(** ** The proof: where a setup that started from [w] has got to *)

Definition full (w : world) : list api_call := setup_calls (length (calls w)).
Definition got_to (w : world) (i : nat) (w' : world) : Prop :=
  calls w' = calls w ++ take i (full w) ∧
  ∀ j d, (j < i)%nat → full w !! j = Some d → accepted (length (calls w) + j) d.
Definition stopped (w w' : world) : Prop :=
  ∃ i c, full w !! i = Some c ∧ ¬ accepted (length (calls w) + i) c ∧
    calls w' = calls w ++ take (S i) (full w) ∧
    ∀ j d, (j < i)%nat → full w !! j = Some d → accepted (length (calls w) + j) d.

Lemma got_to_length w i w' : got_to w i w' → (i ≤ 7)%nat → length (calls w') = (length (calls w) + i)%nat.
Proof. intros [-> _] Hi. rewrite length_app, length_take. unfold full. cbn. lia. Qed.

Lemma got_to_next w i w1 w2 c : got_to w i w1 → full w !! i = Some c → calls w2 = calls w1 ++ [c] →
  let st := env c (length (calls w1)) in
  (if match c with AllocContext => negb (st =? 0) | _ => st <=? 0 end then got_to w (S i) w2 else stopped w w2).
Proof.
  intros [E Hacc] Hc E2 st. assert (Hi : (i < 7)%nat) by by apply lookup_lt_Some in Hc.
  assert (Hlen : length (calls w1) = (length (calls w) + i)%nat)
    by (rewrite E, length_app, length_take; unfold full; cbn; lia).
  assert (E' : calls w2 = calls w ++ take (S i) (full w))
    by (rewrite E2, E, (take_S_r _ _ _ Hc), (assoc_L (++)); done).
  assert (Hb : match c with AllocContext => negb (st =? 0) | _ => st <=? 0 end = true ↔
    accepted (length (calls w) + i) c).
  { subst st. rewrite Hlen. unfold accepted. destruct c; lia. }
  destruct (match c with AllocContext => _ | _ => _ end).
  - split; [done|]. intros j d Hj Hd. destruct (decide (j = i)) as [->|]; [|apply Hacc; [lia|done]].
    rewrite Hc in Hd. injection Hd as <-. by apply Hb.
  - exists i, c. split; [done|]. split; [intros ?%Hb; done|]. by split.
Qed.

(** A call of the table, and one that opens a handle. *)
Lemma runs_status w i c w1 {B} (k : Z → M B) Q : c ≠ AllocContext → got_to w i w1 → full w !! i = Some c →
  (∀ w2 st, QUIC_FAILED st = false → ctx w2 = ctx w1 → got_to w (S i) w2 → runs (k st) w2 Q) →
  (∀ w2 st, QUIC_FAILED st = true → stopped w w2 → runs (k st) w2 Q) →
  runs (st ← call c; k st) w1 Q.
Proof.
  intros Hne Hg Hc Hok Hno. apply runs_bind. unfold runs at 1. cbn [call].
  pose proof (got_to_next w i w1 (World (ctx w1) (calls w1 ++ [c])) c Hg Hc eq_refl) as H. cbv zeta in H.
  destruct (env c _ <=? 0) eqn:E.
  - apply Hok; [unfold QUIC_FAILED; lia|done|]. destruct c; done.
  - apply Hno; [unfold QUIC_FAILED; lia|]. destruct c; done.
Qed.
Lemma runs_handle w i c w1 {B} (k : Z * nat → M B) Q : c ≠ AllocContext → got_to w i w1 → full w !! i = Some c →
  (∀ w2 st, QUIC_FAILED st = false → ctx w2 = ctx w1 → got_to w (S i) w2 →
    runs (k (st, new_handle (length (calls w) + i))) w2 Q) →
  (∀ w2 st h, QUIC_FAILED st = true → stopped w w2 → runs (k (st, h)) w2 Q) →
  runs (x ← call_open c; k x) w1 Q.
Proof.
  intros Hne Hg Hc Hok Hno. apply runs_bind. unfold runs at 1. cbn [call_open].
  pose proof (got_to_next w i w1 (World (ctx w1) (calls w1 ++ [c])) c Hg Hc eq_refl) as H. cbv zeta in H.
  assert (i < 7)%nat by by apply lookup_lt_Some in Hc. rewrite (got_to_length w i w1) by (done || lia).
  rewrite (got_to_length w i w1) in H by (done || lia).
  destruct (env c _ <=? 0) eqn:E.
  - apply Hok; [unfold QUIC_FAILED; lia|done|]. destruct c; done.
  - apply Hno; [unfold QUIC_FAILED; lia|]. destruct c; done.
Qed.

Lemma runs_upd {B} f w1 (k : M B) Q : runs k (World (f <$> ctx w1) (calls w1)) Q → runs (upd f;; k) w1 Q.
Proof. done. Qed.
Lemma runs_or_fail (m k : M Z) w1 (Q : Z → world → Prop) :
  runs m w1 (λ rc w2, if rc =? 0 then runs k w2 Q else Q (-1) w2) → runs (or_fail m k) w1 Q.
Proof.
  intros H. apply runs_bind. eapply runs_mono; [exact H|]. intros rc w2. cbv beta. by destruct (rc =? 0).
Qed.

(** The outcome of a stage of the setup: its code, or the call it stopped at. *)
Definition stage (w : world) (i : nat) (q : quic_t) (rc : Z) (w' : world) : Prop :=
  if rc =? 0 then got_to w i w' ∧ ctx w' = Some q else stopped w w'.

Definition registered (n : nat) : quic_t :=
  Quic true (Some (new_handle (n + 2))) None None (Some ("msquic server app name"%string, 0)) settings0
    (CREDENTIAL_TYPE_NONE, 0) (""%string, 0) quic_addr0.
Definition configured (n : nat) : quic_t :=
  Quic true (Some (new_handle (n + 2))) None None (Some ("msquic server app name"%string, 0)) server_settings
    (file_creds, 0) ("h3"%string, 2) listen_addr.

Lemma register_stage w w1 : got_to w 1 w1 → ctx w1 = Some quic0 →
  runs (MsQuicRegister (Some "msquic server app name"%string) QUIC_EXECUTION_PROFILE_LOW_LATENCY) w1
    (stage w 3 (registered (length (calls w)))).
Proof.
  intros Hg Hq. unfold MsQuicRegister. apply runs_bind. unfold runs at 1. cbn [gets]. rewrite Hq.
  eapply runs_status; [done|exact Hg|done|..].
  2:{ intros w2 st -> Hs. exact Hs. }
  intros w2 st -> E2 H2. apply runs_upd, runs_upd. rewrite E2, Hq.
  eapply runs_handle; [done|exact H2|done|..]; cbn [ctx].
  2:{ intros w3 st3 h -> Hs. exact Hs. }
  intros w3 st3 -> E3 H3. apply runs_upd. unfold stage, runs, mret, M_ret. cbn [ctx]. by rewrite E3.
Qed.

Lemma listener_stage w w1 : got_to w 3 w1 → ctx w1 = Some (configured (length (calls w))) →
  runs MsQuicListenerStart w1 (stage w 7 (listening (length (calls w)))).
Proof.
  intros Hg Hq. unfold MsQuicListenerStart. apply runs_bind. unfold runs at 1. cbn [gets]. rewrite Hq.
  apply runs_bind. unfold runs at 1. cbn [assert configured Api].
  eapply runs_handle; [done|exact Hg|done|..].
  2:{ intros w2 st h -> Hs. exact Hs. }
  intros w2 st -> E2 H2. apply runs_upd. rewrite E2, Hq.
  eapply runs_status; [done|exact H2|done|..]; cbn [ctx].
  2:{ intros w3 st3 -> Hs. exact Hs. }
  intros w3 st3 -> E3 H3. apply runs_upd. rewrite E3.
  eapply runs_handle; [done|exact H3|done|..]; cbn [ctx].
  2:{ intros w4 st4 h -> Hs. exact Hs. }
  intros w4 st4 -> E4 H4. apply runs_upd. rewrite E4.
  eapply runs_status; [done|exact H4|done|..]; cbn [ctx].
  2:{ intros w5 st5 -> Hs. exact Hs. }
  intros w5 st5 -> E5 H5. unfold stage, runs, mret, M_ret. cbn [ctx]. by rewrite E5.
Qed.

Lemma setup_msquic_outcome w : runs setup_msquic w (setup_outcome w).
Proof.
  assert (Hno : ∀ w', stopped w w' → setup_outcome w (-1) w') by by right.
  unfold setup_msquic, MsQuicCreate. apply runs_bind, runs_bind. unfold runs at 1. cbn [call].
  pose proof (got_to_next w 0 w (World (ctx w) (calls w ++ [AllocContext])) AllocContext) as H0.
  cbv zeta in H0. specialize (H0 ltac:(split; [by rewrite take_0, app_nil_r|lia]) eq_refl eq_refl).
  unfold runs at 1, mbind, M_bind, modify, mret, M_ret. cbn [ctx calls].
  destruct (env AllocContext _ =? 0) eqn:E0; cbn [negb] in *; [by apply Hno|].
  apply runs_or_fail. eapply runs_mono; [by apply register_stage|]. intros rc w1 H1. cbv beta. unfold stage in H1.
  destruct (rc =? 0); [|by apply Hno]. destruct H1 as [H1 E1]. destruct w1 as [q1 t1]. cbn in E1. subst q1.
  apply runs_or_fail. unfold MsQuicConfigLocalAddr. rewrite listen_addr_ok.
  unfold runs at 1, upd, modify, gets, mbind, M_bind, mret, M_ret. cbn [ctx calls Z.eqb fmap option_fmap option_map].
  apply runs_or_fail. unfold MsQuicConfigCredentials.
  unfold runs at 1, upd, modify, gets, mbind, M_bind, mret, M_ret. cbn [ctx calls Z.eqb fmap option_fmap option_map].
  apply runs_or_fail. unfold MsQuicConfigParameters.
  unfold runs at 1, upd, modify, gets, mbind, M_bind, mret, M_ret. cbn [ctx calls Z.eqb fmap option_fmap option_map].
  apply runs_or_fail. eapply runs_mono; [by apply (listener_stage w)|]. intros rc2 w2 H2. cbv beta. unfold stage in H2.
  destruct (rc2 =? 0); [|by apply Hno]. destruct H2 as [[Ec Hacc] E2]. left.
  split; [done|]. split; [done|]. split; [exact Ec|]. intros i c Hc. apply Hacc; [|done]. by apply lookup_lt_Some in Hc.
Qed.

(** ** The shutdown *)
Definition closes (q : quic_t) : list api_call :=
  [RegistrationShutdown (Registration q) QUIC_CONNECTION_SHUTDOWN_FLAG_SILENT 0] ++
  match Listener q with Some l => [ListenerClose l] | None => [] end ++
  match Configuration q with Some c => [ConfigurationClose c] | None => [] end ++
  match Registration q with Some r => [RegistrationClose r] | None => [] end ++
  [MsQuicClose; FreeContext].

(** Opening the server's listener: whatever MsQuic and the allocator
    answer, setup_msquic makes its seven calls in order, the certificate before
    the listener and the listener on 10.10.10.11:443, stops at the first that
    is refused and then returns -1; it returns 0 exactly when all are accepted,
    and the context then holds the three handles. *)
Theorem server_setup_spec w :
  runs setup_msquic w (λ rc w',
    setup_outcome w rc w' ∧
    (rc = 0 ↔ ∀ i c, full w !! i = Some c → accepted (length (calls w) + i) c)).
Proof.
  eapply runs_mono; [apply setup_msquic_outcome|]. intros rc w' H. split; [exact H|].
  destruct H as [(-> & _ & _ & Ha)|(-> & i & c & Hc & Hn & _)]; split; try done.
  intros Ha. destruct Hn. by apply Ha.
Qed.

(** Shutting the server's MsQuic down: the registration is shut down
    silently, then each handle the context holds is closed once, the one opened
    last first, then the table and the context; a NULL context is refused, and a
    context whose table was never opened is used before the check of it. *)
Theorem server_shutdown_spec w :
  match ctx w with
  | None => MsQuicShutdown w = Ret (- EINVAL) w
  | Some q =>
      if Api q then MsQuicShutdown w = Ret 0 (World (Some q) (calls w ++ closes q))
      else MsQuicShutdown w = Fatal w
  end.
Proof.
  unfold MsQuicShutdown. destruct w as [[q|] t]; [|done]. cbn [ctx].
  destruct (Api q) eqn:Ea; rewrite bind_gets; cbn [ctx]; rewrite Ea; [|done].
  unfold closes, mbind, M_bind, call, mret, M_ret, assert. cbn [ctx calls].
  destruct (Listener q), (Configuration q), (Registration q); cbn -[app];
    repeat rewrite <- app_assoc; reflexivity.
Qed.
End setup.
