(* ===== verification/ServerEngine.v ===== *)
(** * vpn_server_engine.c and session.c of the server: starting and stopping

    The state is the session, the objects the engine creates, the trace of the
    driver, the worlds of MsQuic and of the interface queries, and a ledger of
    what was acquired and given back.  Malloc, eventfd, pthread_create and
    pthread_sigmask answer through [sys_answer].  exit ends the process: what
    the cleanup does after it is not reached and is not in the model
    ([ServerSetup.MsQuicShutdown] and the free of the session).  A join waits
    for a thread that ends; joining a thread that was never created is
    [Fatal], as is a failed assertion. *)
From stdpp Require Import prelude strings gmap.
From Stdlib Require Import ZArith Lia.
From S2P Require Import Prelude Utils PktCtrl Ledger StateSync.
From S2P Require Tun Pool Queue IpPool NetIface DefaultWan ServerSetup.

Definition TUN_CLOSED : Z := 0.
Definition TUN_READY : Z := 1.
Definition EXIT_SUCCESS : Z := 0.
Definition EXIT_FAILURE : Z := 1.
Definition sizeof_pkt_data_t : Z := 2064.
Definition sizeof_client_t : Z := 40.

Inductive resource :=
| RSession | RTunState | REventfd | RPoolSend | RPoolRecv | RQueueRecv | RSigArgs | RSigThread
| RWan | RTun | RIpPool | RClientList | RClientPool | RThreadSend | RThreadRecv.
#[export] Instance resource_eq_dec : EqDecision resource.
Proof. solve_decision. Defined.

Inductive sys_call :=
| MallocSession | EventFd | MallocPoolSend | MallocPoolRecv | MallocQueue | MallocSlots
| SigMask | MallocSigArgs | CreateSignal | MallocWan | MallocTun | CallocIpPool | CallocIpEntries
| MallocClientList | MallocClientPool | CreateSend | CreateRecv.

Record engine := Engine {
  quic : ServerSetup.world;
  MsQuic : option ServerSetup.quic_t;
  tun : option Tun.tun_iface_t;
  tun_state : Z;
  driver : list Tun.sys;
  client_cnt : Z;
  wan : option DefaultWan.net_iface_t;
  shutdown_fd : Z;
  pool_send : option Pool.pool_t;
  pool_recv : option Pool.pool_t;
  queue_recv : option Queue.queue_t;
  ip_pool : option IpPool.ip_pool_t;
  client_list : option (list (option nat));
  client_pool : option Pool.pool_t;
  running_send : bool;
  running_recv : bool;
  thread_send : bool;
  thread_recv : bool;
  net : NetIface.os_state;
  log : list (ledger_event resource)
}.

Definition set_quic (x : ServerSetup.world) (e : engine) : engine :=
  Engine x (MsQuic e) (tun e) (tun_state e) (driver e) (client_cnt e) (wan e) (shutdown_fd e)
    (pool_send e) (pool_recv e) (queue_recv e) (ip_pool e) (client_list e) (client_pool e)
    (running_send e) (running_recv e) (thread_send e) (thread_recv e) (net e) (log e).
Definition set_MsQuic (x : option ServerSetup.quic_t) (e : engine) : engine :=
  Engine (quic e) x (tun e) (tun_state e) (driver e) (client_cnt e) (wan e) (shutdown_fd e)
    (pool_send e) (pool_recv e) (queue_recv e) (ip_pool e) (client_list e) (client_pool e)
    (running_send e) (running_recv e) (thread_send e) (thread_recv e) (net e) (log e).
Definition set_tun (x : option Tun.tun_iface_t) (e : engine) : engine :=
  Engine (quic e) (MsQuic e) x (tun_state e) (driver e) (client_cnt e) (wan e) (shutdown_fd e)
    (pool_send e) (pool_recv e) (queue_recv e) (ip_pool e) (client_list e) (client_pool e)
    (running_send e) (running_recv e) (thread_send e) (thread_recv e) (net e) (log e).
Definition set_tun_state (x : Z) (e : engine) : engine :=
  Engine (quic e) (MsQuic e) (tun e) x (driver e) (client_cnt e) (wan e) (shutdown_fd e)
    (pool_send e) (pool_recv e) (queue_recv e) (ip_pool e) (client_list e) (client_pool e)
    (running_send e) (running_recv e) (thread_send e) (thread_recv e) (net e) (log e).
Definition set_driver (x : list Tun.sys) (e : engine) : engine :=
  Engine (quic e) (MsQuic e) (tun e) (tun_state e) x (client_cnt e) (wan e) (shutdown_fd e)
    (pool_send e) (pool_recv e) (queue_recv e) (ip_pool e) (client_list e) (client_pool e)
    (running_send e) (running_recv e) (thread_send e) (thread_recv e) (net e) (log e).
Definition set_client_cnt (x : Z) (e : engine) : engine :=
  Engine (quic e) (MsQuic e) (tun e) (tun_state e) (driver e) x (wan e) (shutdown_fd e)
    (pool_send e) (pool_recv e) (queue_recv e) (ip_pool e) (client_list e) (client_pool e)
    (running_send e) (running_recv e) (thread_send e) (thread_recv e) (net e) (log e).
Definition set_wan (x : option DefaultWan.net_iface_t) (e : engine) : engine :=
  Engine (quic e) (MsQuic e) (tun e) (tun_state e) (driver e) (client_cnt e) x (shutdown_fd e)
    (pool_send e) (pool_recv e) (queue_recv e) (ip_pool e) (client_list e) (client_pool e)
    (running_send e) (running_recv e) (thread_send e) (thread_recv e) (net e) (log e).
Definition set_shutdown_fd (x : Z) (e : engine) : engine :=
  Engine (quic e) (MsQuic e) (tun e) (tun_state e) (driver e) (client_cnt e) (wan e) x
    (pool_send e) (pool_recv e) (queue_recv e) (ip_pool e) (client_list e) (client_pool e)
    (running_send e) (running_recv e) (thread_send e) (thread_recv e) (net e) (log e).
Definition set_pool_send (x : option Pool.pool_t) (e : engine) : engine :=
  Engine (quic e) (MsQuic e) (tun e) (tun_state e) (driver e) (client_cnt e) (wan e)
    (shutdown_fd e) x (pool_recv e) (queue_recv e) (ip_pool e) (client_list e) (client_pool e)
    (running_send e) (running_recv e) (thread_send e) (thread_recv e) (net e) (log e).
Definition set_pool_recv (x : option Pool.pool_t) (e : engine) : engine :=
  Engine (quic e) (MsQuic e) (tun e) (tun_state e) (driver e) (client_cnt e) (wan e)
    (shutdown_fd e) (pool_send e) x (queue_recv e) (ip_pool e) (client_list e) (client_pool e)
    (running_send e) (running_recv e) (thread_send e) (thread_recv e) (net e) (log e).
Definition set_queue_recv (x : option Queue.queue_t) (e : engine) : engine :=
  Engine (quic e) (MsQuic e) (tun e) (tun_state e) (driver e) (client_cnt e) (wan e)
    (shutdown_fd e) (pool_send e) (pool_recv e) x (ip_pool e) (client_list e) (client_pool e)
    (running_send e) (running_recv e) (thread_send e) (thread_recv e) (net e) (log e).
Definition set_ip_pool (x : option IpPool.ip_pool_t) (e : engine) : engine :=
  Engine (quic e) (MsQuic e) (tun e) (tun_state e) (driver e) (client_cnt e) (wan e)
    (shutdown_fd e) (pool_send e) (pool_recv e) (queue_recv e) x (client_list e) (client_pool e)
    (running_send e) (running_recv e) (thread_send e) (thread_recv e) (net e) (log e).
Definition set_client_list (x : option (list (option nat))) (e : engine) : engine :=
  Engine (quic e) (MsQuic e) (tun e) (tun_state e) (driver e) (client_cnt e) (wan e)
    (shutdown_fd e) (pool_send e) (pool_recv e) (queue_recv e) (ip_pool e) x (client_pool e)
    (running_send e) (running_recv e) (thread_send e) (thread_recv e) (net e) (log e).
Definition set_client_pool (x : option Pool.pool_t) (e : engine) : engine :=
  Engine (quic e) (MsQuic e) (tun e) (tun_state e) (driver e) (client_cnt e) (wan e)
    (shutdown_fd e) (pool_send e) (pool_recv e) (queue_recv e) (ip_pool e) (client_list e) x
    (running_send e) (running_recv e) (thread_send e) (thread_recv e) (net e) (log e).
Definition set_running_send (x : bool) (e : engine) : engine :=
  Engine (quic e) (MsQuic e) (tun e) (tun_state e) (driver e) (client_cnt e) (wan e)
    (shutdown_fd e) (pool_send e) (pool_recv e) (queue_recv e) (ip_pool e) (client_list e)
    (client_pool e) x (running_recv e) (thread_send e) (thread_recv e) (net e) (log e).
Definition set_running_recv (x : bool) (e : engine) : engine :=
  Engine (quic e) (MsQuic e) (tun e) (tun_state e) (driver e) (client_cnt e) (wan e)
    (shutdown_fd e) (pool_send e) (pool_recv e) (queue_recv e) (ip_pool e) (client_list e)
    (client_pool e) (running_send e) x (thread_send e) (thread_recv e) (net e) (log e).
Definition set_thread_send (x : bool) (e : engine) : engine :=
  Engine (quic e) (MsQuic e) (tun e) (tun_state e) (driver e) (client_cnt e) (wan e)
    (shutdown_fd e) (pool_send e) (pool_recv e) (queue_recv e) (ip_pool e) (client_list e)
    (client_pool e) (running_send e) (running_recv e) x (thread_recv e) (net e) (log e).
Definition set_thread_recv (x : bool) (e : engine) : engine :=
  Engine (quic e) (MsQuic e) (tun e) (tun_state e) (driver e) (client_cnt e) (wan e)
    (shutdown_fd e) (pool_send e) (pool_recv e) (queue_recv e) (ip_pool e) (client_list e)
    (client_pool e) (running_send e) (running_recv e) (thread_send e) x (net e) (log e).
Definition set_net (x : NetIface.os_state) (e : engine) : engine :=
  Engine (quic e) (MsQuic e) (tun e) (tun_state e) (driver e) (client_cnt e) (wan e)
    (shutdown_fd e) (pool_send e) (pool_recv e) (queue_recv e) (ip_pool e) (client_list e)
    (client_pool e) (running_send e) (running_recv e) (thread_send e) (thread_recv e) x (log e).
Definition add_log (x : list (ledger_event resource)) (e : engine) : engine :=
  Engine (quic e) (MsQuic e) (tun e) (tun_state e) (driver e) (client_cnt e) (wan e)
    (shutdown_fd e) (pool_send e) (pool_recv e) (queue_recv e) (ip_pool e) (client_list e)
    (client_pool e) (running_send e) (running_recv e) (thread_send e) (thread_recv e) (net e)
    (log e ++ x).

Section engine.
Context (os : os_t) (table : Tun.api_id → Tun.tun_api_table_t).
Context (env : ServerSetup.api_call → nat → Z) (new_handle : nat → nat) (inet_pton6 : string → bool).
Context (netenv : NetIface.history → NetIface.sysreq → NetIface.answer)
        (uninit : NetIface.history → list Z)
        (route_garbage : NetIface.netlink_route_info_t) (addr_garbage : NetIface.netlink_addr_info_t)
        (link_garbage : NetIface.netlink_link_info_t) (polls : nat).
Context (sys_answer : sys_call → Z).

Abbreviation M := (M engine).

Definition acquire (r : resource) : M () := modify (add_log [Acquire r]).
Definition release (r : resource) : M () := modify (add_log [Release r]).
Definition found (c : sys_call) : bool := negb (sys_answer c =? 0).
Definition check {A} (x : option A) : M A := match x with None => fatal | Some a => mret a end.
Definition assert (b : bool) : M () := if b then mret () else fatal.

(** An operation of state_sync.h on the session's tun_state. *)
Definition on_tun_state {A} (m : Prelude.M state_sync_t A) : M A := zoom tun_state set_tun_state m.

(** Operations on the handle [t]. *)
Definition in_driver {A} (t : Tun.tun_iface_t) (m : Prelude.M Tun.world A) : M (A * Tun.tun_iface_t) :=
  λ e,
  match m (Tun.World t (driver e)) with
  | Ret a w => Ret (a, Tun.tun w) (set_driver (Tun.trace w) e)
  | Fatal w => Fatal (set_driver (Tun.trace w) e)
  | Block w => Block (set_driver (Tun.trace w) e)
  end.

(** pool_destroy and queue_destroy of a pointer that may be NULL. *)
Definition destroy_pool (r : resource) (get : engine → option Pool.pool_t) : M () :=
  p ← gets get;
  match p with
  | None => mret ()
  | Some p => zoom (λ _, p) (λ _ e, e) (Pool.pool_destroy os false);; release r
  end.
Definition destroy_queue : M () :=
  q ← gets queue_recv;
  match q with
  | None => mret ()
  | Some q => zoom (λ _, q) (λ _ e, e) (Queue.queue_destroy os false);; release RQueueRecv
  end.

(** ** session.c *)

(** memset(session, 0, ..) *)
Definition zero_session (e : engine) : engine :=
  Engine (quic e) None None 0 (driver e) 0 None 0 None None None None None None false false false false
    (net e) (log e).

Definition create_pool (c : sys_call) (r : resource) (set : option Pool.pool_t → engine → engine) : M bool :=
  match Pool.pool_init os (found c) sizeof_pkt_data_t 0 with
  | Err _ => mret false
  | Ok p => modify (set (Some p));; acquire r;; mret true
  end.
Definition create_queue (n : Z) : M bool :=
  match Queue.queue_init os (found MallocQueue) (found MallocSlots) n with
  | Ret (Ok q) _ => modify (set_queue_recv (Some q));; acquire RQueueRecv;; mret true
  | Ret (Err _) _ => mret false
  | _ => fatal
  end.

(** The label cleanup, reached from the first pool only: the local pointers
    are all NULL. *)
Definition create_cleanup : M bool :=
  release RSession;;
  mret false.

(** Whether a session was created. *)
Definition create_session : M bool :=
  if negb (found MallocSession) then mret false
  else
    acquire RSession;;
    modify zero_session;;
    modify (set_client_cnt 1);;
    rc ← on_tun_state (state_sync_init os false TUN_CLOSED);
    assert (rc =? 0);;
    acquire RTunState;;
    modify (set_shutdown_fd (sys_answer EventFd));;
    (if 0 <=? sys_answer EventFd then acquire REventfd else mret ());;
    ok ← create_pool MallocPoolSend RPoolSend set_pool_send;
    if negb ok then create_cleanup
    else
      ok ← create_pool MallocPoolRecv RPoolRecv set_pool_recv;
      if negb ok then mret false
      else create_queue (128 * 1024 * 1024).

(** ** vpn_server_engine.c *)

Definition tun_ip : string := "172.18.0.1".
Definition tun_netmask : string := "255.255.0.0".

Definition join_send : M () :=
  b ← gets thread_send;
  if b : bool then modify (set_thread_send false);; release RThreadSend else fatal.
Definition join_recv : M () :=
  b ← gets thread_recv;
  if b : bool then modify (set_thread_recv false);; release RThreadRecv else fatal.

(** queue_wait_push(session->queue_pkt_data_recv, NULL) *)
Definition push_null : M () :=
  q ← gets queue_recv;
  match q with
  | None => mret ()
  | Some q => zoom (λ _, q) (λ q, set_queue_recv (Some q)) (Queue.queue_wait_push os false false None);; mret ()
  end.

(** An object that is freed when the session has it. *)
Definition free_object {A} (r : resource) (get : engine → option A) : M () :=
  p ← gets get;
  match p with None => mret () | Some _ => release r end.

(** The calls on the handle. *)
Definition tun_teardown : Prelude.M Tun.world Z :=
  Tun.tun_flush_routes table false;;
  Tun.tun_clear_dns table false;;
  Tun.tun_rules_clear table false;;
  Tun.iptables_reset table false;;
  Tun.tun_ip_forwarding table false false;;
  Tun.tun_destroy table false.

(** The status the process exits with, or [None] for a return. *)
Definition vpn_engine_cleanup (null : bool) : M (option Z) :=
  if null then mret None
  else
    free_object RWan wan;;
    b ← gets running_send;
    (if b : bool then
       modify (set_running_send false);;
       join_send;;                              (* after a write to the eventfd *)
       fd ← gets shutdown_fd;
       if 0 <=? fd then release REventfd else mret ()
     else mret ());;
    b ← gets running_recv;
    (if b : bool then
       modify (set_running_recv false);;
       push_null;;
       join_recv
     else mret ());;
    t ← gets tun;
    (match t with
     | Some t =>
         in_driver t tun_teardown;;
         on_tun_state (state_sync_destroy os false);;
         release RTunState;;
         release RTun;;
         modify (set_tun None)
     | None => mret ()
     end);;
    destroy_pool RPoolRecv pool_recv;;
    destroy_pool RPoolSend pool_send;;
    destroy_queue;;
    free_object RIpPool ip_pool;;               (* ip_pool_destroy *)
    destroy_pool RClientPool client_pool;;
    free_object RClientList client_list;;
    mret (Some EXIT_SUCCESS).                   (* exit(0) *)

(** [rc]: what sigwait returns. *)
Definition signal_handler_thread (rc : Z) (null : bool) : M (option Z) :=
  x ← (if rc =? 0 then vpn_engine_cleanup null else mret None);
  match x with
  | Some status => mret (Some status)
  | None => release RSigArgs;; mret None
  end.

Definition detect_default_wan : M Z :=
  '(rc, w) ← zoom net set_net (DefaultWan.detect_default_wan netenv uninit route_garbage addr_garbage
               link_garbage polls (found MallocWan));
  match w with
  | Some w => modify (set_wan (Some w));; acquire RWan;; mret rc
  | None => mret rc
  end.

(** [if (m != 0) return -1;] *)
Definition or_fail {S} (m : Prelude.M S Z) (k : Prelude.M S Z) : Prelude.M S Z :=
  rc ← m;
  if negb (rc =? 0) then mret (-1) else k.

(** The calls of setup_tun_interface on its new handle. *)
Definition configure (ip netmask wan_ifname : string) : Prelude.M Tun.world Z :=
  or_fail (Tun.tun_open table false)
  (or_fail (Tun.tun_set_addr table false (Some ip) (Some netmask))
  (or_fail (Tun.tun_set_mtu table false 1380)
  (or_fail (Tun.tun_set_up table false)
  (Tun.tun_clear_dns table false;;
  (or_fail (Tun.tun_set_dns table false (Some "1.1.1.1"%string) (Some "8.8.8.8"%string))
  (t ← gets Tun.tun;
   let '(rc, net_cidr) := Tun.tun_get_net_cidr (Some t) (Some ""%string) 20 in
   if negb (rc =? 0) then mret (-1)
   else
     Tun.tun_rules_clear table false;;
     (or_fail (Tun.tun_add_route table false net_cidr)
     (or_fail (Tun.tun_ip_forwarding table false true)
     (or_fail (Tun.tun_server_rules_add table false (Some wan_ifname))
     (or_fail (Tun.tun_start false)
     (mret 0))))))))))).

Definition setup_tun_interface (null : bool) (ip netmask wan_ifname : option string) : M Z :=
  match null, ip, netmask, wan_ifname with
  | false, Some ip, Some netmask, Some wan_ifname =>
      match Tun.tun_create (found MallocTun) Tun.TUN_BACKEND_NETLINK_SERVER with
      | None => mret (-1)
      | Some t =>
          acquire RTun;;
          '(rc, t) ← in_driver t (configure ip netmask wan_ifname);
          if negb (rc =? 0) then mret (-1)
          else
            modify (set_tun (Some t));;
            on_tun_state (state_sync_set os false TUN_READY);;
            mret 0
      end
  | _, _, _, _ => mret EXIT_FAILURE
  end.

Definition setup_msquic : M Z :=
  rc ← zoom quic set_quic (ServerSetup.setup_msquic env new_handle inet_pton6);
  if negb (rc =? 0) then mret (-1)
  else
    w ← gets quic;
    modify (set_MsQuic (ServerSetup.ctx w));;
    mret 0.

(** What ip_pool_create reads of a handle. *)
Definition tun_net (t : Tun.tun_iface_t) : Z * Z * Z := (Tun.ip t, Tun.mask t, Tun.net_of t).

Definition setup_ip_pool_manager (null : bool) : M Z :=
  if null then mret (- EINVAL)
  else
    t ← gets tun;
    let '(rc, _) := Tun.tun_get_flags t (Some 0) in
    if negb (rc =? 0) then mret (- EINVAL)
    else
      ready ← on_tun_state (state_sync_check os false TUN_READY);
      if negb ready then mret (- ENOTCONN)
      else
        match IpPool.ip_pool_create (tun_net <$> t) (found CallocIpPool) (found CallocIpEntries) with
        | None => modify (set_ip_pool None);; mret (- ENOMEM)
        | Some p => modify (set_ip_pool (Some p));; acquire RIpPool;; mret 0
        end.

(** The loop's [int] counter reaches [count] when it is at most 2^31. *)
Definition init_client_manager (count : Z) : M Z :=
  if negb (found MallocClientList) then mret (- ENOMEM)
  else
    modify (set_client_list (Some (replicate (Z.to_nat count) None)));;
    acquire RClientList;;
    match Pool.pool_init os (found MallocClientPool) sizeof_client_t count with
    | Err _ => mret (- ENOMEM)
    | Ok p => modify (set_client_pool (Some p));; acquire RClientPool;; mret 0
    end.

Definition create_thread (c : sys_call) (r : resource) (set : bool → engine → engine) : M Z :=
  if sys_answer c =? 0 then modify (set true);; acquire r;; mret 0 else mret (sys_answer c).

Definition start_threads : M Z :=
  modify (set_running_send true);;
  or_fail (create_thread CreateSend RThreadSend set_thread_send)
  (modify (set_running_recv true);;
   or_fail (create_thread CreateRecv RThreadRecv set_thread_recv)
   (mret 0)).

Definition attach_signal : M Z :=
  if negb (sys_answer SigMask =? 0) then mret (-1)
  else if negb (found MallocSigArgs) then mret (-1)
  else
    acquire RSigArgs;;
    if negb (sys_answer CreateSignal =? 0) then release RSigArgs;; mret (-1)
    else acquire RSigThread;; mret 0.

(** Where main ends: in the loop that sleeps, or with a status of the process. *)
Inductive outcome := Serving | Exited (status : Z).

(** The label err. *)
Definition err (null : bool) : M outcome :=
  x ← vpn_engine_cleanup null;
  mret (Exited (default EXIT_FAILURE x)).

(** [if (m != 0) goto err;] *)
Definition or_err (m : M Z) (k : M outcome) : M outcome :=
  rc ← m;
  if negb (rc =? 0) then err false else k.

Definition main : M outcome :=
  ok ← create_session;
  if negb ok then err true
  else
    or_err attach_signal
    (or_err detect_default_wan
    (w ← gets wan;
     w ← check w;                               (* session->wan->ifname *)
     or_err (setup_tun_interface false (Some tun_ip) (Some tun_netmask) (Some (DefaultWan.ifname w)))
     (or_err (setup_ip_pool_manager false)
     (p ← gets ip_pool;
      p ← check p;                              (* session->ip_pool->max_clients *)
      or_err (init_client_manager (IpPool.max_clients p))
      (or_err setup_msquic
      (or_err start_threads
      (mret Serving))))))).
End engine.
