(* ===== verification/ServerStart.v ===== *)
(** * Starting and stopping the server: what it holds, what it serves with *)
From stdpp Require Import prelude strings gmap.
From Stdlib Require Import ZArith Lia.
From S2P Require Import Prelude Utils PktCtrl Ledger StateSync ObjPool TunTotal ServerEngine.
From S2P Require Tun TunDriver Pool Queue IpPool ClientList NetIface DefaultWan ServerSetup.

#[local] Existing Instance Pool.pool_objpool.

(** ** The configuration of the tunnel *)
Section configure.
Context (kern : Tun.sys → nat → Z) (kname : nat → string) (proc : Tun.sys → nat → Utils.proc_run).
Context (nft : Tun.sys → nat → TunDriver.nft_run) (access : string → bool) (mem : bool).
Abbreviation rtable := (TunDriver.driver_table kern kname proc nft access mem).

Lemma returns_or_fail m k : returns m → returns k → returns (or_fail m k).
Proof.
  intros Hm Hk. apply returns_bind; [done|]. intros r. apply returns_if; [apply returns_ret|done].
Qed.

Lemma server_returns_configure ip netmask ifname : returns (configure rtable ip netmask ifname).
Proof.
  pose proof (driver_table_total kern kname proc nft access mem) as Hd. unfold configure.
  apply returns_or_fail; [by apply returns_open|]. apply returns_or_fail; [by apply returns_set_addr|].
  apply returns_or_fail; [by apply returns_set_mtu|]. apply returns_or_fail; [by apply returns_set_up|].
  apply returns_bind; [by apply returns_clear_dns|intros _].
  apply returns_or_fail; [by apply returns_set_dns|]. apply returns_bind; [apply returns_gets|]. intros t.
  destruct (Tun.tun_get_net_cidr _ _ _) as [rc cidr]. apply returns_if; [apply returns_ret|].
  apply returns_bind; [by apply returns_rules_clear|intros _].
  apply returns_or_fail; [by apply returns_add_route|]. apply returns_or_fail; [by apply returns_fwd|].
  apply returns_or_fail; [by apply returns_srules|]. apply returns_or_fail; [by apply returns_start|].
  apply returns_ret.
Qed.

(** What holds at the end of a sequence that succeeds. *)
Lemma or_fail_ends m k w (R : Tun.world → Prop) :
  ends m w (λ r w', r = 0 → ends k w' (λ rc w2, rc = 0 → R w2)) →
  ends (or_fail m k) w (λ rc w2, rc = 0 → R w2).
Proof.
  intros H. apply ends_bind. eapply ends_mono; [exact H|]. cbv beta. intros r w' H'.
  destruct (Z.eqb_spec r 0) as [->|]; cbn [negb]; [by apply H'|]. unfold ends, mret, M_ret. lia.
Qed.
Lemma or_fail_leaves m k w (R : Tun.world → Prop) : leaves m →
  (∀ w', conf w' = conf w → ends k w' (λ rc w2, rc = 0 → R w2)) →
  ends (or_fail m k) w (λ rc w2, rc = 0 → R w2).
Proof.
  intros Hm Hk. apply or_fail_ends. eapply ends_mono; [by apply (pres_ends conf)|]. cbv beta. auto.
Qed.
Lemma then_leaves (m k : M Tun.world Z) w (Q : Z → Tun.world → Prop) : leaves m →
  (∀ w', conf w' = conf w → ends k w' Q) → ends (_ ← m; k) w Q.
Proof. intros Hm Hk. apply ends_bind. eapply ends_mono; [by apply (pres_ends conf)|]. cbv beta. auto. Qed.

(** The handle of a server that serves: 172.18.0.1/16, an MTU of 1380, the
    two name servers, every status bit set. *)
Definition server_tun (t : Tun.tun_iface_t) : Prop :=
  Tun.ip t = 16781996 ∧ Tun.mask t = 65535 ∧ Tun.net t = 4780 ∧ Tun.mtu t = 1380 ∧
  Tun.dns1 t = 16843009 ∧ Tun.dns2 t = 134744072 ∧ ready t.

Lemma configure_conf ifname w :
  ends (configure rtable tun_ip tun_netmask ifname) w (λ rc w', rc = 0 → server_tun (Tun.tun w')).
Proof.
  unfold configure. apply or_fail_leaves; [apply leaves_open|]. intros w1 _.
  apply or_fail_ends. eapply ends_mono; [apply set_addr_conf|]. cbv beta. intros r w2 H2 Hr.
  destruct (H2 Hr) as (a & m & Ea & Em & _ & E2). clear H2 Hr.
  assert (a = 16781996) as -> by (unfold tun_ip in Ea; vm_compute in Ea; congruence).
  assert (m = 65535) as -> by (unfold tun_netmask in Em; vm_compute in Em; congruence).
  apply or_fail_ends. eapply ends_mono; [apply set_mtu_conf|]. cbv beta. intros r3 w3 H3 Hr.
  destruct (H3 Hr) as (_ & E3). clear H3 Hr.
  apply or_fail_leaves; [apply leaves_set_up|]. intros w4 E4.
  apply then_leaves; [apply leaves_clear_dns|]. intros w5 E5.
  apply or_fail_ends. eapply ends_mono; [apply set_dns_conf|]. cbv beta. intros r6 w6 H6 Hr.
  destruct (H6 Hr) as (d1 & d2 & Ed1 & Ed2 & E6). clear H6 Hr.
  assert (d1 = 16843009) as -> by (vm_compute in Ed1; congruence).
  assert (d2 = 134744072) as -> by (vm_compute in Ed2; congruence).
  apply ends_bind. unfold gets, ends at 1. destruct (Tun.tun_get_net_cidr _ _ _) as [rc cidr].
  destruct (rc =? 0); cbn [negb]; [|by intros ?].
  apply then_leaves; [apply leaves_rules_clear|]. intros w7 E7.
  apply or_fail_leaves; [apply leaves_add_route|]. intros w8 E8.
  apply or_fail_leaves; [apply leaves_fwd|]. intros w9 E9.
  apply or_fail_leaves; [apply leaves_srules|]. intros w10 E10.
  apply or_fail_ends. unfold ends at 1. destruct (Tun.tun_start false w10) as [r10 w11| |] eqn:Es; [|done..].
  intros ->. apply start_ready in Es as [-> Hr]. intros _.
  assert (C : conf w10 = conf w6) by congruence. assert (C' : conf w5 = conf w3) by congruence.
  rewrite E6 in C. rewrite E3 in C'. unfold conf in C, C', E2. cbn zeta in C, C', E2. unfold server_tun.
  injection C as -> -> -> -> -> ->. injection C' as -> -> -> -> _ _. injection E2 as -> -> -> _ _ _. done.
Qed.
End configure.

(** ** The engine *)
Section engine.
Context (os : os_t).
Context (kern : Tun.sys → nat → Z) (kname : nat → string) (proc : Tun.sys → nat → Utils.proc_run).
Context (nft : Tun.sys → nat → TunDriver.nft_run) (access : string → bool) (mem : bool).
Abbreviation table := (TunDriver.driver_table kern kname proc nft access mem).
Context (env : ServerSetup.api_call → nat → Z) (new_handle : nat → nat) (inet_pton6 : string → bool).
Context (netenv : NetIface.history → NetIface.sysreq → NetIface.answer)
        (uninit : NetIface.history → list Z)
        (route_garbage : NetIface.netlink_route_info_t) (addr_garbage : NetIface.netlink_addr_info_t)
        (link_garbage : NetIface.netlink_link_info_t) (polls : nat).
Context (sys_answer : sys_call → Z).
Context (Hos : posix_ok os).
Implicit Types (e : engine) (r : resource).

Lemma add_log_nil e : add_log [] e = e.
Proof. destruct e. unfold add_log. cbn. by rewrite app_nil_r. Qed.
Lemma log_add_log l e : log (add_log l e) = log e ++ l.
Proof. done. Qed.

Definition when {A} (x : option A) r : list (ledger_event resource) :=
  match x with Some _ => [Release r] | None => [] end.

Lemma safe_free_object {A B} r (get : engine → option A) (k : M engine B) e Q :
  safe k (add_log (when (get e) r) e) Q → safe (free_object r get;; k) e Q.
Proof.
  intros H. apply safe_bind. unfold free_object. apply safe_gets. unfold when in H.
  destruct (get e); [exact H|]. by rewrite add_log_nil in H.
Qed.
Lemma server_safe_destroy_pool {B} r (get : engine → option Pool.pool_t) (k : M engine B) e Q :
  (∀ p, get e = Some p → ∃ n fl, Pool.pool_inv n p fl) →
  safe k (add_log (when (get e) r) e) Q → safe (destroy_pool os r get;; k) e Q.
Proof.
  intros Hp H. apply safe_bind. unfold destroy_pool. apply safe_gets. unfold when in H.
  destruct (get e) as [p|]; [|by rewrite add_log_nil in H].
  destruct (Hp p eq_refl) as (n & fl & Hinv).
  destruct (Pool.pool_destroy_spec os p n fl Hos Hinv) as (h & E & _).
  unfold safe at 1. rewrite (bind_run _ _ e 0 e) by (unfold zoom; by rewrite E). apply H.
Qed.
Lemma server_safe_destroy_queue {B} (k : M engine B) e Q :
  safe k (add_log (when (queue_recv e) RQueueRecv) e) Q → safe (destroy_queue os;; k) e Q.
Proof.
  intros H. apply safe_bind. unfold destroy_queue. apply safe_gets. unfold when in H.
  destruct (queue_recv e) as [q|]; [|by rewrite add_log_nil in H]. unfold safe at 1.
  rewrite (bind_run _ _ e (Ok ()) e); [apply H|].
  unfold zoom, Queue.queue_destroy, mbind, M_bind, modify. by rewrite !(rc_ok_posix os) by done.
Qed.

(** What the cleanup relies on: the pools and the queue are intact, and a
    running flag means a thread. *)
Record cleanable e : Prop := {
  cn_ps p : pool_send e = Some p → ∃ n fl, Pool.pool_inv n p fl;
  cn_pr p : pool_recv e = Some p → ∃ n fl, Pool.pool_inv n p fl;
  cn_cp p : client_pool e = Some p → ∃ n fl, Pool.pool_inv n p fl;
  cn_q : ∃ q l, queue_recv e = Some q ∧ Queue.queue_inv q l;
  cn_send : running_send e = thread_send e;
  cn_recv : running_recv e = thread_recv e
}.
Lemma server_cleanable_frame e e' : cleanable e →
  pool_send e' = pool_send e → pool_recv e' = pool_recv e → queue_recv e' = queue_recv e →
  client_pool e' = client_pool e →
  running_send e' = running_send e → running_recv e' = running_recv e →
  thread_send e' = thread_send e → thread_recv e' = thread_recv e → cleanable e'.
Proof. intros [] E1 E2 E3 E4 ? ? ? ?. split; rewrite ?E1, ?E2, ?E3, ?E4; try done; congruence. Qed.

(** What the cleanup gives back. *)
Definition threads_log e : list (ledger_event resource) :=
  (if running_send e
   then Release RThreadSend :: (if 0 <=? shutdown_fd e then [Release REventfd] else []) else []) ++
  (if running_recv e then [Release RThreadRecv] else []).
Definition objects_log e : list (ledger_event resource) :=
  when (pool_recv e) RPoolRecv ++ when (pool_send e) RPoolSend ++ [Release RQueueRecv] ++
  when (ip_pool e) RIpPool ++ when (client_pool e) RClientPool ++ when (client_list e) RClientList.
Definition cleanup_log e : list (ledger_event resource) :=
  when (wan e) RWan ++ threads_log e ++ when (tun e) RTunState ++ when (tun e) RTun ++ objects_log e.

(** The parts of a session the cleanup reads, and the stages leave alone. *)
Definition objects e :=
  (pool_send e, pool_recv e, client_pool e, ip_pool e, client_list e, tun e).

(** Stopping the receiving thread. *)
Definition stop_recv : M engine () :=
  b ← gets running_recv;
  if b : bool then modify (set_running_recv false);; push_null os;; join_recv else mret ().
Definition stop_send : M engine () :=
  b ← gets running_send;
  if b : bool then
    modify (set_running_send false);;
    join_send;;
    fd ← gets shutdown_fd;
    if 0 <=? fd then release REventfd else mret ()
  else mret ().

Lemma stop_send_safe e : cleanable e →
  safe stop_send e (λ _ e', cleanable e' ∧ objects e' = objects e ∧ running_recv e' = running_recv e ∧
    log e' = log e ++ (if running_send e
      then Release RThreadSend :: (if 0 <=? shutdown_fd e then [Release REventfd] else []) else [])).
Proof.
  intros Hc. unfold stop_send. apply safe_gets. destruct (running_send e) eqn:Es.
  - apply safe_modify. apply safe_bind. unfold join_send. apply safe_gets. cbn [thread_send set_running_send].
    rewrite <- (cn_send _ Hc), Es. apply safe_modify. unfold release at 1, modify at 1, safe at 1.
    apply safe_gets. cbn [shutdown_fd add_log set_thread_send set_running_send].
    destruct Hc as [H1 H2 H3 H4 _ Hr].
    destruct (0 <=? shutdown_fd e); unfold release, modify, mret, M_ret, safe; (split; [by split|]);
      split; try done; split; try done; cbn [log add_log set_thread_send set_running_send];
      by rewrite <- ?(assoc_L (++)).
  - unfold safe, mret, M_ret. by rewrite app_nil_r.
Qed.

Lemma server_stop_recv_safe e : cleanable e →
  safe stop_recv e (λ _ e', cleanable e' ∧ objects e' = objects e ∧
    log e' = log e ++ (if running_recv e then [Release RThreadRecv] else [])).
Proof.
  intros Hc. unfold stop_recv. apply safe_gets. destruct (running_recv e) eqn:Er.
  - apply safe_modify. destruct Hc as [H1 H2 H3 (q & l & Eq & Hq) Hs Hr].
    eapply (safe_then _ _ _ (λ _ e', ∃ q', Queue.queue_inv q' (l ++ [None]) ∧
      e' = set_queue_recv (Some q') (set_running_recv false e))).
    { unfold push_null. apply safe_gets. cbn [queue_recv set_running_recv]. rewrite Eq. apply safe_bind, safe_zoom.
      destruct (Queue.push_run os Hos q l None Hq) as [(_ & q' & _ & E & Hq' & _)|(_ & _ & E)];
        unfold safe at 1; rewrite E; [|done]. by exists q'. }
    intros _ e' (q' & Hq' & ->). unfold join_recv. apply safe_gets.
    cbn [thread_recv set_queue_recv set_running_recv]. rewrite <- Hr, Er. apply safe_modify.
    unfold release, modify, safe. split; [|by split]. split; try done. by exists q', (l ++ [None]).
  - unfold safe, mret, M_ret. by rewrite app_nil_r.
Qed.

Lemma returns_teardown : returns (tun_teardown table).
Proof.
  pose proof (driver_table_total kern kname proc nft access mem) as Hd. unfold tun_teardown.
  apply returns_bind; [by apply returns_flush|intros _].
  apply returns_bind; [by apply returns_clear_dns|intros _].
  apply returns_bind; [by apply returns_rules_clear|intros _].
  apply returns_bind; [by apply returns_reset|intros _].
  apply returns_bind; [by apply returns_fwd|intros _]. by apply returns_destroy.
Qed.
Lemma server_in_driver_run {A} t (m : M Tun.world A) e : returns m →
  ∃ a w, m (Tun.World t (driver e)) = Ret a w ∧
    in_driver t m e = Ret (a, Tun.tun w) (set_driver (Tun.trace w) e).
Proof.
  intros Hm. destruct (Hm (Tun.World t (driver e))) as (a & w & E). exists a, w. split; [done|].
  unfold in_driver. by rewrite E.
Qed.

Definition drop_tun : M engine () :=
  t ← gets tun;
  match t with
  | Some t =>
      in_driver t (tun_teardown table);;
      on_tun_state (state_sync_destroy os false);;
      release RTunState;;
      release RTun;;
      modify (set_tun None)
  | None => mret ()
  end.

Lemma drop_tun_safe e : cleanable e →
  safe drop_tun e (λ _ e', cleanable e' ∧ (objects e').1 = (objects e).1 ∧
    log e' = log e ++ when (tun e) RTunState ++ when (tun e) RTun).
Proof.
  intros Hc. unfold drop_tun. apply safe_gets. destruct (tun e) as [t|] eqn:Et.
  - destruct (server_in_driver_run t (tun_teardown table) e returns_teardown) as (a & w & _ & E).
    apply safe_bind. unfold safe at 1. rewrite E. apply safe_bind. apply safe_zoom.
    unfold state_sync_destroy, safe at 1, mbind, M_bind, modify. rewrite !(rc_ok_posix os) by done.
    unfold release, safe, mbind, M_bind, modify. split; [by eapply server_cleanable_frame|]. split; [done|].
    cbn [log add_log set_tun set_tun_state set_driver]. unfold when. by rewrite <- (assoc_L (++)).
  - unfold safe, mret, M_ret, when. split; [done|]. by rewrite !app_nil_r.
Qed.

Lemma destroy_objects_safe e : cleanable e →
  safe (destroy_pool os RPoolRecv pool_recv;;
        destroy_pool os RPoolSend pool_send;;
        destroy_queue os;;
        free_object RIpPool ip_pool;;
        destroy_pool os RClientPool client_pool;;
        free_object RClientList client_list;;
        mret (Some EXIT_SUCCESS)) e
    (λ x e', x = Some 0 ∧ log e' = log e ++ objects_log e).
Proof.
  intros [H1 H2 H3 (q & l & Eq & Hq) _ _].
  apply server_safe_destroy_pool; [exact H2|]. apply server_safe_destroy_pool; [exact H1|].
  apply server_safe_destroy_queue. apply safe_free_object. apply server_safe_destroy_pool; [exact H3|].
  apply safe_free_object. unfold safe, mret, M_ret. split; [done|].
  cbn [log add_log pool_send pool_recv queue_recv ip_pool client_pool client_list].
  rewrite Eq. unfold objects_log. by repeat rewrite <- (assoc_L (++)).
Qed.

Lemma server_cleanup_safe e : cleanable e →
  safe (vpn_engine_cleanup os table false) e (λ x e', x = Some 0 ∧ log e' = log e ++ cleanup_log e).
Proof.
  intros Hc. unfold vpn_engine_cleanup. apply safe_free_object. set (e1 := add_log _ e).
  assert (Hc1 : cleanable e1) by by eapply server_cleanable_frame.
  eapply (safe_then stop_send); [by apply stop_send_safe|]. cbv beta. intros _ e2 (Hc2 & Ho2 & Hr2 & Hl2).
  eapply (safe_then stop_recv); [by apply server_stop_recv_safe|]. cbv beta. intros _ e3 (Hc3 & Ho3 & Hl3).
  eapply (safe_then drop_tun); [by apply drop_tun_safe|]. cbv beta. intros _ e4 (Hc4 & Ho4 & Hl4).
  eapply safe_mono; [by apply destroy_objects_safe|]. cbv beta. intros x e5 [-> Hl5]. split; [done|].
  rewrite Hl5, Hl4, Hl3, Hl2. cbn [log add_log e1]. unfold cleanup_log, threads_log.
  unfold objects in *. cbn in Ho4. injection Ho4 as E1 E2 E3 E4 E5. injection Ho3 as F1 F2 F3 F4 F5 F6.
  injection Ho2 as G1 G2 G3 G4 G5 G6. cbn in G1, G2, G3, G4, G5, G6.
  unfold objects_log. rewrite E1, E2, E3, E4, E5, F1, F2, F3, F4, F5, F6, G1, G2, G3, G4, G5, G6, Hr2.
  cbn [running_recv running_send shutdown_fd tun e1 add_log]. by repeat rewrite <- (assoc_L (++)).
Qed.
(** ** create_session *)

Definition has_fd : bool := 0 <=? sys_answer EventFd.
Definition fd_log : list (ledger_event resource) := if has_fd then [Acquire REventfd] else [].
Definition create_log : list (ledger_event resource) :=
  (Acquire <$> [RSession; RTunState]) ++ fd_log ++ (Acquire <$> [RPoolSend; RPoolRecv; RQueueRecv]).

(** No threads, no objects but the pools and the queue. *)
Record idle e : Prop := {
  id_clean : cleanable e;
  id_ps : is_Some (pool_send e); id_pr : is_Some (pool_recv e);
  id_send : running_send e = false; id_recv : running_recv e = false
}.
Definition bare e : Prop :=
  wan e = None ∧ tun e = None ∧ ip_pool e = None ∧ client_list e = None ∧ client_pool e = None.

(** What a failed create_session leaves: nothing but the state and the eventfd
    when the first pool fails; everything there was when a later one does. *)
Definition create_leak (k : nat) (r : resource) : Z :=
  match r, k with
  | RTunState, _ => 1
  | REventfd, _ => if has_fd then 1 else 0
  | RSession, S _ => 1
  | RPoolSend, S _ => 1
  | RPoolRecv, S (S _) => 1
  | _, _ => 0
  end.

Definition new_pool (bsize cap : Z) : Pool.pool_t := Pool.PoolT bsize cap 0 0 None ∅.
Lemma server_create_pool_run c r set e :
  create_pool os sys_answer c r set e =
  if found sys_answer c then Ret true (add_log [Acquire r] (set (Some (new_pool sizeof_pkt_data_t 0)) e))
  else Ret false e.
Proof.
  unfold create_pool, Pool.pool_init. change (sizeof_pkt_data_t =? 0) with false.
  change (SIZE_MAX - Pool.sizeof_pool_block_t <? sizeof_pkt_data_t) with false. cbv iota.
  destruct (found sys_answer c); [|done]. by rewrite !Hos.
Qed.

Lemma server_create_queue_run n e : 0 < n ≤ SEM_VALUE_MAX →
  (∃ q, create_queue os sys_answer n e = Ret true (add_log [Acquire RQueueRecv] (set_queue_recv (Some q) e)) ∧
     Queue.queue_inv q []) ∨
  create_queue os sys_answer n e = Ret false e.
Proof.
  intros Hn. destruct (Queue.queue_init_inv os n Hos Hn) as (q & E & Hq & Hs). unfold create_queue.
  destruct (found sys_answer MallocQueue) eqn:E1, (found sys_answer MallocSlots) eqn:E2.
  { left. exists q. by rewrite E. }
  all: right; unfold Queue.queue_init; destruct (Z.eqb_spec n 0); [lia|];
    by destruct (Z.ltb_spec SEM_VALUE_MAX n); [lia|].
Qed.

Lemma init_state_run e :
  on_tun_state (state_sync_init os false TUN_CLOSED) e = Ret 0 (set_tun_state TUN_CLOSED e).
Proof. apply zoom_run. unfold state_sync_init, mbind, M_bind, modify. by rewrite !Hos. Qed.

Lemma create_session_safe e :
  safe (create_session os sys_answer) e (λ ok e',
    if ok : bool then idle e' ∧ bare e' ∧ client_cnt e' = 1 ∧ shutdown_fd e' = sys_answer EventFd ∧
      net e' = net e ∧ log e' = log e ++ create_log
    else e' = e ∨ ∃ k, ∀ r, balance (log e') r = balance (log e) r + create_leak k r).
Proof.
  unfold create_session. destruct (found sys_answer MallocSession); cbn [negb]; [|by left].
  unfold acquire. apply safe_modify, safe_modify, safe_modify.
  apply safe_bind. unfold safe at 1. rewrite init_state_run. cbn [Z.eqb assert].
  apply safe_bind. unfold safe at 1, mret, M_ret. apply safe_modify, safe_modify.
  set (e1 := set_shutdown_fd _ _).
  apply (safe_then _ _ _ (λ _ e', e' = add_log fd_log e1)).
  { unfold fd_log, has_fd. destruct (0 <=? sys_answer EventFd); unfold safe, mret, M_ret; [done|].
    by rewrite add_log_nil. }
  intros _ e2 ->. set (e2 := add_log fd_log e1).
  assert (Hl : log e2 = log e ++ (Acquire <$> [RSession; RTunState]) ++ fd_log)
    by (cbn; by repeat rewrite <- (assoc_L (++))).
  assert (Hb : ∀ r, balance fd_log r = match r with REventfd => if has_fd then 1 else 0 | _ => 0 end).
  { unfold fd_log. destruct has_fd; intros []; ledger. }
  apply safe_bind. unfold safe at 1. rewrite server_create_pool_run.
  destruct (found sys_answer MallocPoolSend); cbn [negb].
  2:{ unfold create_cleanup, release, safe, mbind, M_bind, modify, mret, M_ret. right. exists 0%nat. intros r.
      rewrite log_add_log, Hl, !balance_app, Hb. destruct r; ledger. }
  apply safe_bind. unfold safe at 1. rewrite server_create_pool_run.
  destruct (found sys_answer MallocPoolRecv); cbn [negb].
  2:{ unfold safe, mret, M_ret. right. exists 1%nat. intros r. rewrite log_add_log.
      cbn [log set_pool_send]. rewrite Hl, !balance_app, Hb. destruct r; ledger. }
  set (e3 := add_log _ (set_pool_recv _ _)).
  assert (Hl3 : log e3 = log e ++ (Acquire <$> [RSession; RTunState]) ++ fd_log ++ [Acquire RPoolSend; Acquire RPoolRecv]).
  { unfold e3. rewrite log_add_log. cbn [log set_pool_send set_pool_recv add_log].
    change (log e1 ++ fd_log) with (log e2). rewrite Hl. by repeat rewrite <- (assoc_L (++)). }
  unfold safe. destruct (server_create_queue_run (128 * 1024 * 1024) e3) as [(q & -> & Hq)| ->]; [done| |].
  - split; [|split; [done|]].
    + split; try done; [|by eexists..]. split; try done.
      * intros p [= <-]. exists 0, []. by apply Pool.new_pool_inv.
      * intros p [= <-]. exists 0, []. by apply Pool.new_pool_inv.
      * by exists q, [].
    + split; [done|]. split; [done|]. split; [done|]. rewrite log_add_log. cbn [log set_queue_recv].
      rewrite Hl3. unfold create_log. by repeat rewrite <- (assoc_L (++)).
  - right. exists 2%nat. intros r. rewrite Hl3, !balance_app, Hb. destruct r; ledger.
Qed.
(** ** The stages of main *)

Lemma attach_signal_safe e :
  safe (attach_signal sys_answer) e (λ rc e', ∃ l, e' = add_log l e ∧
    if rc =? 0 then l = [Acquire RSigArgs; Acquire RSigThread] else l = [] ∨ l = [Acquire RSigArgs; Release RSigArgs]).
Proof.
  unfold attach_signal. destruct (sys_answer SigMask =? 0); cbn [negb].
  2:{ exists []. rewrite add_log_nil. split; [done|by left]. }
  destruct (found sys_answer MallocSigArgs); cbn [negb].
  2:{ exists []. rewrite add_log_nil. split; [done|by left]. }
  unfold acquire, release. apply safe_modify. destruct (sys_answer CreateSignal =? 0); cbn [negb];
    unfold safe, mbind, M_bind, modify, mret, M_ret; unfold add_log; cbn; rewrite <- (assoc_L (++)).
  - by eexists.
  - eexists. split; [done|by right].
Qed.

Lemma server_detect_safe e :
  safe (DefaultWan.detect_default_wan netenv uninit route_garbage addr_garbage link_garbage polls
          (found sys_answer MallocWan)) (net e) (λ _ _, True) →
  safe (detect_default_wan netenv uninit route_garbage addr_garbage link_garbage polls sys_answer) e (λ rc e', ∃ n,
    if rc =? 0 then ∃ w, e' = add_log [Acquire RWan] (set_wan (Some w) (set_net n e)) else e' = set_net n e).
Proof.
  intros Hnet. unfold detect_default_wan. apply safe_bind, safe_zoom.
  pose proof (DefaultWan.detect_default_wan_result netenv uninit route_garbage addr_garbage link_garbage polls
    (found sys_answer MallocWan) (net e)) as Hres. unfold ends in Hres. unfold safe at 1. unfold safe in Hnet.
  destruct (DefaultWan.detect_default_wan _ _ _ _ _ _ _ _) as [[rc w] n| |]; [|done..].
  destruct Hres as [[Hrc [w' Ew]]|[Hrc Ew]]; cbn in Hrc, Ew; subst w.
  - subst rc. unfold acquire. apply safe_modify. unfold safe, mbind, M_bind, modify, mret, M_ret.
    exists n. by exists w'.
  - unfold safe, mret, M_ret. exists n. by destruct (Z.eqb_spec rc 0).
Qed.

Lemma setup_tun_safe ifname e :
  safe (setup_tun_interface os table sys_answer false (Some tun_ip) (Some tun_netmask) (Some ifname)) e (λ rc e',
    if rc =? 0 then ∃ t d, server_tun t ∧
      e' = set_tun_state TUN_READY (set_tun (Some t) (set_driver d (add_log [Acquire RTun] e)))
    else e' = e ∨ ∃ d, e' = set_driver d (add_log [Acquire RTun] e)).
Proof.
  unfold setup_tun_interface. destruct (Tun.tun_create _ _) as [t|]; [|by left].
  unfold acquire. apply safe_modify.
  destruct (server_in_driver_run t _ (add_log [Acquire RTun] e)
    (server_returns_configure kern kname proc nft access mem tun_ip tun_netmask ifname)) as (rc & w & Ec & E).
  apply safe_bind. unfold safe at 1. rewrite E. destruct (Z.eqb_spec rc 0) as [->|Hrc]; cbn [negb].
  - apply safe_modify. unfold on_tun_state. apply safe_bind, safe_zoom.
    unfold safe at 1. rewrite state_sync_set_posix by done. unfold safe, mret, M_ret. change (0 =? 0) with true. cbv iota.
    exists (Tun.tun w), (Tun.trace w). split; [|done].
    pose proof (configure_conf kern kname proc nft access mem ifname (Tun.World t (driver (add_log [Acquire RTun] e)))) as H.
    unfold ends in H. rewrite Ec in H. by apply H.
  - unfold safe, mret, M_ret. right. by eexists.
Qed.

(** The pool of the server's addresses. *)
Definition server_pool (p : IpPool.ip_pool_t) : Prop :=
  IpPool.pool_wf p ∧ IpPool.leases p = ∅ ∧ IpPool.max_clients p = 65536 ∧
  ∀ a, IpPool.assignable p a ↔ 2886860800 < a < 2886926335 ∧ a ≠ 2886860801.

Lemma server_pool_create t : server_tun t →
  ∃ p, IpPool.ip_pool_create (Some (tun_net t)) true true = Some p ∧ server_pool p.
Proof.
  intros (Hip & Hm & _). unfold tun_net, Tun.net_of. rewrite Hip, Hm.
  destruct (IpPool.ip_pool_create_wf 16781996 16 4780) as (p & E & Hwf & Hl & Hmax & _ & Hn & _ & Ha);
    [lia|by vm_compute..|].
  exists p. split; [exact E|]. split; [done|]. split; [done|]. split; [done|]. intros a. rewrite Ha, Hmax.
  change (ntohl 4780) with 2886860800. change (ntohl 16781996) with 2886860801. change (2 ^ (32 - 16)) with 65536. lia.
Qed.

Lemma set_tun_state_same e : set_tun_state (tun_state e) e = e.
Proof. by destruct e. Qed.

Lemma check_tun_run v e : on_tun_state (state_sync_check os false v) e = Ret (tun_state e =? v) e.
Proof.
  unfold on_tun_state, zoom, state_sync_check, mbind, M_bind, gets, mret, M_ret, id.
  rewrite (rc_ok_posix os) by done. rewrite (rc_ok_posix os) by done. by rewrite set_tun_state_same.
Qed.

Lemma setup_pool_safe t e : tun e = Some t → server_tun t → tun_state e = TUN_READY →
  safe (setup_ip_pool_manager os sys_answer false) e (λ rc e',
    if rc =? 0 then ∃ p, server_pool p ∧ e' = add_log [Acquire RIpPool] (set_ip_pool (Some p) e)
    else e' = set_ip_pool None e).
Proof.
  intros Ht Hs Hr. unfold setup_ip_pool_manager. apply safe_gets. rewrite Ht. cbn [Tun.tun_get_flags Tun.getter].
  change (0 =? 0) with true. cbn [negb]. apply safe_bind. unfold safe at 1. rewrite check_tun_run, Hr. cbn [negb Z.eqb TUN_READY].
  change (TUN_READY =? TUN_READY) with true. cbn [negb]. destruct (server_pool_create t Hs) as (p & E & Hp).
  cbn [fmap option_fmap option_map].
  assert (Hcase : IpPool.ip_pool_create (Some (tun_net t)) (found sys_answer CallocIpPool) (found sys_answer CallocIpEntries)
    = Some p ∨ IpPool.ip_pool_create (Some (tun_net t)) (found sys_answer CallocIpPool) (found sys_answer CallocIpEntries) = None).
  { destruct (found sys_answer CallocIpPool), (found sys_answer CallocIpEntries); try (by left); right;
      unfold IpPool.ip_pool_create, tun_net; cbn [negb]; try done; by destruct (negb (validate_mask _)). }
  destruct Hcase as [-> | ->].
  - unfold acquire. apply safe_modify. unfold safe, mbind, M_bind, modify, mret, M_ret. by exists p.
  - unfold safe, mbind, M_bind, modify, mret, M_ret. done.
Qed.

Lemma init_clients_safe n e :
  safe (init_client_manager os sys_answer n) e (λ rc e',
    let e1 := add_log [Acquire RClientList] (set_client_list (Some (replicate (Z.to_nat n) None)) e) in
    if rc =? 0 then e' = add_log [Acquire RClientPool] (set_client_pool (Some (new_pool sizeof_client_t n)) e1)
    else e' = e ∨ e' = e1).
Proof.
  unfold init_client_manager. destruct (found sys_answer MallocClientList); cbn [negb]; [|by left].
  unfold acquire. apply safe_modify, safe_modify. unfold Pool.pool_init.
  change (sizeof_client_t =? 0) with false. change (SIZE_MAX - Pool.sizeof_pool_block_t <? sizeof_client_t) with false.
  cbv iota. destruct (found sys_answer MallocClientPool); cbn [negb]; [|by right]. by rewrite !Hos.
Qed.

Lemma server_setup_msquic_safe e :
  safe (setup_msquic env new_handle inet_pton6) e (λ rc e', ∃ w,
    if rc =? 0 then e' = set_MsQuic (Some (ServerSetup.listening new_handle (length (ServerSetup.calls (quic e))))) (set_quic w e)
    else e' = set_quic w e).
Proof.
  unfold setup_msquic. apply safe_bind, safe_zoom. apply runs_safe.
  eapply runs_mono; [apply ServerSetup.setup_msquic_outcome|]. cbv beta. intros rc w [(-> & Hc & _)|(-> & _)].
  - cbn [Z.eqb negb]. unfold safe, mbind, M_bind, gets, modify, mret, M_ret. exists w.
    cbn [quic set_quic]. by rewrite Hc.
  - unfold safe, mret, M_ret. by exists w.
Qed.
(** ** main *)

(** The state of the registry a server starts with. *)
Definition registry e : option (ClientList.session_t Pool.pool_t) :=
  p ← ip_pool e; q ← client_pool e; l ← client_list e;
  Some (ClientList.Session p q (client_cnt e) l ∅).

(** A server that serves: its threads run, the tunnel is configured and READY,
    the listener is open, and the registry is empty and well formed. *)
Record serving e : Prop := {
  sv_threads : running_send e = true ∧ running_recv e = true ∧ thread_send e = true ∧ thread_recv e = true;
  sv_wan : is_Some (wan e);
  sv_tun : tun_state e = TUN_READY ∧ ∃ t, tun e = Some t ∧ server_tun t;
  sv_quic : ∃ n, MsQuic e = Some (ServerSetup.listening new_handle n);
  sv_registry garbage : ∃ s, registry e = Some s ∧ ClientList.reg_wf garbage s ∧
    server_pool (ClientList.ip_pool s) ∧ ClientList.client_cnt s = 1 ∧
    ClientList.client_list s = replicate (Z.to_nat 65536) None ∧
    ObjPool.op_held (ClientList.client_pool s) = ∅ ∧ ClientList.clients s = ∅
}.

Definition fd_count : Z := if has_fd then 1 else 0.

(** What a server that serves holds, and what one that exits with status 0
    leaves: [attached], the signal thread runs; [created], [published], the TUN
    handle exists, and is the session's. *)
Definition serving_holds (r : resource) : Z := match r with REventfd => fd_count | _ => 1 end.
Definition exit_leak (attached created published : bool) (r : resource) : Z :=
  match r with
  | RSession => 1
  | REventfd => fd_count
  | RSigArgs | RSigThread => Z.b2z attached
  | RTunState => Z.b2z (negb published)
  | RTun => Z.b2z (created && negb published)
  | _ => 0
  end.

Definition start_outcome e0 (o : outcome) e' : Prop :=
  match o with
  | Serving => serving e' ∧ ∀ r, balance (log e') r = balance (log e0) r + serving_holds r
  | Exited status =>
      status = EXIT_FAILURE ∧
        (e' = e0 ∨ ∃ k, ∀ r, balance (log e') r = balance (log e0) r + create_leak k r) ∨
      status = EXIT_SUCCESS ∧ ∃ attached created published, ∀ r,
        balance (log e') r = balance (log e0) r + exit_leak attached created published r
  end.

Definition held_of {A} (x : option A) : Z := match x with Some _ => 1 | None => 0 end.

(** The log [l] after create_session accounts for what the session has. *)
Definition accounted (attached created : bool) e (l : list (ledger_event resource)) : Prop := ∀ r,
  balance l r = match r with
    | RSigArgs | RSigThread => Z.b2z attached
    | RWan => held_of (wan e)
    | RTun => Z.b2z created
    | RIpPool => held_of (ip_pool e)
    | RClientList => held_of (client_list e)
    | RClientPool => held_of (client_pool e)
    | _ => 0
    end.

Lemma balance_when {A} (x : option A) r r' : balance (when x r) r' = if decide (r = r') then - held_of x else 0.
Proof. destruct x; cbn; destruct (decide (r = r')); lia. Qed.

Lemma balance_create r : balance create_log r =
  match r with RSession | RTunState | RPoolSend | RPoolRecv | RQueueRecv => 1 | REventfd => fd_count | _ => 0 end.
Proof.
  unfold create_log, fd_log, fd_count. rewrite !balance_app. destruct has_fd; destruct r; ledger.
Qed.

Lemma failed_stage e0 e l attached created :
  idle e → (is_Some (tun e) → created = true) → log e = log e0 ++ create_log ++ l → accounted attached created e l →
  safe (err os table false) e (start_outcome e0).
Proof.
  intros [Hc [ps Eps] [pr Epr] Hs Hr] Ht Hl Hb. unfold err.
  eapply safe_then; [by apply server_cleanup_safe|]. cbv beta. intros x e' [-> Hl']. unfold safe, mret, M_ret. right.
  split; [done|]. exists attached, created, (match tun e with Some _ => true | None => false end). intros r.
  rewrite Hl', Hl. unfold cleanup_log, threads_log, objects_log. rewrite Hs, Hr, Eps, Epr.
  rewrite !balance_app, !balance_when, balance_create, (Hb r).
  destruct (tun e) as [t|]; [rewrite Ht by eauto|]; clear; destruct attached, r; try destruct created; ledger.
Qed.

Lemma safe_or_err m k e Q :
  safe m e (λ rc e', if rc =? 0 then safe k e' Q else safe (err os table false) e' Q) →
  safe (or_err os table m k) e Q.
Proof.
  intros H. unfold or_err. apply safe_bind. eapply safe_mono; [exact H|]. intros rc e'. cbv beta.
  by destruct (rc =? 0).
Qed.

Lemma idle_frame e e' : idle e →
  pool_send e' = pool_send e → pool_recv e' = pool_recv e → queue_recv e' = queue_recv e →
  (∀ p, client_pool e' = Some p → ∃ n fl, Pool.pool_inv n p fl) →
  running_send e' = running_send e → running_recv e' = running_recv e →
  thread_send e' = thread_send e → thread_recv e' = thread_recv e → idle e'.
Proof.
  intros [[] H1 H2 H3 H4] E1 E2 E3 E4 E5 E6 E7 E8. split; rewrite ?E1, ?E2, ?E5, ?E6; try done.
  split; rewrite ?E1, ?E2, ?E3; try done; congruence.
Qed.
Lemma idle_same e e' : idle e →
  pool_send e' = pool_send e → pool_recv e' = pool_recv e → queue_recv e' = queue_recv e →
  client_pool e' = client_pool e →
  running_send e' = running_send e → running_recv e' = running_recv e →
  thread_send e' = thread_send e → thread_recv e' = thread_recv e → idle e'.
Proof. intros Hi ? ? ? E ? ? ? ?. eapply idle_frame; try done. rewrite E. apply Hi. Qed.

(** What a stop relies on. *)
Definition stoppable e : Prop := cleanable e ∧ is_Some (pool_send e) ∧ is_Some (pool_recv e).

(** From the published tunnel on. *)
Definition serve : M engine outcome :=
  or_err os table (setup_ip_pool_manager os sys_answer false)
  (p ← gets ip_pool;
   p ← check p;
   or_err os table (init_client_manager os sys_answer (IpPool.max_clients p))
   (or_err os table (setup_msquic env new_handle inet_pton6)
   (or_err os table (start_threads sys_answer)
   (mret Serving)))).

Lemma start_threads_run e : sys_answer CreateSend = 0 → sys_answer CreateRecv = 0 →
  start_threads sys_answer e = Ret 0 (add_log [Acquire RThreadRecv] (set_thread_recv true (set_running_recv true
    (add_log [Acquire RThreadSend] (set_thread_send true (set_running_send true e)))))).
Proof.
  intros H1 H2. unfold start_threads, or_fail, create_thread, acquire. rewrite H1, H2. reflexivity.
Qed.

(** A published tunnel, and nothing after it. *)
Record published e0 e t l : Prop := {
  pb_idle : idle e;
  pb_log : log e = log e0 ++ create_log ++ l;
  pb_acc : accounted true true e l;
  pb_tun : tun e = Some t; pb_conf : server_tun t; pb_ready : tun_state e = TUN_READY;
  pb_wan : is_Some (wan e);
  pb_cnt : client_cnt e = 1;
  pb_pool : ip_pool e = None; pb_list : client_list e = None; pb_clients : client_pool e = None
}.

Lemma registry_serves e p : server_pool p → ip_pool e = Some p → client_cnt e = 1 →
  client_pool e = Some (new_pool sizeof_client_t (IpPool.max_clients p)) →
  client_list e = Some (replicate (Z.to_nat (IpPool.max_clients p)) None) →
  ∀ garbage, ∃ s, registry e = Some s ∧ ClientList.reg_wf garbage s ∧
    server_pool (ClientList.ip_pool s) ∧ ClientList.client_cnt s = 1 ∧
    ClientList.client_list s = replicate (Z.to_nat 65536) None ∧
    ObjPool.op_held (ClientList.client_pool s) = ∅ ∧ ClientList.clients s = ∅.
Proof.
  intros Hp Ep Ec Eq El garbage. unfold registry. rewrite Ep, Eq, El, Ec. cbn [mbind option_bind].
  pose proof Hp as (_ & _ & Hm & _). rewrite Hm. eexists. split; [done|].
  assert (Hnone : ∀ i c, replicate (Z.to_nat 65536) (None : option nat) !! i ≠ Some (Some c)).
  { intros i c H. by apply lookup_replicate in H as [? _]. }
  split; [|split; [done|]; split; [done|]; split; [done|]; split; [apply Pool.new_pool_held|done]]. split.
  - split; [|exists []; by apply Pool.new_pool_inv].
    cbn [ClientList.client_list ClientList.max_clients ClientList.ip_pool]. rewrite length_replicate.
    unfold ClientList.max_clients. cbn [ClientList.ip_pool]. rewrite Hm. by rewrite Z2Nat.id.
  - intros i c H. by destruct (Hnone i c).
  - intros i c H. by destruct (Hnone i c).
Qed.

Lemma serve_safe e0 e t l : sys_answer CreateSend = 0 → sys_answer CreateRecv = 0 → published e0 e t l →
  safe serve e (λ o e', start_outcome e0 o e' ∧ (o = Serving → stoppable e' ∧ shutdown_fd e' = shutdown_fd e)).
Proof.
  intros Hcs Hcr [Hi Hl Ha Ht Hc Hr Hw Hn Hp Hcl Hcp].
  assert (Hfail : ∀ e2 l2, idle e2 → log e2 = log e ++ l2 → accounted true true e2 (l ++ l2) →
    safe (err os table false) e2 (λ o e', start_outcome e0 o e' ∧ (o = Serving → stoppable e' ∧ shutdown_fd e' = shutdown_fd e))).
  { intros e2 l2 Hi2 Hl2 Ha2.
    assert (Hlog : log e2 = log e0 ++ create_log ++ l ++ l2) by (rewrite Hl2, Hl; by repeat rewrite <- (assoc_L (++))).
    pose proof (failed_stage e0 e2 (l ++ l2) true true Hi2 ltac:(done) Hlog Ha2) as H.
    unfold err in *. apply safe_bind. unfold safe in *. unfold mbind, M_bind in H.
    destruct (vpn_engine_cleanup _ _ _ e2) as [x e3| |]; [|done..]. cbn in *. by split. }
  unfold serve. apply safe_or_err. eapply safe_mono; [by apply (setup_pool_safe t)|]. cbv beta.
  intros rc e1 H1. destruct (rc =? 0).
  2:{ subst e1. apply (Hfail _ []); [by eapply idle_frame; try (cbn; congruence)|cbn; by rewrite app_nil_r|].
      rewrite app_nil_r. intros r. rewrite (Ha r). cbn [wan ip_pool client_list client_pool set_ip_pool]. by rewrite Hp. }
  destruct H1 as (p & Hpool & ->). apply safe_gets. cbn [ip_pool add_log set_ip_pool check].
  apply (safe_bind (mret p)). unfold safe at 1, mret at 1, M_ret at 1. set (e1 := add_log _ _).
  assert (Hi1 : idle e1) by (eapply idle_frame; [exact Hi|try done; cbn; congruence..]).
  apply safe_or_err. eapply safe_mono; [apply init_clients_safe|]. cbv beta zeta. intros rc1 e2 H2.
  destruct (rc1 =? 0).
  2:{ destruct H2 as [-> | ->].
      - apply (Hfail _ [Acquire RIpPool]); [done..|]. intros r. rewrite balance_app, (Ha r). unfold held_of.
        cbn [wan ip_pool client_list client_pool e1 add_log set_ip_pool]. rewrite Hp. destruct r; ledger.
      - apply (Hfail _ [Acquire RIpPool; Acquire RClientList]).
        + eapply idle_frame; [exact Hi1|try done; cbn; congruence..].
        + cbn [log add_log set_client_list e1 set_ip_pool]. by rewrite <- (assoc_L (++)).
        + intros r. rewrite balance_app, (Ha r). unfold held_of.
          cbn [wan ip_pool client_list client_pool e1 add_log set_ip_pool set_client_list]. rewrite Hp, Hcl. destruct r; ledger. }
  subst e2. set (n := IpPool.max_clients p). set (e2 := add_log [Acquire RClientPool] _).
  set (l2 := [Acquire RIpPool; Acquire RClientList; Acquire RClientPool]).
  assert (Hmax : n = 65536) by apply Hpool.
  assert (Hcp2 : ∀ q, client_pool e2 = Some q → ∃ k fl, Pool.pool_inv k q fl).
  { intros q [= <-]. exists 0, []. apply Pool.new_pool_inv. by rewrite Hmax. }
  assert (Hi2 : idle e2) by (by eapply idle_frame).
  assert (Hl2 : log e2 = log e ++ l2).
  { unfold e2, e1. cbn [log add_log set_client_pool set_client_list set_ip_pool]. by repeat rewrite <- (assoc_L (++)). }
  assert (Ha2 : accounted true true e2 (l ++ l2)).
  { intros r. rewrite balance_app, (Ha r). unfold held_of, e2, e1.
    cbn [wan ip_pool client_list client_pool add_log set_ip_pool set_client_list set_client_pool].
    rewrite Hp, Hcl, Hcp. destruct r; ledger. }
  apply safe_or_err. eapply safe_mono; [apply server_setup_msquic_safe|]. cbv beta. intros rc2 e3 (w & H3).
  destruct (rc2 =? 0).
  2:{ subst e3. apply (Hfail _ l2); [by eapply idle_frame|done|done]. }
  subst e3. apply safe_or_err. unfold safe at 1. rewrite start_threads_run by done. cbn [Z.eqb].
  unfold safe, mret, M_ret. split; [split|].
  - split; [done|done|split; [exact Hr|by exists t]|by eexists|].
    by apply (registry_serves _ p).
  - intros r. cbn [log add_log set_thread_recv set_running_recv set_thread_send set_running_send set_MsQuic set_quic].
    rewrite Hl2, Hl, !balance_app, balance_create, (Ha r), Hp, Hcl, Hcp. destruct Hw as [w' ->].
    unfold serving_holds, fd_count, held_of, l2. destruct r; ledger.
  - intros _. split; [|done]. destruct Hi2 as [[] ? ? _ _]. split; [by split|by split].
Qed.
Definition run_main : M engine outcome :=
  main os table env new_handle inet_pton6 netenv uninit route_garbage addr_garbage link_garbage polls sys_answer.

Lemma main_safe e : sys_answer CreateSend = 0 → sys_answer CreateRecv = 0 →
  safe (DefaultWan.detect_default_wan netenv uninit route_garbage addr_garbage link_garbage polls
          (found sys_answer MallocWan)) (net e) (λ _ _, True) →
  safe run_main e (λ o e', start_outcome e o e' ∧
    (o = Serving → stoppable e' ∧ shutdown_fd e' = sys_answer EventFd)).
Proof.
  intros Hcs Hcr Hnet. unfold run_main, main.
  eapply safe_then; [apply create_session_safe|]. cbv beta. intros ok e1 H1. destruct ok; cbn [negb].
  2:{ unfold err. apply (safe_bind (mret None)). unfold safe at 1, mret at 1, M_ret at 1. unfold safe, mret, M_ret.
      split; [|done]. by left. }
  destruct H1 as (Hi & (Bw & Bt & Bp & Bl & Bc) & Hn & Hfd & Hnt & Hl).
  assert (Hfail : ∀ e2 l a c, idle e2 → (is_Some (tun e2) → c = true) → log e2 = log e1 ++ l → accounted a c e2 l →
    safe (err os table false) e2 (λ o e', start_outcome e o e' ∧
      (o = Serving → stoppable e' ∧ shutdown_fd e' = sys_answer EventFd))).
  { intros e2 l a c Hi2 Ht2 Hl2 Ha2. rewrite Hl, <- (assoc_L (++)) in Hl2.
    pose proof (failed_stage e e2 l a c Hi2 Ht2 Hl2 Ha2) as H.
    unfold err in *. apply safe_bind. unfold safe in *. unfold mbind, M_bind in H.
    destruct (vpn_engine_cleanup _ _ _ e2) as [x e3| |]; [|done..]. cbn in *. by split. }
  assert (Hno : ¬ is_Some (tun e1)) by (rewrite Bt; by intros [? [=]]).
  apply safe_or_err. eapply safe_mono; [apply attach_signal_safe|]. cbv beta. intros rc e2 (l & -> & Hl2).
  destruct (rc =? 0).
  2:{ apply (Hfail _ l false false); [by eapply (idle_same _ _ Hi)|done|done|].
      intros r. cbn [wan ip_pool client_list client_pool add_log]. rewrite Bw, Bp, Bl, Bc.
      destruct Hl2 as [-> | ->]; destruct r; ledger. }
  subst l. apply safe_or_err.
  eapply safe_mono; [apply server_detect_safe; cbn [net add_log]; by rewrite Hnt|]. cbv beta. intros rc2 e3 [n H3].
  destruct (rc2 =? 0).
  2:{ subst e3. apply (Hfail _ [Acquire RSigArgs; Acquire RSigThread] true false);
        [by eapply (idle_same _ _ Hi)|done|done|].
      intros r. cbn [wan ip_pool client_list client_pool add_log set_net]. rewrite Bw, Bp, Bl, Bc. destruct r; ledger. }
  destruct H3 as [w ->]. apply safe_gets. cbn [wan add_log set_wan check].
  apply (safe_bind (mret w)). unfold safe at 1, mret at 1, M_ret at 1. set (e3 := add_log _ _).
  set (l3 := [Acquire RSigArgs; Acquire RSigThread; Acquire RWan]).
  assert (Hi3 : idle e3) by (by eapply (idle_same _ _ Hi)).
  assert (Hl3 : log e3 = log e1 ++ l3) by (cbn; by rewrite <- (assoc_L (++))).
  apply safe_or_err. eapply safe_mono; [apply setup_tun_safe|]. cbv beta. intros rc3 e4 H4. destruct (rc3 =? 0).
  2:{ destruct H4 as [-> |[d ->]].
      - apply (Hfail _ l3 true false); [done..|]. intros r.
        cbn [wan ip_pool client_list client_pool e3 add_log set_wan set_net]. rewrite Bp, Bl, Bc. destruct r; ledger.
      - apply (Hfail _ (l3 ++ [Acquire RTun]) true true);
          [by eapply (idle_same _ _ Hi3)|done|cbn [log add_log set_driver]; by rewrite Hl3, <- (assoc_L (++))|].
        intros r. cbn [wan ip_pool client_list client_pool e3 add_log set_wan set_net set_driver].
        rewrite Bp, Bl, Bc. destruct r; ledger. }
  destruct H4 as (t & d & Hst & ->). set (e4 := set_tun_state _ _).
  eapply safe_mono; [apply (serve_safe e e4 t (l3 ++ [Acquire RTun])); [done..|]|].
  - split; try done; [by eapply (idle_same _ _ Hi3)| |..]; try (cbn; congruence).
    + unfold e4. cbn [log add_log set_tun_state set_tun set_driver]. rewrite Hl3, Hl. by repeat rewrite <- (assoc_L (++)).
    + intros r. cbn [wan ip_pool client_list client_pool e4 e3 add_log set_wan set_net set_driver set_tun_state set_tun].
      rewrite Bp, Bl, Bc. destruct r; ledger.
  - cbv beta. intros o e' [Ho Hs]. split; [exact Ho|]. intros Eo. destruct (Hs Eo) as [? E]. split; [done|].
    rewrite E. exact Hfd.
Qed.

End engine.

(** ** A server whose calls all succeed *)
Definition grant_run : Utils.proc_run := Utils.ProcRun 0 (inr (Utils.Exited 0)).
Definition sample_answer (c : sys_call) : Z :=
  match c with SigMask | CreateSignal | CreateSend | CreateRecv => 0 | EventFd => 9 | _ => 4096 end.
Definition sample_engine : engine :=
  Engine (ServerSetup.World None []) None None 0 [] 0 None 0 None None None None None None false false false false
    (NetIface.Os 0 []) [].
Definition sample_grant (c : ServerSetup.api_call) (_ : nat) : Z :=
  match c with ServerSetup.AllocContext => 4096 | _ => 0 end.
Definition sample_main : M engine outcome :=
  run_main os_posix (λ _ _, 3) (λ _, "tun0"%string) (λ _ _, grant_run)
    (λ _ _, TunDriver.NftRun 0 0 0 0 "" (inr (Utils.Exited 0))) (λ _, true) true
    sample_grant S (λ _, false) DefaultWan.Sample.kernel DefaultWan.Sample.uninit DefaultWan.Sample.route_garbage
    DefaultWan.Sample.addr_garbage DefaultWan.Sample.link_garbage 8 sample_answer.

Lemma sample_serves : match sample_main sample_engine with Ret o _ => Some o | _ => None end = Some Serving.
Proof. lazy. reflexivity. Qed.

(** An outcome known beforehand. *)
Lemma safe_outcome {S A} (m : M S A) s (Q : A → S → Prop) a :
  safe m s Q → match m s with Ret x _ => Some x | _ => None end = Some a → ∃ s', m s = Ret a s' ∧ Q a s'.
Proof. unfold safe. destruct (m s); intros H E; simplify_eq. eauto. Qed.


