(* ===== verification/ServerProgram.v ===== *)
(** * The server as a program

    main and vpn_engine_start (ServerStart.v), then the connections of its
    clients (ServerSessions.v) on the registry the start left. *)
From stdpp Require Import prelude gmap strings.
From Stdlib Require Import ZArith Lia.
From S2P Require Import Prelude ObjPool ServerQuic Sessions ServerSessions ServerEngine ServerStart.
From S2P Require IpPool Tun ClientList Pool.

#[local] Existing Instance Pool.pool_objpool.

(** The server the callbacks find, once the engine serves. *)
Definition served (e : engine) : option (world Pool.pool_t) :=
  s ← registry e; Some (world_of s (ServerEngine.tun e) (bool_decide (is_Some (ServerEngine.MsQuic e)))).

Lemma serving_world new_handle e garbage :
  serving new_handle e →
  ∃ w, served e = Some w ∧ world_inv garbage w ∧ sessions garbage w = ∅ ∧
    ∀ a, IpPool.assignable (ClientList.ip_pool (reg (srv w))) a ↔
         2886860800 < a < 2886926335 ∧ a ≠ 2886860801.
Proof.
  intros Hs. destruct (ServerStart.sv_registry _ _ Hs garbage) as (s & E & Hwf & (Hp & Hl & _ & Ha) & _ & _ & Hh & Hc).
  destruct (ServerStart.sv_quic _ _ Hs) as [n Hq].
  exists (world_of s (ServerEngine.tun e) true). unfold served. rewrite E, Hq. split; [done|].
  split; [by apply world_of_inv; [apply (ClientList.reg_list _ _ Hwf)|..]|]. split; [reflexivity|exact Ha].
Qed.

(** The addresses of the clients: 172.18.0.2 to 172.18.255.254. *)
Definition client_address (a : Z) : Prop := 2886860800 < a < 2886926335 ∧ a ≠ 2886860801.

Section program.
Context (os : os_t).
Context (kern : Tun.sys → nat → Z) (kname : nat → string) (proc : Tun.sys → nat → Utils.proc_run).
Context (nft : Tun.sys → nat → TunDriver.nft_run) (access : string → bool) (mem : bool).
Context (env : ServerSetup.api_call → nat → Z) (new_handle : nat → nat) (inet_pton6 : string → bool).
Context (netenv : NetIface.history → NetIface.sysreq → NetIface.answer)
  (uninit : NetIface.history → list Z)
  (route_garbage : NetIface.netlink_route_info_t) (addr_garbage : NetIface.netlink_addr_info_t)
  (link_garbage : NetIface.netlink_link_info_t) (polls : nat).
Context (sys_answer : sys_call → Z).
Context (Hos : posix_ok os).
Context (garbage : nat → ClientList.client_t) (answers : api_call → nat → Z).
Abbreviation run_main := (ServerStart.run_main os kern kname proc nft access mem env new_handle
  inet_pton6 netenv uninit route_garbage addr_garbage link_garbage polls sys_answer).

End program.

(** A kernel that grants everything; a connection that arrives when there is
    no memory for its client. *)
Definition one_arrival : list event := [EvListener (λ _, None) (NEW_CONNECTION 11)].

