(* ===== verification/Controls.v ===== *)
(** * view_controls.c: what the two fields of the window become

    A text is the list of its bytes without the final NUL; [None] is NULL. *)
From stdpp Require Import prelude list.
From Stdlib Require Import ZArith Lia.
From S2P Require Import Prelude PktCtrl.

Definition MAX_HOST_NAME : nat := 255.
Definition ULONG_MAX : Z := 2 ^ 64 - 1.

(** vpn_config_t: the buffer of the name with its NUL, and the port. *)
Record vpn_config_t := VpnConfig { server_hostname : list Z; server_port : Z }.

(** ** strtoul(text, NULL, 10), as the C library does it *)
Definition isspace (c : Z) : bool := (c =? 32) || ((9 <=? c) && (c <=? 13)).
Definition isdigit (c : Z) : bool := (48 <=? c) && (c <=? 57).

Fixpoint skip_spaces (s : list Z) : list Z :=
  match s with
  | c :: s' => if isspace c then skip_spaces s' else s
  | [] => []
  end.
Fixpoint number (acc : Z) (s : list Z) : Z :=
  match s with
  | c :: s => if isdigit c then number (10 * acc + (c - 48)) s else acc
  | [] => acc
  end.
(** A value above ULONG_MAX is ULONG_MAX; the sign negates what fits. *)
Definition magnitude (neg : bool) (s : list Z) : Z :=
  let n := number 0 s in
  if ULONG_MAX <? n then ULONG_MAX else if neg then u64 (- n) else n.
Definition strtoul (s : list Z) : Z :=
  match skip_spaces s with
  | 45 :: s => magnitude true s
  | 43 :: s => magnitude false s
  | s => magnitude false s
  end.

(** g_strlcpy into a buffer of [n] bytes that was zeroed. *)
Definition g_strlcpy (n : nat) (s : list Z) : list Z := store_str 0 n s (zeroed n).

Definition view_controls_read_config (null : bool) (port_text addr_text : option (list Z))
    : option vpn_config_t :=
  if null then None
  else
    Some (VpnConfig
      (match addr_text with None => zeroed MAX_HOST_NAME | Some t => g_strlcpy MAX_HOST_NAME t end)
      (match port_text with None => 0 | Some t => u16 (strtoul t) end)).

(** ** What comes out *)

(** The number a list of digits stands for. *)
Definition decimal (ds : list Z) : Z := foldl (λ n c, 10 * n + (c - 48)) 0 ds.
Definition digits (ds : list Z) : Prop := Forall (λ c, isdigit c = true) ds.
Definition no_digit_first (s : list Z) : Prop := match s with c :: _ => isdigit c = false | [] => True end.

Lemma number_digits ds rest acc : digits ds → no_digit_first rest →
  number acc (ds ++ rest) = foldl (λ n c, 10 * n + (c - 48)) acc ds.
Proof.
  intros Hd Hr. revert acc. induction Hd as [|c ds Hc _ IH]; intros acc; cbn.
  - destruct rest as [|c rest]; [done|]. cbn in Hr |- *. by rewrite Hr.
  - by rewrite Hc.
Qed.
Lemma skip_spaces_app sp s : Forall (λ c, isspace c = true) sp → skip_spaces (sp ++ s) = skip_spaces s.
Proof. induction 1 as [|c sp Hc _ IH]; cbn; [done|]. by rewrite Hc. Qed.

Lemma decimal_nonneg ds : digits ds → 0 ≤ decimal ds.
Proof.
  intros H. unfold decimal. cut (∀ acc, 0 ≤ acc → 0 ≤ foldl (λ n c, 10 * n + (c - 48)) acc ds); [auto with lia|].
  induction H as [|c ds Hc _ IH]; intros acc Ha; cbn; [done|]. apply IH. unfold isdigit in Hc. lia.
Qed.

Lemma strtoul_digits sp ds rest : Forall (λ c, isspace c = true) sp → digits ds → ds ≠ [] → no_digit_first rest →
  strtoul (sp ++ ds ++ rest) = Z.min (decimal ds) ULONG_MAX.
Proof.
  intros Hsp Hd Hne Hr. unfold strtoul. rewrite skip_spaces_app by done.
  assert (Hm : magnitude false (ds ++ rest) = Z.min (decimal ds) ULONG_MAX).
  { unfold magnitude. rewrite number_digits by done. fold (decimal ds). destruct (Z.ltb_spec ULONG_MAX (decimal ds)); lia. }
  destruct ds as [|c ds]; [done|]. apply Forall_cons in Hd as [Hc _]. unfold isdigit in Hc. cbn [app] in *.
  cbn [skip_spaces]. assert (isspace c = false) as -> by (unfold isspace; lia).
  destruct (decide (c = 45)) as [->|]; [done|]. destruct (decide (c = 43)) as [->|]; [done|].
  rewrite <- Hm. destruct c as [|c|c]; try done. do 6 (destruct c as [c|c|]; try done).
Qed.

(** The decimal text of a number of at most [k] digits. *)
Fixpoint text (k : nat) (n : Z) : list Z :=
  match k with
  | O => []
  | S k => (if n <? 10 then [] else text k (n / 10)) ++ [48 + n mod 10]
  end.
Definition text_of (n : Z) : list Z := text 20 n.

Lemma decimal_app ds c : decimal (ds ++ [c]) = 10 * decimal ds + (c - 48).
Proof. unfold decimal. by rewrite foldl_app. Qed.
Lemma text_spec k n : (0 < k)%nat → 0 ≤ n < 10 ^ Z.of_nat k → digits (text k n) ∧ text k n ≠ [] ∧ decimal (text k n) = n.
Proof.
  intros Hk. revert n. induction k as [|k IH]; intros n Hn; [lia|]. cbn [text].
  pose proof (Z.mod_pos_bound n 10 ltac:(lia)) as Hm. pose proof (Z.div_mod n 10 ltac:(lia)) as Hd.
  assert (Hc : isdigit (48 + n mod 10) = true) by (unfold isdigit; lia).
  destruct (Z.ltb_spec n 10).
  - split; [by repeat constructor|]. split; [done|]. unfold decimal. cbn. rewrite Z.mod_small by lia. lia.
  - rewrite Nat2Z.inj_succ, Z.pow_succ_r in Hn by lia.
    assert (Hq : 0 ≤ n / 10 < 10 ^ Z.of_nat k).
    { split; [apply Z.div_pos; lia|]. apply Z.div_lt_upper_bound; lia. }
    assert (0 < k)%nat by (destruct k; [cbn in Hq; lia|lia]).
    destruct (IH ltac:(done) (n / 10) Hq) as (H1 & H2 & H3).
    split; [apply Forall_app; split; [done|by repeat constructor]|]. split; [by destruct (text k (n / 10))|].
    rewrite decimal_app, H3. lia.
Qed.
Lemma text_of_port p : in_u 16 p → digits (text_of p) ∧ text_of p ≠ [] ∧ decimal (text_of p) = p.
Proof. intros Hp. apply text_spec; [lia|]. unfold in_u in Hp. lia. Qed.

(** C40. What the user types is what the engine gets, within the fields: a port
    below 2^16 and a name of at most 254 bytes come through unchanged; any
    number, with spaces before it and anything but a digit behind it, is cut
    to its low 16 bits (that of ULONG_MAX when it is above), so that 65979 is
    port 443, and a longer name is cut to its first 254 bytes. *)
Theorem read_config_spec sp ds rest host p :
  Forall (λ c, isspace c = true) sp → digits ds → ds ≠ [] → no_digit_first rest → c_string host → in_u 16 p →
  (∃ cfg, view_controls_read_config false (Some (sp ++ ds ++ rest)) (Some host) = Some cfg ∧
     server_port cfg = Z.min (decimal ds) ULONG_MAX mod 2 ^ 16 ∧
     cstr (server_hostname cfg) = take 254 host ∧ length (server_hostname cfg) = 255%nat) ∧
  (length host ≤ 254 → ∃ cfg, view_controls_read_config false (Some (text_of p)) (Some host) = Some cfg ∧
     server_port cfg = p ∧ cstr (server_hostname cfg) = host)%nat.
Proof.
  intros Hsp Hd Hne Hr Hh Hp.
  assert (Hname : cstr (g_strlcpy MAX_HOST_NAME host) = take 254 host ∧ length (g_strlcpy MAX_HOST_NAME host) = 255%nat).
  { assert (Hl : length (g_strlcpy MAX_HOST_NAME host) = 255%nat).
    { unfold g_strlcpy, store_str, zeroed. by rewrite length_wr, length_replicate. }
    split; [|done]. pose proof (cstr_store_str 0 MAX_HOST_NAME host (zeroed MAX_HOST_NAME)) as H.
    unfold sub in H. rewrite drop_0, take_ge in H by (unfold g_strlcpy in Hl; rewrite Hl; done).
    apply H; [unfold MAX_HOST_NAME; lia|unfold zeroed; by rewrite length_replicate|done]. }
  unfold view_controls_read_config. split.
  - eexists. split; [reflexivity|]. cbn [server_port server_hostname]. split; [|exact Hname].
    by rewrite strtoul_digits.
  - intros Hlen. destruct (text_of_port p Hp) as (H1 & H2 & H3). eexists. split; [reflexivity|].
    cbn [server_port server_hostname]. split.
    + pose proof (strtoul_digits [] (text_of p) [] (Forall_nil_2 _) H1 H2 I) as E. cbn [app] in E.
      rewrite app_nil_r in E. rewrite E, H3. unfold in_u in Hp. rewrite Z.min_l by (unfold ULONG_MAX; lia).
      by apply u16_small.
    + rewrite (proj1 Hname). apply take_ge. lia.
Qed.

Lemma read_config_spec_witness :
  digits [54; 53; 57; 55; 57] ∧
  ∃ cfg, view_controls_read_config false (Some ([] ++ [54; 53; 57; 55; 57] ++ [])) (Some [118; 112; 110]) = Some cfg ∧
    server_port cfg = 443.
Proof.
  assert (Hd : digits [54; 53; 57; 55; 57]) by by repeat constructor.
  assert (Hh : c_string [118; 112; 110]) by by repeat constructor.
  split; [exact Hd|].
  destruct (read_config_spec [] [54; 53; 57; 55; 57] [] [118; 112; 110] 443 (Forall_nil_2 _) Hd ltac:(done) I Hh
    ltac:(done)) as [(cfg & E & Hp & _) _].
  exists cfg. split; [exact E|]. rewrite Hp. reflexivity.
Defined.
