(* ===== verification/VpnApp.v ===== *)
(** * vpn_app.c: the engine's thread and the user interface

    The UI thread runs the button's handler, vpn_app_start_engine and
    vpn_app_stop_engine; each start creates a thread of
    engine_thread_routine.  They share [app->state], [app->session] and
    [app->engine_thread].  A step is one access to that state or one blocking
    call; the threads interleave.  What vpn_engine_start and pthread_create
    answer is the label of the step. *)
From stdpp Require Import prelude.
From Stdlib Require Import ZArith Lia.
From S2P Require Import Prelude.

Inductive app_state_t := APP_STOPPED | APP_STARTING | APP_RUNNING | APP_STOPPING.
#[export] Instance app_state_eq_dec : EqDecision app_state_t.
Proof. solve_decision. Defined.

(** Where a thread of engine_thread_routine is. *)
Inductive engine_pc :=
| EStart           (* before and in vpn_engine_start *)
| EFailed          (* it returned NULL: before state_sync_set(APP_STOPPED) *)
| EStarted         (* app->session is set: before state_sync_set(APP_RUNNING) *)
| ELoop            (* before the check of the loop *)
| EClean           (* the loop ended: before vpn_engine_cleanup *)
| EStop            (* app->session is NULL again: before state_sync_set(APP_STOPPED) *)
| EDone.           (* about to return *)
#[export] Instance engine_pc_eq_dec : EqDecision engine_pc.
Proof. solve_decision. Defined.

(** Where the UI thread is. *)
Inductive ui_pc :=
| Idle             (* in the main loop *)
| Clicked          (* on_start_stop_clicked, before its second check *)
| Start0           (* vpn_app_start_engine, before its check *)
| Start1           (* before state_sync_set(APP_STARTING) *)
| Start2           (* before pthread_create *)
| Stop0            (* vpn_app_stop_engine, before the check of APP_STOPPED *)
| Stop1            (* before the check of APP_STARTING *)
| Stop2            (* in state_sync_wait(APP_RUNNING) *)
| Stop3            (* before state_sync_set(APP_STOPPING) *)
| Stop4.           (* in pthread_join *)

Record vpn_app_t := App {
  state : app_state_t;
  session : bool;
  engine_thread : option nat;
  threads : list engine_pc;
  ui : ui_pc
}.

Definition vpn_app_create : vpn_app_t := App APP_STOPPED false None [] Idle.

Inductive label :=
| Click                        (* the button *)
| Quit                         (* on_shutdown, vpn_app_destroy: vpn_app_stop_engine *)
| Ui                           (* the UI thread goes on *)
| CreateFails                  (* pthread_create fails; its result is ignored *)
| Engine (t : nat) (ok : bool).  (* a thread goes on; [ok]: vpn_engine_start returns a session *)

Definition set_ui (u : ui_pc) (a : vpn_app_t) : vpn_app_t :=
  App (state a) (session a) (engine_thread a) (threads a) u.
Definition set_state (s : app_state_t) (a : vpn_app_t) : vpn_app_t :=
  App s (session a) (engine_thread a) (threads a) (ui a).
Definition set_pc (t : nat) (p : engine_pc) (a : vpn_app_t) : vpn_app_t :=
  App (state a) (session a) (engine_thread a) (<[t := p]> (threads a)) (ui a).
Definition set_session (b : bool) (a : vpn_app_t) : vpn_app_t :=
  App (state a) b (engine_thread a) (threads a) (ui a).
Definition create_thread (a : vpn_app_t) : vpn_app_t :=
  App (state a) (session a) (Some (length (threads a))) (threads a ++ [EStart]) (ui a).
Definition at_state (s : app_state_t) (a : vpn_app_t) : bool := bool_decide (state a = s).

(** on_start_stop_clicked, vpn_app_start_engine and vpn_app_stop_engine; [None]:
    the thread is blocked. *)
Definition ui_step (a : vpn_app_t) : option vpn_app_t :=
  match ui a with
  | Idle => None
  | Clicked => Some (set_ui (if at_state APP_STOPPED a then Start0 else Idle) a)
  | Start0 => Some (set_ui (if at_state APP_STOPPED a then Start1 else Idle) a)
  | Start1 => Some (set_ui Start2 (set_state APP_STARTING a))
  | Start2 => Some (set_ui Idle (create_thread a))
  | Stop0 => Some (set_ui (if at_state APP_STOPPED a then Idle else Stop1) a)
  | Stop1 => Some (set_ui (if at_state APP_STARTING a then Stop2 else Stop3) a)
  | Stop2 => if at_state APP_RUNNING a then Some (set_ui Stop3 a) else None
  | Stop3 => Some (set_ui Stop4 (set_state APP_STOPPING a))
  | Stop4 =>
      match engine_thread a ≫= λ t, threads a !! t with
      | Some EDone | None => Some (set_ui Idle a)
      | Some _ => None
      end
  end.

(** engine_thread_routine. *)
Definition engine_step (t : nat) (ok : bool) (a : vpn_app_t) : option vpn_app_t :=
  p ← threads a !! t;
  match p with
  | EStart => Some (set_pc t (if ok then EStarted else EFailed) (set_session ok a))
  | EFailed => Some (set_pc t EDone (set_state APP_STOPPED a))
  | EStarted => Some (set_pc t ELoop (set_state APP_RUNNING a))
  | ELoop => Some (set_pc t (if at_state APP_RUNNING a then ELoop else EClean) a)
  | EClean => Some (set_pc t EStop (set_session false a))
  | EStop => Some (set_pc t EDone (set_state APP_STOPPED a))
  | EDone => None
  end.

Definition step (l : label) (a : vpn_app_t) : option vpn_app_t :=
  match l with
  | Click =>
      match ui a with
      | Idle => Some (set_ui (if at_state APP_RUNNING a then Stop0 else Clicked) a)
      | _ => None
      end
  | Quit => match ui a with Idle => Some (set_ui Stop0 a) | _ => None end
  | Ui => ui_step a
  | CreateFails => match ui a with Start2 => Some (set_ui Idle a) | _ => None end
  | Engine t ok => engine_step t ok a
  end.

Fixpoint run (ls : list label) (a : vpn_app_t) : option vpn_app_t :=
  match ls with
  | [] => Some a
  | l :: ls => a ← step l a; run ls a
  end.

Inductive reachable : vpn_app_t → Prop :=
| reach_create : reachable vpn_app_create
| reach_step l a a' : reachable a → step l a = Some a' → reachable a'.

Lemma run_reachable ls a a' : reachable a → run ls a = Some a' → reachable a'.
Proof.
  revert a. induction ls as [|l ls IH]; intros a Ha; cbn [run]; [by intros [= <-]|].
  destruct (step l a) as [a1|] eqn:E; [|done]. apply IH. by eapply reach_step.
Qed.

(** ** The invariant *)

Definition holds_session (p : engine_pc) : bool :=
  match p with EStarted | ELoop | EClean => true | _ => false end.

(** What the place of the working thread says of the state. *)
Definition place_ok (a : vpn_app_t) (p : engine_pc) : Prop :=
  match p with
  | EStart | EFailed | EStarted => state a = APP_STARTING ∧ ui a ≠ Stop3 ∧ ui a ≠ Stop4
  | ELoop => state a = APP_RUNNING ∧ ui a ≠ Stop4 ∨ state a = APP_STOPPING ∧ ui a = Stop4
  | EClean | EStop => state a = APP_STOPPING ∧ ui a = Stop4
  | EDone => False
  end.

(** All threads have ended. *)
Definition quiet (a : vpn_app_t) : Prop :=
  Forall (eq EDone) (threads a) ∧ session a = false ∧ state a ≠ APP_RUNNING ∧
  (ui a = Start1 → state a = APP_STOPPED) ∧ (ui a = Start2 → state a = APP_STARTING).

(** Thread [t] is the only one that has not; it is the one the UI would join. *)
Definition working (a : vpn_app_t) (t : nat) (p : engine_pc) : Prop :=
  engine_thread a = Some t ∧ threads a !! t = Some p ∧ place_ok a p ∧
  (∀ t' p', threads a !! t' = Some p' → t' ≠ t → p' = EDone) ∧
  session a = holds_session p ∧ ui a ≠ Start1 ∧ ui a ≠ Start2.

Definition app_inv (a : vpn_app_t) : Prop := quiet a ∨ ∃ t p, working a t p.

Lemma create_working a : quiet a → ui a = Start2 → working (set_ui Idle (create_thread a)) (length (threads a)) EStart.
Proof.
  intros (Hall & Hs & _ & _ & H2) Hu. split; [done|]. cbn. split; [by rewrite lookup_app_r, Nat.sub_diag|].
  split; [by rewrite (H2 Hu)|]. split; [|by rewrite Hs].
  intros t' p' Hl Hne. apply lookup_app_Some in Hl as [Hl|[Hle Hl]].
  - rewrite Forall_lookup in Hall. symmetry. by eapply Hall.
  - destruct (t' - length (threads a))%nat eqn:E; [lia|done].
Qed.

(** The working thread moves to [p']. *)
Lemma working_moves a t p p' s b : working a t p →
  place_ok (App s b (engine_thread a) (threads a) (ui a)) p' → b = holds_session p' →
  working (App s b (engine_thread a) (<[t := p']> (threads a)) (ui a)) t p'.
Proof.
  intros (He & Ht & _ & Ho & _ & H1 & H2) Hp Hb. split; [done|].
  split; [apply list_lookup_insert_eq; by eapply lookup_lt_Some|]. split; [by destruct p'|].
  split; [|done]. intros t' q Hq Hne. cbn in Hq. rewrite list_lookup_insert_ne in Hq by done. by eapply Ho.
Qed.

(** The working thread ends. *)
Lemma working_ends a t p u : working a t p → state a = APP_STARTING ∨ ui a = Stop4 →
  u = ui a → quiet (App APP_STOPPED false (engine_thread a) (<[t := EDone]> (threads a)) u).
Proof.
  intros (He & Ht & _ & Ho & _ & H1 & H2) _ ->. split; [|by repeat split].
  apply Forall_lookup. cbn. intros i q Hq. destruct (decide (i = t)) as [->|Hne].
  - rewrite list_lookup_insert_eq in Hq by (by eapply lookup_lt_Some). by injection Hq.
  - rewrite list_lookup_insert_ne in Hq by done. symmetry. by eapply Ho.
Qed.

Lemma at_state_spec s a : reflect (state a = s) (at_state s a).
Proof. unfold at_state. destruct (bool_decide_reflect (state a = s)); by constructor. Qed.

Lemma ui_step_inv a a' : app_inv a → ui_step a = Some a' → app_inv a'.
Proof.
  unfold ui_step. intros [Hq|(t & p & Hw)] H.
  - pose proof Hq as (Hall & Hs & Hr & H1 & H2).
    destruct (ui a) eqn:Eu; try done; try (injection H as <-).
    + left. destruct (at_state_spec APP_STOPPED a); by repeat split.
    + left. destruct (at_state_spec APP_STOPPED a); by repeat split.
    + left. by repeat split.
    + right. eexists _, _. by apply create_working.
    + left. destruct (at_state_spec APP_STOPPED a); by repeat split.
    + left. destruct (at_state_spec APP_STARTING a); by repeat split.
    + by destruct (at_state_spec APP_RUNNING a).
    + left. by repeat split.
    + left. destruct (engine_thread a ≫= λ t, threads a !! t) as [[]|]; try done; injection H as <-;
        by repeat split.
  - right. exists t, p. destruct Hw as (He & Ht & Hp & Ho & Hs & H1 & H2).
    assert (Hst : state a ≠ APP_STOPPED) by (destruct p; cbn in Hp; intuition congruence).
    destruct (ui a) eqn:Eu; try done; try (injection H as <-).
    + destruct (at_state_spec APP_STOPPED a); [done|]. repeat split; try done. destruct p; cbn in *; intuition congruence.
    + destruct (at_state_spec APP_STOPPED a); [done|]. repeat split; try done. destruct p; cbn in *; intuition congruence.
    + destruct (at_state_spec APP_STOPPED a); [done|]. repeat split; try done. destruct p; cbn in *; intuition congruence.
    + destruct (at_state_spec APP_STARTING a); repeat split; try done; destruct p; cbn in *; intuition congruence.
    + destruct (at_state_spec APP_RUNNING a); [|done]. injection H as <-. repeat split; try done.
      destruct p; cbn in *; intuition congruence.
    + repeat split; try done. destruct p; cbn in *; intuition congruence.
    + rewrite He in H. cbn in H. rewrite Ht in H. by destruct p.
Qed.

Lemma engine_step_inv t ok a a' : app_inv a → engine_step t ok a = Some a' → app_inv a'.
Proof.
  unfold engine_step. intros Hinv H. destruct (threads a !! t) as [p|] eqn:Et; [|done]. cbn in H.
  destruct Hinv as [(Hall & _)|(t1 & p1 & Hw)].
  { rewrite Forall_lookup in Hall. rewrite <- (Hall _ _ Et) in H. done. }
  pose proof Hw as (He & Ht1 & Hp & Ho & Hs & H1 & H2).
  assert (t1 = t ∨ p = EDone) as [->| ->] by (destruct (decide (t1 = t)); [by left|right; eauto]); [|done].
  rewrite Et in Ht1. injection Ht1 as <-. destruct p; try done; injection H as <-.
  - right. exists t, (if ok then EStarted else EFailed). apply (working_moves a t EStart); [done| |by destruct ok].
    by destruct ok.
  - left. unfold set_pc, set_state. cbn. rewrite Hs. apply (working_ends a t EFailed); [done| |done]. left. by destruct Hp.
  - right. exists t, ELoop. apply (working_moves a t EStarted); [done| |done]. cbn in *. left. intuition.
  - right. exists t, (if at_state APP_RUNNING a then ELoop else EClean).
    apply (working_moves a t ELoop); [done| |by destruct (at_state APP_RUNNING a)].
    destruct (at_state_spec APP_RUNNING a); cbn in *; intuition congruence.
  - right. exists t, EStop. by apply (working_moves a t EClean).
  - left. unfold set_pc, set_state. cbn. rewrite Hs. apply (working_ends a t EStop); [done| |done]. right. by destruct Hp.
Qed.

Lemma step_inv l a a' : app_inv a → step l a = Some a' → app_inv a'.
Proof.
  intros Hinv. destruct l as [| | | |t ok]; cbn [step].
  - destruct (ui a) eqn:Eu; try done. intros [= <-]. destruct Hinv as [(Hall & Hs & Hr & H1 & H2)|(t & p & Hw)].
    + left. destruct (at_state_spec APP_RUNNING a); by repeat split.
    + right. exists t, p. destruct Hw as (He & Ht & Hp & Ho & Hs & H1 & H2).
      destruct (at_state_spec APP_RUNNING a); repeat split; try done; destruct p; cbn in *; intuition congruence.
  - destruct (ui a) eqn:Eu; try done. intros [= <-]. destruct Hinv as [(Hall & Hs & Hr & H1 & H2)|(t & p & Hw)].
    + left. by repeat split.
    + right. exists t, p. destruct Hw as (He & Ht & Hp & Ho & Hs & H1 & H2).
      repeat split; try done; destruct p; cbn in *; intuition congruence.
  - by apply ui_step_inv.
  - destruct (ui a) eqn:Eu; try done. intros [= <-]. destruct Hinv as [(Hall & Hs & Hr & H1 & H2)|(t & p & Hw)].
    + left. by repeat split.
    + by destruct Hw as (_ & _ & _ & _ & _ & _ & []).
  - by apply engine_step_inv.
Qed.

Lemma app_reachable_inv a : reachable a → app_inv a.
Proof.
  induction 1 as [|l a a' _ IH H]; [|by eapply step_inv].
  left. by repeat split.
Qed.

(** ** What follows from the invariant *)

Lemma working_is a t p : app_inv a → threads a !! t = Some p → p ≠ EDone → working a t p.
Proof.
  intros [(Hall & _)|(t' & p' & Hw)] Ht Hp.
  - rewrite Forall_lookup in Hall. by destruct Hp; rewrite (Hall _ _ Ht).
  - pose proof Hw as (_ & Ht' & _ & Ho & _). destruct (decide (t = t')) as [->|Hne].
    + rewrite Ht in Ht'. by injection Ht' as <-.
    + by destruct Hp; apply (Ho t p).
Qed.

Lemma quiet_done a t p : quiet a → threads a !! t = Some p → p = EDone.
Proof. intros (Hall & _) Ht. rewrite Forall_lookup in Hall. symmetry. by eapply Hall. Qed.

(** While the main thread joins, only the thread it joins can go on. *)
Lemma join_waits a t p l a' :
  ui a = Stop4 → working a t p → step l a = Some a' →
  ∃ ok, l = Engine t ok ∧ engine_step t ok a = Some a'.
Proof.
  intros Hu (He & Ht & Hpl & Ho & _) E.
  destruct l as [| | | |t' ok]; cbn in E; unfold ui_step in E; rewrite ?Hu in E; try done.
  - rewrite He in E. cbn in E. rewrite Ht in E. by destruct p.
  - destruct (decide (t' = t)) as [->|D]; [by exists ok|]. unfold engine_step in E.
    destruct (threads a !! t') eqn:Et; [|done]. cbn in E. by rewrite (Ho _ _ Et D) in E.
Qed.

(** Where it goes. *)
Lemma join_next a t p ok a' :
  ui a = Stop4 → working a t p → engine_step t ok a = Some a' →
  ui a' = Stop4 ∧
  ((p = ELoop ∧ working a' t EClean) ∨ (p = EClean ∧ working a' t EStop) ∨
   (p = EStop ∧ state a' = APP_STOPPED ∧ session a' = false ∧ Forall (eq EDone) (threads a') ∧
    engine_thread a' = Some t ∧ threads a' !! t = Some EDone)).
Proof.
  intros Hu Hw E. pose proof Hw as (He & Ht & Hpl & Ho & Hs & _). unfold engine_step in E.
  rewrite Ht in E. cbn in E. assert (Hlt : (t < length (threads a))%nat) by by eapply lookup_lt_Some.
  destruct p; cbn in Hpl; try done; try (exfalso; intuition congruence); apply (inj Some) in E; subst a'.
  - split; [done|]. left. split; [done|]. destruct (at_state_spec APP_RUNNING a) as [Hx|Hx].
    { exfalso. intuition congruence. }
    apply (working_moves a t ELoop); [done| |done]. cbn. intuition.
  - split; [done|]. right; left. split; [done|]. by apply (working_moves a t EClean).
  - split; [done|]. right; right. split; [done|]. split; [done|]. split; [exact Hs|].
    destruct (working_ends a t EStop (ui a) Hw) as (Hall & _); [by right|done|].
    split; [exact Hall|]. split; [exact He|]. cbn. by apply list_lookup_insert_eq.
Qed.

(** ** The properties *)

(** C24. One engine at a time: in every interleaving of the UI and the threads at
    most one thread has not ended, the session exists exactly while a thread is
    between its start and its cleanup, and APP_RUNNING means that the thread the
    UI would join is in its loop with a session. *)
Theorem app_one_engine a : reachable a →
  (∀ t1 t2 p1 p2, threads a !! t1 = Some p1 → threads a !! t2 = Some p2 →
     p1 ≠ EDone → p2 ≠ EDone → t1 = t2) ∧
  (session a = true ↔ ∃ t p, threads a !! t = Some p ∧ holds_session p = true) ∧
  (state a = APP_RUNNING → session a = true ∧
     ∃ t, engine_thread a = Some t ∧ threads a !! t = Some ELoop).
Proof.
  intros [(Hall & Hs & Hr & _)|(t & p & He & Ht & Hp & Ho & Hs & _)]%app_reachable_inv.
  - rewrite Forall_lookup in Hall. split; [|split; [split|done]].
    + intros t1 t2 p1 p2 E1 E2 N1. by destruct N1; rewrite (Hall _ _ E1).
    + by rewrite Hs.
    + intros (t & p & E & Hh). by rewrite <- (Hall _ _ E) in Hh.
  - split; [|split; [split|]].
    + intros t1 t2 p1 p2 E1 E2 N1 N2.
      destruct (decide (t1 = t)) as [->|D1]; [|by destruct N1; eapply Ho].
      destruct (decide (t2 = t)) as [->|D2]; [done|]. by destruct N2; eapply Ho.
    + intros E. exists t, p. split; [done|]. by rewrite <- Hs.
    + intros (t' & p' & E & Hh). destruct (decide (t' = t)) as [->|D].
      * rewrite Ht in E. injection E as <-. by rewrite Hs.
      * by rewrite (Ho _ _ E D) in Hh.
    + intros E. destruct p; cbn in Hp; try (exfalso; intuition congruence). split; [done|]. by exists t.
Qed.

(** On every way the threads can go on, [P] is reached. *)
Inductive eventually (P : vpn_app_t → Prop) (a : vpn_app_t) : Prop :=
| ev_now : P a → eventually P a
| ev_step : (∃ l a', step l a = Some a') → (∀ l a', step l a = Some a' → eventually P a') → eventually P a.

(** What is left to do for the thread being joined. *)
Definition rank (p : engine_pc) : nat :=
  match p with ELoop => 2 | EClean => 1 | _ => 0 end.

Definition stopped (a : vpn_app_t) : Prop :=
  ui a = Idle ∧ state a = APP_STOPPED ∧ session a = false ∧ Forall (eq EDone) (threads a).

(** The thread has ended: the join returns. *)
Lemma join_ends a t : ui a = Stop4 → state a = APP_STOPPED → session a = false →
  Forall (eq EDone) (threads a) → engine_thread a = Some t → threads a !! t = Some EDone →
  eventually stopped a.
Proof.
  intros Hu Hst Hs Hall He Ht. apply ev_step.
  - exists Ui, (set_ui Idle a). cbn. unfold ui_step. by rewrite Hu, He; cbn; rewrite Ht.
  - intros l a' E. rewrite Forall_lookup in Hall. destruct l as [| | | |t' ok]; cbn in E; unfold ui_step in E; rewrite ?Hu in E; try done.
    + rewrite He in E. cbn in E. rewrite Ht in E. injection E as <-. apply ev_now. split; [done|].
      split; [done|]. split; [done|]. cbn. by apply Forall_lookup.
    + unfold engine_step in E. destruct (threads a !! t') eqn:Et; [|done]. cbn in E.
      by rewrite <- (Hall _ _ Et) in E.
Qed.


(** After a start that fails. *)
Definition fail_before_wait : list label :=
  [Click; Ui; Ui; Ui; Ui; Quit; Ui; Ui; Engine 0 false; Engine 0 false].
Definition fail_between_checks : list label :=
  [Click; Ui; Ui; Ui; Ui; Quit; Ui; Engine 0 false; Engine 0 false; Ui; Ui; Ui].

(** Stuck in APP_STOPPING with no thread. *)
Definition dead (a : vpn_app_t) : Prop :=
  state a = APP_STOPPING ∧ threads a = [EDone] ∧ engine_thread a = Some 0%nat ∧
  ui a ∉ [Start1; Start2; Stop2].

Lemma dead_step l a a' : dead a → step l a = Some a' → dead a'.
Proof.
  intros (Hs & Ht & He & Hu) E. destruct a as [s se et th u]. cbn in *. subst s th et.
  destruct l as [| | | |[|t] ok]; cbn in E; try done;
    destruct u; cbn in E; try done; try (injection E as <-; repeat split; set_solver); set_solver.
Qed.

Lemma dead_forever ls a a' : dead a → run ls a = Some a' → state a' = APP_STOPPING ∧ threads a' = [EDone].
Proof.
  revert a. induction ls as [|l ls IH]; intros a Hd; cbn [run].
  - intros [= <-]. by destruct Hd as (? & ? & _).
  - destruct (step l a) as [a1|] eqn:E; [|done]. cbn. apply IH. by eapply dead_step.
Qed.

(** Stopping while a start fails is not handled: if the failure comes while
    vpn_app_stop_engine waits for APP_RUNNING, no thread can ever go on and the
    UI hangs for good; if it comes between its two checks, the application
    stays in APP_STOPPING with no thread, whatever the user does: no click ever
    starts an engine again. *)
Theorem app_failed_start :
  (∃ a, run fail_before_wait vpn_app_create = Some a ∧ ui a = Stop2 ∧ ∀ l, step l a = None) ∧
  (∃ a, run fail_between_checks vpn_app_create = Some a ∧ ui a = Idle ∧
     ∀ ls a', run ls a = Some a' → state a' = APP_STOPPING ∧ threads a' = [EDone]).
Proof.
  split.
  - eexists. split; [reflexivity|]. split; [done|]. by intros [| | | |[|t] ok].
  - eexists. split; [reflexivity|]. split; [done|]. intros ls a'. apply dead_forever.
    repeat split. set_solver.
Qed.

(** ** Witnesses *)

Definition sample_running : list label :=
  [Click; Ui; Ui; Ui; Ui; Engine 0 true; Engine 0 true; Engine 0 true].
Lemma sample_reachable ls a : run ls vpn_app_create = Some a → reachable a.
Proof. apply run_reachable. constructor. Qed.

Lemma app_one_engine_witness :
  ∃ a, run sample_running vpn_app_create = Some a ∧ state a = APP_RUNNING ∧ session a = true.
Proof.
  eexists. split; [reflexivity|]. split; [reflexivity|].
  apply (app_one_engine _ (sample_reachable sample_running _ eq_refl)). reflexivity.
Defined.

