(* ===== verification/GtkApp.v ===== *)
(** * gtk_app.c, window_main.c and vpn_client_gtk.c: the windows of the client

    The main thread runs the loop of GTK and, inside it, the handlers of the
    program; the engine's threads are those of VpnApp.v, and here they also
    change the label of the button.  GTK is known by what its documentation
    says: the handlers of a signal run in the order they were connected, the
    children of a window are destroyed after the handlers of its "destroy"
    signal, and g_application_run emits "shutdown" and returns once
    g_application_quit was called.  The appearance of the widgets and the log
    view are not modelled. *)
From stdpp Require Import prelude gmap sets.
From Stdlib Require Import ZArith Lia.
From S2P Require Import Prelude VpnApp.

(** What is connected to the "destroy" signal of the main window:
    on_window_destroy and on_main_window_destroy. *)
Inductive handler := Hwindow_destroy | Hmain_window_destroy.
#[export] Instance handler_eq_dec : EqDecision handler.
Proof. solve_decision. Defined.

(** Where the main thread is; inside a handler that stops the engine, [ui] of
    the application says how far vpn_app_stop_engine is. *)
Inductive gtk_pc :=
| MainLoop                              (* in g_application_run *)
| Emit (hs : list handler)              (* "destroy" is emitted: the handlers left *)
| InWindowDestroy (hs : list handler)   (* vpn_app_stop_engine of Hwindow_destroy *)
| Quitting                              (* before "shutdown" is emitted *)
| InShutdown                            (* vpn_app_stop_engine of on_shutdown *)
| Unref                                 (* before g_object_unref and the return to main *)
| InDestroy                             (* vpn_app_stop_engine of vpn_app_destroy *)
| Exited.

Record gtk_t := Gtk {
  app : vpn_app_t;
  main_window : bool;              (* app->main_window is not NULL *)
  widgets : bool;                  (* the window and its button exist *)
  handlers : list handler;         (* connected to "destroy" of the window *)
  quit : bool;                     (* g_application_quit was called *)
  stop_label : bool;               (* the button says Stop VPN Engine *)
  due : gset nat;                  (* the threads before their gtk_button_set_label *)
  dangling : bool;                 (* a label was set on a button that is gone *)
  joined : list nat;               (* the calls of pthread_join *)
  pc : gtk_pc
}.

Inductive gtk_label :=
| Activate                         (* "activate", also of a second instance *)
| Close                            (* the window is destroyed *)
| Main                             (* the main thread goes on *)
| AppStep (l : label)              (* a click, or a step of vpn_app.c *)
| SetLabel (t : nat).              (* gtk_button_set_label of an engine thread *)

Definition with_app (a : vpn_app_t) (g : gtk_t) : gtk_t :=
  Gtk a (main_window g) (widgets g) (handlers g) (quit g) (stop_label g) (due g) (dangling g)
    (joined g) (pc g).
Definition with_pc (p : gtk_pc) (g : gtk_t) : gtk_t :=
  Gtk (app g) (main_window g) (widgets g) (handlers g) (quit g) (stop_label g) (due g) (dangling g)
    (joined g) p.
Definition with_window (mw w : bool) (hs : list handler) (g : gtk_t) : gtk_t :=
  Gtk (app g) mw w hs (quit g) (stop_label g) (due g) (dangling g) (joined g) (pc g).
Definition with_quit (g : gtk_t) : gtk_t :=
  Gtk (app g) (main_window g) (widgets g) (handlers g) true (stop_label g) (due g) (dangling g)
    (joined g) (pc g).
Definition with_due (d : gset nat) (g : gtk_t) : gtk_t :=
  Gtk (app g) (main_window g) (widgets g) (handlers g) (quit g) (stop_label g) d (dangling g)
    (joined g) (pc g).
Definition with_joined (t : nat) (g : gtk_t) : gtk_t :=
  Gtk (app g) (main_window g) (widgets g) (handlers g) (quit g) (stop_label g) (due g) (dangling g)
    (joined g ++ [t]) (pc g).

(** window_main_create: the window, its first handler, and the button, which
    says Start VPN Engine. *)
Definition window_main_create (g : gtk_t) : gtk_t :=
  Gtk (app g) (main_window g) true (handlers g ++ [Hwindow_destroy]) (quit g) false (due g) (dangling g)
    (joined g) (pc g).

Definition on_activate (g : gtk_t) : gtk_t :=
  if main_window g then g                                   (* gtk_window_present *)
  else
    let g := window_main_create g in
    let g := with_window true (widgets g) (handlers g) g in
    with_window (main_window g) (widgets g) (handlers g ++ [Hmain_window_destroy]) g.

(** vpn_app_stop_engine is entered, and the main thread is at [p]. *)
Definition stop_engine (p : gtk_pc) (g : gtk_t) : option gtk_t :=
  a ← step Quit (app g); Some (with_pc p (with_app a g)).

(** on_window_destroy: before and after vpn_app_stop_engine. *)
Definition on_window_destroy (hs : list handler) (g : gtk_t) : option gtk_t :=
  stop_engine (InWindowDestroy hs) g.
Definition on_window_destroy_rest (hs : list handler) (g : gtk_t) : option gtk_t :=
  Some (with_pc (Emit hs) (with_window false (widgets g) (handlers g) g)).

(** on_main_window_destroy: g_application_quit. *)
Definition on_main_window_destroy (hs : list handler) (g : gtk_t) : option gtk_t :=
  Some (with_pc (Emit hs) (with_quit g)).

(** on_shutdown: before and after vpn_app_stop_engine. *)
Definition on_shutdown (g : gtk_t) : option gtk_t := stop_engine InShutdown g.
Definition on_shutdown_rest (g : gtk_t) : option gtk_t :=
  Some (with_pc Unref (with_window false (widgets g) (handlers g) g)).

(** gtk_app_create and the rest of main, outside vpn_app_stop_engine. *)
Definition main_step (g : gtk_t) : option gtk_t :=
  match ui (app g), pc g with
  | Idle, MainLoop => if quit g then Some (with_pc Quitting g) else None
  | Idle, Emit (Hwindow_destroy :: hs) => on_window_destroy hs g
  | Idle, InWindowDestroy hs => on_window_destroy_rest hs g
  | Idle, Emit (Hmain_window_destroy :: hs) => on_main_window_destroy hs g
  | Idle, Emit [] => Some (with_pc MainLoop (with_window (main_window g) false [] g))
  | Idle, Quitting => on_shutdown g
  | Idle, InShutdown => on_shutdown_rest g
  | Idle, Unref => stop_engine InDestroy g                    (* vpn_app_destroy *)
  | Idle, InDestroy => Some (with_pc Exited g)                (* free(app) *)
  | _, _ => None
  end.

(** An engine thread: its next statement is the call that is due, if any. *)
Definition engine_thread_step (t : nat) (ok : bool) (g : gtk_t) : option gtk_t :=
  if decide (t ∈ due g) then None
  else
    a ← step (Engine t ok) (app g);
    Some (match threads (app g) !! t with
          | Some EStarted | Some EStop => with_due ({[t]} ∪ due g) (with_app a g)
          | _ => with_app a g
          end).

(** The main thread inside vpn_app.c: pthread_join returns when the thread has. *)
Definition ui_thread_step (g : gtk_t) : option gtk_t :=
  match ui (app g), engine_thread (app g) with
  | Stop4, Some t =>
      if decide (t ∈ due g) then None
      else a ← step Ui (app g); Some (with_joined t (with_app a g))
  | _, _ => a ← step Ui (app g); Some (with_app a g)
  end.

Definition gtk_step (l : gtk_label) (g : gtk_t) : option gtk_t :=
  match l with
  | Activate =>
      match pc g, ui (app g), quit g with MainLoop, Idle, false => Some (on_activate g) | _, _, _ => None end
  | Close =>
      match pc g, ui (app g), quit g with
      | MainLoop, Idle, false => if widgets g then Some (with_pc (Emit (handlers g)) g) else None
      | _, _, _ => None
      end
  | Main => main_step g
  | AppStep Click =>
      match pc g, quit g with
      | MainLoop, false => if widgets g then a ← step Click (app g); Some (with_app a g) else None
      | _, _ => None
      end
  | AppStep Quit => None                                      (* only from the handlers *)
  | AppStep Ui => ui_thread_step g
  | AppStep CreateFails => a ← step CreateFails (app g); Some (with_app a g)
  | AppStep (Engine t ok) => engine_thread_step t ok g
  | SetLabel t =>
      if decide (t ∈ due g) then
        Some (Gtk (app g) (main_window g) (widgets g) (handlers g) (quit g)
          (bool_decide (threads (app g) !! t = Some ELoop))    (* after APP_RUNNING, or at the end *)
          (due g ∖ {[t]}) (dangling g || negb (widgets g)) (joined g) (pc g))
      else None
  end.

(** main and gtk_app_create; [daemon]: it succeeded. *)
Definition gtk_main (daemon : bool) : gtk_t :=
  Gtk vpn_app_create false false [] false false ∅ false []
    (if daemon then MainLoop else Unref).

Fixpoint gtk_run (ls : list gtk_label) (g : gtk_t) : option gtk_t :=
  match ls with
  | [] => Some g
  | l :: ls => g ← gtk_step l g; gtk_run ls g
  end.

Inductive gtk_reachable : gtk_t → Prop :=
| gtk_start b : gtk_reachable (gtk_main b)
| gtk_next l g g' : gtk_reachable g → gtk_step l g = Some g' → gtk_reachable g'.

(** ** The application underneath *)

Definition starting (u : ui_pc) : bool :=
  match u with Clicked | Start0 | Start1 | Start2 => true | _ => false end.

(** vpn_app_stop_engine neither creates threads nor starts anything. *)
Lemma stop_step a a' :
  starting (ui a) = false → ui_step a = Some a' →
  threads a' = threads a ∧ engine_thread a' = engine_thread a ∧ session a' = session a ∧
  starting (ui a') = false.
Proof.
  unfold ui_step. destruct (ui a); try done; intros _ E; simplify_eq/=; try done.
  - by destruct (at_state APP_STOPPED a).
  - by destruct (at_state APP_STARTING a).
  - destruct (at_state APP_RUNNING a); by simplify_eq/=.
  - destruct (engine_thread a ≫= _) as [[]|]; by simplify_eq/=.
Qed.

Lemma quiet_stop a a' : quiet a → starting (ui a) = false → ui_step a = Some a' → quiet a'.
Proof.
  intros Hq Hu E. destruct (ui_step_inv a a' (or_introl Hq) E) as [|(t & p & Hw)]; [done|].
  destruct (stop_step a a' Hu E) as (Et & _). pose proof Hw as (_ & Ht & Hp & _).
  rewrite Et in Ht. by rewrite (quiet_done a t p Hq Ht) in Hp.
Qed.

(** It returns only when no thread works. *)
Lemma stop_returns a a' :
  app_inv a → starting (ui a) = false → ui_step a = Some a' → ui a' = Idle → quiet a'.
Proof.
  intros [Hq|(t & p & Hw)] Hu E Hi; [by apply (quiet_stop a)|]. exfalso.
  pose proof Hw as (He & Ht & Hp & _). unfold ui_step in E.
  destruct (ui a) eqn:Eu; try done; simplify_eq/=.
  - destruct (at_state_spec APP_STOPPED a) as [Hs|]; [|done].
    destruct p; cbn in Hp; intuition congruence.
  - by destruct (at_state APP_STARTING a).
  - destruct (at_state APP_RUNNING a); by simplify_eq/=.
  - rewrite He in E. cbn in E. rewrite Ht in E. by destruct p.
Qed.

Lemma engine_step_quiet t ok a : quiet a → engine_step t ok a = None.
Proof.
  intros Hq. unfold engine_step. destruct (threads a !! t) as [p|] eqn:Et; [|done].
  by rewrite (quiet_done a t p Hq Et).
Qed.

(** A step of an engine thread moves that thread alone. *)
Lemma engine_step_moves t ok a a' :
  engine_step t ok a = Some a' →
  ∃ p p', threads a !! t = Some p ∧ p ≠ EDone ∧ threads a' = <[t := p']> (threads a) ∧
    ui a' = ui a ∧ engine_thread a' = engine_thread a ∧
    match p with
    | EStart => p' = EStarted ∨ p' = EFailed
    | EFailed => p' = EDone
    | EStarted => p' = ELoop
    | ELoop => p' = ELoop ∨ p' = EClean
    | EClean => p' = EStop
    | EStop => p' = EDone
    | EDone => False
    end.
Proof.
  unfold engine_step. destruct (threads a !! t) as [p|]; [|done]. cbn [mbind option_bind].
  intros E. exists p. destruct p; simplify_eq/=; eexists; (split; [done|]); (split; [done|]);
    (split; [done|]); repeat (split; [done|]); try done.
  - destruct ok; auto.
  - destruct (at_state APP_RUNNING a); auto.
Qed.

(** ** The invariant *)

(** The engine was stopped for good. *)
Definition over (g : gtk_t) : bool :=
  quit g || match pc g with
            | MainLoop => false
            | Emit hs => bool_decide (Hwindow_destroy ∉ hs)
            | _ => true
            end.

(** The thread says Stop VPN Engine. *)
Definition shows (g : gtk_t) (t : nat) (p : engine_pc) : Prop :=
  (p = ELoop ∧ t ∉ due g) ∨ p = EClean ∨ p = EStop ∨ (p = EDone ∧ t ∈ due g).

Record gtk_inv (g : gtk_t) : Prop := {
  gi_app : app_inv (app g);
  gi_due : ∀ t, t ∈ due g →
    threads (app g) !! t = Some ELoop ∨
    (threads (app g) !! t = Some EDone ∧ engine_thread (app g) = Some t ∧ ui (app g) = Stop4);
  gi_calm : widgets g = false ∨ pc g ≠ MainLoop ∨ quit g = true → starting (ui (app g)) = false;
  gi_over : over g = true → ui (app g) = Idle → quiet (app g);
  gi_gone : widgets g = false → quiet (app g) ∧ due g = ∅;
  gi_pc : match pc g with
          | Emit hs => hs = [Hwindow_destroy; Hmain_window_destroy] ∨ hs = [Hmain_window_destroy] ∨ hs = []
          | InWindowDestroy hs => hs = [Hmain_window_destroy]
          | MainLoop => quit g = false →
              main_window g = widgets g ∧
              handlers g = (if widgets g then [Hwindow_destroy; Hmain_window_destroy] else [])
          | _ => True
          end;
  gi_quit : pc g = Emit [] → quit g = true;
  gi_exit : pc g = Exited → ui (app g) = Idle;
  gi_dangling : dangling g = false;
  gi_label : stop_label g = true ↔ ∃ t p, threads (app g) !! t = Some p ∧ shows g t p
}.

(** The application is as before, or at the entry of vpn_app_stop_engine. *)
Lemma enter_stop a : app_inv a → ui a = Idle → app_inv (set_ui Stop0 a) ∧ (quiet a → quiet (set_ui Stop0 a)).
Proof.
  intros Ha Hu. assert (E : step Quit a = Some (set_ui Stop0 a)) by (unfold step; by rewrite Hu).
  split; [by apply (step_inv Quit a)|]. intros (H1 & H2 & H3 & _). by repeat split.
Qed.

Lemma gtk_inv_main g g' : gtk_inv g → main_step g = Some g' → gtk_inv g'.
Proof.
  intros [H1 H2 H3 H4 H5 H6 H7 HX H8 H9] E. unfold main_step, on_window_destroy, on_window_destroy_rest, on_main_window_destroy,
    on_shutdown, on_shutdown_rest, stop_engine, over in *.
  destruct (ui (app g)) eqn:Eu; try done.
  assert (Hdue : ∀ t, t ∈ due g → threads (app g) !! t = Some ELoop).
  { intros t [|(_ & _ & ?)]%H2; [done|congruence]. }
  destruct (enter_stop (app g) H1 Eu) as [Ha Hq]. cbn [step] in E. rewrite Eu in E.
  destruct (pc g) as [|[|[] hs]|hs| | | | |] eqn:Ep; cbn [mbind option_bind] in E; try done.
  all: try (destruct (quit g) eqn:Eq; [|done]).
  all: apply (inj Some) in E; subst g'.
  all: split; unfold over; cbn -[bool_decide]; rewrite ?Ep, ?Eu, ?Eq; auto; try done.
  all: try (intros Hw; destruct (H5 Hw) as [H5a H5b]; split; [by apply Hq || exact H5a|exact H5b]).
  - intros _ _. apply H4; [|done]. by rewrite H7.
  - intros _. assert (Hq0 : quiet (app g)) by (apply H4; [by rewrite H7|done]). split; [done|].
    apply set_eq. intros t. split; [|set_solver]. intros Ht.
    by pose proof (quiet_done _ t ELoop Hq0 (Hdue t Ht)).
  - by rewrite H7.
  - by destruct H6 as [[= ->]|[|]].
  - intros _ _. apply H4; [|done]. by destruct H6 as [|[[= ->]|]]; [|rewrite orb_true_r|].
  - destruct H6 as [|[[= ->]|]]; auto; done.
  - subst hs. intros _ _. apply H4; [by rewrite orb_true_r|done].
  - by subst hs.
Qed.

Lemma ui_threads a a' :
  ui_step a = Some a' → threads a' = threads a ∨ threads a' = threads a ++ [EStart].
Proof.
  unfold ui_step. destruct (ui a); try done; intros E; simplify_eq/=; auto.
  - destruct (at_state APP_RUNNING a); simplify_eq/=; auto.
  - destruct (engine_thread a ≫= _) as [[]|]; simplify_eq/=; auto.
Qed.

Lemma over_stopped g : over g = true → pc g ≠ MainLoop ∨ quit g = true.
Proof. unfold over. destruct (quit g); [by right|]. left. intros E. by rewrite E in *. Qed.

(** The main thread inside vpn_app.c. *)
Lemma gtk_inv_ui g g' : gtk_inv g → ui_thread_step g = Some g' → gtk_inv g'.
Proof.
  intros [H1 H2 H3 H4 H5 H6 H7 HX H8 H9] E.
  assert (Hstep : ∃ a j, ui_step (app g) = Some a ∧
    (∀ t, ui (app g) = Stop4 → engine_thread (app g) = Some t → t ∉ due g) ∧
    g' = Gtk a (main_window g) (widgets g) (handlers g) (quit g) (stop_label g) (due g) (dangling g) j (pc g)).
  { unfold ui_thread_step in E. cbn [step] in E.
    destruct (ui (app g)) eqn:Eu; destruct (engine_thread (app g)) as [t|];
      try (destruct (decide (t ∈ due g)); [done|]);
      destruct (ui_step (app g)) as [a|]; try done; cbn [mbind option_bind] in E;
      apply (inj Some) in E; subst g'; eexists _, _; (split; [reflexivity|]); (split; [|reflexivity]);
      intros; congruence. }
  destruct Hstep as (a & j & Ea & Hj & ->). clear E.
  assert (Ha : app_inv a) by (by apply (ui_step_inv (app g))).
  assert (Hthr : ∀ t p, threads a !! t = Some p →
    threads (app g) !! t = Some p ∨ (threads (app g) !! t = None ∧ p = EStart)).
  { intros t p Ht. destruct (ui_threads _ _ Ea) as [Et|Et]; rewrite Et in Ht; [by left|].
    apply lookup_app_Some in Ht as [|[Hl Hp]]; [by left|]. right.
    split; [by apply lookup_ge_None_2|]. by destruct (t - length (threads (app g)))%nat; simplify_eq/=. }
  assert (Hkeep : ∀ t p, threads (app g) !! t = Some p → threads a !! t = Some p).
  { intros t p Ht. destruct (ui_threads _ _ Ea) as [-> | ->]; [done|]. by apply lookup_app_l_Some. }
  split; cbn; auto.
  - intros t Ht. destruct (H2 t Ht) as [|(_ & He & Hu)]; [auto|]. by destruct (Hj t Hu He).
  - intros Hc. by destruct (stop_step _ _ (H3 Hc) Ea) as (_ & _ & _ & ->).
  - intros Ho. apply (stop_returns (app g)); [done|apply H3; right; by apply over_stopped|done].
  - intros Hw. split; [|by apply H5]. apply (quiet_stop (app g)); [by apply H5|apply H3; by left|done].
  - intros Hp. pose proof (HX Hp) as Hu. unfold ui_step in Ea. by rewrite Hu in Ea.
  - rewrite H9. split; intros (t & p & Ht & Hs); exists t, p; (split; [|exact Hs]); [by apply Hkeep|].
    destruct (Hthr t p Ht) as [|[_ ->]]; [done|]. by destruct Hs as [[]|[|[|[]]]].
Qed.

(** The engine's threads. *)
Lemma gtk_inv_engine t ok g g' : gtk_inv g → engine_thread_step t ok g = Some g' → gtk_inv g'.
Proof.
  intros [H1 H2 H3 H4 H5 H6 H7 HX H8 H9] E. unfold engine_thread_step in E. cbn [step] in E.
  destruct (decide (t ∈ due g)) as [|Hnd]; [done|].
  destruct (engine_step t ok (app g)) as [a|] eqn:Ea; [|done]. cbn [mbind option_bind] in E.
  assert (Ha : app_inv a) by (by apply (engine_step_inv t ok (app g))).
  destruct (engine_step_moves t ok _ _ Ea) as (p & p' & Ht & Hp & Hthr & Hui & He & Hpp).
  destruct (working_is _ _ _ H1 Ht Hp) as (Het & _ & Hplace & Hothers & _).
  assert (Hnq : ¬ quiet (app g)) by (intros Hq; by rewrite (engine_step_quiet t ok _ Hq) in Ea).
  set (d := match p with EStarted | EStop => {[t]} ∪ due g | _ => due g end).
  assert (Eg : g' = Gtk a (main_window g) (widgets g) (handlers g) (quit g) (stop_label g) d (dangling g)
                      (joined g) (pc g)).
  { rewrite Ht in E. apply (inj Some) in E. subst g'. unfold d. by destruct p. }
  assert (Hd : ∀ t', t' ≠ t → t' ∈ d ↔ t' ∈ due g) by (intros t' Hne; unfold d; destruct p; set_solver).
  assert (Hlt : (t < length (threads (app g)))%nat) by (by eapply lookup_lt_Some).
  subst g'. clear E. split; cbn; auto.
  - intros t' Ht'. rewrite Hthr, He, Hui. destruct (decide (t' = t)) as [->|Hne].
    + rewrite list_lookup_insert_eq by done. unfold d in Ht'. destruct p; try done; subst p'; [by left|].
      right. split; [done|]. split; [done|]. by destruct Hplace.
    + rewrite list_lookup_insert_ne by done. by apply H2, Hd.
  - by rewrite Hui.
  - intros Ho Hi. destruct Hnq. apply H4; [done|]. by rewrite <- Hui.
  - intros Hw. by destruct Hnq; apply H5.
  - intros Hp'. rewrite Hui. by apply HX.
  - assert (Hother : ∀ t' q, t' ≠ t → threads (app g) !! t' = Some q → q = EDone ∧ t' ∉ due g).
    { intros t' q Hne Hq. pose proof (Hothers t' q Hq Hne) as ->. split; [done|]. intros Hin.
      destruct (H2 t' Hin) as [|(_ & ? & _)]; congruence. }
    rewrite H9, Hthr. unfold shows; cbn.
    split; intros (t' & q & Hq & Hs); exists t; destruct (decide (t' = t)) as [->|Hne].
    + exists p'. rewrite list_lookup_insert_eq by done. split; [done|].
      assert (q = p) as -> by congruence. unfold d. destruct p; naive_solver set_solver.
    + destruct (Hother t' q Hne Hq) as [-> ?]. naive_solver.
    + exists p. split; [done|]. rewrite list_lookup_insert_eq in Hq by done. apply (inj Some) in Hq. subst q.
      unfold d in Hs. destruct p; naive_solver set_solver.
    + rewrite list_lookup_insert_ne in Hq by done. destruct (Hother t' q Hne Hq) as [-> Hn].
      rewrite <- (Hd t' Hne) in Hn. naive_solver.
Qed.

(** A thread whose label is due is the only one to show anything. *)
Lemma due_alone g t t' q :
  gtk_inv g → t ∈ due g → t' ≠ t → threads (app g) !! t' = Some q → q = EDone ∧ t' ∉ due g.
Proof.
  intros [H1 H2 _ _ _ _ _ _ _ _] Ht Hne Hq. destruct (H2 t Ht) as [Hl|(Hl & He & Hu)].
  - destruct (working_is _ t ELoop H1 Hl) as (He & _ & _ & Ho & _); [done|].
    pose proof (Ho t' q Hq Hne) as ->. split; [done|]. intros Hin.
    destruct (H2 t' Hin) as [|(_ & ? & _)]; congruence.
  - assert (Hall : ∀ t1 p1, threads (app g) !! t1 = Some p1 → p1 = EDone).
    { intros t1 p1 Hp1. destruct (decide (p1 = EDone)) as [|Hn]; [done|].
      destruct (working_is _ t1 p1 H1 Hp1 Hn) as (He1 & _). assert (t1 = t) by congruence. subst. congruence. }
    split; [by eapply Hall|]. intros Hin. destruct (H2 t' Hin) as [|(_ & ? & _)]; [|congruence].
    by pose proof (Hall t' ELoop ltac:(assumption)).
Qed.

Lemma gtk_inv_label t g g' : gtk_inv g → gtk_step (SetLabel t) g = Some g' → gtk_inv g'.
Proof.
  intros Hg E. cbn [gtk_step] in E. destruct (decide (t ∈ due g)) as [Hd|]; [|done].
  apply (inj Some) in E. subst g'.
  pose proof (λ t' q, due_alone g t t' q Hg Hd) as Halone. destruct Hg as [H1 H2 H3 H4 H5 H6 H7 HX H8 H9].
  assert (Hex : ∃ p, threads (app g) !! t = Some p ∧ (p = ELoop ∨ p = EDone))
    by (destruct (H2 t Hd) as [|(? & _)]; eauto).
  destruct Hex as (p & Hp & Hpp). split; cbn; auto.
  - intros t' Ht'. apply H2. set_solver.
  - intros Hw. destruct (H5 Hw) as [? ->]. split; [done|set_solver].
  - rewrite H8. destruct (widgets g) eqn:Ew; [done|]. exfalso.
    destruct (H5 eq_refl) as [_ Hn]. by rewrite Hn in Hd.
  - rewrite bool_decide_eq_true. unfold shows; cbn. split.
    + intros Hl. exists t, ELoop. split; [done|]. left. split; [done|set_solver].
    + intros (t' & q & Hq & Hs). destruct (decide (t' = t)) as [->|Hne].
      * assert (q = p) as -> by congruence. destruct Hpp as [-> | ->]; [done|].
        exfalso. naive_solver set_solver.
      * destruct (Halone t' q Hne Hq) as [-> ?]. naive_solver set_solver.
Qed.

Lemma gtk_inv_activate g g' : gtk_inv g → gtk_step Activate g = Some g' → gtk_inv g'.
Proof.
  intros Hg E. cbn [gtk_step] in E.
  destruct (pc g) eqn:Ep; try done. destruct (ui (app g)) eqn:Eu; try done. destruct (quit g) eqn:Eq; [done|].
  apply (inj Some) in E. subst g'. unfold on_activate. destruct (main_window g) eqn:Em; [done|].
  destruct Hg as [H1 H2 H3 H4 H5 H6 H7 HX H8 H9]. rewrite Ep in H6. destruct (H6 Eq) as [Hw Hh].
  rewrite Em in Hw. symmetry in Hw. rewrite Hw in Hh. destruct (H5 Hw) as [Hq Hd].
  split; unfold over; cbn; rewrite ?Ep, ?Eq, ?Hh, ?Eu; auto; try done.
  - rewrite Hd. set_solver.
  - split; [done|]. intros (t & p & Ht & Hs). pose proof (quiet_done _ t p Hq Ht) as ->.
    unfold shows in Hs; cbn in Hs. rewrite Hd in Hs. naive_solver set_solver.
Qed.

Lemma gtk_inv_close g g' : gtk_inv g → gtk_step Close g = Some g' → gtk_inv g'.
Proof.
  intros Hg E. cbn [gtk_step] in E.
  destruct (pc g) eqn:Ep; try done. destruct (ui (app g)) eqn:Eu; try done. destruct (quit g) eqn:Eq; [done|].
  destruct (widgets g) eqn:Ew; [|done]. apply (inj Some) in E. subst g'.
  destruct Hg as [H1 H2 H3 H4 H5 H6 H7 HX H8 H9]. rewrite Ep in H6. destruct (H6 Eq) as [_ Hh].
  rewrite Ew in Hh. split; unfold over; cbn -[bool_decide]; rewrite ?Eq, ?Hh, ?Eu; auto; try done.
  by rewrite <- Eu.
Qed.

(** A click, and the failure of pthread_create. *)
Lemma gtk_inv_click g g' : gtk_inv g → gtk_step (AppStep Click) g = Some g' → gtk_inv g'.
Proof.
  intros Hg E. cbn [gtk_step] in E. destruct (pc g) eqn:Ep; try done. destruct (quit g) eqn:Eq; [done|].
  destruct (widgets g) eqn:Ew; [|done]. destruct (step Click (app g)) as [a|] eqn:Ea; [|done].
  cbn [mbind option_bind] in E. apply (inj Some) in E. subst g'.
  destruct Hg as [H1 H2 H3 H4 H5 H6 H7 HX H8 H9]. pose proof (step_inv _ _ _ H1 Ea) as Ha.
  cbn [step] in Ea. destruct (ui (app g)) eqn:Eu; try done. apply (inj Some) in Ea.
  assert (Hdue : ∀ t, t ∈ due g → threads (app g) !! t = Some ELoop)
    by (intros t [|(_ & _ & ?)]%H2; congruence).
  subst a. split; unfold over in *; cbn in *; rewrite ?Ep, ?Eq, ?Ew in *; auto; try done.
  intros [|[|]]; done.
Qed.

Lemma gtk_inv_create g g' : gtk_inv g → gtk_step (AppStep CreateFails) g = Some g' → gtk_inv g'.
Proof.
  intros Hg E. cbn [gtk_step] in E. destruct (step CreateFails (app g)) as [a|] eqn:Ea; [|done].
  cbn [mbind option_bind] in E. apply (inj Some) in E. subst g'.
  destruct Hg as [H1 H2 H3 H4 H5 H6 H7 HX H8 H9]. pose proof (step_inv _ _ _ H1 Ea) as Ha.
  cbn [step] in Ea. destruct (ui (app g)) eqn:Eu; try done. apply (inj Some) in Ea. subst a.
  assert (Hw : widgets g = true) by (destruct (widgets g); [done|]; by discriminate H3; left).
  assert (Ho : over g = true → False) by (intros Ho; by discriminate H3; right; apply over_stopped).
  split; cbn; auto.
  - intros t [|(_ & _ & ?)]%H2; [by left|congruence].
  - intros Hover. by destruct (Ho Hover).
  - by rewrite Hw.
Qed.

Lemma gtk_step_inv l g g' : gtk_inv g → gtk_step l g = Some g' → gtk_inv g'.
Proof.
  destruct l as [| | |[]|t]; intros Hg E; [by eapply gtk_inv_activate|by eapply gtk_inv_close|
    by eapply gtk_inv_main|by eapply gtk_inv_click|done|by eapply gtk_inv_ui|by eapply gtk_inv_create|
    by eapply gtk_inv_engine|by eapply gtk_inv_label].
Qed.

Lemma gtk_reachable_inv g : gtk_reachable g → gtk_inv g.
Proof.
  induction 1 as [b|l g g' _ IH E]; [|by eapply gtk_step_inv].
  assert (Hq : quiet vpn_app_create) by by repeat split.
  split; cbn; try done; try set_solver.
  - by left.
  - by destruct b.
  - by destruct b.
Qed.

(** C26. The button and the engine: in every interleaving of the main loop, the
    handlers and the engine's threads, a thread only relabels the button while
    the window exists; when no relabelling is under way the button offers to
    stop exactly while a thread is between storing APP_RUNNING and storing
    APP_STOPPED; and once the window is gone, or the program leaves main, no
    thread works and no session is left. *)
Theorem gtk_button_safe g :
  gtk_reachable g →
  dangling g = false ∧
  (due g = ∅ → stop_label g = true ↔
     ∃ t p, threads (app g) !! t = Some p ∧ (p = ELoop ∨ p = EClean ∨ p = EStop)) ∧
  (widgets g = false ∨ pc g = Exited →
   Forall (eq EDone) (threads (app g)) ∧ session (app g) = false).
Proof.
  intros Hg%gtk_reachable_inv. split; [apply (gi_dangling _ Hg)|]. split.
  - intros Hd. rewrite (gi_label _ Hg). unfold shows. rewrite Hd. set_solver.
  - intros H. assert (Hq : quiet (app g)); [|by destruct Hq as (? & ? & _)].
    destruct H as [Hw|Hp]; [by apply (gi_gone _ Hg)|].
    apply (gi_over _ Hg); [unfold over; rewrite Hp; by destruct (quit g)|by apply (gi_exit _ Hg)].
Qed.

Lemma gtk_run_reachable ls g g' : gtk_reachable g → gtk_run ls g = Some g' → gtk_reachable g'.
Proof.
  revert g. induction ls as [|l ls IH]; intros g Hg; cbn [gtk_run]; [by intros [= <-]|].
  destruct (gtk_step l g) as [g1|] eqn:E; [|done]. apply IH. by eapply gtk_next.
Qed.

(** ** Three runs of the program *)

Definition open_and_click : list gtk_label :=
  [Activate; AppStep Click; AppStep Ui; AppStep Ui; AppStep Ui; AppStep Ui].
Definition uis (n : nat) : list gtk_label := replicate n (AppStep Ui).

(** The engine runs, the window is closed, the program ends: one join. *)
Definition clean_run : list gtk_label :=
  open_and_click ++ [AppStep (Engine 0 true); AppStep (Engine 0 true); SetLabel 0; Close; Main] ++ uis 3 ++
  [AppStep (Engine 0 true); AppStep (Engine 0 true); AppStep (Engine 0 true); SetLabel 0] ++ uis 1 ++
  [Main; Main; Main; Main; Main] ++ uis 1 ++ [Main; Main] ++ uis 1 ++ [Main].

Example clean_run_ends :
  (λ g, (pc g, joined g, state (app g), stop_label g)) <$> gtk_run clean_run (gtk_main true) =
  Some (Exited, [0%nat], APP_STOPPED, false).
Proof. by vm_compute. Qed.

(** The thread before its last relabelling: the window waits for it. *)
Definition relabelling_run : list gtk_label :=
  open_and_click ++ [AppStep (Engine 0 true); AppStep (Engine 0 true); SetLabel 0; Close; Main] ++ uis 3 ++
  [AppStep (Engine 0 true); AppStep (Engine 0 true); AppStep (Engine 0 true)].

Lemma gtk_button_safe_witness :
  ∃ g, gtk_run relabelling_run (gtk_main true) = Some g ∧ due g = {[0%nat]} ∧ dangling g = false ∧
    gtk_step (AppStep Ui) g = None.
Proof.
  destruct (gtk_run relabelling_run (gtk_main true)) as [g|] eqn:E; [|by vm_compute in E].
  destruct (gtk_button_safe g (gtk_run_reachable _ _ _ (gtk_start true) E)) as [Hd _].
  exists g. split; [reflexivity|]. vm_compute in E. apply (inj Some) in E. subst g.
  split; [reflexivity|]. split; [exact Hd|reflexivity].
Defined.

(** The window is closed while the engine's start fails.  APP_STOPPING is
    stored over APP_STOPPED, so each of the three handlers that stop the
    engine on the way out joins the thread again. *)
Definition failed_start_run : list gtk_label :=
  open_and_click ++ [AppStep (Engine 0 false); Close; Main] ++ uis 1 ++ [AppStep (Engine 0 false)] ++
  uis 3 ++ [Main; Main; Main; Main; Main] ++ uis 4 ++ [Main; Main] ++ uis 4 ++ [Main].

Example failed_start_joins :
  (λ g, (pc g, joined g, state (app g))) <$> gtk_run failed_start_run (gtk_main true) =
  Some (Exited, [0%nat; 0%nat; 0%nat], APP_STOPPING).
Proof. by vm_compute. Qed.
