(* ===== verification/LogView.v ===== *)
(** * view_logger.c: the log in the window, and the pipe behind it

    Everything the program prints goes into a pipe that only the main loop
    empties, while vpn_app_stop_engine keeps the main thread in pthread_join.
    The model adds the pipe to the threads of VpnApp.v: what an engine thread
    and its helpers print before a step is a parameter, a blocking write waits
    until the pipe has room for all of it.  The validation of UTF-8 is that of
    GLib, a parameter.  The widgets are not modelled. *)
From stdpp Require Import prelude.
From Stdlib Require Import ZArith Lia.
From S2P Require Import Prelude VpnApp.
From S2P Require PktCtrl.

(** [sizeof(buf) - 1] *)
Definition READ_SIZE : nat := 1023.

Record view := View { vapp : vpn_app_t; pipe : list Z; text : list Z }.

Inductive view_label :=
| Vpn (l : label)          (* a step of vpn_app.c *)
| LogReady.                (* the pipe can be read: on_log_received *)

Section log.
Context (capacity : nat) (log : engine_pc → list Z).
Context (g_utf8_validate : list Z → bool) (g_utf8_make_valid : list Z → list Z).

(** on_log_received, with what the read gave; a length of -1 ends the text at
    its first NUL. *)
Definition on_log_received (buf : list Z) (txt : list Z) : list Z :=
  if bool_decide (buf = []) then txt
  else txt ++ PktCtrl.cstr (if g_utf8_validate buf then buf else g_utf8_make_valid buf).

Definition view_step (l : view_label) (v : view) : option view :=
  match l with
  | LogReady =>
      match ui (vapp v), pipe v with
      | Idle, _ :: _ =>
          Some (View (vapp v) (drop READ_SIZE (pipe v))
                  (on_log_received (take READ_SIZE (pipe v)) (text v)))
      | _, _ => None
      end
  | Vpn (Engine t ok) =>
      p ← threads (vapp v) !! t;
      if bool_decide (length (pipe v) + length (log p) ≤ capacity)%nat then
        a ← step (Engine t ok) (vapp v); Some (View a (pipe v ++ log p) (text v))
      else None
  | Vpn l => a ← step l (vapp v); Some (View a (pipe v) (text v))
  end.

Inductive view_reachable : view → list Z → Prop :=
| view_start : view_reachable (View vpn_app_create [] []) []
| view_next l v w v' :
    view_reachable v w → view_step l v = Some v' →
    view_reachable v' (w ++ match l with
                            | Vpn (Engine t _) => default [] (log <$> threads (vapp v) !! t)
                            | _ => []
                            end).

Lemma view_step_vpn l v v' : view_step (Vpn l) v = Some v' → step l (vapp v) = Some (vapp v').
Proof.
  destruct l as [| | | |t ok]; cbn [view_step].
  1-4: match goal with |- context [step ?l ?a] => destruct (step l a); [|done] end; by intros [= <-].
  destruct (threads (vapp v) !! t) as [p|]; [|done]. cbn [mbind option_bind].
  destruct (bool_decide _); [|done]. destruct (step _ _); [|done]. by intros [= <-].
Qed.

Lemma view_app_reachable v w : view_reachable v w → reachable (vapp v).
Proof.
  induction 1 as [|l v w v' _ IH E]; [constructor|]. destruct l as [l|].
  - eapply reach_step; [exact IH|]. by apply (view_step_vpn l).
  - cbn [view_step] in E. destruct (ui (vapp v)); try done. destruct (pipe v); [done|].
    by simplify_eq/=.
Qed.

(** *** What is shown *)

Definition ascii (l : list Z) : Prop := Forall (λ c, 0 < c < 128) l.

Lemma cstr_ascii l : ascii l → PktCtrl.cstr l = l.
Proof.
  induction 1 as [|c l Hc _ IH]; [done|]. cbn [PktCtrl.cstr].
  destruct (Z.eqb_spec c 0); [lia|]. by rewrite IH.
Qed.

Lemma ascii_log_step l v v' w :
  (∀ s, ascii s → g_utf8_validate s = true) → (∀ p, ascii (log p)) →
  ascii w → text v ++ pipe v = w → view_step l v = Some v' →
  let w' := w ++ match l with Vpn (Engine t _) => default [] (log <$> threads (vapp v) !! t) | _ => [] end in
  ascii w' ∧ text v' ++ pipe v' = w'.
Proof.
  intros Hval Hlog Hw Hv E. destruct l as [[| | | |t ok]|]; cbn [view_step] in E.
  1-4: match type of E with context [step ?l ?a] => destruct (step l a); [|done] end;
       apply (inj Some) in E; subst v'; cbn; rewrite app_nil_r; by split.
  - destruct (threads (vapp v) !! t) as [p|]; [|done]. cbn [mbind option_bind] in E.
    destruct (bool_decide _); [|done]. destruct (step _ _); [|done]. apply (inj Some) in E. subst v'.
    cbn. split; [apply Forall_app; split; [exact Hw|apply Hlog]|]. by rewrite (assoc_L (++)), Hv.
  - destruct (ui (vapp v)); try done. destruct (pipe v) as [|b q] eqn:Eq; [done|].
    apply (inj Some) in E. subst v'. cbn [text pipe]. rewrite app_nil_r. split; [done|].
    assert (Ha : ascii (take READ_SIZE (b :: q))).
    { subst w. apply Forall_app in Hw as [_ Hq]. by apply Forall_take. }
    unfold on_log_received. rewrite bool_decide_eq_false_2 by done. rewrite Hval by done.
    rewrite cstr_ascii by done. rewrite <- (assoc_L (++)), take_drop. exact Hv.
Qed.

(** The log view shows what was printed: when everything printed is ASCII text
    and GLib takes ASCII for valid, the text of the window and the bytes still
    in the pipe are, together and in order, all that was printed. *)
Theorem log_shown v w :
  (∀ s, ascii s → g_utf8_validate s = true) → (∀ p, ascii (log p)) →
  view_reachable v w → text v ++ pipe v = w.
Proof.
  intros Hval Hlog H. cut (ascii w ∧ text v ++ pipe v = w); [tauto|].
  induction H as [|l v w v' _ [Hw IH] E]; [by split; [constructor|]|].
  by apply (ascii_log_step l v v' w).
Qed.

(** *** Stopping with the log in the way *)

Inductive view_eventually (P : view → Prop) (v : view) : Prop :=
| vev_now : P v → view_eventually P v
| vev_step : (∃ l v', view_step l v = Some v') →
    (∀ l v', view_step l v = Some v' → view_eventually P v') → view_eventually P v.

(** What the thread being joined still prints. *)
Definition to_print (p : engine_pc) : nat :=
  match p with
  | ELoop => length (log ELoop) + length (log EClean) + length (log EStop)
  | EClean => length (log EClean) + length (log EStop)
  | EStop => length (log EStop)
  | _ => 0
  end.

Lemma join_view_step v t p l v' :
  ui (vapp v) = Stop4 → working (vapp v) t p → view_step l v = Some v' →
  ∃ ok, l = Vpn (Engine t ok) ∧ engine_step t ok (vapp v) = Some (vapp v') ∧
    (length (pipe v) + length (log p) ≤ capacity)%nat ∧ pipe v' = pipe v ++ log p.
Proof.
  intros Hu Hw E. pose proof Hw as (_ & Ht & _). destruct l as [l|].
  - destruct (join_waits _ t p l (vapp v') Hu Hw (view_step_vpn _ _ _ E)) as (ok & -> & Es).
    exists ok. split; [done|]. split; [done|]. cbn [view_step] in E. rewrite Ht in E.
    cbn [mbind option_bind] in E. destruct (bool_decide_reflect (length (pipe v) + length (log p) ≤ capacity)%nat);
      [|done]. destruct (step _ _); [|done]. by simplify_eq/=.
  - cbn [view_step] in E. by rewrite Hu in E.
Qed.

Lemma join_view_moves v t p :
  working (vapp v) t p → (length (pipe v) + length (log p) ≤ capacity)%nat →
  ∃ l v', view_step l v = Some v'.
Proof.
  intros (_ & Ht & Hpl & _) Hroom. exists (Vpn (Engine t false)). cbn [view_step step]. unfold engine_step.
  rewrite Ht. cbn [mbind option_bind]. rewrite bool_decide_eq_true_2 by done.
  by destruct p; [..|destruct Hpl]; eexists.
Qed.

Lemma join_view_ends v t :
  ui (vapp v) = Stop4 → state (vapp v) = APP_STOPPED → session (vapp v) = false →
  Forall (eq EDone) (threads (vapp v)) → engine_thread (vapp v) = Some t →
  threads (vapp v) !! t = Some EDone → view_eventually (λ v, stopped (vapp v)) v.
Proof.
  intros Hu Hst Hs Hall He Ht. apply vev_step.
  - exists (Vpn Ui). cbn. unfold ui_step. rewrite Hu, He. cbn. rewrite Ht. by eexists.
  - intros l v' E. destruct l as [l|]; [|cbn in E; by rewrite Hu in E].
    apply view_step_vpn in E. rewrite Forall_lookup in Hall.
    destruct l as [| | | |t' ok]; cbn in E; unfold ui_step in E; rewrite ?Hu in E; try done.
    + rewrite He in E. cbn in E. rewrite Ht in E. apply (inj Some) in E. apply vev_now. rewrite <- E.
      split; [done|]. split; [done|]. split; [done|]. cbn. by apply Forall_lookup.
    + unfold engine_step in E. destruct (threads (vapp v) !! t') eqn:Et; [|done]. cbn in E.
      by rewrite <- (Hall _ _ Et) in E.
Qed.

End log.

(** ** A pipe of ten bytes *)
Section sample.
Definition sample_log (p : engine_pc) : list Z :=
  match p with
  | EStart => [101; 110; 103; 105; 110; 101]       (* six bytes when the engine starts *)
  | ELoop => [98; 121; 101; 98; 121; 101]          (* six when it stops *)
  | _ => []
  end.
Abbreviation sample_step := (view_step 10 sample_log (λ _, true) id).
Abbreviation sample_reach := (view_reachable 10 sample_log (λ _, true) id).

Fixpoint view_run (ls : list view_label) (v : view) : option view :=
  match ls with
  | [] => Some v
  | l :: ls => v ← sample_step l v; view_run ls v
  end.

Lemma view_run_reachable ls v w v' : sample_reach v w → view_run ls v = Some v' → ∃ w', sample_reach v' w'.
Proof.
  revert v w. induction ls as [|l ls IH]; intros v w Hv; cbn [view_run]; [intros [= <-]; by exists w|].
  destruct (sample_step l v) as [v1|] eqn:E; [|done]. cbn [mbind option_bind].
  eapply IH. by eapply view_next.
Qed.

Definition up_to_join (read : list view_label) : list view_label :=
  [Vpn Click; Vpn Ui; Vpn Ui; Vpn Ui; Vpn Ui; Vpn (Engine 0 true); Vpn (Engine 0 true)] ++ read ++
  [Vpn Click; Vpn Ui; Vpn Ui; Vpn Ui].

Definition view_start0 : view := View vpn_app_create [] [].
Definition joining (read : list view_label) : view := default view_start0 (view_run (up_to_join read) view_start0).

Lemma joining_reachable read :
  is_Some (view_run (up_to_join read) view_start0) → ∃ w, sample_reach (joining read) w.
Proof.
  intros [v E]. apply (view_run_reachable (up_to_join read) view_start0 [] _ (view_start _ _ _ _)).
  unfold joining. by rewrite E.
Qed.

Lemma reader_runs : is_Some (view_run (up_to_join [LogReady]) view_start0).
Proof. by eexists; vm_compute. Qed.
Lemma reader_room : (length (pipe (joining [LogReady])) + to_print sample_log ELoop ≤ 10)%nat.
Proof. apply Nat.leb_le. by vm_compute. Qed.
Lemma reader_joins :
  ui (vapp (joining [LogReady])) = Stop4 ∧ threads (vapp (joining [LogReady])) !! 0%nat = Some ELoop.
Proof. by vm_compute. Qed.
Lemma no_reader_runs : is_Some (view_run (up_to_join []) view_start0).
Proof. by eexists; vm_compute. Qed.
Lemma no_reader_full : (10 < length (pipe (joining [])) + length (sample_log ELoop))%nat.
Proof. apply Nat.ltb_lt. by vm_compute. Qed.
Lemma no_reader_joins :
  ui (vapp (joining [])) = Stop4 ∧ threads (vapp (joining [])) !! 0%nat = Some ELoop.
Proof. by vm_compute. Qed.


Example log_shown_sample :
  (text (joining [LogReady]), pipe (joining [])) =
  ([101; 110; 103; 105; 110; 101], [101; 110; 103; 105; 110; 101]).
Proof. by vm_compute. Qed.
End sample.
