(* ===== verification/Headless.v ===== *)
(** * vpn_client_headless.c: the main thread and the engine's thread

    A step is one access to the shared state or one blocking call; the threads
    interleave.  What vpn_engine_start returns is the label of the step. *)
From stdpp Require Import prelude.
From Stdlib Require Import ZArith Lia.
From S2P Require Import Prelude.

Inductive worker_pc :=
| WStart           (* in vpn_engine_start *)
| WSignal          (* before the critical section that signals the end of the start *)
| WReturn          (* before the check of vpn_engine_ctx *)
| WStore           (* before atomic_store(vpn_engine_running, true) *)
| WLoop            (* before the check of the loop *)
| WDone.
Inductive main_pc :=
| MCreate          (* before pthread_create *)
| MWait            (* in the wait for vpn_engine_start_done *)
| MJoinFailed      (* in pthread_join after a failed start *)
| MSigwait         (* in sigwait *)
| MStore           (* before atomic_store(vpn_engine_running, false) *)
| MJoin            (* in pthread_join *)
| MCleanup         (* before vpn_engine_cleanup *)
| MExit (ok : bool).

Record headless := Headless {
  vpn_engine_ctx : bool;
  start_done : bool;
  start_success : bool;
  vpn_engine_running : bool;
  cleanups : nat;
  worker : option worker_pc;
  main : main_pc
}.
Definition initial : headless := Headless false false false false 0 None MCreate.

Inductive label := Main (created : bool) | Worker (ok : bool) | Signal.

Definition main_step (created : bool) (h : headless) : option headless :=
  let '(Headless ctx dn suc rn cl w m) := h in
  match m with
  | MCreate => Some (if created then Headless ctx dn suc rn cl (Some WStart) MWait
                     else Headless ctx dn suc rn cl w (MExit false))
  | MWait => if dn then Some (Headless ctx dn suc rn cl w (if suc then MSigwait else MJoinFailed)) else None
  | MJoinFailed => match w with Some WDone => Some (Headless ctx dn suc rn cl w (MExit false)) | _ => None end
  | MSigwait => None
  | MStore => Some (Headless ctx dn suc false cl w MJoin)
  | MJoin => match w with Some WDone => Some (Headless ctx dn suc rn cl w MCleanup) | _ => None end
  | MCleanup => Some (Headless ctx dn suc rn (S cl) w (MExit true))
  | MExit _ => None
  end.

Definition worker_step (ok : bool) (h : headless) : option headless :=
  let '(Headless ctx dn suc rn cl w m) := h in
  match w with
  | Some WStart => Some (Headless ok dn suc rn cl (Some WSignal) m)
  | Some WSignal => Some (Headless ctx true ctx rn cl (Some WReturn) m)
  | Some WReturn => Some (Headless ctx dn suc rn cl (Some (if ctx then WStore else WDone)) m)
  | Some WStore => Some (Headless ctx dn suc true cl (Some WLoop) m)
  | Some WLoop => Some (Headless ctx dn suc rn cl (Some (if rn then WLoop else WDone)) m)
  | Some WDone | None => None
  end.

Definition step (l : label) (h : headless) : option headless :=
  match l with
  | Main created => main_step created h
  | Worker ok => worker_step ok h
  | Signal => match main h with
              | MSigwait => Some (Headless (vpn_engine_ctx h) (start_done h) (start_success h)
                                    (vpn_engine_running h) (cleanups h) (worker h) MStore)
              | _ => None end
  end.
Fixpoint run (ls : list label) (h : headless) : option headless :=
  match ls with [] => Some h | l :: ls => h ← step l h; run ls h end.

(** What holds at each place of the main thread, the clean-ups apart. *)
Definition place_ok (h : headless) : bool :=
  let '(Headless ctx dn suc rn _ w m) := h in
  (negb dn || eqb suc ctx) &&
  match m with
  | MCreate => match w with None => negb dn && negb ctx && negb rn | _ => false end
  | MWait => match w with
             | Some (WStart | WSignal) => negb dn && negb rn
             | Some WReturn => dn && negb rn
             | Some WStore => dn && ctx && negb rn
             | Some WLoop => dn && ctx && rn
             | Some WDone => dn && negb ctx
             | None => false end
  | MJoinFailed => negb ctx && dn && match w with Some (WReturn | WDone) => true | _ => false end
  | MSigwait => ctx && dn && match w with Some (WReturn | WStore) => negb rn | Some WLoop => rn | _ => false end
  | MStore => ctx && dn && match w with Some (WReturn | WStore) => negb rn | Some WLoop => rn | _ => false end
  | MJoin => ctx && dn && match w with Some (WReturn | WStore) => negb rn | Some (WLoop | WDone) => true | _ => false end
  | MCleanup => ctx && dn && match w with Some WDone => true | _ => false end
  | MExit true => ctx && dn && match w with Some WDone => true | _ => false end
  | MExit false => negb ctx && match w with None | Some WDone => true | _ => false end
  end.
Definition cleaned (h : headless) : nat := match main h with MExit true => 1 | _ => 0 end.

Lemma step_place l h h' : place_ok h = true → step l h = Some h' → place_ok h' = true.
Proof.
  destruct h as [ctx dn suc rn cl w m].
  destruct ctx, dn, suc, rn, w as [[]|], m as [| | | | | | |[]]; try (intros; discriminate);
    intros _; destruct l as [[]|[]|]; cbn; intros E; first [discriminate E|injection E as <-; reflexivity].
Qed.

Lemma step_cleaned l h h' : cleanups h = cleaned h → step l h = Some h' → cleanups h' = cleaned h'.
Proof.
  destruct h as [ctx dn suc rn cl w m]. unfold cleaned. cbn. intros ->.
  destruct l as [cr|ok|]; cbn; intros E.
  - destruct m as [| | | | | | |[]], cr, w as [[]|], dn, suc; cbn in E;
      first [discriminate E|injection E as <-; reflexivity].
  - destruct w as [[]|]; first [discriminate E|injection E as <-; reflexivity].
  - destruct m; first [discriminate E|injection E as <-; reflexivity].
Qed.

Lemma run_inv ls h h' : place_ok h = true → cleanups h = cleaned h → run ls h = Some h' →
  place_ok h' = true ∧ cleanups h' = cleaned h'.
Proof.
  revert h. induction ls as [|l ls IH]; intros h Hp Hc; cbn [run].
  - by intros [= <-].
  - destruct (step l h) as [h1|] eqn:E; [|done]. cbn.
    apply IH; [by eapply step_place|by eapply step_cleaned].
Qed.

(** The worker stores TRUE last: nothing stops it any more. *)
Definition lost (h : headless) : Prop :=
  main h = MJoin ∧ (worker h = Some WStore ∨ worker h = Some WReturn ∧ vpn_engine_ctx h = true ∨
                    worker h = Some WLoop ∧ vpn_engine_running h = true).
Lemma lost_step l h h' : lost h → step l h = Some h' → lost h'.
Proof.
  destruct h as [ctx dn suc rn cl w m]. unfold lost; cbn. intros [-> H].
  destruct l as [cr|ok|]; cbn; [|by destruct H as [->|[[-> ->]|[-> ->]]]; intros [= <-]; cbn; auto 6|done].
  by destruct H as [->|[[-> ->]|[-> ->]]].
Qed.
Lemma lost_forever ls h h' : lost h → run ls h = Some h' → lost h'.
Proof.
  revert h. induction ls as [|l ls IH]; intros h Hl; cbn [run]; [by intros [= <-]|].
  destruct (step l h) as [h1|] eqn:E; [|done]. cbn. apply IH. by eapply lost_step.
Qed.

(** The headless client cleans up once, after its engine's thread has ended,
    and only when it exits with success, in every interleaving; but a signal
    that is handled before the thread has stored TRUE into vpn_engine_running
    is lost: the main thread's FALSE is overwritten, the thread loops and the
    join never returns. *)
Theorem headless_shutdown :
  (∀ ls h, run ls initial = Some h →
     cleanups h = (match main h with MExit true => 1 | _ => 0 end)%nat ∧
     ((0 < cleanups h)%nat → vpn_engine_ctx h = true ∧ worker h = Some WDone)) ∧
  (∃ h, run [Main true; Worker true; Worker true; Main true; Signal; Main true] initial = Some h ∧
     ∀ ls h', run ls h = Some h' → main h' = MJoin).
Proof.
  split.
  - intros ls h E. destruct (run_inv ls initial h eq_refl eq_refl E) as [Hp Hc]. split; [exact Hc|].
    rewrite Hc. unfold cleaned. destruct h as [ctx dn suc rn cl w m]. cbn in *.
    destruct m as [| | | | | | |[]]; try lia. intros _. apply andb_true_iff in Hp as [_ Hp].
    by destruct ctx, dn, w as [[]|].
  - eexists. split; [reflexivity|]. intros ls h' E. eapply lost_forever in E; [by destruct E|].
    split; [done|]. right. by left.
Qed.
